(** * snap-ally: a shallow embedding of the accessibility reporter

    The development follows the TypeScript sources:
    - [src/A11yScanner.ts]   ([scanA11y], the scan aggregator),
    - [src/A11yReportAssets.ts] ([copyTestVideo], [copyToFolder],
      [copyScreenshots], [copyPngAttachments], [copyAllOtherAttachments],
      [writeBuffer]),
    - [src/A11yHtmlRenderer.ts] ([ansiToHtml]),
    - [src/A11yTimeUtils.ts] ([formatDuration]),
    - [src/SnapAllyReporter.ts] ([onTestEnd], [processTestResult], [onEnd]),
    - the legacy reporter ([SnapAllyLegacyReporter.onTestEnd], [getTestSteps]).

    Conventions of the embedding.
    - A JavaScript string is a [string] of bytes.  Every string operation
      modelled here only distinguishes the ASCII letters, digits and a few
      ASCII punctuation characters, so a non-ASCII character (several bytes
      above 127 here, one or two UTF-16 code units in JavaScript) is treated
      alike on both sides: it is one more non-alphanumeric character.
    - A JavaScript number that counts things is a [nat] when the code only
      increments it and a [Z] when it is read from a parsed payload.
    - A field the code tests for presence ([x || d], [if (x)], [x?.y]) is an
      [option]; for strings the empty string is falsy as in JavaScript.
    - An object literal used as a dictionary is a [gmap] with string keys,
      which holds the object's own properties.  A read [obj[key]] follows
      the prototype chain: for the names of the members of
      [Object.prototype] ([Js.inherited]) it finds the inherited member
      when the object has no property of that name, and the model of the
      browser summaries and of the rule aggregates says what the code does
      then.  The grouped results, whose insertion order is displayed, are
      an association list keyed by the relative path of a test file; under
      an inherited name no group is made, and the [push] on the inherited
      member throws.
    - [async] functions are resumable state machines: a task runs
      synchronously up to its next [await], and a scheduler picks which
      suspended task continues. *)

From Stdlib Require Import ZArith Lia List Ascii String Bool Permutation.
From stdpp Require Import base option list gmap strings pretty.
From Stdlib Require Import Uint63 PrimFloat SpecFloat FloatOps.

Open Scope string_scope.
Set Warnings "-register-all".

(* ===================================================================== *)
(** * Part I: definitions                                                  *)
(* ===================================================================== *)

(** ** JavaScript string primitives used by the reporter *)

Module Js.

Definition is_digit (c : ascii) : bool :=
  let n := nat_of_ascii c in (48 <=? n)%nat && (n <=? 57)%nat.

Definition is_upper (c : ascii) : bool :=
  let n := nat_of_ascii c in (65 <=? n)%nat && (n <=? 90)%nat.

Definition is_lower (c : ascii) : bool :=
  let n := nat_of_ascii c in (97 <=? n)%nat && (n <=? 122)%nat.

(** The complement of the character class [[^a-z0-9]] under the [i] flag. *)
Definition is_alnum (c : ascii) : bool :=
  is_digit c || is_upper c || is_lower c.

Definition hyphen : ascii := "-"%char.

Definition is_hyphen (c : ascii) : bool :=
  if ascii_dec c hyphen then true else false.

Definition lower_char (c : ascii) : ascii :=
  if is_upper c then ascii_of_nat (nat_of_ascii c + 32) else c.

(** [s.toLowerCase()] on the strings the reporter applies it to. *)
Fixpoint toLowerCase (s : string) : string :=
  match s with
  | EmptyString => EmptyString
  | String c r => String (lower_char c) (toLowerCase r)
  end.

(** [strip_prefix p s] is [Some r] when [s = p ++ r]. *)
Fixpoint strip_prefix (p s : string) : option string :=
  match p, s with
  | EmptyString, _ => Some s
  | String a p', String b s' =>
      if ascii_dec a b then strip_prefix p' s' else None
  | String _ _, EmptyString => None
  end.

(** A match of [/https?:\/\//] that starts at the head of [s]: the text that
    follows the match. *)
Definition match_protocol (s : string) : option string :=
  match strip_prefix "https://" s with
  | Some r => Some r
  | None => strip_prefix "http://" s
  end.

(** [s.replace(/https?:\/\//, '')]: no [g] flag and no anchor, so the
    leftmost match, wherever it starts, is removed and nothing else. *)
Fixpoint replace_protocol (s : string) : string :=
  match match_protocol s with
  | Some r => r
  | None =>
      match s with
      | EmptyString => EmptyString
      | String c r => String c (replace_protocol r)
      end
  end.

(** [s.replace(/[^a-z0-9]+/gi, '-')]: scanning left to right, each maximal
    run of characters outside the class is replaced by one hyphen.
    [in_run] says that the previous character already belonged to the run
    being replaced. *)
Fixpoint replace_runs_from (in_run : bool) (s : string) : string :=
  match s with
  | EmptyString => EmptyString
  | String c r =>
      if is_alnum c then String c (replace_runs_from false r)
      else if in_run then replace_runs_from true r
      else String hyphen (replace_runs_from true r)
  end.

Definition replace_non_alnum (s : string) : string :=
  replace_runs_from false s.

Fixpoint all_hyphens (s : string) : bool :=
  match s with
  | EmptyString => true
  | String c r => is_hyphen c && all_hyphens r
  end.

(** The alternative [^-+] of [/^-+|-+$/g]: it can only match at index 0. *)
Fixpoint drop_leading_hyphens (s : string) : string :=
  match s with
  | String c r => if is_hyphen c then drop_leading_hyphens r else s
  | EmptyString => EmptyString
  end.

(** The alternative [-+$]: at the first position from which only hyphens
    remain up to the end of the string, the rest is removed. *)
Fixpoint drop_trailing_hyphens (s : string) : string :=
  match s with
  | EmptyString => EmptyString
  | String c r =>
      if all_hyphens s then EmptyString
      else String c (drop_trailing_hyphens r)
  end.

(** [s.replace(/^-+|-+$/g, '')]. *)
Definition trim_hyphens (s : string) : string :=
  drop_trailing_hyphens (drop_leading_hyphens s).

(** A JavaScript string in a boolean position. *)
Definition truthy (s : string) : bool :=
  match s with EmptyString => false | _ => true end.

(** The names every object literal inherits from [Object.prototype].  For
    an object [obj] without a property of its own of that name, [obj[key]]
    is the inherited member (a function, or the prototype itself for
    [__proto__]): a truthy value, whatever the code has stored in [obj]. *)
Definition prototype_names : list string :=
  [ "constructor"; "__defineGetter__"; "__defineSetter__"; "hasOwnProperty";
    "__lookupGetter__"; "__lookupSetter__"; "isPrototypeOf";
    "propertyIsEnumerable"; "toString"; "valueOf"; "__proto__";
    "toLocaleString" ].

Definition inherited (key : string) : bool :=
  List.existsb (String.eqb key) prototype_names.

(** [a || d] for an optional string [a]. *)
Definition or_default (a : option string) (d : string) : string :=
  match a with
  | Some s => if truthy s then s else d
  | None => d
  end.

(** [a || b] where both sides may be [undefined]. *)
Definition or_else (a b : option string) : option string :=
  match a with
  | Some s => if truthy s then Some s else b
  | None => b
  end.

(** [path.basename(p)] for a POSIX path without trailing separator: the text
    after the last [/]. *)
Fixpoint basename_from (acc : string) (s : string) : string :=
  match s with
  | EmptyString => acc
  | String c r =>
      if ascii_dec c "/"%char then basename_from r r
      else basename_from acc r
  end.

Definition basename (p : string) : string := basename_from p p.

(** [path.join(a, b)] for a relative, already normalised [b]. *)
Definition path_join (a b : string) : string := a +:+ "/" +:+ b.

End Js.

(** ** Report file names (SnapAllyReporter.ts, [processTestResult], lines 83
    and 168-187) *)

Module Naming.

(** [test.title.replace(/[^a-z0-9]+/gi, '-').toLowerCase()] *)
Definition sanitizedTitle (title : string) : string :=
  Js.toLowerCase (Js.replace_non_alnum title).

(** The chain applied to [reportData.pageKey]. *)
Definition sanitizedKey (pageKey : string) : string :=
  Js.toLowerCase
    (Js.trim_hyphens (Js.replace_non_alnum (Js.replace_protocol pageKey))).

(** [a11yReportName] as computed for the source at 0-based position [index]
    of [sources] data sources; [pageKey] is [reportData.pageKey]. *)
Definition a11yReportName (sources index : nat) (title : string)
    (pageKey : option string) : string :=
  let st := sanitizedTitle title in
  let generic :=
    if (1 <? sources)%nat
    then "accessibility-" +:+ st +:+ "-" +:+ pretty (index + 1)%nat +:+ ".html"
    else "accessibility-" +:+ st +:+ ".html" in
  match pageKey with
  | Some pk =>
      if Js.truthy pk then
        let key := sanitizedKey pk in
        if Js.truthy key then
          if (1 <? sources)%nat
          then key +:+ "-" +:+ pretty (index + 1)%nat +:+ ".html"
          else key +:+ ".html"
        else generic
      else generic
  | None => generic
  end.

(** The name without position suffix and extension: the sanitized key when
    there is one, the generic name otherwise. *)
Definition base_name (title : string) (pageKey : option string) : string :=
  match pageKey with
  | Some pk =>
      if Js.truthy (sanitizedKey pk) then sanitizedKey pk
      else "accessibility-" +:+ sanitizedTitle title
  | None => "accessibility-" +:+ sanitizedTitle title
  end.

(** The 1-based position suffix, present only when the test has more than
    one data source. *)
Definition position_suffix (sources index : nat) : string :=
  if (1 <? sources)%nat then "-" +:+ pretty (index + 1)%nat else "".

(** *** The derivation as the specification words it *)

(** The two protocol texts. *)
Definition protocols : list (list ascii) :=
  [list_ascii_of_string "http://"; list_ascii_of_string "https://"].

(** [l] without its prefix [p], when [p] is a prefix of [l]. *)
Fixpoint drop_prefix (p l : list ascii) : option (list ascii) :=
  match p, l with
  | [], _ => Some l
  | a :: p', b :: l' => if Ascii.eqb a b then drop_prefix p' l' else None
  | _ :: _, [] => None
  end.

(** "stripping the protocol prefix", read literally: a key that starts with
    a protocol loses it, and any other key is left as it is. *)
Definition strip_protocol_prefix (l : list ascii) : list ascii :=
  match drop_prefix (list_ascii_of_string "https://") l with
  | Some r => r
  | None =>
      match drop_prefix (list_ascii_of_string "http://") l with
      | Some r => r
      | None => l
      end
  end.

(** The text [p] stands in [l] after [n] characters. *)
Definition occurs_at (p l : list ascii) (n : nat) : Prop :=
  exists a b, l = (a ++ p ++ b)%list /\ length a = n.

(** [r] is [l] without the leftmost occurrence of a protocol text, wherever
    it stands; [l] itself when no protocol text occurs in it. *)
Inductive without_first_protocol (l : list ascii) : list ascii -> Prop :=
| no_protocol :
    (forall p n, In p protocols -> ~ occurs_at p l n) ->
    without_first_protocol l l
| first_protocol (a p b : list ascii) :
    In p protocols ->
    l = (a ++ p ++ b)%list ->
    (forall q n, In q protocols -> occurs_at q l n -> (length a <= n)%nat) ->
    without_first_protocol l (a ++ b)%list.

(** "collapsing all non-alphanumeric runs to a single hyphen": every
    character outside the letters and digits becomes a hyphen, and a hyphen
    that follows a hyphen is dropped. *)
Fixpoint squeeze_hyphens (l : list ascii) : list ascii :=
  match l with
  | a :: (b :: _) as r =>
      if Js.is_hyphen a && Js.is_hyphen b then squeeze_hyphens r
      else a :: squeeze_hyphens r
  | _ => l
  end.

(** Dropping the hyphen that a run in progress has already produced. *)
Definition behead_hyphen (l : list ascii) : list ascii :=
  match l with
  | a :: r => if Js.is_hyphen a then r else l
  | [] => []
  end.

Definition spec_collapse (l : list ascii) : list ascii :=
  squeeze_hyphens
    (List.map (fun c => if Js.is_alnum c then c else Js.hyphen) l).

Fixpoint drop_while_hyphen (l : list ascii) : list ascii :=
  match l with
  | a :: r => if Js.is_hyphen a then drop_while_hyphen r else l
  | [] => []
  end.

(** "trimming leading/trailing hyphens" *)
Definition spec_trim (l : list ascii) : list ascii :=
  List.rev (drop_while_hyphen (List.rev (drop_while_hyphen l))).

(** "lower-casing" *)
Definition spec_lower (l : list ascii) : list ascii :=
  List.map Js.lower_char l.

(** The three steps that follow the removal of the protocol. *)
Definition spec_tidy (l : list ascii) : string :=
  string_of_list_ascii (spec_lower (spec_trim (spec_collapse l))).

(** The derivation with the protocol removed as a prefix only, and the name
    it would give. *)
Definition prefix_sanitize (pageKey : string) : string :=
  spec_tidy (strip_protocol_prefix (list_ascii_of_string pageKey)).

Definition prefix_name (sources index : nat) (title : string)
    (pageKey : option string) : string :=
  let generic :=
    "accessibility-" +:+ sanitizedTitle title
    +:+ position_suffix sources index +:+ ".html" in
  match pageKey with
  | Some pk =>
      if Js.truthy (prefix_sanitize pk)
      then prefix_sanitize pk +:+ position_suffix sources index +:+ ".html"
      else generic
  | None => generic
  end.

End Naming.

(** ** Data model (models/index.ts and the driver's records) *)

Module Models.

Record Target := mkTarget {
  element : string;
  snippet : string;
  html : string;
  screenshot : string;
  steps : option (list string);
  stepsJson : option string;
  screenshotBase64 : string
}.

Record A11yError := mkA11yError {
  id : string;
  description : string;
  wcagRule : string;
  severity : string;
  help : string;
  helpUrl : string;
  guideline : string;
  total : option Z;
  target : option (list Target)
}.

Record ReportData := mkReportData {
  pageKey : option string;
  accessibilityScore : Z;
  video : option string;
  errors : option (list A11yError);
  criticalColor : option string;
  seriousColor : option string;
  moderateColor : option string;
  minorColor : option string;
  adoOrganization : option string;
  adoProject : option string
}.

(** [TestResult.status] of the driver. *)
Inductive Status := passed | failed | timedOut | skipped | interrupted.

Definition status_eqb (a b : Status) : bool :=
  match a, b with
  | passed, passed | failed, failed | timedOut, timedOut
  | skipped, skipped | interrupted, interrupted => true
  | _, _ => false
  end.

(** The enum [TestStatusIcon]. *)
Definition TestStatusIcon (s : Status) : string :=
  match s with
  | passed => "check_circle"
  | failed => "cancel"
  | skipped => "remove_circle"
  | timedOut => "alarm_off"
  | interrupted => "block"
  end.

Record Annotation := mkAnnotation {
  ann_type : string;
  ann_description : option string
}.

Record Attachment := mkAttachment {
  att_name : string;
  att_path : option string;
  att_body : option string
}.

(** A step of the driver's trace: category, title and nested steps. *)
Inductive TestStep := mkTestStep {
  category : string;
  step_title : string;
  substeps : list TestStep
}.

(** [err.total || 0] *)
Definition total_or_0 (e : A11yError) : Z :=
  match total e with Some n => n | None => 0%Z end.

End Models.

Import Models.

(** ** The scan aggregator (A11yScanner.ts, [scanA11y]: "Process violations
    for the report") *)

Module Scanner.

(** What the analyzer reports for one node and for one rule. *)
Record AxeNode := mkAxeNode {
  node_html : option string;
  node_target : list string
}.

Record AxeViolation := mkAxeViolation {
  v_id : string;
  v_description : string;
  v_impact : option string;
  v_helpUrl : string;
  v_help : string;
  v_tags : list string;
  v_nodes : list AxeNode
}.

(** [colorMap[violation.impact || ''] || '#757575'] *)
Definition severityColor (impact : option string) : string :=
  let k := Js.or_default impact "" in
  if String.eqb k "minor" then "#0ea5e9"
  else if String.eqb k "moderate" then "#f59e0b"
  else if String.eqb k "serious" then "#ea580c"
  else if String.eqb k "critical" then "#dc2626"
  else "#757575".

Definition excluded_type (t : string) : bool :=
  String.eqb t "Pre Condition" || String.eqb t "Post Condition"
  || String.eqb t "Description" || String.eqb t "A11y".

(** [t.startsWith('wcag')] *)
Definition starts_with_wcag (t : string) : bool :=
  match Js.strip_prefix "wcag" t with Some _ => true | None => false end.

(** The number of positive answers among visibility answers. *)
Definition captured (answers : list bool) : nat :=
  length (List.filter (fun b => b) answers).

(** The loop state inside one violation; [queries] counts the visibility
    queries made so far in the whole scan, which is what the page's answer
    may depend on. *)
Record ScanState := mkScanState {
  queries : nat;
  errorIdx : nat;
  targets : list Target
}.

Section Scan.

(** The page at scan time: [locator.isVisible()] at the n-th query. *)
Variable isVisible : nat -> string -> bool.
(** [overlay.captureAndAttachScreenshot(name, testInfo)] as base64 text. *)
Variable captureBase64 : string -> string.
(** [JSON.stringify] on a list of steps. *)
Variable stringify : list string -> string.
(** [testInfo.annotations] *)
Variable annotations : list Annotation.

Definition contextSteps : list string :=
  List.map (fun a => Js.or_default (ann_description a) "")
    (List.filter (fun a => negb (excluded_type (ann_type a))) annotations).

(** The body of [for (const selector of node.target)]. *)
Definition visit_selector (v : AxeViolation) (node : AxeNode)
    (st : ScanState) (selector : string) : ScanState :=
  if isVisible (queries st) selector then
    let screenshotName :=
      "a11y-" +:+ v_id v +:+ "-" +:+ pretty (errorIdx st) +:+ ".png" in
    {| queries := S (queries st);
       errorIdx := S (errorIdx st);
       targets := targets st ++
         [ {| element := selector;
              snippet := selector;
              html := Js.or_default (node_html node) "";
              screenshot := screenshotName;
              steps := Some contextSteps;
              stepsJson := Some (stringify contextSteps);
              screenshotBase64 := captureBase64 screenshotName |} ] |}
  else
    {| queries := S (queries st);
       errorIdx := errorIdx st;
       targets := targets st |}.

Definition visit_node (v : AxeViolation) (st : ScanState) (node : AxeNode)
    : ScanState :=
  fold_left (visit_selector v node) (node_target node) st.

Definition visit_violation (v : AxeViolation) (q0 : nat) : ScanState :=
  fold_left (visit_node v) (v_nodes v)
    {| queries := q0; errorIdx := 0; targets := [] |}.

(** [targets.length || violation.nodes.length] *)
Definition total_of (captured nodes : nat) : Z :=
  match captured with
  | O => Z.of_nat nodes
  | _ => Z.of_nat captured
  end.

(** The record pushed to [errors] for one violation, with the scan's next
    query number. *)
Definition build_error (v : AxeViolation) (q0 : nat) : A11yError * nat :=
  let st := visit_violation v q0 in
  ({| id := v_id v;
      description := v_description v;
      severity := Js.or_default (v_impact v) "unknown";
      helpUrl := v_helpUrl v;
      help := v_help v;
      guideline := Js.or_default (nth_error (v_tags v) 1) "N/A";
      wcagRule :=
        Js.or_default
          (Js.or_else (List.find starts_with_wcag (v_tags v))
                      (nth_error (v_tags v) 1)) "N/A";
      total := Some (total_of (length (targets st)) (length (v_nodes v)));
      target := Some (targets st) |},
   queries st).

(** [for (const violation of axeResults.violations)] *)
Fixpoint build_errors (vs : list AxeViolation) (q0 : nat) : list A11yError :=
  match vs with
  | [] => []
  | v :: r =>
      let '(e, q) := build_error v q0 in e :: build_errors r q
  end.

(** The payload attached to the test. *)
Definition scanA11y (url : string) (adoOrg adoProj : option string)
    (violations : list AxeViolation) : ReportData :=
  {| pageKey := Some url;
     accessibilityScore := 0;
     errors := Some (build_errors violations 0);
     video := Some "a11y-scan-video.webm";
     criticalColor := Some "critical";
     seriousColor := Some "serious";
     moderateColor := Some "moderate";
     minorColor := Some "minor";
     adoOrganization := Some (Js.or_default adoOrg "");
     adoProject := Some (Js.or_default adoProj "") |}.

(** The visibility queries made for one violation, in order, with their
    answers. *)
Definition selectors_of (v : AxeViolation) : list string :=
  List.concat (List.map node_target (v_nodes v)).

Fixpoint answers_from (q : nat) (sels : list string) : list bool :=
  match sels with
  | [] => []
  | s :: r => isVisible q s :: answers_from (S q) r
  end.

(** "every affected node was visible at capture time" *)
Definition all_visible (v : AxeViolation) (q0 : nat) : Prop :=
  List.Forall (fun b => b = true) (answers_from q0 (selectors_of v)).

(** "evidence capture is skipped for a target" *)
Definition capture_skipped (v : AxeViolation) (q0 : nat) : Prop :=
  List.Exists (fun b => b = false) (answers_from q0 (selectors_of v)).

(** "evidence capture is skipped" for every target of the rule. *)
Definition capture_skipped_everywhere (v : AxeViolation) (q0 : nat) : Prop :=
  List.Forall (fun b => b = false) (answers_from q0 (selectors_of v)).

(** The three parts of the property as the specification words it. *)
Definition totalCount_as_specified (v : AxeViolation) (q0 : nat) : Prop :=
  let e := fst (build_error v q0) in
  let n := Z.of_nat (length (default [] (target e))) in
  (total_or_0 e >= n)%Z
  /\ (all_visible v q0 -> total_or_0 e = n)
  /\ (capture_skipped v q0 ->
      total_or_0 e = Z.of_nat (length (v_nodes v))).

End Scan.

End Scanner.

(** ** Step merge of the legacy reporter ([onTestEnd], "Enrich with
    Playwright steps if available", and [getTestSteps]) *)

Module Legacy.

(** [processSteps]: a step of category [test.step] contributes its title,
    then its nested steps are processed, in order. *)
Fixpoint processStep (s : TestStep) : list string :=
  match s with
  | mkTestStep c t subs =>
      ((if String.eqb c "test.step" then [t] else [])
       ++ (fix processSteps (l : list TestStep) : list string :=
             match l with
             | [] => []
             | x :: r => processStep x ++ processSteps r
             end) subs)%list
  end.

Fixpoint processSteps (l : list TestStep) : list string :=
  match l with
  | [] => []
  | x :: r => (processStep x ++ processSteps r)%list
  end.

(** [getTestSteps(result)]; [result.steps] may be absent. *)
Definition getTestSteps (steps : option (list TestStep)) : list string :=
  match steps with
  | Some l => processSteps l
  | None => []
  end.

(** [existingSteps.has(step)] for [existingSteps = new Set(target.steps || [])] *)
Definition has_step (existing : list string) (step : string) : bool :=
  List.existsb (String.eqb step) existing.

(** The body of [playwrightSteps.forEach] on one target: [cur] is
    [target.steps] as mutated so far, [existing] the set built before the
    loop. *)
Definition push_step (existing : list string) (cur : option (list string))
    (step : string) : option (list string) :=
  if has_step existing step then cur
  else Some (default [] cur ++ [step])%list.

Section Enrich.

Variable stringify : option (list string) -> option string.

Definition merge_target (playwrightSteps : list string) (t : Target) : Target :=
  let existing := default [] (steps t) in
  let merged := fold_left (push_step existing) playwrightSteps (steps t) in
  {| element := element t;
     snippet := snippet t;
     html := html t;
     screenshot := screenshot t;
     steps := merged;
     stepsJson := stringify merged;
     screenshotBase64 := screenshotBase64 t |}.

Definition merge_error (playwrightSteps : list string) (e : A11yError)
    : A11yError :=
  {| id := id e;
     description := description e;
     wcagRule := wcagRule e;
     severity := severity e;
     help := help e;
     helpUrl := helpUrl e;
     guideline := guideline e;
     total := total e;
     target := option_map (List.map (merge_target playwrightSteps)) (target e) |}.

(** The effect of the enrichment block on the parsed payload. *)
Definition enrich (resultSteps : option (list TestStep)) (rd : ReportData)
    : ReportData :=
  let playwrightSteps := getTestSteps resultSteps in
  match playwrightSteps, errors rd with
  | _ :: _, Some errs =>
      {| pageKey := pageKey rd;
         accessibilityScore := accessibilityScore rd;
         video := video rd;
         errors := Some (List.map (merge_error playwrightSteps) errs);
         criticalColor := criticalColor rd;
         seriousColor := seriousColor rd;
         moderateColor := moderateColor rd;
         minorColor := minorColor rd;
         adoOrganization := adoOrganization rd;
         adoProject := adoProject rd |}
  | _, _ => rd
  end.

End Enrich.

(** Induction on a step with the hypothesis available for every nested
    step. *)
Fixpoint TestStep_nested_ind (P : TestStep -> Prop)
    (H : forall c t subs, List.Forall P subs -> P (mkTestStep c t subs))
    (s : TestStep) : P s :=
  match s with
  | mkTestStep c t subs =>
      H c t subs
        ((fix go (l : list TestStep) : List.Forall P l :=
            match l with
            | [] => @List.Forall_nil _ P
            | x :: r =>
                @List.Forall_cons _ P x r (TestStep_nested_ind P H x) (go r)
            end) subs)
  end.

(** The driver's trace flattened depth-first, parents before children. *)
Fixpoint preorder (s : TestStep) : list TestStep :=
  match s with
  | mkTestStep c t subs =>
      s :: (fix go (l : list TestStep) : list TestStep :=
              match l with
              | [] => []
              | x :: r => (preorder x ++ go r)%list
              end) subs
  end.

Fixpoint preorder_all (l : list TestStep) : list TestStep :=
  match l with
  | [] => []
  | x :: r => (preorder x ++ preorder_all r)%list
  end.

Definition titles_of (l : list TestStep) : list string :=
  List.map step_title
    (List.filter (fun s => String.eqb (category s) "test.step") l).

(** The titles of the steps the driver recorded for [test.step] calls. *)
Definition driver_steps (trace : list TestStep) : list string :=
  titles_of (preorder_all trace).

(** The merge as the specification words it: the pre-existing steps, then
    each driver step whose text is not among them. *)
Definition merged_steps (pre driver : list string) : list string :=
  (pre ++ List.filter (fun s => negb (has_step pre s)) driver)%list.

(** The titles of all the steps of the trace, flattened depth-first. *)
Definition all_step_titles (trace : list TestStep) : list string :=
  List.map step_title (preorder_all trace).

(** The property as the specification words it, for one target: every step
    of the flattened trace takes part in the merge. *)
Definition step_merge_as_specified
    (stringify : option (list string) -> option string)
    (trace : list TestStep) (t : Target) : Prop :=
  default [] (steps (merge_target stringify (getTestSteps (Some trace)) t))
  = merged_steps (default [] (steps t)) (all_step_titles trace).

End Legacy.

(** ** Asset relocation (A11yReportAssets.ts, [copyToFolder] and
    [copyTestVideo]) *)

Module Assets.

(** What the file system answers about a path: no entry, an entry whose
    [statSync] throws (the file is locked), or an entry of a given size. *)
Inductive FileStatus :=
| Missing
| Locked
| Sized (size : Z).

(** The file system as the function sees it: its answer depends on the
    milliseconds the call has spent in timers so far (the producer may still
    be flushing the file). *)
Definition Fs := nat -> string -> FileStatus.

Definition existsSync (fs : Fs) (t : nat) (p : string) : bool :=
  match fs t p with
  | Missing => false
  | _ => true
  end.

(** [fs.statSync(p).size], [None] when the call throws. *)
Definition statSize (fs : Fs) (t : nat) (p : string) : option Z :=
  match fs t p with
  | Sized n => Some n
  | _ => None
  end.

Definition max_attempts : nat := 10.
Definition poll_interval_ms : nat := 200.

(** One test of the retry loop: the file exists and has a positive size. *)
Definition ready (fs : Fs) (t : nat) (p : string) : bool :=
  existsSync fs t p
  && match statSize fs t p with
     | Some n => (0 <? n)%Z
     | None => false
     end.

(** [while (attempts < 10)]: [left] is [10 - attempts]; a failed test is
    followed by [setTimeout(r, 200)].  The result is [isReady] and the
    milliseconds spent in timers so far. *)
Fixpoint poll (fs : Fs) (p : string) (left : nat) (t : nat) : bool * nat :=
  match left with
  | O => (false, t)
  | S k =>
      if ready fs t p then (true, t)
      else poll fs p k (t + poll_interval_ms)
  end.

Record Selection := mkSelection {
  bestVideo : option string;
  maxSize : Z;
  now : nat
}.

(** The body of [for (const attachment of videoAttachments)]. *)
Definition consider (fs : Fs) (st : Selection) (a : Attachment) : Selection :=
  match att_path a with
  | Some p =>
      if Js.truthy p then
        let '(isReady, t) := poll fs p max_attempts (now st) in
        if isReady then
          match statSize fs t p with
          | Some size =>
              if (maxSize st <? size)%Z
              then {| bestVideo := Some p; maxSize := size; now := t |}
              else {| bestVideo := bestVideo st; maxSize := maxSize st; now := t |}
          | None =>
              {| bestVideo := bestVideo st; maxSize := maxSize st; now := t |}
          end
        else {| bestVideo := bestVideo st; maxSize := maxSize st; now := t |}
      else st
  | None => st
  end.

Definition is_video (a : Attachment) : bool := String.eqb (att_name a) "video".

Definition select_video (fs : Fs) (attachments : list Attachment) : Selection :=
  fold_left (consider fs) (List.filter is_video attachments)
    {| bestVideo := None; maxSize := (-1)%Z; now := 0 |}.

(** [copyToFolder(destFolder, srcPath, fileName)]: the returned name, or
    [None] when creating the folder or copying throws, which [copy_throws]
    decides. *)
Definition copyToFolder (fs : Fs) (t : nat) (copy_throws : string -> bool)
    (srcPath : string) (fileName : option string) : option string :=
  if negb (Js.truthy srcPath) || negb (existsSync fs t srcPath) then Some ""
  else if copy_throws srcPath then None
  else Some (Js.or_default fileName (Js.basename srcPath)).

(** [copyTestVideo(result, destFolder)]: the returned file name. *)
Definition copyTestVideo (fs : Fs) (copy_throws : string -> bool)
    (attachments : list Attachment) : string :=
  let st := select_video fs attachments in
  match bestVideo st with
  | Some best =>
      if Js.truthy best then
        match copyToFolder fs (now st) copy_throws best None with
        | Some name => name
        | None => Js.basename best
        end
      else ""
  | None => ""
  end.

(** *** The name returned, whatever [path.basename] computes *)

Section AnyBasename.

(** [path.basename], of the platform the reporter runs on. *)
Variable basename : string -> string.

Definition copyToFolderWith (fs : Fs) (t : nat) (copy_throws : string -> bool)
    (srcPath : string) (fileName : option string) : option string :=
  if negb (Js.truthy srcPath) || negb (existsSync fs t srcPath) then Some ""
  else if copy_throws srcPath then None
  else Some (Js.or_default fileName (basename srcPath)).

Definition copyTestVideoWith (fs : Fs) (copy_throws : string -> bool)
    (attachments : list Attachment) : string :=
  let st := select_video fs attachments in
  match bestVideo st with
  | Some best =>
      if Js.truthy best then
        match copyToFolderWith fs (now st) copy_throws best None with
        | Some name => name
        | None => basename best
        end
      else ""
  | None => ""
  end.

End AnyBasename.

(** *** The candidates as the specification speaks of them *)

(** The paths of the attachments that have one. *)
Definition paths_of (l : list Attachment) : list string :=
  List.concat
    (List.map (fun a =>
       match att_path a with
       | Some p => if Js.truthy p then [p] else []
       | None => []
       end) l).

(** The candidate videos: the paths of the video attachments. *)
Definition candidates (attachments : list Attachment) : list string :=
  paths_of (List.filter is_video attachments).


(** The candidates that became ready within their ten polls, each with the
    size it had when it was found ready, in attachment order. *)
Fixpoint ready_candidates (fs : Fs) (cands : list string) (t : nat)
    : list (string * Z) :=
  match cands with
  | [] => []
  | p :: r =>
      let '(ok, t') := poll fs p max_attempts t in
      if ok then
        match statSize fs t' p with
        | Some n => (p, n) :: ready_candidates fs r t'
        | None => ready_candidates fs r t'
        end
      else ready_candidates fs r t'
  end.

(** A candidate that is the largest of a list, the first one on ties. *)
Definition pick (acc : option string * Z) (c : string * Z) : option string * Z :=
  if (snd acc <? snd c)%Z then (Some (fst c), snd c) else acc.

End Assets.

(** ** The reporter (SnapAllyReporter.ts) *)

Module Reporter.

(** *** What the driver hands to the reporter *)

Record TestError := mkTestError {
  err_message : option string;
  err_stack : option string
}.

(** The fields of [TestCase] the reporter reads, and [retries], the
    configured number of retries, which it never reads. *)
Record TestCase := mkTestCase {
  title : string;
  location_file : string;
  tags : list string;
  annotations : list Annotation;
  project_name : option string;
  results_length : nat;
  retries : nat
}.

Record TestResult := mkTestResult {
  status : Status;
  duration : Z;
  attachments : list Attachment;
  result_errors : list TestError
}.

Record FullResult := mkFullResult {
  full_status : string;
  full_duration : Z
}.

(** *** Options and configuration *)

Record ColorOptions := mkColorOptions {
  opt_critical : option string;
  opt_serious : option string;
  opt_moderate : option string;
  opt_minor : option string
}.

Record AdoOptions := mkAdoOptions {
  ado_organization : option string;
  ado_project : option string
}.

Record Options := mkOptions {
  opt_outputFolder : option string;
  opt_colors : option ColorOptions;
  opt_ado : option AdoOptions
}.

(** The reporter's fields that are fixed once the run has begun:
    [outputFolder] as resolved by the constructor and [projectRoot] as set
    by [onBegin]. *)
Record Config := mkConfig {
  options : Options;
  outputFolder : string;
  projectRoot : string
}.

(** What [JSON.parse] gives: an object, read at the type [ReportData] as the
    source's annotation [let reportData: ReportData] does, its fields being
    taken to have the types the annotation declares (an array is an object
    without any of the fields); a value that is not an object ([null], a
    number, a string, a boolean), on which the loop body throws a
    [TypeError] outside the [try] when it reads or assigns a property; or
    an exception. *)
Inductive JsonResult :=
| JsonObject (rd : ReportData)
| JsonPrimitive
| JsonThrows (message : string).

(** The collaborators of the reporter: the JSON parser, the file system
    reads of attachment files, the asset manager, the renderer and the
    path and duration helpers.  A function that may throw returns a sum or
    an option. *)
Record Env := mkEnv {
  JSON_parse : string -> JsonResult;
  existsSync : string -> bool;
  readFileSync : string -> string + string;
  render_throws : string -> string -> bool;
  copyTestVideo : TestResult -> string -> string;
  copyScreenshots : TestResult -> string -> option (list string);
  copyPngAttachments : TestResult -> string -> option (list (string * string));
  copyAllOtherAttachments :
    TestResult -> string -> option (list (string * string));
  ansiToHtml : string -> string;
  formatDuration : Z -> string;
  path_relative : string -> string -> string
}.

(** *** Records that are rendered *)

Record Colors := mkColors {
  critical : string;
  serious : string;
  moderate : string;
  minor : string
}.

Record TestResults := mkTestResults {
  num : nat;
  folderName : string;
  executionReportPath : string;
  tr_title : string;
  fileName : string;
  timeDuration : Z;
  tr_duration : string;
  tr_description : string;
  tr_status : Status;
  browser : string;
  tr_tags : list string;
  preConditions : list string;
  tr_steps : list string;
  postConditions : list string;
  statusIcon : string;
  videoPath : string;
  screenshotPaths : list string;
  tr_attachments : list (string * string);
  tr_errors : list string;
  a11yReportPath : option string;
  a11yErrorCount : Z;
  a11yErrors : list A11yError
}.

Record WcagEntry := mkWcagEntry {
  count : Z;
  w_severity : string;
  w_helpUrl : string;
  w_description : string
}.

(** [groupedResults]: groups in insertion order, each with its records in
    insertion order. *)
Definition Groups := list (string * list TestResults).

(** The fields of [TestSummary] other than [browserSummaries]. *)
Record TestSummary := mkTestSummary {
  s_duration : string;
  s_status : string;
  s_statusIcon : string;
  total : nat;
  totalFailed : nat;
  totalFlaky : nat;
  totalPassed : nat;
  totalSkipped : nat;
  groupedResults : Groups;
  wcagErrors : gmap string WcagEntry;
  totalA11yErrorCount : Z
}.

(** What [renderer.render] is given, by template. *)
Inductive Doc :=
| AccessibilityReport (data : ReportData) (folderTest : string)
| ExecutionReport (result : TestResults) (colors : Colors)
| ExecutionSummary (results : TestSummary)
    (browsers : gmap string TestSummary) (colors : Colors).

(** *** The reporter object *)

(** The mutable fields of the reporter, shared by all tasks, and the files
    written so far, oldest first.  [executionSummary.browserSummaries] is
    the field [browserSummaries]. *)
Record Shared := mkShared {
  testIndex : nat;
  executionSummary : TestSummary;
  browserSummaries : gmap string TestSummary;
  written : list (string * Doc)
}.

Definition initial_summary : TestSummary :=
  {| s_duration := ""; s_status := ""; s_statusIcon := "";
     total := 0; totalFailed := 0; totalFlaky := 0; totalPassed := 0;
     totalSkipped := 0; groupedResults := []; wcagErrors := ∅;
     totalA11yErrorCount := 0 |}.

Definition empty_browser_summary : TestSummary :=
  {| s_duration := "0s"; s_status := ""; s_statusIcon := "";
     total := 0; totalFailed := 0; totalFlaky := 0; totalPassed := 0;
     totalSkipped := 0; groupedResults := []; wcagErrors := ∅;
     totalA11yErrorCount := 0 |}.

Definition initial_shared : Shared :=
  {| testIndex := 0; executionSummary := initial_summary;
     browserSummaries := ∅; written := [] |}.

(** *** Record updates *)

Definition set_groups (G : Groups) (S : TestSummary) : TestSummary :=
  {| s_duration := s_duration S; s_status := s_status S;
     s_statusIcon := s_statusIcon S; total := total S;
     totalFailed := totalFailed S; totalFlaky := totalFlaky S;
     totalPassed := totalPassed S; totalSkipped := totalSkipped S;
     groupedResults := G; wcagErrors := wcagErrors S;
     totalA11yErrorCount := totalA11yErrorCount S |}.

Definition set_wcag (m : gmap string WcagEntry) (n : Z) (S : TestSummary)
    : TestSummary :=
  {| s_duration := s_duration S; s_status := s_status S;
     s_statusIcon := s_statusIcon S; total := total S;
     totalFailed := totalFailed S; totalFlaky := totalFlaky S;
     totalPassed := totalPassed S; totalSkipped := totalSkipped S;
     groupedResults := groupedResults S; wcagErrors := m;
     totalA11yErrorCount := n |}.

Definition set_counts (t f k p s : nat) (S : TestSummary) : TestSummary :=
  {| s_duration := s_duration S; s_status := s_status S;
     s_statusIcon := s_statusIcon S; total := t;
     totalFailed := f; totalFlaky := k;
     totalPassed := p; totalSkipped := s;
     groupedResults := groupedResults S; wcagErrors := wcagErrors S;
     totalA11yErrorCount := totalA11yErrorCount S |}.

Definition set_final (d st icon : string) (S : TestSummary) : TestSummary :=
  {| s_duration := d; s_status := st; s_statusIcon := icon; total := total S;
     totalFailed := totalFailed S; totalFlaky := totalFlaky S;
     totalPassed := totalPassed S; totalSkipped := totalSkipped S;
     groupedResults := groupedResults S; wcagErrors := wcagErrors S;
     totalA11yErrorCount := totalA11yErrorCount S |}.

Definition set_summary (S : TestSummary) (sh : Shared) : Shared :=
  {| testIndex := testIndex sh; executionSummary := S;
     browserSummaries := browserSummaries sh; written := written sh |}.

Definition set_browsers (m : gmap string TestSummary) (sh : Shared) : Shared :=
  {| testIndex := testIndex sh; executionSummary := executionSummary sh;
     browserSummaries := m; written := written sh |}.

Definition write_file (path : string) (d : Doc) (sh : Shared) : Shared :=
  {| testIndex := testIndex sh; executionSummary := executionSummary sh;
     browserSummaries := browserSummaries sh;
     written := written sh ++ [(path, d)] |}.

(** *** Pieces of [processTestResult] *)

(** [switch (result.status)]: one of the three counters, or none. *)
Definition count_status (st : Status) (S : TestSummary) : TestSummary :=
  match st with
  | passed =>
      set_counts (total S) (totalFailed S) (totalFlaky S)
        (totalPassed S + 1) (totalSkipped S) S
  | failed =>
      set_counts (total S) (totalFailed S + 1) (totalFlaky S)
        (totalPassed S) (totalSkipped S) S
  | skipped =>
      set_counts (total S) (totalFailed S) (totalFlaky S)
        (totalPassed S) (totalSkipped S + 1) S
  | timedOut | interrupted => S
  end.

(** [total++] *)
Definition count_total (S : TestSummary) : TestSummary :=
  set_counts (total S + 1) (totalFailed S) (totalFlaky S)
    (totalPassed S) (totalSkipped S) S.

(** [totalFlaky++] *)
Definition count_flaky (S : TestSummary) : TestSummary :=
  set_counts (total S) (totalFailed S) (totalFlaky S + 1)
    (totalPassed S) (totalSkipped S) S.

(** [test.results.length > 1 && result.status === 'passed'] *)
Definition isFlaky (t : TestCase) (r : TestResult) : bool :=
  (1 <? results_length t)%nat && status_eqb (status r) passed.

Fixpoint has_group (g : string) (G : Groups) : bool :=
  match G with
  | [] => false
  | (k, _) :: rest => String.eqb k g || has_group g rest
  end.

(** [if (!groupedResults[fileGroup]) groupedResults[fileGroup] = []]: the
    read finds the group, or else the member that a name of
    [Object.prototype] inherits; only when it finds neither is the group
    created. *)
Definition init_group (g : string) (G : Groups) : Groups :=
  if has_group g G then G
  else if Js.inherited g then G
  else (G ++ [(g, [])])%list.

(** [groupedResults[fileGroup].push(testStats)]; [None] is the [TypeError]
    of calling [push] when there is no group of that name: neither
    [undefined] nor an inherited member has the method. *)
Fixpoint push_group (g : string) (r : TestResults) (G : Groups)
    : option Groups :=
  match G with
  | [] => None
  | (k, l) :: rest =>
      if String.eqb k g then Some ((k, l ++ [r])%list :: rest)
      else option_map (cons (k, l)) (push_group g r rest)
  end.

(** [if (!browserSummaries[browser]) browserSummaries[browser] = {...}]:
    the read finds a summary of that name, or else the member that a name
    of [Object.prototype] inherits; only when it finds neither is the
    summary created. *)
Definition ensure_browser (b : string) (m : gmap string TestSummary)
    : gmap string TestSummary :=
  match m !! b with
  | Some _ => m
  | None => if Js.inherited b then m else <[b := empty_browser_summary]> m
  end.

(** [if (!wcagErrors[rule]) wcagErrors[rule] = {count: 0, ...}], with the
    same read. *)
Definition ensure_rule (err : A11yError) (m : gmap string WcagEntry)
    : gmap string WcagEntry :=
  match m !! id err with
  | Some _ => m
  | None =>
      if Js.inherited (id err) then m
      else <[id err := {| count := 0; w_severity := severity err;
                          w_helpUrl := helpUrl err;
                          w_description := description err |}]> m
  end.

(** The body of [reportData.errors.forEach] for one of the two aggregates:
    the entry is created with count 0 on first sight, then
    [wcagErrors[rule].count += err.total || 0].  When the aggregate has no
    entry of that name after the first statement, the name is inherited and
    the second one writes [count] on the inherited member: no entry
    changes. *)
Definition add_wcag (m : gmap string WcagEntry) (err : A11yError)
    : gmap string WcagEntry :=
  let m1 := ensure_rule err m in
  match m1 !! id err with
  | Some entry =>
      <[id err := {| count := (count entry + total_or_0 err)%Z;
                     w_severity := w_severity entry;
                     w_helpUrl := w_helpUrl entry;
                     w_description := w_description entry |}]> m1
  | None => m1
  end.

(** [errors.reduce((sum, err) => sum + (err.total || 0), 0)] *)
Definition scanErrorCount (errs : list A11yError) : Z :=
  fold_left (fun sum err => (sum + total_or_0 err)%Z) errs 0%Z.

(** The errors of a payload that pass [errors && errors.length > 0]. *)
Definition folded_errors (rd : ReportData) : list A11yError :=
  default [] (errors rd).

Definition fold_into (errs : list A11yError) (S : TestSummary) : TestSummary :=
  match errs with
  | [] => S
  | _ =>
      set_wcag (fold_left add_wcag errs (wcagErrors S))
        (totalA11yErrorCount S + scanErrorCount errs)%Z S
  end.

(** The browser summary is created if needed, then
    [bSummary = browserSummaries[browser]] is updated in place.  When there
    is no summary of that name after the first statement, [bSummary] is the
    inherited member: the updates that [f] stands for, if they do not
    throw, are written on it, and no summary changes. *)
Definition update_browser (b : string) (f : TestSummary -> TestSummary)
    (m : gmap string TestSummary) : gmap string TestSummary :=
  let m1 := ensure_browser b m in
  match m1 !! b with
  | Some bSummary => <[b := f bSummary]> m1
  | None => m1
  end.

(** [bSummary.wcagErrors[rule]] in the first iteration of [forEach] (line
    238): when [bSummary] is an inherited member it has no [wcagErrors],
    and reading a property of [undefined] throws a [TypeError].  Nothing
    shared has been written by then. *)
Definition fold_throws (b : string) (rd : ReportData) (sh : Shared) : bool :=
  match folded_errors rd, ensure_browser b (browserSummaries sh) !! b with
  | _ :: _, None => true
  | _, _ => false
  end.

(** Lines 209-263, when they do not throw: the payload is folded into the
    browser summary and into the global summary. *)
Definition fold_scan (b : string) (rd : ReportData) (sh : Shared) : Shared :=
  let errs := folded_errors rd in
  set_summary (fold_into errs (executionSummary sh))
    (set_browsers (update_browser b (fold_into errs) (browserSummaries sh)) sh).

Definition colors_of (o : Options) : Colors :=
  {| critical := Js.or_default (c ← opt_colors o; opt_critical c) "#c92a2a";
     serious := Js.or_default (c ← opt_colors o; opt_serious c) "#e67700";
     moderate := Js.or_default (c ← opt_colors o; opt_moderate c) "#ca8a04";
     minor := Js.or_default (c ← opt_colors o; opt_minor c) "#0891b2" |}.

(** "Re-apply configuration" and "Sync video name". *)
Definition configure (o : Options) (video : string) (rd : ReportData)
    : ReportData :=
  let c := colors_of o in
  {| pageKey := pageKey rd;
     accessibilityScore := accessibilityScore rd;
     video := if Js.truthy video then Some video else Models.video rd;
     errors := errors rd;
     criticalColor := Some (critical c);
     seriousColor := Some (serious c);
     moderateColor := Some (moderate c);
     minorColor := Some (minor c);
     adoOrganization :=
       match opt_ado o with
       | Some a => Js.or_else (ado_organization a) (adoOrganization rd)
       | None => adoOrganization rd
       end;
     adoProject :=
       match opt_ado o with
       | Some a => Js.or_else (ado_project a) (adoProject rd)
       | None => adoProject rd
       end |}.

(** *** Accessibility data sources *)

Inductive Source :=
| FromAttachment (a : Attachment)
| FromAnnotation (a : Annotation).

Definition source_type (s : Source) : string :=
  match s with
  | FromAttachment _ => "attachment"
  | FromAnnotation _ => "annotation"
  end.

Definition a11yDataSources (t : TestCase) (r : TestResult) : list Source :=
  (List.map FromAttachment
     (List.filter (fun a => String.eqb (att_name a) "A11y") (attachments r))
   ++ List.map FromAnnotation
     (List.filter (fun a => String.eqb (ann_type a) "A11y") (annotations t)))%list.

(** The outcome of the [try] block for one source: the [continue] of a
    source without body or file, the exception caught, the payload, or a
    parsed value that is not an object. *)
Inductive ReadOutcome :=
| Skipped
| ParseFailed (message : string)
| Parsed (rd : ReportData)
| NotAnObject.

Definition parse (env : Env) (text : string) : ReadOutcome :=
  match JSON_parse env text with
  | JsonObject rd => Parsed rd
  | JsonPrimitive => NotAnObject
  | JsonThrows e => ParseFailed e
  end.

Definition read_source (env : Env) (s : Source) : ReadOutcome :=
  match s with
  | FromAttachment a =>
      match att_body a with
      | Some body => parse env body
      | None =>
          match att_path a with
          | Some p =>
              if Js.truthy p && existsSync env p then
                match readFileSync env p with
                | inl text => parse env text
                | inr e => ParseFailed e
                end
              else Skipped
          | None => Skipped
          end
      end
  | FromAnnotation a => parse env (Js.or_default (ann_description a) "{}")
  end.

(** [for (const [index, source] of a11yDataSources.entries())] *)
Fixpoint entries_from {A : Type} (i : nat) (l : list A) : list (nat * A) :=
  match l with
  | [] => []
  | x :: r => (i, x) :: entries_from (S i) r
  end.

(** *** Values computed from the test before the first [await] *)

(** [t.replace('@', '')]: the first [@] is removed. *)
Fixpoint remove_first_at (s : string) : string :=
  match s with
  | EmptyString => EmptyString
  | String c r =>
      if ascii_dec c "@"%char then r else String c (remove_first_at r)
  end.

Definition newline : string := String (ascii_of_nat 10) EmptyString.

(** What a task keeps from its start: the test, the result and the value
    [testIndex] had after its increment. *)
Record Ctx := mkCtx {
  test : TestCase;
  result : TestResult;
  index0 : nat
}.

Section Derived.

Variable cfg : Config.
Variable env : Env.
Variable c : Ctx.

Definition sanitizedTitle : string := Naming.sanitizedTitle (title (test c)).

Definition testFolderName : string :=
  pretty (index0 c) +:+ "-" +:+ sanitizedTitle.

Definition testResultsFolder : string :=
  Js.path_join (outputFolder cfg) testFolderName.

Definition fileGroup : string :=
  path_relative env (projectRoot cfg) (location_file (test c)).

Definition browserName : string :=
  Js.or_default (project_name (test c)) "unknown".

Definition description_of : string :=
  Js.or_default
    (a ← List.find (fun a => String.eqb (ann_type a) "Description")
           (annotations (test c));
     ann_description a)
    "No Description".

Definition steps_of : list string :=
  List.map (fun a => Js.or_default (ann_description a) "Step")
    (List.filter (fun a => negb (Scanner.excluded_type (ann_type a)))
       (annotations (test c))).

Definition conditions_of (kind : string) : list string :=
  List.map (fun a => Js.or_default (ann_description a) "")
    (List.filter (fun a => String.eqb (ann_type a) kind)
       (annotations (test c))).

Definition errorLogs_of : list string :=
  List.map (fun e =>
    let fullMsg :=
      match err_stack e with
      | Some stack =>
          if Js.truthy stack
          then default "undefined" (err_message e) +:+ newline +:+ stack
          else Js.or_default (err_message e) "Error occurred"
      | None => Js.or_default (err_message e) "Error occurred"
      end in
    ansiToHtml env fullMsg) (result_errors (result c)).

Definition sources : list Source := a11yDataSources (test c) (result c).

End Derived.

(** *** A task: one call of [processTestResult] *)

(** The local variables that change after the first [await]. *)
Record Locals := mkLocals {
  l_video : string;
  l_screenshots : list string;
  l_allAttachments : list (string * string);
  l_errorLogs : list string;
  l_a11yReportPath : option string;
  l_a11yErrorCount : Z;
  l_aggregatedA11yErrors : list A11yError
}.

Inductive Failure :=
| RenderFailure (template : string)
| AssetFailure
| TypeError.

(** Where a task is suspended, or how it has settled. *)
Inductive PC :=
| AwaitVideo
| AwaitScanRender (rd : ReportData) (rest : list (nat * Source))
| AwaitExecRender
| Fulfilled
| Rejected (f : Failure).

Record Task := mkTask {
  ctx : Ctx;
  locals : Locals;
  pc : PC
}.

Definition initial_locals : Locals :=
  {| l_video := ""; l_screenshots := []; l_allAttachments := [];
     l_errorLogs := []; l_a11yReportPath := None;
     l_a11yErrorCount := 0; l_aggregatedA11yErrors := [] |}.

(** [errorLogs.push(line)] *)
Definition push_log (line : string) (l : Locals) : Locals :=
  {| l_video := l_video l; l_screenshots := l_screenshots l;
     l_allAttachments := l_allAttachments l;
     l_errorLogs := (l_errorLogs l ++ [line])%list;
     l_a11yReportPath := l_a11yReportPath l;
     l_a11yErrorCount := l_a11yErrorCount l;
     l_aggregatedA11yErrors := l_aggregatedA11yErrors l |}.

(** [a11yReportPath = a11yReportName] *)
Definition set_report_path (name : string) (l : Locals) : Locals :=
  {| l_video := l_video l; l_screenshots := l_screenshots l;
     l_allAttachments := l_allAttachments l;
     l_errorLogs := l_errorLogs l;
     l_a11yReportPath := Some name;
     l_a11yErrorCount := l_a11yErrorCount l;
     l_aggregatedA11yErrors := l_aggregatedA11yErrors l |}.

(** [a11yErrorCount += scanErrorCount; aggregatedA11yErrors.push(...errors)] *)
Definition add_errors (errs : list A11yError) (n : Z) (l : Locals) : Locals :=
  {| l_video := l_video l; l_screenshots := l_screenshots l;
     l_allAttachments := l_allAttachments l;
     l_errorLogs := l_errorLogs l;
     l_a11yReportPath := l_a11yReportPath l;
     l_a11yErrorCount := (l_a11yErrorCount l + n)%Z;
     l_aggregatedA11yErrors := (l_aggregatedA11yErrors l ++ errs)%list |}.

Section Segments.

Variable cfg : Config.
Variable env : Env.

Definition scan_template : string := "accessibility-report.html".
Definition exec_template : string := "test-execution-report.html".
Definition summary_template : string := "execution-summary.html".

(** The statements of [processTestResult] before [await copyTestVideo]. *)
Definition start (t : TestCase) (r : TestResult) (sh : Shared)
    : Shared * Task :=
  let c := {| test := t; result := r; index0 := testIndex sh + 1 |} in
  let S := executionSummary sh in
  let sh' :=
    {| testIndex := testIndex sh + 1;
       executionSummary :=
         set_groups (init_group (fileGroup cfg env c) (groupedResults S)) S;
       browserSummaries := browserSummaries sh;
       written := written sh |} in
  (sh', {| ctx := c; locals := initial_locals; pc := AwaitVideo |}).

Definition testStats (c : Ctx) (l : Locals) (sh : Shared) : TestResults :=
  {| num := testIndex sh;
     folderName := testFolderName c;
     executionReportPath :=
       testFolderName c +:+ "/" +:+ "execution-" +:+ sanitizedTitle c
       +:+ ".html";
     tr_title := title (test c);
     fileName := fileGroup cfg env c;
     timeDuration := duration (result c);
     tr_duration := formatDuration env (duration (result c));
     tr_description := description_of c;
     tr_status := status (result c);
     browser := browserName c;
     tr_tags := List.map remove_first_at (tags (test c));
     preConditions := conditions_of c "Pre Condition";
     tr_steps := steps_of c;
     postConditions := conditions_of c "Post Condition";
     statusIcon := TestStatusIcon (status (result c));
     videoPath := l_video l;
     screenshotPaths := l_screenshots l;
     tr_attachments := l_allAttachments l;
     tr_errors := l_errorLogs l;
     a11yReportPath := l_a11yReportPath l;
     a11yErrorCount := l_a11yErrorCount l;
     a11yErrors := l_aggregatedA11yErrors l |}.

(** "4. Final Aggregation and Test Stats" up to the [await] of the
    execution report. *)
Definition finish (c : Ctx) (l : Locals) (sh : Shared) : Shared * PC :=
  let sh1 :=
    set_browsers
      (update_browser (browserName c)
         (fun bSummary => count_status (status (result c)) (count_total bSummary))
         (browserSummaries sh)) sh in
  let stats := testStats c l sh1 in
  let S := executionSummary sh1 in
  match push_group (fileGroup cfg env c) stats (groupedResults S) with
  | None => (sh1, Rejected TypeError)
  | Some G =>
      let S1 := set_groups G S in
      let S2 := if isFlaky (test c) (result c) then count_flaky S1 else S1 in
      let S3 := count_total (count_status (status (result c)) S2) in
      let sh2 := set_summary S3 sh1 in
      let indexFile :=
        Js.path_join (testResultsFolder cfg c)
          ("execution-" +:+ sanitizedTitle c +:+ ".html") in
      if render_throws env exec_template indexFile
      then (sh2, Rejected (RenderFailure exec_template))
      else (write_file indexFile
              (ExecutionReport stats (colors_of (options cfg))) sh2,
            AwaitExecRender)
  end.

(** The loop over the data sources from the source at the head of [srcs],
    up to the next [await]: sources that are skipped or fail to parse are
    passed over, the first payload that parses is rendered.  A parsed value
    that is not an object rejects the task (the assignment to the local
    [a11yReportPath] that may precede the throw is read by no one). *)
Fixpoint scan_loop (c : Ctx) (srcs : list (nat * Source)) (l : Locals)
    (sh : Shared) : Shared * Locals * PC :=
  match srcs with
  | [] => let '(sh', p) := finish c l sh in (sh', l, p)
  | (index, source) :: rest =>
      match read_source env source with
      | Skipped => scan_loop c rest l sh
      | ParseFailed e =>
          let line :=
            ansiToHtml env
              ("[SnapAlly] Internal error parsing accessibility data from "
               +:+ source_type source +:+ ": " +:+ e) in
          scan_loop c rest (push_log line l) sh
      | Parsed reportData =>
          let a11yReportName :=
            Naming.a11yReportName (length (sources c)) index
              (title (test c)) (pageKey reportData) in
          let l' := set_report_path a11yReportName l in
          let rd := configure (options cfg) (l_video l) reportData in
          let auditFile :=
            Js.path_join (testResultsFolder cfg c) a11yReportName in
          if render_throws env scan_template auditFile
          then (sh, l', Rejected (RenderFailure scan_template))
          else (write_file auditFile
                  (AccessibilityReport rd (testResultsFolder cfg c)) sh,
                l', AwaitScanRender rd rest)
      | NotAnObject => (sh, l, Rejected TypeError)
      end
  end.

(** After the [await] of a payload's report: the payload is folded into the
    summaries and the test's own totals.  When the fold throws, the task is
    rejected (the additions to the locals [a11yErrorCount] and
    [aggregatedA11yErrors] that precede the throw are read by no one). *)
Definition after_scan (rd : ReportData) (l : Locals) : Locals :=
  match folded_errors rd with
  | [] => l
  | errs => add_errors errs (scanErrorCount errs) l
  end.

(** A suspended task continues up to its next [await]. *)
Definition resume (t : Task) (sh : Shared) : Shared * Task :=
  let c := ctx t in
  match pc t with
  | AwaitVideo =>
      let folder := testResultsFolder cfg c in
      match copyScreenshots env (result c) folder,
            copyPngAttachments env (result c) folder,
            copyAllOtherAttachments env (result c) folder with
      | Some screenshots, Some pngAttachments, Some otherAttachments =>
          let l :=
            {| l_video := copyTestVideo env (result c) folder;
               l_screenshots := screenshots;
               l_allAttachments := (pngAttachments ++ otherAttachments)%list;
               l_errorLogs := errorLogs_of env c;
               l_a11yReportPath := None;
               l_a11yErrorCount := 0;
               l_aggregatedA11yErrors := [] |} in
          let '(sh', l', p) := scan_loop c (entries_from 0 (sources c)) l sh in
          (sh', {| ctx := c; locals := l'; pc := p |})
      | _, _, _ =>
          (sh, {| ctx := c; locals := locals t; pc := Rejected AssetFailure |})
      end
  | AwaitScanRender rd rest =>
      if fold_throws (browserName c) rd sh
      then (sh, {| ctx := c; locals := locals t; pc := Rejected TypeError |})
      else
        let sh1 := fold_scan (browserName c) rd sh in
        let '(sh', l', p) := scan_loop c rest (after_scan rd (locals t)) sh1 in
        (sh', {| ctx := c; locals := l'; pc := p |})
  | AwaitExecRender =>
      (sh, {| ctx := c; locals := locals t; pc := Fulfilled |})
  | Fulfilled | Rejected _ => (sh, t)
  end.

End Segments.

(** *** The run: driver calls and the event loop *)

(** [onEnd] is itself a task. [EndWaiting fr n] awaits
    [Promise.all(this.tasks)], taken when [tasks] had [n] elements. *)
Inductive EndState :=
| NotEnded
| EndWaiting (fr : FullResult) (snapshot : nat)
| EndAwaitRender
| EndFulfilled
| EndRejected.

Record World := mkWorld {
  shared : Shared;
  tasks : list Task;
  ending : EndState
}.

Definition initial_world : World :=
  {| shared := initial_shared; tasks := []; ending := NotEnded |}.

(** What can happen next: the driver calls [onTestEnd] or [onEnd], or the
    event loop continues a task or [onEnd]. *)
Inductive Event :=
| EvTestEnd (t : TestCase) (r : TestResult)
| EvResume (i : nat)
| EvEnd (fr : FullResult)
| EvEndResume.

Definition is_fulfilled (t : Task) : bool :=
  match pc t with Fulfilled => true | _ => false end.

Definition is_rejected (t : Task) : bool :=
  match pc t with Rejected _ => true | _ => false end.

(** [TestStatusIcon[result.status] || 'help'] for the run's status text. *)
Definition run_status_icon (s : string) : string :=
  if String.eqb s "passed" then "check_circle"
  else if String.eqb s "failed" then "cancel"
  else if String.eqb s "skipped" then "remove_circle"
  else if String.eqb s "timedOut" then "alarm_off"
  else if String.eqb s "interrupted" then "block"
  else "help".

Section Run.

Variable cfg : Config.
Variable env : Env.

Definition summaryFile : string := Js.path_join (outputFolder cfg) "summary.html".

(** The statements of [onEnd] after [await Promise.all(this.tasks)]. *)
Definition render_summary (fr : FullResult) (w : World) : World :=
  let sh := shared w in
  let S :=
    set_final (formatDuration env (full_duration fr)) (full_status fr)
      (run_status_icon (full_status fr)) (executionSummary sh) in
  let sh1 := set_summary S sh in
  if render_throws env summary_template summaryFile
  then {| shared := sh1; tasks := tasks w; ending := EndRejected |}
  else {| shared :=
            write_file summaryFile
              (ExecutionSummary S (browserSummaries sh1)
                 (colors_of (options cfg))) sh1;
          tasks := tasks w;
          ending := EndAwaitRender |}.

Definition apply_event (w : World) (e : Event) : World :=
  match e with
  | EvTestEnd t r =>
      let '(sh, task) := start cfg env t r (shared w) in
      {| shared := sh; tasks := (tasks w ++ [task])%list; ending := ending w |}
  | EvResume i =>
      match tasks w !! i with
      | Some task =>
          let '(sh, task') := resume cfg env task (shared w) in
          {| shared := sh; tasks := <[i := task']> (tasks w);
             ending := ending w |}
      | None => w
      end
  | EvEnd fr =>
      match ending w with
      | NotEnded =>
          {| shared := shared w; tasks := tasks w;
             ending := EndWaiting fr (length (tasks w)) |}
      | _ => w
      end
  | EvEndResume =>
      match ending w with
      | EndWaiting fr n =>
          let awaited := take n (tasks w) in
          if List.existsb is_rejected awaited
          then {| shared := shared w; tasks := tasks w; ending := EndRejected |}
          else if List.forallb is_fulfilled awaited
          then render_summary fr w
          else w
      | EndAwaitRender =>
          {| shared := shared w; tasks := tasks w; ending := EndFulfilled |}
      | _ => w
      end
  end.

Definition run_from (w : World) (evs : list Event) : World :=
  fold_left apply_event evs w.

Definition run (evs : list Event) : World := run_from initial_world evs.

End Run.

(** The reporter interface of the driver: [onEnd] is called once, after the
    last [onTestEnd]. *)
Definition is_driver_call (e : Event) : bool :=
  match e with
  | EvTestEnd _ _ | EvEnd _ => true
  | EvResume _ | EvEndResume => false
  end.

Fixpoint driver_protocol (evs : list Event) : bool :=
  match evs with
  | [] => true
  | EvEnd _ :: rest => List.forallb (fun e => negb (is_driver_call e)) rest
  | _ :: rest => driver_protocol rest
  end.

Definition tests_of (evs : list Event) : list (TestCase * TestResult) :=
  List.concat
    (List.map (fun e =>
       match e with
       | EvTestEnd t r => [(t, r)]
       | _ => []
       end) evs).

(** *** Vocabulary of the statements about runs *)

(** All records of the grouped results. *)
Definition records (G : Groups) : list TestResults :=
  List.concat (List.map snd G).

Definition countP (P : TestResults -> bool) (G : Groups) : nat :=
  length (List.filter P (records G)).

(** A status that no counter other than [total] counts. *)
Definition uncounted (st : Status) : bool :=
  match st with
  | timedOut | interrupted => true
  | passed | failed | skipped => false
  end.

Definition uncounted_record (r : TestResults) : bool := uncounted (tr_status r).

Definition uncounted_in (b : string) (r : TestResults) : bool :=
  uncounted (tr_status r) && String.eqb (browser r) b.

(** [passed + failed + skipped] of a summary. *)
Definition counted (S : TestSummary) : nat :=
  (totalPassed S + totalFailed S + totalSkipped S)%nat.

(** The count of the rule's entry in the aggregate, 0 when the aggregate
    holds no entry for the rule. *)
Definition rule_count (m : gmap string WcagEntry) (rule : string) : Z :=
  match m !! rule with
  | Some e => count e
  | None => 0%Z
  end.

(** The sum of [total || 0] over the records of a rule in a list. *)
Fixpoint rule_total (rule : string) (errs : list A11yError) : Z :=
  match errs with
  | [] => 0%Z
  | e :: r =>
      ((if String.eqb (id e) rule then total_or_0 e else 0) + rule_total rule r)%Z
  end.

(** The records of the payloads that parse among the given sources. *)
Definition parsed_errors (env : Env) (srcs : list (nat * Source))
    : list A11yError :=
  List.concat
    (List.map (fun s =>
       match read_source env (snd s) with
       | Parsed rd => folded_errors rd
       | _ => []
       end) srcs).

(** The records of every payload of a test that parses. *)
Definition test_errors (env : Env) (t : TestCase) (r : TestResult)
    : list A11yError :=
  parsed_errors env (entries_from 0 (a11yDataSources t r)).

Fixpoint sumZ {A : Type} (f : A -> Z) (l : list A) : Z :=
  match l with
  | [] => 0%Z
  | x :: r => (f x + sumZ f r)%Z
  end.

(** What the counters of a summary owe to the records: the tests counted in
    [total] beyond the three status counters are at least the records whose
    status none of them counts.  A record's browser has a summary, unless
    its name is inherited. *)
Definition counters_ok (sh : Shared) : Prop :=
  let S := executionSummary sh in
  let G := groupedResults S in
  (counted S + countP uncounted_record G <= total S)%nat
  /\ (forall b bS, browserSummaries sh !! b = Some bS ->
        (counted bS + countP (uncounted_in b) G <= total bS)%nat)
  /\ (forall r, In r (records G) -> Js.inherited (browser r) = false ->
        is_Some (browserSummaries sh !! browser r)).

(** A task whose test has been counted by the final aggregation. *)
Definition aggregated_pc (p : PC) : bool :=
  match p with
  | AwaitExecRender | Fulfilled => true
  | Rejected (RenderFailure template) => String.eqb template exec_template
  | _ => false
  end.

Definition task_is_flaky (t : Task) : bool :=
  aggregated_pc (pc t) && isFlaky (test (ctx t)) (result (ctx t)).

(** The same test with another configured number of retries. *)
Definition with_retries (n : nat) (t : TestCase) : TestCase :=
  {| title := title t; location_file := location_file t; tags := tags t;
     annotations := annotations t; project_name := project_name t;
     results_length := results_length t; retries := n |}.

(** What a task has folded into the summaries so far, against what its
    test carries. *)
Definition task_errors_ok (env : Env) (t : Task) : Prop :=
  let all := test_errors env (test (ctx t)) (result (ctx t)) in
  let agg := l_aggregatedA11yErrors (locals t) in
  match pc t with
  | AwaitVideo => agg = []
  | AwaitScanRender rd rest =>
      (agg ++ folded_errors rd ++ parsed_errors env rest)%list = all
  | AwaitExecRender | Fulfilled => agg = all
  | Rejected _ => True
  end.

Definition test_of (t : Task) : TestCase * TestResult :=
  (test (ctx t), result (ctx t)).

(** 1 for a task counted as flaky, 0 otherwise. *)
Definition flaky_weight (t : Task) : Z :=
  if task_is_flaky t then 1%Z else 0%Z.

Definition is_summary (d : Doc) : bool :=
  match d with
  | ExecutionSummary _ _ _ => true
  | _ => false
  end.

(** The collaborators never throw and the parser gives objects: assets are
    copied and templates are rendered without exception, and a text that
    parses is the text of an object (whose fields have the types of
    [ReportData], as in every [JsonObject]). *)
Definition well_behaved (env : Env) : Prop :=
  (forall text, JSON_parse env text <> JsonPrimitive)
  /\ (forall r f, copyScreenshots env r f <> None)
  /\ (forall r f, copyPngAttachments env r f <> None)
  /\ (forall r f, copyAllOtherAttachments env r f <> None)
  /\ (forall template path, render_throws env template path = false).

(** The line pushed to [errorLogs] for a source that fails to parse. *)
Definition parse_failure_line (env : Env) (s : Source) (e : string) : string :=
  ansiToHtml env
    ("[SnapAlly] Internal error parsing accessibility data from "
     +:+ source_type s +:+ ": " +:+ e).

(** The lines logged for the sources that fail to parse, in order. *)
Definition parse_failure_lines (env : Env) (srcs : list (nat * Source))
    : list string :=
  List.concat
    (List.map (fun s =>
       match read_source env (snd s) with
       | ParseFailed e => [parse_failure_line env (snd s) e]
       | _ => []
       end) srcs).

(** The per-scan report of every source that parses, in order: its path
    and what is rendered. *)
Definition scan_files (cfg : Config) (env : Env) (c : Ctx)
    (srcs : list (nat * Source)) : list (string * Doc) :=
  let folder := testResultsFolder cfg c in
  List.concat
    (List.map (fun s =>
       match read_source env (snd s) with
       | Parsed rd =>
           [(Js.path_join folder
               (Naming.a11yReportName (length (sources c)) (fst s)
                  (title (test c)) (pageKey rd)),
             AccessibilityReport
               (configure (options cfg)
                  (copyTestVideo env (result c) folder) rd) folder)]
       | _ => []
       end) srcs).

Definition all_sources (c : Ctx) : list (nat * Source) :=
  entries_from 0 (sources c).

(** The test's record is among the grouped results and its execution
    report among the files. *)
Definition record_produced (cfg : Config) (env : Env) (sh : Shared) (t : Task)
    : Prop :=
  exists stats,
    (exists sh0, stats = testStats cfg env (ctx t) (locals t) sh0)
    /\ (exists l, In (fileGroup cfg env (ctx t), l)
                     (groupedResults (executionSummary sh))
                  /\ In stats l)
    /\ In (Js.path_join (testResultsFolder cfg (ctx t))
             ("execution-" +:+ sanitizedTitle (ctx t) +:+ ".html"),
           ExecutionReport stats (colors_of (options cfg))) (written sh).

(** What a task has done so far, against what its test carries: the log
    lines of the payloads that failed, the reports of the payloads that
    parsed, and at the end the test's record. *)
Definition task_progress_ok (cfg : Config) (env : Env) (sh : Shared)
    (t : Task) : Prop :=
  let c := ctx t in
  let l := locals t in
  match pc t with
  | AwaitVideo => True
  | AwaitScanRender rd rest =>
      l_video l = copyTestVideo env (result c) (testResultsFolder cfg c)
      /\ (l_errorLogs l ++ parse_failure_lines env rest)%list
         = (errorLogs_of env c ++ parse_failure_lines env (all_sources c))%list
      /\ (forall f, In f (scan_files cfg env c (all_sources c)) ->
                    In f (written sh) \/ In f (scan_files cfg env c rest))
      /\ (length rest < length (sources c))%nat
  | AwaitExecRender | Fulfilled =>
      l_errorLogs l
      = (errorLogs_of env c ++ parse_failure_lines env (all_sources c))%list
      /\ (forall f, In f (scan_files cfg env c (all_sources c)) ->
                    In f (written sh))
      /\ record_produced cfg env sh t
  | Rejected _ => True
  end.

(** The shared state only grows: files and records stay, groups stay. *)
Definition grows (sh sh' : Shared) : Prop :=
  (forall f, In f (written sh) -> In f (written sh'))
  /\ (forall g l r, In (g, l) (groupedResults (executionSummary sh)) ->
        In r l ->
        exists l', In (g, l') (groupedResults (executionSummary sh'))
                   /\ In r l')
  /\ (forall g, has_group g (groupedResults (executionSummary sh)) = true ->
                has_group g (groupedResults (executionSummary sh')) = true).

(** How many more times a task has to be continued, at most. *)
Definition remaining (t : Task) : nat :=
  match pc t with
  | AwaitVideo => length (sources (ctx t)) + 2
  | AwaitScanRender _ rest => length rest + 2
  | AwaitExecRender => 1
  | Fulfilled | Rejected _ => 0
  end.

(** The names that the test brings as keys of the reporter's dictionaries,
    its project and the relative path of its file, are not inherited from
    [Object.prototype]. *)
Definition ordinary_names (cfg : Config) (env : Env) (c : Ctx) : Prop :=
  Js.inherited (browserName c) = false
  /\ Js.inherited (fileGroup cfg env c) = false.

(** A task that can still complete: it is within its budget of
    continuations and, when its names are not inherited, its group exists
    and it has not been rejected. *)
Definition task_live (cfg : Config) (env : Env) (sh : Shared) (t : Task)
    : Prop :=
  (ordinary_names cfg env (ctx t) ->
   has_group (fileGroup cfg env (ctx t))
     (groupedResults (executionSummary sh)) = true
   /\ is_rejected t = false)
  /\ (remaining t <= length (sources (ctx t)) + 2)%nat.

Definition is_end (e : Event) : bool :=
  match e with
  | EvEnd _ => true
  | _ => false
  end.

(** No run summary has been written. *)
Definition no_summary (l : list (string * Doc)) : Prop :=
  List.Forall (fun pd => is_summary (snd pd) = false) l.

(** What the state of [onEnd] says about the tasks and the files. *)
Definition end_ok (cfg : Config) (w : World) : Prop :=
  match ending w with
  | NotEnded | EndRejected => no_summary (written (shared w))
  | EndWaiting _ n =>
      no_summary (written (shared w)) /\ n = length (tasks w)
  | EndAwaitRender | EndFulfilled =>
      List.Forall (fun t => is_fulfilled t = true) (tasks w)
      /\ exists pre colors,
           written (shared w)
           = (pre ++ [(summaryFile cfg,
                       ExecutionSummary (executionSummary (shared w))
                         (browserSummaries (shared w)) colors)])%list
           /\ no_summary pre
  end.

End Reporter.

(** ** Concrete inputs used in examples *)

Module Examples.

(** A rule violated by two images, one of which is hidden at scan time. *)
Definition two_images : Scanner.AxeViolation :=
  {| Scanner.v_id := "image-alt";
     Scanner.v_description := "Images must have alternate text";
     Scanner.v_impact := Some "critical";
     Scanner.v_helpUrl := "https://dequeuniversity.com/rules/axe/4.8/image-alt";
     Scanner.v_help := "Images must have alternate text";
     Scanner.v_tags := ["cat.text-alternatives"; "wcag2a"; "wcag111"];
     Scanner.v_nodes :=
       [ {| Scanner.node_html := Some "<img src='hero.png'>";
            Scanner.node_target := ["#hero > img"] |};
         {| Scanner.node_html := Some "<img src='menu.png'>";
            Scanner.node_target := ["#menu > img"] |} ] |}.

Definition only_hero_visible (_ : nat) (selector : string) : bool :=
  String.eqb selector "#hero > img".

Definition everything_visible (_ : nat) (_ : string) : bool := true.

Definition nothing_visible (_ : nat) (_ : string) : bool := false.

Definition no_capture (_ : string) : string := "".

Definition no_json (_ : list string) : string := "[]".

(** The trace of a test that opens a menu inside a hook-wrapped group and
    clicks an item. *)
Definition menu_trace : list TestStep :=
  [ mkTestStep "hook" "Before Hooks" [];
    mkTestStep "test.step" "Open menu"
      [ mkTestStep "pw:api" "page.click" [] ];
    mkTestStep "test.step" "Click item" [] ].

Definition menu_target : Target :=
  {| element := "#menu > a";
     snippet := "#menu > a";
     html := "<a href='#'></a>";
     screenshot := "a11y-link-name-0.png";
     steps := Some ["Open menu"];
     stepsJson := None;
     screenshotBase64 := "" |}.

Definition menu_error : A11yError :=
  {| id := "link-name";
     description := "Links must have discernible text";
     wcagRule := "wcag244";
     severity := "serious";
     help := "Links must have discernible text";
     helpUrl := "https://dequeuniversity.com/rules/axe/4.8/link-name";
     guideline := "wcag2a";
     total := Some 1%Z;
     target := Some [menu_target] |}.

Definition menu_payload : ReportData :=
  {| pageKey := Some "https://shop.example/menu";
     accessibilityScore := 0;
     video := None;
     errors := Some [menu_error];
     criticalColor := None;
     seriousColor := None;
     moderateColor := None;
     minorColor := None;
     adoOrganization := None;
     adoProject := None |}.

Definition no_steps_json (_ : option (list string)) : option string := None.

(** Three recordings of a test: one never flushed, a partial one and the
    final one. *)
Definition video_fs : Assets.Fs := fun _ p =>
  if String.eqb p "/tmp/run/empty.webm" then Assets.Sized 0
  else if String.eqb p "/tmp/run/partial.webm" then Assets.Sized 512
  else if String.eqb p "/tmp/run/final.webm" then Assets.Sized 2048
  else Assets.Missing.

Definition video_at (p : string) : Attachment :=
  {| att_name := "video"; att_path := Some p; att_body := None |}.

Definition three_videos : list Attachment :=
  [ video_at "/tmp/run/empty.webm";
    video_at "/tmp/run/partial.webm";
    video_at "/tmp/run/final.webm" ].

Definition copy_ok (_ : string) : bool := false.

(** A payload reporting three targets for the rule [color-contrast]. *)
Definition contrast_error : A11yError :=
  {| id := "color-contrast";
     description := "Elements must meet minimum color contrast ratio";
     wcagRule := "wcag143";
     severity := "serious";
     help := "Elements must meet minimum color contrast ratio thresholds";
     helpUrl := "https://dequeuniversity.com/rules/axe/4.8/color-contrast";
     guideline := "wcag2aa";
     total := Some 3%Z;
     target := Some [] |}.

Definition contrast_payload : ReportData :=
  {| pageKey := Some "https://shop.example/cart";
     accessibilityScore := 0;
     video := Some "a11y-scan-video.webm";
     errors := Some [contrast_error];
     criticalColor := Some "critical";
     seriousColor := Some "serious";
     moderateColor := Some "moderate";
     minorColor := Some "minor";
     adoOrganization := Some "";
     adoProject := Some "" |}.

Definition empty_payload : ReportData :=
  {| pageKey := None; accessibilityScore := 0; video := None; errors := None;
     criticalColor := None; seriousColor := None; moderateColor := None;
     minorColor := None; adoOrganization := None; adoProject := None |}.

(** A parser that knows three texts; any other text is not JSON. *)
Definition parse_known (text : string) : Reporter.JsonResult :=
  if String.eqb text "{contrast}" then Reporter.JsonObject contrast_payload
  else if String.eqb text "{menu}" then Reporter.JsonObject menu_payload
  else if String.eqb text "{}" then Reporter.JsonObject empty_payload
  else Reporter.JsonThrows "SyntaxError: Unexpected token".

(** The same parser, which also knows the text [null]. *)
Definition parse_with_null (text : string) : Reporter.JsonResult :=
  if String.eqb text "null" then Reporter.JsonPrimitive else parse_known text.

(** A payload reporting three targets for a rule whose id is the name of a
    member of [Object.prototype]. *)
Definition constructor_error : A11yError :=
  {| id := "constructor";
     description := "Custom rule";
     wcagRule := "wcag111";
     severity := "serious";
     help := "Custom rule";
     helpUrl := "https://rules.example/constructor";
     guideline := "wcag2a";
     total := Some 3%Z;
     target := Some [] |}.

Definition constructor_payload : ReportData :=
  {| pageKey := Some "https://shop.example/cart";
     accessibilityScore := 0;
     video := None;
     errors := Some [constructor_error];
     criticalColor := None;
     seriousColor := None;
     moderateColor := None;
     minorColor := None;
     adoOrganization := None;
     adoProject := None |}.

(** The parser [parse_known], which also knows the text of that payload. *)
Definition parse_with_constructor (text : string) : Reporter.JsonResult :=
  if String.eqb text "{constructor}"
  then Reporter.JsonObject constructor_payload
  else parse_known text.

Definition quiet_env : Reporter.Env :=
  {| Reporter.JSON_parse := parse_known;
     Reporter.existsSync := fun _ => false;
     Reporter.readFileSync := fun _ => inr "ENOENT";
     Reporter.render_throws := fun _ _ => false;
     Reporter.copyTestVideo := fun _ _ => "";
     Reporter.copyScreenshots := fun _ _ => Some [];
     Reporter.copyPngAttachments := fun _ _ => Some [];
     Reporter.copyAllOtherAttachments := fun _ _ => Some [];
     Reporter.ansiToHtml := fun s => s;
     Reporter.formatDuration := fun _ => "1.0s";
     Reporter.path_relative := fun _ f => f |}.

Definition null_env : Reporter.Env :=
  {| Reporter.JSON_parse := parse_with_null;
     Reporter.existsSync := fun _ => false;
     Reporter.readFileSync := fun _ => inr "ENOENT";
     Reporter.render_throws := fun _ _ => false;
     Reporter.copyTestVideo := fun _ _ => "";
     Reporter.copyScreenshots := fun _ _ => Some [];
     Reporter.copyPngAttachments := fun _ _ => Some [];
     Reporter.copyAllOtherAttachments := fun _ _ => Some [];
     Reporter.ansiToHtml := fun s => s;
     Reporter.formatDuration := fun _ => "1.0s";
     Reporter.path_relative := fun _ f => f |}.

Definition constructor_env : Reporter.Env :=
  {| Reporter.JSON_parse := parse_with_constructor;
     Reporter.existsSync := fun _ => false;
     Reporter.readFileSync := fun _ => inr "ENOENT";
     Reporter.render_throws := fun _ _ => false;
     Reporter.copyTestVideo := fun _ _ => "";
     Reporter.copyScreenshots := fun _ _ => Some [];
     Reporter.copyPngAttachments := fun _ _ => Some [];
     Reporter.copyAllOtherAttachments := fun _ _ => Some [];
     Reporter.ansiToHtml := fun s => s;
     Reporter.formatDuration := fun _ => "1.0s";
     Reporter.path_relative := fun _ f => f |}.

Definition default_config : Reporter.Config :=
  {| Reporter.options :=
       {| Reporter.opt_outputFolder := None;
          Reporter.opt_colors := None;
          Reporter.opt_ado := None |};
     Reporter.outputFolder := "/work/steps-report";
     Reporter.projectRoot := "/work/tests" |}.

Definition a11y_body (text : string) : Attachment :=
  {| att_name := "A11y"; att_path := None; att_body := Some text |}.

Definition test_named (name : string) (attempts : nat) : Reporter.TestCase :=
  {| Reporter.title := name;
     Reporter.location_file := "cart.spec.ts";
     Reporter.tags := [];
     Reporter.annotations := [];
     Reporter.project_name := Some "chromium";
     Reporter.results_length := attempts;
     Reporter.retries := 2 |}.

(** A test of the project [project]. *)
Definition test_in (project name : string) : Reporter.TestCase :=
  {| Reporter.title := name;
     Reporter.location_file := "cart.spec.ts";
     Reporter.tags := [];
     Reporter.annotations := [];
     Reporter.project_name := Some project;
     Reporter.results_length := 1;
     Reporter.retries := 0 |}.

Definition result_with (st : Status) (atts : list Attachment)
    : Reporter.TestResult :=
  {| Reporter.status := st;
     Reporter.duration := 1000;
     Reporter.attachments := atts;
     Reporter.result_errors := [] |}.

Definition run_passed : Reporter.FullResult :=
  {| Reporter.full_status := "passed"; Reporter.full_duration := 2000 |}.

(** Two tests, each with one scan reporting three targets for the same
    rule; the two tasks are interleaved. *)
Definition two_scans : list Reporter.Event :=
  [ Reporter.EvTestEnd (test_named "Cart page" 1)
      (result_with passed [a11y_body "{contrast}"]);
    Reporter.EvTestEnd (test_named "Checkout page" 1)
      (result_with passed [a11y_body "{contrast}"]);
    Reporter.EvResume 0; Reporter.EvResume 1;
    Reporter.EvResume 1; Reporter.EvResume 0;
    Reporter.EvResume 0; Reporter.EvResume 1;
    Reporter.EvEnd run_passed;
    Reporter.EvEndResume; Reporter.EvEndResume ].

(** One test with two scans, each reporting three targets for the rule
    [constructor], followed by the end of the run. *)
Definition two_constructor_scans : list Reporter.Event :=
  [ Reporter.EvTestEnd (test_named "Cart page" 1)
      (result_with passed
         [a11y_body "{constructor}"; a11y_body "{constructor}"]);
    Reporter.EvResume 0; Reporter.EvResume 0; Reporter.EvResume 0;
    Reporter.EvResume 0;
    Reporter.EvEnd run_passed;
    Reporter.EvEndResume; Reporter.EvEndResume ].

(** One test with a scan, a payload whose text is [null], and a second
    scan, followed by the end of the run. *)
Definition one_null_payload : list Reporter.Event :=
  [ Reporter.EvTestEnd (test_named "Cart page" 1)
      (result_with failed
         [a11y_body "{contrast}"; a11y_body "null"; a11y_body "{menu}"]);
    Reporter.EvResume 0; Reporter.EvResume 0; Reporter.EvResume 0;
    Reporter.EvResume 0;
    Reporter.EvEnd run_passed;
    Reporter.EvEndResume; Reporter.EvEndResume ].

(** Two tests of a project named [constructor]: one without scan, one with
    a scan that reports errors. *)
Definition constructor_project : list Reporter.Event :=
  [ Reporter.EvTestEnd (test_in "constructor" "Home page")
      (result_with passed []);
    Reporter.EvTestEnd (test_in "constructor" "Cart page")
      (result_with passed [a11y_body "{contrast}"]);
    Reporter.EvResume 0; Reporter.EvResume 0;
    Reporter.EvResume 1; Reporter.EvResume 1; Reporter.EvResume 1 ].

(** A test in a file whose path relative to the project root is [file]. *)
Definition test_at (file name : string) : Reporter.TestCase :=
  {| Reporter.title := name;
     Reporter.location_file := file;
     Reporter.tags := [];
     Reporter.annotations := [];
     Reporter.project_name := Some "chromium";
     Reporter.results_length := 1;
     Reporter.retries := 0 |}.

(** One test, without scan, in a file named [constructor] at the project
    root. *)
Definition constructor_file : list Reporter.Event :=
  [ Reporter.EvTestEnd (test_at "constructor" "Home page")
      (result_with passed []);
    Reporter.EvResume 0; Reporter.EvResume 0 ].

(** One test with a scan, a payload that is not JSON, and a second scan. *)
Definition one_bad_payload : list Reporter.Event :=
  [ Reporter.EvTestEnd (test_named "Cart page" 1)
      (result_with failed
         [a11y_body "{contrast}"; a11y_body "<html>"; a11y_body "{menu}"]);
    Reporter.EvResume 0; Reporter.EvResume 0; Reporter.EvResume 0;
    Reporter.EvResume 0 ].

(** A run in which one test times out and one passes on its second
    attempt. *)
Definition timeout_and_retry : list Reporter.Event :=
  [ Reporter.EvTestEnd (test_named "Slow page" 1) (result_with timedOut []);
    Reporter.EvTestEnd (test_named "Flaky page" 2) (result_with passed []);
    Reporter.EvResume 0; Reporter.EvResume 1;
    Reporter.EvResume 0; Reporter.EvResume 1 ].

End Examples.

(** ** Shapes of names *)

Module Shape.

(** [s.startsWith('-')] and [s.endsWith('-')] *)
Definition starts_hyphen (s : string) : bool :=
  match s with
  | String c _ => Js.is_hyphen c
  | EmptyString => false
  end.

Fixpoint ends_hyphen (s : string) : bool :=
  match s with
  | EmptyString => false
  | String c EmptyString => Js.is_hyphen c
  | String _ r => ends_hyphen r
  end.

(** [s.includes('--')] *)
Fixpoint double_hyphen (s : string) : bool :=
  match s with
  | EmptyString => false
  | String a r => (Js.is_hyphen a && starts_hyphen r) || double_hyphen r
  end.

Fixpoint all_chars (P : ascii -> bool) (s : string) : bool :=
  match s with
  | EmptyString => true
  | String c r => P c && all_chars P r
  end.

(** The characters of [[a-z0-9-]]. *)
Definition is_name_char (c : ascii) : bool :=
  Js.is_lower c || Js.is_digit c || Js.is_hyphen c.

End Shape.

(** ** Vocabulary of further statements about runs *)

Module Runs.

Import Reporter.

(** The group of the test's file exists in the grouped results, unless its
    name is inherited. *)
Definition grouped (cfg : Config) (env : Env) (sh : Shared) (c : Ctx) : Prop :=
  Js.inherited (fileGroup cfg env c) = false ->
  has_group (fileGroup cfg env c) (groupedResults (executionSummary sh)) = true.

(** The test's index is one of the indexes handed out so far. *)
Definition indexed (sh : Shared) (c : Ctx) : Prop :=
  (1 <= index0 c <= testIndex sh)%nat.

(** [testIndex] counts the tasks, and the task started by the n-th test-end
    call holds the index n. *)
Definition indexes_ok (w : World) : Prop :=
  testIndex (shared w) = length (tasks w)
  /\ forall i t, tasks w !! i = Some t -> index0 (ctx t) = S i.

(** What holds of a task in any run: its group exists, and once it has
    passed its first [await] its locals satisfy [L]. *)
Definition task_inv (cfg : Config) (env : Env) (L : Ctx -> Locals -> Prop)
    (sh : Shared) (t : Task) : Prop :=
  grouped cfg env sh (ctx t)
  /\ match pc t with
     | AwaitScanRender _ _ | AwaitExecRender | Fulfilled =>
         L (ctx t) (locals t)
     | AwaitVideo | Rejected _ => True
     end.

(** *** Counters against records *)

Definition has_status (st : Status) (r : TestResults) : bool :=
  status_eqb (tr_status r) st.

Definition in_browser (b : string) (r : TestResults) : bool :=
  String.eqb (browser r) b.

(** [browserSummaries[b]], or the summary a browser starts with when the
    reporter has not seen it yet. *)
Definition browser_summary (sh : Shared) (b : string) : TestSummary :=
  default empty_browser_summary (browserSummaries sh !! b).

(** The four test counters of a summary are the numbers of records, among
    those selected by [sel], in all and by status. *)
Definition counts_records (sel : TestResults -> bool) (S : TestSummary)
    (G : Groups) : Prop :=
  total S = countP sel G
  /\ totalPassed S = countP (fun r => sel r && has_status passed r) G
  /\ totalFailed S = countP (fun r => sel r && has_status failed r) G
  /\ totalSkipped S = countP (fun r => sel r && has_status skipped r) G.

(** No browser summary bears a name inherited from [Object.prototype]. *)
Definition own_browsers (sh : Shared) : Prop :=
  forall b, Js.inherited b = true -> browserSummaries sh !! b = None.

(** The counters of the global summary are exact. *)
Definition global_exact (sh : Shared) : Prop :=
  counts_records (fun _ => true) (executionSummary sh)
    (groupedResults (executionSummary sh)).

(** The counters are exact in the browser summary of every name that is not
    inherited, and no summary bears an inherited name. *)
Definition browsers_exact (sh : Shared) : Prop :=
  (forall b, Js.inherited b = false ->
     counts_records (in_browser b) (browser_summary sh b)
       (groupedResults (executionSummary sh)))
  /\ own_browsers sh.

(** The relative path of the test's file, the key of its group, is not a
    name inherited from [Object.prototype]. *)
Definition ordinary_file (cfg : Config) (env : Env)
    (tr : TestCase * TestResult) : Prop :=
  Js.inherited (path_relative env (projectRoot cfg) (location_file (fst tr)))
  = false.

(** One more test of status [st] counted in [S']. *)
Definition bumps (st : Status) (S S' : TestSummary) : Prop :=
  total S' = (total S + 1)%nat
  /\ totalPassed S'
     = (totalPassed S + if status_eqb st passed then 1 else 0)%nat
  /\ totalFailed S'
     = (totalFailed S + if status_eqb st failed then 1 else 0)%nat
  /\ totalSkipped S'
     = (totalSkipped S + if status_eqb st skipped then 1 else 0)%nat.

(** The same test counters in both summaries. *)
Definition same_counters (S S' : TestSummary) : Prop :=
  total S' = total S /\ totalPassed S' = totalPassed S
  /\ totalFailed S' = totalFailed S /\ totalSkipped S' = totalSkipped S.

(** *** Sums *)

(** The sum of a quantity over the entries of a dictionary. *)
Definition sum_over {A : Type} (g : A -> Z) (m : gmap string A) : Z :=
  map_fold (fun _ x acc => (g x + acc)%Z) 0%Z m.

(** The sum of the per-rule counts of a summary is its total. *)
Definition rules_add_up (S : TestSummary) : Prop :=
  sum_over count (wcagErrors S) = totalA11yErrorCount S.

(** The accessibility totals add up per rule, within the global summary
    and within each browser summary. *)
Definition rules_ok (sh : Shared) : Prop :=
  rules_add_up (executionSummary sh)
  /\ (forall b bS, browserSummaries sh !! b = Some bS -> rules_add_up bS).

(** The global accessibility total is the sum of those of the browser
    summaries. *)
Definition a11y_browsers_ok (sh : Shared) : Prop :=
  sum_over totalA11yErrorCount (browserSummaries sh)
  = totalA11yErrorCount (executionSummary sh).

(** Every error record of every payload of the test that parses bears a
    rule id that is not inherited from [Object.prototype]. *)
Definition ordinary_rules (env : Env) (tr : TestCase * TestResult) : Prop :=
  forall e, In e (test_errors env (fst tr) (snd tr)) ->
    Js.inherited (id e) = false.

(** The test's project, as [browserName] reads it, has a name that is not
    inherited from [Object.prototype]. *)
Definition ordinary_project (tr : TestCase * TestResult) : Prop :=
  Js.inherited (Js.or_default (project_name (fst tr)) "unknown") = false.

(** What a task needs for its folds to keep [rules_ok]. *)
Definition rules_task (env : Env) (t : Task) : Prop :=
  task_errors_ok env t /\ ordinary_rules env (test_of t).

(** The record of a test whose browser bears an inherited name. *)
Definition prototype_named (r : TestResults) : bool :=
  Js.inherited (browser r).

(** The test counters of the global summary are the sums of those of the
    browser summaries, plus the records of the tests that are counted in
    no browser summary. *)
Definition browsers_add_up (sh : Shared) : Prop :=
  let S := executionSummary sh in
  let B := browserSummaries sh in
  let G := groupedResults S in
  let lost (sel : TestResults -> bool) :=
    Z.of_nat (countP (fun r => prototype_named r && sel r) G) in
  (sum_over (fun bS => Z.of_nat (total bS)) B + lost (fun _ => true)
   = Z.of_nat (total S))%Z
  /\ (sum_over (fun bS => Z.of_nat (totalPassed bS)) B
      + lost (has_status passed) = Z.of_nat (totalPassed S))%Z
  /\ (sum_over (fun bS => Z.of_nat (totalFailed bS)) B
      + lost (has_status failed) = Z.of_nat (totalFailed S))%Z
  /\ (sum_over (fun bS => Z.of_nat (totalSkipped bS)) B
      + lost (has_status skipped) = Z.of_nat (totalSkipped S))%Z
  /\ own_browsers sh.

(** What a browser summary never holds. *)
Definition counters_only (bS : TestSummary) : Prop :=
  totalFlaky bS = 0%nat /\ groupedResults bS = []
  /\ s_duration bS = "0s" /\ s_status bS = "" /\ s_statusIcon bS = "".

(** *** Accessibility counts of tests *)

(** The test's running count is the sum of [total || 0] over the error
    records it has aggregated. *)
Definition count_matches_errors (_ : Ctx) (l : Locals) : Prop :=
  l_a11yErrorCount l = scanErrorCount (l_aggregatedA11yErrors l).

Definition records_consistent (sh : Shared) : Prop :=
  forall r, In r (records (groupedResults (executionSummary sh))) ->
    a11yErrorCount r = scanErrorCount (a11yErrors r).

(** What a task has added to the accessibility total so far. *)
Definition folded_count (t : Task) : Z := l_a11yErrorCount (locals t).

(** The same, once the test's record holds it. *)
Definition recorded_count (t : Task) : Z :=
  if aggregated_pc (pc t) then l_a11yErrorCount (locals t) else 0%Z.

(** The same, as long as no record holds it. *)
Definition pending_count (t : Task) : Z :=
  if aggregated_pc (pc t) then 0%Z else l_a11yErrorCount (locals t).

(** A task that has not passed its first [await] has counted nothing. *)
Definition fresh_count (t : Task) : Prop :=
  match pc t with
  | AwaitVideo => l_a11yErrorCount (locals t) = 0%Z
  | _ => True
  end.

(** *** Tests, folders and records *)

(** The record was built for the folder [f]. *)
Definition in_folder (f : string) (r : TestResults) : bool :=
  String.eqb (folderName r) f.

(** The task has reached the final aggregation and its folder is [f]. *)
Definition recorded_in (f : string) (t : Task) : bool :=
  aggregated_pc (pc t) && String.eqb (testFolderName (ctx t)) f.

Definition recorded_weight (f : string) (t : Task) : Z :=
  if recorded_in f t then 1%Z else 0%Z.

(** Every record names the folder of a test whose index is at most the
    record's number, itself at most the number of tests started. *)
Definition numbers_ok (sh : Shared) : Prop :=
  forall r, In r (records (groupedResults (executionSummary sh))) ->
    exists c, folderName r = testFolderName c
              /\ (1 <= index0 c <= num r)%nat
              /\ (num r <= testIndex sh)%nat.

(** *** The files of a run *)

(** What the reporter writes: the report of a scan and the execution report
    in the folder of a test, and the summary of the run. *)
Inductive produced (cfg : Config) (env : Env) : string * Doc -> Prop :=
| produced_scan (c : Ctx) (index : nat) (rd : ReportData) (video : string) :
    produced cfg env
      (Js.path_join (testResultsFolder cfg c)
         (Naming.a11yReportName (length (sources c)) index (title (test c))
            (pageKey rd)),
       AccessibilityReport (configure (options cfg) video rd)
         (testResultsFolder cfg c))
| produced_exec (c : Ctx) (l : Locals) (sh : Shared) :
    produced cfg env
      (Js.path_join (testResultsFolder cfg c)
         ("execution-" +:+ sanitizedTitle c +:+ ".html"),
       ExecutionReport (testStats cfg env c l sh) (colors_of (options cfg)))
| produced_summary (S : TestSummary) (B : gmap string TestSummary) :
    produced cfg env
      (summaryFile cfg, ExecutionSummary S B (colors_of (options cfg))).

(** The files of [sh'] are those of [sh] followed by files the reporter
    writes. *)
Definition extends (cfg : Config) (env : Env) (sh sh' : Shared) : Prop :=
  exists new, written sh' = (written sh ++ new)%list
              /\ List.Forall (produced cfg env) new.

(** *** The report a test's record links to *)

(** The report names of the sources that parse, in order. *)
Definition parsed_names (env : Env) (c : Ctx) (srcs : list (nat * Source))
    : list string :=
  List.concat
    (List.map (fun s =>
       match read_source env (snd s) with
       | Parsed rd =>
           [Naming.a11yReportName (length (sources c)) (fst s)
              (title (test c)) (pageKey rd)]
       | _ => []
       end) srcs).

(** The last of a list of names, or [acc] when there is none. *)
Definition last_name (acc : option string) (names : list string)
    : option string :=
  List.last (List.map Some names) acc.

(** What [a11yReportPath] holds, against the sources of the test. *)
Definition report_path_ok (env : Env) (t : Task) : Prop :=
  let c := ctx t in
  let path := l_a11yReportPath (locals t) in
  match pc t with
  | AwaitScanRender _ rest =>
      last_name path (parsed_names env c rest)
      = last_name None (parsed_names env c (all_sources c))
  | AwaitExecRender | Fulfilled =>
      path = last_name None (parsed_names env c (all_sources c))
  | AwaitVideo | Rejected _ => True
  end.

End Runs.

(** ** Vocabulary of further statements about the scan aggregator *)

Module Evidence.

Import Scanner.

Section Visible.

Variable isVisible : nat -> string -> bool.

(** The selectors, among [sels] queried in order from query number [q],
    for which the page answered that the element is visible. *)
Fixpoint visible_from (q : nat) (sels : list string) : list string :=
  match sels with
  | [] => []
  | s :: r =>
      if isVisible q s then s :: visible_from (S q) r
      else visible_from (S q) r
  end.

End Visible.

(** [a11y-${violation.id}-${k}.png] *)
Definition screenshot_name (rule : string) (k : nat) : string :=
  "a11y-" +:+ rule +:+ "-" +:+ pretty k +:+ ".png".

(** The selector comes from a node of the violation, whose markup the
    target carries. *)
Definition from_node (v : AxeViolation) (t : Target) : Prop :=
  exists node, In node (v_nodes v)
               /\ In (element t) (node_target node)
               /\ html t = Js.or_default (node_html node) "".

Section Shots.

Variable captureBase64 : string -> string.
Variable stringify : list string -> string.
Variable annotations : list Annotation.

(** What holds of the target at position [k] of a violation's list. *)
Definition evidence_at (v : AxeViolation) (k : nat) (t : Target) : Prop :=
  screenshot t = screenshot_name (v_id v) k
  /\ snippet t = element t
  /\ steps t = Some (contextSteps annotations)
  /\ stepsJson t = Some (stringify (contextSteps annotations))
  /\ screenshotBase64 t = captureBase64 (screenshot_name (v_id v) k).

Definition evidence_ok (v : AxeViolation) (st : ScanState) : Prop :=
  errorIdx st = length (targets st)
  /\ forall k t, targets st !! k = Some t -> evidence_at v k t.

End Shots.

End Evidence.

(** ** The rule aggregate of the legacy reporter ([onTestEnd], the
    [forEach] over [reportData.errors]) *)

Module LegacySummary.

(** An entry of [summary.wcagErrors]: the legacy reporter stores no
    description. *)
Record Entry := mkEntry {
  e_count : Z;
  e_severity : string;
  e_helpUrl : string
}.

(** [if (!summary.wcagErrors[ruleId]) summary.wcagErrors[ruleId] = {...}]:
    the read finds an entry of that name, or else the member that a name of
    [Object.prototype] inherits; only when it finds neither is the entry
    created. *)
Definition ensure_rule (err : A11yError) (m : gmap string Entry)
    : gmap string Entry :=
  match m !! id err with
  | Some _ => m
  | None =>
      if Js.inherited (id err) then m
      else <[id err := {| e_count := 0; e_severity := severity err;
                          e_helpUrl := helpUrl err |}]> m
  end.

(** The aggregation part of the body of [reportData.errors.forEach].  When
    the aggregate has no entry of that name after the first statement, the
    name is inherited and [count] is written on the inherited member: no
    entry changes. *)
Definition add_wcag (m : gmap string Entry) (err : A11yError)
    : gmap string Entry :=
  let m1 := ensure_rule err m in
  match m1 !! id err with
  | Some entry =>
      <[id err := {| e_count := (e_count entry + total_or_0 err)%Z;
                     e_severity := e_severity entry;
                     e_helpUrl := e_helpUrl entry |}]> m1
  | None => m1
  end.

(** The effect on [summary.wcagErrors] of the block guarded by
    [playwrightSteps.length > 0 && reportData.errors]. *)
Definition aggregate (resultSteps : option (list TestStep)) (rd : ReportData)
    (m : gmap string Entry) : gmap string Entry :=
  match Legacy.getTestSteps resultSteps, errors rd with
  | _ :: _, Some errs => fold_left add_wcag errs m
  | _, _ => m
  end.

Definition rule_count (m : gmap string Entry) (rule : string) : Z :=
  match m !! rule with
  | Some e => e_count e
  | None => 0%Z
  end.

(** [fileName] of the accessibility report: [a11y${testNo}.html] unless the
    page key sanitizes to a name. *)
Definition fileName (testNo : nat) (pageKey : option string) : string :=
  let generic := "a11y" +:+ pretty testNo +:+ ".html" in
  match pageKey with
  | Some pk =>
      if Js.truthy pk then
        let key := Naming.sanitizedKey pk in
        if Js.truthy key then key +:+ ".html" else generic
      else generic
  | None => generic
  end.

(** What the enrichment leaves alone in an error record. *)
Definition counted_part (e : A11yError)
    : string * option Z * string * option nat :=
  (id e, total e, severity e, option_map (@length Target) (target e)).

End LegacySummary.

(** ** Copies of attachments (A11yReportAssets.ts, [copyToFolder],
    [copyScreenshots], [copyPngAttachments], [copyAllOtherAttachments] and
    [writeBuffer]) *)

Module Copies.

(** [s.endsWith(suffix)]: some suffix of [s] is [suffix]. *)
Fixpoint ends_with (suffix s : string) : bool :=
  if String.eqb s suffix then true
  else match s with
       | EmptyString => false
       | String _ r => ends_with suffix r
       end.

(** *** Which function handles which attachment *)

(** [a.name === 'screenshot'] *)
Definition is_screenshot (a : Attachment) : bool :=
  String.eqb (att_name a) "screenshot".

(** [a.name.endsWith('.png') && a.name !== 'screenshot'] *)
Definition is_png (a : Attachment) : bool :=
  ends_with ".png" (att_name a) && negb (String.eqb (att_name a) "screenshot").

(** [excludedNames.includes(a.name)] for
    [excludedNames = \['screenshot', 'video', 'A11y'\]] *)
Definition is_excluded (a : Attachment) : bool :=
  String.eqb (att_name a) "screenshot" || String.eqb (att_name a) "video"
  || String.eqb (att_name a) "A11y".

(** [!excludedNames.includes(a.name) && !a.name.endsWith('.png')] *)
Definition is_other (a : Attachment) : bool :=
  negb (is_excluded a) && negb (ends_with ".png" (att_name a)).

(** [a.name === 'A11y']: the payloads read by the reporter. *)
Definition is_a11y (a : Attachment) : bool := String.eqb (att_name a) "A11y".

Definition one_if (b : bool) : nat := if b then 1 else 0.

(** *** The disk *)

(** The regular files, by path, with their content, and the folders. *)
Record Fs := mkFs {
  files : gmap string string;
  dirs : gset string
}.

Definition existsSync (fs : Fs) (p : string) : bool :=
  bool_decide (is_Some (files fs !! p)) || bool_decide (p ∈ dirs fs).

Definition set_file (p content : string) (fs : Fs) : Fs :=
  {| files := <[p := content]> (files fs); dirs := dirs fs |}.

Definition add_dir (p : string) (fs : Fs) : Fs :=
  {| files := files fs; dirs := {[ p ]} ∪ dirs fs |}.

Section Calls.

(** [path.join] and [path.basename]. *)
Variable join : string -> string -> string.
Variable basename : string -> string.
(** The failures of the file system that the disk above does not describe
    (permissions, a parent that is not a folder, a full disk): whether
    [mkdirSync], [copyFileSync] and [writeFileSync] throw for them. *)
Variable mkdir_fails : string -> bool.
Variable copy_fails : string -> string -> bool.
Variable write_fails : string -> bool.
(** [Date.now()] at its n-th call. *)
Variable now : nat -> nat.

(** A call either returns a value with the disk it leaves, or throws:
    [None]. *)

(** [if (!fs.existsSync(destFolder)) fs.mkdirSync(destFolder, ...)]; the
    folders above [destFolder], which are created with it, are not
    followed. *)
Definition ensure_folder (fs : Fs) (destFolder : string) : option Fs :=
  if existsSync fs destFolder then Some fs
  else if mkdir_fails destFolder then None
  else Some (add_dir destFolder fs).

(** [fs.copyFileSync(src, dest)]: the source must be a regular file and
    the destination must not be a folder. *)
Definition copyFileSync (fs : Fs) (src dest : string) : option Fs :=
  match files fs !! src with
  | Some content =>
      if bool_decide (dest ∈ dirs fs) || copy_fails src dest then None
      else Some (set_file dest content fs)
  | None => None
  end.

(** [fs.writeFileSync(dest, buffer)] *)
Definition writeFileSync (fs : Fs) (dest buffer : string) : option Fs :=
  if bool_decide (dest ∈ dirs fs) || write_fails dest then None
  else Some (set_file dest buffer fs).

Definition copyToFolder (fs : Fs) (destFolder srcPath : string)
    (fileName : option string) : option (Fs * string) :=
  if negb (Js.truthy srcPath) || negb (existsSync fs srcPath)
  then Some (fs, "")
  else
    let name := Js.or_default fileName (basename srcPath) in
    let destFile := join destFolder name in
    fs1 ← ensure_folder fs destFolder;
    fs2 ← copyFileSync fs1 srcPath destFile;
    Some (fs2, name).

Definition writeBuffer (fs : Fs) (destFolder fileName buffer : string)
    : option (Fs * string) :=
  fs1 ← ensure_folder fs destFolder;
  fs2 ← writeFileSync fs1 (join destFolder fileName) buffer;
  Some (fs2, fileName).

(** [a.path] in a boolean position. *)
Definition truthy_path (a : Attachment) : option string :=
  match att_path a with
  | Some p => if Js.truthy p then Some p else None
  | None => None
  end.

(** The callback of [map] in [copyPngAttachments] and in
    [copyAllOtherAttachments]: the entry, or [null]. *)
Definition copy_named (destFolder : string) (fs : Fs) (a : Attachment)
    : option (Fs * option (string * string)) :=
  let entry (name : string) :=
    if Js.truthy name then Some (name, att_name a) else None in
  match truthy_path a with
  | Some p =>
      '(fs', name) ← copyToFolder fs destFolder p (Some (att_name a));
      Some (fs', entry name)
  | None =>
      match att_body a with
      | Some body =>
          '(fs', name) ← writeBuffer fs destFolder (att_name a) body;
          Some (fs', entry name)
      | None => Some (fs, entry "")
      end
  end.

(** [list.map(f)] for a callback with effects on the disk: the calls are
    made in order, and an exception ends the whole call. *)
Fixpoint map_disk {X : Type} (f : Fs -> Attachment -> option (Fs * X))
    (fs : Fs) (l : list Attachment) : option (Fs * list X) :=
  match l with
  | [] => Some (fs, [])
  | a :: r =>
      '(fs1, x) ← f fs a;
      '(fs2, xs) ← map_disk f fs1 r;
      Some (fs2, x :: xs)
  end.

(** [.filter(item => item !== null)] *)
Definition non_null {X : Type} (l : list (option X)) : list X :=
  List.concat (List.map (fun o => match o with Some x => [x] | None => [] end) l).

Definition copyPngAttachments (fs : Fs) (attachments : list Attachment)
    (destFolder : string) : option (Fs * list (string * string)) :=
  '(fs', items) ← map_disk (copy_named destFolder) fs
                    (List.filter is_png attachments);
  Some (fs', non_null items).

Definition copyAllOtherAttachments (fs : Fs) (attachments : list Attachment)
    (destFolder : string) : option (Fs * list (string * string)) :=
  '(fs', items) ← map_disk (copy_named destFolder) fs
                    (List.filter is_other attachments);
  Some (fs', non_null items).

(** The callback of [map] in [copyScreenshots], with the number of calls
    of [Date.now()] made so far. *)
Definition copy_shot (destFolder : string) (st : Fs * nat) (a : Attachment)
    : option ((Fs * nat) * string) :=
  let '(fs, calls) := st in
  match truthy_path a with
  | Some p =>
      '(fs', name) ← copyToFolder fs destFolder p None;
      Some ((fs', calls), name)
  | None =>
      match att_body a with
      | Some body =>
          '(fs', name) ←
            writeBuffer fs destFolder
              ("screenshot-" +:+ pretty (now calls) +:+ ".png") body;
          Some ((fs', S calls), name)
      | None => Some ((fs, calls), "")
      end
  end.

Fixpoint map_shots (destFolder : string) (st : Fs * nat)
    (l : list Attachment) : option ((Fs * nat) * list string) :=
  match l with
  | [] => Some (st, [])
  | a :: r =>
      '(st1, x) ← copy_shot destFolder st a;
      '(st2, xs) ← map_shots destFolder st1 r;
      Some (st2, x :: xs)
  end.

(** [copyScreenshots(result, destFolder)], from [calls] earlier calls of
    [Date.now()]. *)
Definition copyScreenshots (fs : Fs) (calls : nat)
    (attachments : list Attachment) (destFolder : string)
    : option ((Fs * nat) * list string) :=
  '(st, names) ← map_shots destFolder (fs, calls)
                   (List.filter is_screenshot attachments);
  Some (st, List.filter (fun p => negb (String.eqb p "")) names).

(** *** Vocabulary *)

(** The name under which [copy_named] stores an attachment. *)
Definition name_of (a : Attachment) : string :=
  match truthy_path a with
  | Some p => Js.or_default (Some (att_name a)) (basename p)
  | None => att_name a
  end.

(** What [copy_named] stores for an attachment on the disk [fs]: the
    content of its file, or else its body. *)
Definition content_of (fs : Fs) (a : Attachment) : option string :=
  match truthy_path a with
  | Some p => files fs !! p
  | None => att_body a
  end.

(** The two callers of [copy_named]. *)
Inductive Kind := Png | Other.

Definition selects (k : Kind) : Attachment -> bool :=
  match k with Png => is_png | Other => is_other end.

Definition copy_kind (k : Kind) (fs : Fs) (attachments : list Attachment)
    (destFolder : string) : option (Fs * list (string * string)) :=
  match k with
  | Png => copyPngAttachments fs attachments destFolder
  | Other => copyAllOtherAttachments fs attachments destFolder
  end.

(** The file at [p] holds [content]. *)
Definition holds (fs : Fs) (p content : string) : Prop :=
  files fs !! p = Some content.

End Calls.

(** Two scans of one test that attach a screenshot under the same name, and
    the payload of the first. *)
Definition two_shots : list Attachment :=
  [ {| att_name := "a11y-image-alt-0.png"; att_path := None;
       att_body := Some "first" |};
    {| att_name := "A11y"; att_path := None; att_body := Some "{}" |};
    {| att_name := "a11y-image-alt-0.png"; att_path := None;
       att_body := Some "second" |} ].

Definition empty_disk : Fs := {| files := ∅; dirs := ∅ |}.

Definition no_failure1 (_ : string) : bool := false.
Definition no_failure2 (_ _ : string) : bool := false.

End Copies.

(** ** ANSI colours as HTML (A11yHtmlRenderer.ts, [ansiToHtml]) *)

Module Renderer.

(** The character [\u001b]. *)
Definition esc : ascii := ascii_of_nat 27.

(** The double quote. *)
Definition dq : string := String (ascii_of_nat 34) EmptyString.

(** [text.replace(/c/g, r)] for one character [c]. *)
Fixpoint replace_char (c : ascii) (r : string) (s : string) : string :=
  match s with
  | EmptyString => EmptyString
  | String x t =>
      if Ascii.eqb x c then r +:+ replace_char c r t
      else String x (replace_char c r t)
  end.

(** [s.startsWith(code)] *)
Fixpoint starts_with (code s : string) : bool :=
  match code, s with
  | EmptyString, _ => true
  | String a code', String b s' => Ascii.eqb a b && starts_with code' s'
  | String _ _, EmptyString => false
  end.

(** [s.split(code).join(tag)] for a code that is not empty: the occurrences
    of [code] are found from left to right, the search going on after each
    one; [skip] is the number of characters of the current occurrence that
    are still to pass. *)
Fixpoint replace_from (code tag : string) (skip : nat) (s : string) : string :=
  match s with
  | EmptyString => EmptyString
  | String c r =>
      match skip with
      | S k => replace_from code tag k r
      | O =>
          if starts_with code s
          then tag +:+ replace_from code tag (String.length code - 1) r
          else String c (replace_from code tag 0 r)
      end
  end.

Definition split_join (code tag s : string) : string :=
  replace_from code tag 0 s.

Definition code (n : string) : string := String esc ("[" +:+ n +:+ "m").

Definition span (style : string) : string :=
  "<span style=" +:+ dq +:+ style +:+ dq +:+ ">".

(** The entries of [map], in the order of [Object.entries]: the order in
    which the keys are written. *)
Definition map : list (string * string) :=
  [ (code "30", span "color:black");
    (code "31", span "color:red");
    (code "32", span "color:green");
    (code "33", span "color:yellow");
    (code "34", span "color:blue");
    (code "35", span "color:magenta");
    (code "36", span "color:cyan");
    (code "37", span "color:white");
    (code "0", "</span>");
    (code "2", span "opacity:0.5");
    (code "22", "</span>");
    (code "39", "</span>") ].

(** The three calls of [replace]. *)
Definition escape (text : string) : string :=
  replace_char ">" "&gt;" (replace_char "<" "&lt;" (replace_char "&" "&amp;" text)).

(** [for (const \[code, tag\] of Object.entries(map))] *)
Definition passes (table : list (string * string)) (result : string) : string :=
  fold_left (fun result e => split_join (fst e) (snd e) result) table result.

Definition ansiToHtml (text : string) : string := passes map (escape text).

(** *** One pass from left to right *)

(** What one character becomes. *)
Definition escape_one (c : ascii) : string :=
  if Ascii.eqb c "&" then "&amp;"
  else if Ascii.eqb c "<" then "&lt;"
  else if Ascii.eqb c ">" then "&gt;"
  else String c EmptyString.

(** Where a code of the table starts, its tag is written and the reading
    goes on after the code; any other character is written, [&], [<] and
    [>] as entities. *)
Fixpoint one_pass (table : list (string * string)) (skip : nat) (s : string)
    : string :=
  match s with
  | EmptyString => EmptyString
  | String c r =>
      match skip with
      | S k => one_pass table k r
      | O =>
          match List.find (fun e => starts_with (fst e) s) table with
          | Some e => snd e +:+ one_pass table (String.length (fst e) - 1) r
          | None => escape_one c +:+ one_pass table 0 r
          end
      end
  end.

(** No character of the text is [\u001b]. *)
Definition no_esc (s : string) : bool :=
  Shape.all_chars (fun c => negb (Ascii.eqb c esc)) s.

(** *** What the proof needs of a table *)

(** A code: [\u001b], then characters none of which is [\u001b], [&], [<]
    or [>]. *)
Definition is_code (c : string) : bool :=
  match c with
  | EmptyString => false
  | String x tl =>
      Ascii.eqb x esc
      && Shape.all_chars
           (fun y => negb (Ascii.eqb y esc || Ascii.eqb y "&"
                           || Ascii.eqb y "<" || Ascii.eqb y ">")) tl
  end.

(** Two strings that differ at a position that both have. *)
Fixpoint differs (x y : string) : bool :=
  match x, y with
  | String a x', String b y' => negb (Ascii.eqb a b) || differs x' y'
  | _, _ => false
  end.

(** A tag: without [\u001b], and its first character is in no code. *)
Definition is_tag (table : list (string * string)) (t : string) : bool :=
  no_esc t
  && match t with
     | EmptyString => false
     | String x _ =>
         forallb (fun e =>
                    Shape.all_chars (fun y => negb (Ascii.eqb y x)) (fst e))
                 table
     end.

Definition same_entry (e e' : string * string) : bool :=
  String.eqb (fst e) (fst e') && String.eqb (snd e) (snd e').

(** The codes are codes, the tags are tags, and two entries are the same
    or have codes none of which starts the other. *)
Definition table_ok (table : list (string * string)) : bool :=
  forallb (fun e =>
             is_code (fst e) && is_tag table (snd e)
             && forallb (fun e' => same_entry e e' || differs (fst e) (fst e'))
                        table)
          table.

End Renderer.

(** ** The other reports of a test's folder *)

Module ReportNames.

(** [`execution-${sanitizedTitle}.html`]: the execution report that
    [processTestResult] renders last in the folder of the test
    (SnapAllyReporter.ts, line 334). *)
Definition execution_report (title : string) : string :=
  "execution-" +:+ Naming.sanitizedTitle title +:+ ".html".

(** ['index.html']: the step report that the legacy reporter renders in the
    folder of the test before the accessibility report. *)
Definition step_report : string := "index.html".

End ReportNames.

(** ** Durations (A11yTimeUtils.ts, [formatDuration]) *)

Module TimeUtils.

(** A JavaScript number is a binary64 [float]; the comparisons and the
    divisions of the function are those of the floats.  What a float is
    worth is read as a sign, an integer [m] and an exponent [e]: the number
    is [m * 2 ^ e].  [Math.floor] and [%] are exact, so they are computed on
    these. *)
Inductive Num :=
| NaN
| Inf (negative : bool)
| Fin (negative : bool) (m : Z) (e : Z).

(** An integer, as [Math.floor] gives. *)
Inductive Int :=
| INaN
| IInf (negative : bool)
| IFin (z : Z).

Definition num_of (x : float) : Num :=
  match Prim2SF x with
  | S754_nan => NaN
  | S754_infinity s => Inf s
  | S754_zero s => Fin s 0 0
  | S754_finite s m e => Fin s (Zpos m) e
  end.

(** The integer nearest to [num / den], the larger one of two. *)
Definition round_half_up (num den : Z) : Z := ((2 * num + den) / (2 * den))%Z.

(** "Let n be an integer for which n / 10^f - x is as close to zero as
    possible.  If there are two such n, pick the larger n", for
    [x = m * 2 ^ e]. *)
Definition nearest (f : nat) (m e : Z) : Z :=
  if (0 <=? e)%Z then (m * 2 ^ e * 10 ^ Z.of_nat f)%Z
  else round_half_up (m * 10 ^ Z.of_nat f) (2 ^ (- e)).

(** [bound <= m * 2 ^ e] *)
Definition at_least (bound m e : Z) : bool :=
  if (0 <=? e)%Z then (bound <=? m * 2 ^ e)%Z
  else (bound * 2 ^ (- e) <=? m)%Z.

Fixpoint zeros (n : nat) : string :=
  match n with
  | O => EmptyString
  | S k => String "0" (zeros k)
  end.

Definition pad_left (width : nat) (s : string) : string :=
  zeros (width - String.length s) +:+ s.

(** The digits of [n] with a point before the last [f] of them. *)
Definition fixed_digits (f : nat) (n : Z) : string :=
  match f with
  | O => pretty n
  | S _ =>
      pretty (n / 10 ^ Z.of_nat f)%Z +:+ "." +:+
      pad_left f (pretty (n mod 10 ^ Z.of_nat f)%Z)
  end.

Section Format.

(** [Number::toString] of a number that is at least [10 ^ 21], given as
    [m * 2 ^ e]: a text with an exponent, which is left open. *)
Variable large : Z -> Z -> string.

(** [x.toFixed(f)] *)
Definition toFixed (f : nat) (x : Num) : string :=
  match x with
  | NaN => "NaN"
  | Inf s => if s then "-Infinity" else "Infinity"
  | Fin s m e =>
      let sign := if s && (0 <? m)%Z then "-" else "" in
      if at_least (10 ^ 21) m e then sign +:+ large m e
      else sign +:+ fixed_digits f (nearest f m e)
  end.

(** [Math.floor(x)] *)
Definition floor (x : Num) : Int :=
  match x with
  | NaN => INaN
  | Inf s => IInf s
  | Fin s m e =>
      if (0 <=? e)%Z then IFin (if s then - (m * 2 ^ e) else m * 2 ^ e)%Z
      else
        let d := (2 ^ (- e))%Z in
        if s then IFin (- ((m + d - 1) / d))%Z else IFin (m / d)%Z
  end.

(** [x % d] for a whole [d] above 0: the sign is that of [x]. *)
Definition remainder (x : Num) (d : Z) : Num :=
  match x with
  | NaN => NaN
  | Inf _ => NaN
  | Fin s m e =>
      if (0 <=? e)%Z then Fin s ((m * 2 ^ e) mod d)%Z 0
      else Fin s (m mod (d * 2 ^ (- e)))%Z e
  end.

(** [`${x}`] for a whole [x]. *)
Definition int_to_string (x : Int) : string :=
  match x with
  | INaN => "NaN"
  | IInf s => if s then "-Infinity" else "Infinity"
  | IFin z =>
      if (10 ^ 21 <=? Z.abs z)%Z
      then (if (z <? 0)%Z then "-" else "") +:+ large (Z.abs z) 0
      else pretty z
  end.

Definition formatDuration (ms : float) : string :=
  if (ms <? 1000)%float then toFixed 0 (num_of ms) +:+ "ms"
  else
    let seconds := (ms / 1000)%float in
    if (seconds <? 60)%float then toFixed 1 (num_of seconds) +:+ "s"
    else
      let minutes := floor (num_of (seconds / 60)%float) in
      let remainingSeconds := remainder (num_of seconds) 60 in
      int_to_string minutes +:+ "m " +:+ toFixed 0 remainingSeconds +:+ "s".

End Format.

(** *** Whole numbers of milliseconds *)

(** The float of a whole number of milliseconds. *)
Definition of_ms (n : Z) : float := PrimFloat.of_uint63 (Uint63.of_Z n).

(** [2 ^ 53] *)
Definition two53 : Z := 9007199254740992.

(** The digits that [toFixed] writes for a number that is not negative and
    is read with a mantissa below [2 ^ 53] and no positive exponent,
    computed with shifts. *)
Definition quick_digits (x : Num) (f : nat) : option Z :=
  match x with
  | Fin false m e =>
      if ((0 <=? m) && (m <? two53))%Z then
        if (e <? 0)%Z
        then Some (Z.shiftr (2 * (m * 10 ^ Z.of_nat f) + Z.shiftl 1 (- e))
                     (1 - e))
        else if (e =? 0)%Z then Some (m * 10 ^ Z.of_nat f)%Z else None
      else None
  | _ => None
  end.

(** What is tested of the whole number of milliseconds
    [60000 * q + 1000 * s + u], for [u] below 1000 and [s] below 60. *)
Definition check (q s u : Z) : bool :=
  let n := (60000 * q + 1000 * s + u)%Z in
  let x := of_ms n in
  if ((q =? 0) && (s =? 0))%Z then
    (x <? 1000)%float
    && match quick_digits (num_of x) 0 with
       | Some k => (k =? n)%Z
       | None => false
       end
  else
    let seconds := (x / 1000)%float in
    negb (x <? 1000)%float
    && if (q =? 0)%Z then
         (seconds <? 60)%float
         && match quick_digits (num_of seconds) 1 with
            | Some t =>
                ((100 * t - 50 <=? n) && (n <=? 100 * t + 50)
                 && ((n <? 59950) || (t =? 600)))%Z
            | None => false
            end
       else
         negb (seconds <? 60)%float
         && match num_of (seconds / 60)%float, num_of seconds with
            | Fin false mq eq, Fin false m e =>
                let r := (m - Z.shiftl (60 * q) (- e))%Z in
                ((eq <? 0) && (0 <=? mq) && (Z.shiftr mq (- eq) =? q)
                 && (e <? 0) && (0 <=? m) && (m <? two53)
                 && (0 <=? r) && (r <? Z.shiftl 60 (- e))
                 && (Z.shiftr (2 * r + Z.shiftl 1 (- e)) (1 - e)
                     =? (if u <? 500 then s else s + 1)))%Z
            | _, _ => false
            end.

(** The whole numbers from 0 below [k]. *)
Definition below (k : nat) : list Z := List.map Z.of_nat (seq 0 k).

(** [check] on every whole number of milliseconds below [minutes]
    minutes. *)
Definition check_all (minutes : nat) : bool :=
  let us := below 1000 in
  let ss := below 60 in
  forallb (fun q => forallb (fun s => forallb (check q s) us) ss)
          (below minutes).

End TimeUtils.

(* ===================================================================== *)
(** * Part II: theorems                                                    *)
(* ===================================================================== *)

(** ** Strings and lists of characters *)

Section StringFacts.

Lemma list_of_append (a b : string) :
  list_ascii_of_string (a +:+ b)
  = (list_ascii_of_string a ++ list_ascii_of_string b)%list.
Proof. induction a as [|c a IH]; simpl; [reflexivity | now rewrite IH]. Qed.

Lemma list_of_inj (a b : string) :
  list_ascii_of_string a = list_ascii_of_string b -> a = b.
Proof.
  intros H. rewrite <- (string_of_list_ascii_of_string a).
  rewrite <- (string_of_list_ascii_of_string b). now rewrite H.
Qed.

Lemma append_cancel_r (a b t : string) : a +:+ t = b +:+ t -> a = b.
Proof.
  intros H. apply list_of_inj. apply (f_equal list_ascii_of_string) in H.
  rewrite !list_of_append in H. now apply app_inv_tail in H.
Qed.

Lemma append_cancel_l (p a b : string) : p +:+ a = p +:+ b -> a = b.
Proof.
  induction p as [|c p IH]; simpl; intros H; [assumption|].
  injection H as H. now apply IH.
Qed.

Lemma append_assoc (a b c : string) : (a +:+ b) +:+ c = a +:+ (b +:+ c).
Proof.
  apply list_of_inj. rewrite !list_of_append. symmetry. apply List.app_assoc.
Qed.

Lemma truthy_false (s : string) : Js.truthy s = false <-> s = "".
Proof. destruct s; simpl; split; congruence. Qed.

End StringFacts.

(** ** The regular-expression scanners against their declarative reading *)

Section Sanitize.

Lemma hyphen_not_alnum : Js.is_alnum Js.hyphen = false.
Proof. reflexivity. Qed.

Lemma is_hyphen_true (c : ascii) : Js.is_hyphen c = true <-> c = Js.hyphen.
Proof. unfold Js.is_hyphen. destruct (ascii_dec c Js.hyphen); split; congruence. Qed.

Lemma alnum_not_hyphen (c : ascii) : Js.is_alnum c = true -> Js.is_hyphen c = false.
Proof.
  intros H. destruct (Js.is_hyphen c) eqn:E; [|reflexivity].
  apply is_hyphen_true in E. subst c. discriminate H.
Qed.

Lemma toLowerCase_spec (s : string) :
  list_ascii_of_string (Js.toLowerCase s)
  = Naming.spec_lower (list_ascii_of_string s).
Proof. induction s as [|c s IH]; simpl; [reflexivity | now rewrite IH]. Qed.

Lemma squeeze_cons_other (a : ascii) (r : list ascii) :
  Js.is_hyphen a = false ->
  Naming.squeeze_hyphens (a :: r) = a :: Naming.squeeze_hyphens r.
Proof.
  intros Ha. destruct r as [|b r]; [reflexivity|].
  cbn [Naming.squeeze_hyphens]. now rewrite Ha.
Qed.

Lemma squeeze_hyphen_head (r : list ascii) :
  exists t, Naming.squeeze_hyphens (Js.hyphen :: r) = Js.hyphen :: t.
Proof.
  induction r as [|a r IH]; [now exists []|].
  cbn [Naming.squeeze_hyphens]. change (Js.is_hyphen Js.hyphen) with true.
  cbn [andb]. destruct (Js.is_hyphen a) eqn:Ea.
  - apply is_hyphen_true in Ea. subst a. exact IH.
  - eexists. reflexivity.
Qed.

Lemma squeeze_step (a b : ascii) (r : list ascii) :
  Naming.squeeze_hyphens (a :: b :: r)
  = if Js.is_hyphen a && Js.is_hyphen b
    then Naming.squeeze_hyphens (b :: r)
    else a :: Naming.squeeze_hyphens (b :: r).
Proof. reflexivity. Qed.

Lemma squeeze_cons_hyphen (r : list ascii) :
  Naming.squeeze_hyphens (Js.hyphen :: r)
  = Js.hyphen :: Naming.behead_hyphen (Naming.squeeze_hyphens r).
Proof.
  destruct r as [|b r]; [reflexivity|].
  rewrite squeeze_step. change (Js.is_hyphen Js.hyphen) with true. cbn [andb].
  destruct (Js.is_hyphen b) eqn:Eb.
  - apply is_hyphen_true in Eb. subst b.
    destruct (squeeze_hyphen_head r) as [t Ht]. rewrite Ht. reflexivity.
  - rewrite (squeeze_cons_other b r Eb). cbn [Naming.behead_hyphen].
    now rewrite Eb.
Qed.

Lemma replace_runs_spec (s : string) :
  list_ascii_of_string (Js.replace_runs_from false s)
    = Naming.spec_collapse (list_ascii_of_string s)
  /\ list_ascii_of_string (Js.replace_runs_from true s)
    = Naming.behead_hyphen (Naming.spec_collapse (list_ascii_of_string s)).
Proof.
  unfold Naming.spec_collapse.
  induction s as [|c s [IHf IHt]]; [split; reflexivity|].
  cbn [Js.replace_runs_from list_ascii_of_string List.map].
  destruct (Js.is_alnum c) eqn:Ec.
  - pose proof (alnum_not_hyphen c Ec) as Hc.
    rewrite (squeeze_cons_other c _ Hc).
    cbn [list_ascii_of_string Naming.behead_hyphen]. rewrite Hc, IHf. now split.
  - rewrite squeeze_cons_hyphen.
    cbn [list_ascii_of_string Naming.behead_hyphen].
    change (Js.is_hyphen Js.hyphen) with true. cbv iota.
    rewrite IHt. now split.
Qed.

Lemma replace_non_alnum_spec (s : string) :
  list_ascii_of_string (Js.replace_non_alnum s)
  = Naming.spec_collapse (list_ascii_of_string s).
Proof. apply replace_runs_spec. Qed.

Lemma drop_leading_spec (s : string) :
  list_ascii_of_string (Js.drop_leading_hyphens s)
  = Naming.drop_while_hyphen (list_ascii_of_string s).
Proof.
  induction s as [|c s IH]; [reflexivity|]. simpl.
  destruct (Js.is_hyphen c); [exact IH | reflexivity].
Qed.

Lemma drop_while_hyphen_snoc (l : list ascii) (c : ascii) :
  Naming.drop_while_hyphen (l ++ [c])
  = match Naming.drop_while_hyphen l with
    | [] => if Js.is_hyphen c then [] else [c]
    | r => (r ++ [c])%list
    end.
Proof.
  induction l as [|a l IH]; simpl.
  - destruct (Js.is_hyphen c); reflexivity.
  - destruct (Js.is_hyphen a); [exact IH | reflexivity].
Qed.

Lemma all_hyphens_spec (s : string) :
  Js.all_hyphens s = true
  <-> Naming.drop_while_hyphen (List.rev (list_ascii_of_string s)) = [].
Proof.
  induction s as [|c s IH]; simpl; [tauto|].
  rewrite drop_while_hyphen_snoc, andb_true_iff, IH.
  destruct (Naming.drop_while_hyphen (List.rev (list_ascii_of_string s))) as [|x r].
  - destruct (Js.is_hyphen c); split; intros; try tauto; try discriminate.
    destruct H; discriminate.
  - split; [intros [_ H]; discriminate | intros H].
    destruct r; discriminate H.
Qed.

Lemma drop_trailing_spec (s : string) :
  list_ascii_of_string (Js.drop_trailing_hyphens s)
  = List.rev (Naming.drop_while_hyphen (List.rev (list_ascii_of_string s))).
Proof.
  induction s as [|c s IH]; [reflexivity|].
  cbn [Js.drop_trailing_hyphens].
  destruct (Js.all_hyphens (String c s)) eqn:E.
  - apply all_hyphens_spec in E. now rewrite E.
  - cbn [list_ascii_of_string List.rev]. rewrite drop_while_hyphen_snoc.
    destruct (Naming.drop_while_hyphen (List.rev (list_ascii_of_string s))) as [|x r] eqn:D.
    + destruct (Js.is_hyphen c) eqn:Ec.
      * exfalso. assert (Js.all_hyphens (String c s) = true); [|congruence].
        simpl. rewrite Ec. simpl. now apply all_hyphens_spec.
      * rewrite IH. reflexivity.
    + rewrite IH, List.rev_app_distr. reflexivity.
Qed.

Lemma trim_hyphens_spec (s : string) :
  list_ascii_of_string (Js.trim_hyphens s)
  = Naming.spec_trim (list_ascii_of_string s).
Proof.
  unfold Js.trim_hyphens, Naming.spec_trim.
  now rewrite drop_trailing_spec, drop_leading_spec.
Qed.

(** The last three [replace] and [toLowerCase] calls of the chain compute
    the three steps of the specification. *)
Lemma sanitizedKey_tidy (pk : string) :
  Naming.sanitizedKey pk
  = Naming.spec_tidy (list_ascii_of_string (Js.replace_protocol pk)).
Proof.
  apply list_of_inj. unfold Naming.sanitizedKey, Naming.spec_tidy.
  rewrite list_ascii_of_string_of_list_ascii.
  now rewrite toLowerCase_spec, trim_hyphens_spec, replace_non_alnum_spec.
Qed.

(** *** The first [replace] against the leftmost occurrence *)

Lemma strip_prefix_append (p s r : string) :
  Js.strip_prefix p s = Some r <-> s = p +:+ r.
Proof.
  revert s. induction p as [|a p IH]; intros s; cbn [Js.strip_prefix append].
  - split; [now intros [= ->] | now intros ->].
  - destruct s as [|b s]; [split; discriminate|].
    destruct (ascii_dec a b) as [<-|Hne].
    + rewrite IH. split; [now intros -> | now intros [= ->]].
    + split; [discriminate | intros [= <- _]; now destruct Hne].
Qed.

Lemma strip_prefix_None (p s : string) (b : list ascii) :
  Js.strip_prefix p s = None ->
  list_ascii_of_string s <> (list_ascii_of_string p ++ b)%list.
Proof.
  intros Hn Heq.
  assert (Hs : s = p +:+ string_of_list_ascii b).
  { apply list_of_inj.
    now rewrite list_of_append, list_ascii_of_string_of_list_ascii. }
  apply strip_prefix_append in Hs. congruence.
Qed.

Lemma protocols_In (p : list ascii) :
  In p Naming.protocols
  <-> p = list_ascii_of_string "http://" \/ p = list_ascii_of_string "https://".
Proof.
  unfold Naming.protocols. cbn [In]. intuition congruence.
Qed.

Lemma occurs_at_0 (p l : list ascii) :
  Naming.occurs_at p l 0 <-> exists b, l = (p ++ b)%list.
Proof.
  unfold Naming.occurs_at. split.
  - intros (a & b & -> & Ha). apply length_zero_iff_nil in Ha. subst a.
    now exists b.
  - intros (b & ->). now exists [], b.
Qed.

Lemma occurs_at_S (p : list ascii) (c : ascii) (l : list ascii) (n : nat) :
  Naming.occurs_at p (c :: l) (S n) <-> Naming.occurs_at p l n.
Proof.
  unfold Naming.occurs_at. split.
  - intros (a & b & Hl & Ha). destruct a as [|x a]; [discriminate Ha|].
    injection Hl as _ ->. injection Ha as Ha. now exists a, b.
  - intros (a & b & -> & Ha). exists (c :: a), b. cbn [app length].
    now rewrite Ha.
Qed.

(** What [match_protocol] finds is a protocol text at the head of the
    string, and it misses none. *)
Lemma match_protocol_head (s : string) :
  match Js.match_protocol s with
  | Some r =>
      exists p, In p Naming.protocols
                /\ list_ascii_of_string s = (p ++ list_ascii_of_string r)%list
  | None =>
      forall p, In p Naming.protocols ->
                ~ Naming.occurs_at p (list_ascii_of_string s) 0
  end.
Proof.
  unfold Js.match_protocol.
  destruct (Js.strip_prefix "https://" s) as [r|] eqn:E1.
  - apply strip_prefix_append in E1. subst s.
    exists (list_ascii_of_string "https://"). split; [right; now left|].
    apply list_of_append.
  - destruct (Js.strip_prefix "http://" s) as [r|] eqn:E2.
    + apply strip_prefix_append in E2. subst s.
      exists (list_ascii_of_string "http://"). split; [now left|].
      apply list_of_append.
    + intros p Hp Hocc. apply occurs_at_0 in Hocc. destruct Hocc as [b Hb].
      apply protocols_In in Hp. destruct Hp as [-> | ->].
      * now apply (strip_prefix_None _ _ b E2).
      * now apply (strip_prefix_None _ _ b E1).
Qed.

Lemma protocol_not_nil (p : list ascii) : In p Naming.protocols -> p <> [].
Proof. intros Hp. apply protocols_In in Hp. now destruct Hp as [-> | ->]. Qed.

Lemma without_first_nil : Naming.without_first_protocol [] [].
Proof.
  apply Naming.no_protocol. intros p n Hp (a & b & Hl & _).
  symmetry in Hl. apply app_eq_nil in Hl. destruct Hl as [_ Hl].
  apply app_eq_nil in Hl. destruct Hl as [Hl _].
  now apply (protocol_not_nil p).
Qed.

Lemma without_first_cons (c : ascii) (l r : list ascii) :
  (forall p, In p Naming.protocols -> ~ Naming.occurs_at p (c :: l) 0) ->
  Naming.without_first_protocol l r ->
  Naming.without_first_protocol (c :: l) (c :: r).
Proof.
  intros H0 H. destruct H as [Hno | a p b Hp Hl Hleft].
  - apply Naming.no_protocol. intros p n Hp Hocc. destruct n as [|n].
    + now apply (H0 p).
    + apply occurs_at_S in Hocc. now apply (Hno p n).
  - subst l. apply (Naming.first_protocol (c :: a ++ p ++ b) (c :: a) p b);
      [exact Hp | reflexivity |].
    intros q n Hq Hocc. destruct n as [|n].
    + now destruct (H0 q Hq).
    + apply occurs_at_S in Hocc. specialize (Hleft q n Hq Hocc).
      cbn [length]. lia.
Qed.

(** [s.replace(/https?:\/\//, '')] removes the leftmost occurrence of a
    protocol text, and nothing when there is none. *)
Lemma replace_protocol_first (s : string) :
  Naming.without_first_protocol (list_ascii_of_string s)
    (list_ascii_of_string (Js.replace_protocol s)).
Proof.
  induction s as [|c s IH].
  - exact without_first_nil.
  - cbn [Js.replace_protocol].
    pose proof (match_protocol_head (String c s)) as Hm.
    destruct (Js.match_protocol (String c s)) as [r|].
    + destruct Hm as (p & Hp & Hl). rewrite Hl.
      apply (Naming.first_protocol _ [] p (list_ascii_of_string r));
        [exact Hp | reflexivity |].
      intros q n _ _. cbn [length]. lia.
    + cbn [list_ascii_of_string]. now apply without_first_cons.
Qed.

Lemma without_first_unique (l r1 r2 : list ascii) :
  Naming.without_first_protocol l r1 -> Naming.without_first_protocol l r2 ->
  r1 = r2.
Proof.
  intros H1 H2.
  destruct H1 as [Hno1 | a1 p1 b1 Hp1 Hl1 Hleft1];
    destruct H2 as [Hno2 | a2 p2 b2 Hp2 Hl2 Hleft2].
  - reflexivity.
  - exfalso. apply (Hno1 p2 (length a2) Hp2). now exists a2, b2.
  - exfalso. apply (Hno2 p1 (length a1) Hp1). now exists a1, b1.
  - assert (Hlen : length a1 = length a2).
    { apply Nat.le_antisymm.
      - apply (Hleft1 p2 (length a2) Hp2). now exists a2, b2.
      - apply (Hleft2 p1 (length a1) Hp1). now exists a1, b1. }
    rewrite Hl1 in Hl2. apply app_inj_1 in Hl2; [|exact Hlen].
    destruct Hl2 as [-> Hrest]. f_equal.
    apply protocols_In in Hp1, Hp2.
    destruct Hp1 as [-> | ->]; destruct Hp2 as [-> | ->];
      cbn [list_ascii_of_string app] in Hrest;
      solve [ now injection Hrest | discriminate Hrest ].
Qed.

End Sanitize.

(** ** Report names *)

Section ReportNames.

Lemma a11yReportName_base (sources index : nat) (title : string)
    (pk : option string) :
  Naming.a11yReportName sources index title pk
  = Naming.base_name title pk
    +:+ Naming.position_suffix sources index +:+ ".html".
Proof.
  unfold Naming.a11yReportName, Naming.base_name, Naming.position_suffix.
  destruct pk as [pk|].
  - destruct (Js.truthy pk) eqn:Ek.
    + destruct (Js.truthy (Naming.sanitizedKey pk));
        destruct (1 <? sources)%nat; rewrite ?append_assoc; reflexivity.
    + apply truthy_false in Ek. subst pk.
      change (Js.truthy (Naming.sanitizedKey "")) with false. cbv iota.
      destruct (1 <? sources)%nat; rewrite ?append_assoc; reflexivity.
  - destruct (1 <? sources)%nat; rewrite ?append_assoc; reflexivity.
Qed.

Lemma position_suffix_inj (sources i j : nat) :
  (1 < sources)%nat ->
  Naming.position_suffix sources i = Naming.position_suffix sources j -> i = j.
Proof.
  intros Hs. unfold Naming.position_suffix.
  apply Nat.ltb_lt in Hs. rewrite Hs. intros H.
  apply append_cancel_l in H. apply pretty_nat_inj in H. lia.
Qed.

End ReportNames.

(** *** Small inputs *)

Example sanitize_example :
  Naming.sanitizedKey "https://Example.com/Home Page!!" = "example-com-home-page".
Proof. reflexivity. Qed.

Example prefix_sanitize_example :
  Naming.prefix_sanitize "https://Example.com/Home Page!!"
  = "example-com-home-page".
Proof. reflexivity. Qed.

Example name_example :
  Naming.a11yReportName 2 1 "My Test" (Some "https://Example.com/Home Page!!")
  = "example-com-home-page-2.html".
Proof. vm_compute. reflexivity. Qed.

Example title_example :
  Naming.sanitizedTitle "Login: happy path (EN)" = "login-happy-path-en-".
Proof. reflexivity. Qed.

Example inner_scheme_example :
  Naming.sanitizedKey "Docs - see https://example.com" = "docs-see-example-com".
Proof. reflexivity. Qed.

(** ** Claims about report names *)



(** What the claim C4 says of every page key fails for a key that holds a
    protocol text which is not its prefix: the text is removed all the
    same. *)
Lemma C4_prefix_counterexample :
  Naming.a11yReportName 1 0 "Docs" (Some "Docs - see https://example.com")
  = "docs-see-example-com.html"
  /\ Naming.prefix_name 1 0 "Docs" (Some "Docs - see https://example.com")
     = "docs-see-https-example-com.html"
  /\ ~ (forall (sources index : nat) (title pk : string),
         pk <> "" ->
         Naming.a11yReportName sources index title (Some pk)
         = Naming.prefix_name sources index title (Some pk)).
Proof.
  split; [vm_compute; reflexivity|]. split; [vm_compute; reflexivity|].
  intros H.
  specialize (H 1%nat 0%nat "Docs" "Docs - see https://example.com").
  vm_compute in H. discriminate H. discriminate.
Qed.

(** C4, amended. The report name is derived from the page key by removing
    the leftmost occurrence of the text [http://] or [https://], wherever
    it stands in the key (the protocol prefix, for a key that starts with
    it; nothing, for a key that holds neither text in lower case), then
    turning every run of non-alphanumeric characters into one hyphen,
    trimming hyphens at both ends and lower-casing;
    ["https://Example.com/Home Page!!"] gives [example-com-home-page].
    When this derivation gives the empty string, or the payload has no page
    key, the generic name built from the sanitized test title is used. *)
Theorem C4_name_from_page_key :
  (forall (sources index : nat) (title pk : string),
      exists stripped : list ascii,
        Naming.without_first_protocol (list_ascii_of_string pk) stripped
        /\ (forall other,
              Naming.without_first_protocol (list_ascii_of_string pk) other ->
              other = stripped)
        /\ Naming.a11yReportName sources index title (Some pk)
           = if Js.truthy (Naming.spec_tidy stripped)
             then Naming.spec_tidy stripped
                  +:+ Naming.position_suffix sources index +:+ ".html"
             else "accessibility-" +:+ Naming.sanitizedTitle title
                  +:+ Naming.position_suffix sources index +:+ ".html")
  /\ (forall (sources index : nat) (title : string),
      Naming.a11yReportName sources index title None
      = "accessibility-" +:+ Naming.sanitizedTitle title
        +:+ Naming.position_suffix sources index +:+ ".html")
  /\ (forall r : string,
      Naming.without_first_protocol
        (list_ascii_of_string ("https://" +:+ r)) (list_ascii_of_string r)
      /\ Naming.without_first_protocol
           (list_ascii_of_string ("http://" +:+ r)) (list_ascii_of_string r))
  /\ Naming.without_first_protocol
       (list_ascii_of_string "HTTPS://Example.com")
       (list_ascii_of_string "HTTPS://Example.com")
  /\ Naming.sanitizedKey "https://Example.com/Home Page!!"
     = "example-com-home-page"
  /\ (forall title : string,
      Naming.a11yReportName 1 0 title (Some "https://Example.com/Home Page!!")
      = "example-com-home-page.html")
  /\ (forall title : string,
      Naming.a11yReportName 1 0 title (Some "?!")
      = "accessibility-" +:+ Naming.sanitizedTitle title +:+ ".html").
Proof.
  split; [|split; [|split; [|split; [|split; [|split]]]]].
  - intros sources index title pk.
    exists (list_ascii_of_string (Js.replace_protocol pk)).
    split; [apply replace_protocol_first|]. split.
    + intros other Ho.
      exact (without_first_unique _ _ _ Ho (replace_protocol_first pk)).
    + rewrite a11yReportName_base. unfold Naming.base_name.
      rewrite sanitizedKey_tidy.
      destruct (Js.truthy (Naming.spec_tidy _));
        [reflexivity | now rewrite append_assoc].
  - intros sources index title. rewrite a11yReportName_base.
    unfold Naming.base_name. now rewrite append_assoc.
  - intros r. split.
    + exact (replace_protocol_first ("https://" +:+ r)).
    + exact (replace_protocol_first ("http://" +:+ r)).
  - exact (replace_protocol_first "HTTPS://Example.com").
  - reflexivity.
  - intros title. reflexivity.
  - intros title. reflexivity.
Qed.

(** ** The scan aggregator *)

Section ScannerFacts.

Variable isVisible : nat -> string -> bool.
Variable captureBase64 : string -> string.
Variable stringify : list string -> string.
Variable annotations : list Annotation.

#[local] Abbreviation visit_selector :=
  (Scanner.visit_selector isVisible captureBase64 stringify annotations).
#[local] Abbreviation visit_node :=
  (Scanner.visit_node isVisible captureBase64 stringify annotations).
#[local] Abbreviation visit_violation :=
  (Scanner.visit_violation isVisible captureBase64 stringify annotations).
#[local] Abbreviation build_error :=
  (Scanner.build_error isVisible captureBase64 stringify annotations).
#[local] Abbreviation answers_from := (Scanner.answers_from isVisible).

#[local] Abbreviation captured := Scanner.captured.

Lemma answers_from_app (q : nat) (a b : list string) :
  answers_from q (a ++ b)
  = (answers_from q a ++ answers_from (q + length a) b)%list.
Proof.
  revert q. induction a as [|x a IH]; intros q; simpl.
  - now rewrite Nat.add_0_r.
  - rewrite IH. do 3 f_equal. lia.
Qed.

Lemma visit_selectors_count (v : Scanner.AxeViolation) (node : Scanner.AxeNode)
    (sels : list string) (st : Scanner.ScanState) :
  let st' := fold_left (visit_selector v node) sels st in
  Scanner.queries st' = (Scanner.queries st + length sels)%nat
  /\ length (Scanner.targets st')
     = (length (Scanner.targets st)
        + captured (answers_from (Scanner.queries st) sels))%nat.
Proof.
  revert st. induction sels as [|x sels IH]; intros st; simpl.
  - unfold Scanner.captured. simpl. lia.
  - destruct (IH (visit_selector v node st x)) as [Hq Hl].
    rewrite Hq, Hl. unfold Scanner.visit_selector, Scanner.captured.
    destruct (isVisible (Scanner.queries st) x); simpl;
      rewrite ?length_app; simpl; lia.
Qed.

Lemma visit_nodes_count (v : Scanner.AxeViolation)
    (nodes : list Scanner.AxeNode) (st : Scanner.ScanState) :
  let st' := fold_left (visit_node v) nodes st in
  let sels := List.concat (List.map Scanner.node_target nodes) in
  Scanner.queries st' = (Scanner.queries st + length sels)%nat
  /\ length (Scanner.targets st')
     = (length (Scanner.targets st)
        + captured (answers_from (Scanner.queries st) sels))%nat.
Proof.
  revert st. induction nodes as [|n nodes IH]; intros st; simpl.
  - unfold Scanner.captured. simpl. lia.
  - destruct (IH (visit_node v st n)) as [Hq Hl]. rewrite Hq, Hl.
    destruct (visit_selectors_count v n (Scanner.node_target n) st) as [Hq' Hl'].
    change (fold_left (visit_selector v n) (Scanner.node_target n) st)
      with (visit_node v st n) in Hq', Hl'.
    rewrite Hq', Hl'.
    rewrite answers_from_app, length_app. unfold Scanner.captured.
    rewrite List.filter_app, length_app. lia.
Qed.

Lemma visit_violation_count (v : Scanner.AxeViolation) (q0 : nat) :
  length (Scanner.targets (visit_violation v q0))
  = captured (answers_from q0 (Scanner.selectors_of v)).
Proof.
  unfold Scanner.visit_violation, Scanner.selectors_of.
  destruct (visit_nodes_count v (Scanner.v_nodes v)
              {| Scanner.queries := q0; Scanner.errorIdx := 0;
                 Scanner.targets := [] |}) as [_ H].
  exact H.
Qed.

Lemma captured_all (l : list bool) :
  List.Forall (fun b => b = true) l -> captured l = length l.
Proof.
  unfold Scanner.captured. induction 1 as [|b l Hb _ IH]; simpl; [reflexivity|].
  subst b. simpl. now rewrite IH.
Qed.

Lemma captured_none (l : list bool) :
  List.Forall (fun b => b = false) l <-> captured l = 0%nat.
Proof.
  unfold Scanner.captured. induction l as [|b l IH]; simpl.
  - split; [reflexivity | constructor].
  - destruct b; simpl.
    + split; [intros H; inversion H; discriminate | discriminate].
    + rewrite <- IH. split; [intros H; now inversion H | now constructor].
Qed.

Lemma answers_length (q : nat) (sels : list string) :
  length (answers_from q sels) = length sels.
Proof. revert q. induction sels; intros q; simpl; [reflexivity | now rewrite IHsels]. Qed.

Lemma selectors_nonempty (nodes : list Scanner.AxeNode) :
  nodes <> [] ->
  List.Forall (fun n => Scanner.node_target n <> []) nodes ->
  List.concat (List.map Scanner.node_target nodes) <> [].
Proof.
  intros Hne Hall. destruct nodes as [|n nodes]; [congruence|].
  inversion Hall as [|? ? Hn _]; subst. simpl.
  destruct (Scanner.node_target n); [congruence | discriminate].
Qed.

Lemma total_of_ge (c n : nat) : (Scanner.total_of c n >= Z.of_nat c)%Z.
Proof. destruct c; simpl; lia. Qed.

Lemma total_of_pos (c n : nat) : c <> 0%nat -> Scanner.total_of c n = Z.of_nat c.
Proof. destruct c; [congruence | reflexivity]. Qed.

End ScannerFacts.

(** ** Claims about the scan aggregator *)

(** C5 as the specification words it fails: with two affected nodes of
    which only the first is visible, capture is skipped for the second, one
    target is recorded and the total is 1, not the node count 2. *)
Lemma C5_fallback_counterexample :
  ~ Scanner.totalCount_as_specified Examples.only_hero_visible
      Examples.no_capture Examples.no_json [] Examples.two_images 0.
Proof.
  intros (_ & _ & H).
  assert (Hs : Scanner.capture_skipped Examples.only_hero_visible
                 Examples.two_images 0).
  { unfold Scanner.capture_skipped. simpl. apply List.Exists_cons_tl.
    apply List.Exists_cons_hd. reflexivity. }
  specialize (H Hs). vm_compute in H. discriminate H.
Qed.

(** C5, amended. For every record built by the scan aggregator the total is
    at least the number of recorded targets, and equals it as soon as one
    target was recorded; in particular it equals it when every selector of
    every node was visible and every node has a selector.  The total is the
    analyzer's node count exactly when no target was recorded, that is when
    capture was skipped for every selector of the rule. *)
Theorem C5_total_count (isVisible : nat -> string -> bool)
    (captureBase64 : string -> string) (stringify : list string -> string)
    (annotations : list Annotation) (v : Scanner.AxeViolation) (q0 : nat) :
  let e := fst (Scanner.build_error isVisible captureBase64 stringify
                  annotations v q0) in
  let ts := default [] (target e) in
  (total_or_0 e >= Z.of_nat (length ts))%Z
  /\ (ts <> [] -> total_or_0 e = Z.of_nat (length ts))
  /\ (Scanner.all_visible isVisible v q0 ->
      List.Forall (fun n => Scanner.node_target n <> []) (Scanner.v_nodes v) ->
      total_or_0 e = Z.of_nat (length ts))
  /\ (Scanner.capture_skipped_everywhere isVisible v q0 <-> ts = [])
  /\ (ts = [] -> total_or_0 e = Z.of_nat (length (Scanner.v_nodes v))).
Proof.
  cbn zeta. unfold Scanner.build_error, total_or_0. cbn [fst total target default].
  pose proof (visit_violation_count isVisible captureBase64 stringify
                annotations v q0) as Hlen.
  set (ts := Scanner.targets _) in *. clearbody ts. unfold Datatypes.id.
  split; [apply total_of_ge|].
  split.
  { intros Hne. apply total_of_pos. destruct ts; [congruence | discriminate]. }
  split.
  { intros Hall Hsel. rewrite Hlen.
    rewrite (captured_all _ Hall), answers_length.
    destruct (Scanner.v_nodes v) as [|n nodes] eqn:En.
    - unfold Scanner.selectors_of. rewrite En. reflexivity.
    - apply total_of_pos.
      assert (Hc : Scanner.selectors_of v <> []).
      { unfold Scanner.selectors_of. rewrite En.
        apply selectors_nonempty; [discriminate | assumption]. }
      destruct (Scanner.selectors_of v); [congruence | discriminate]. }
  split.
  { unfold Scanner.capture_skipped_everywhere. rewrite captured_none, <- Hlen.
    destruct ts; simpl; split; congruence. }
  intros Hts. rewrite Hts. reflexivity.
Qed.

Lemma C5_total_count_witness :
  let build vis :=
    fst (Scanner.build_error vis Examples.no_capture Examples.no_json []
           Examples.two_images 0) in
  total_or_0 (build Examples.everything_visible) = 2%Z
  /\ total_or_0 (build Examples.only_hero_visible) = 1%Z
  /\ total_or_0 (build Examples.nothing_visible) = 2%Z.
Proof.
  cbn zeta. split; [|split].
  - rewrite (proj1 (proj2 (proj2 (C5_total_count Examples.everything_visible
               Examples.no_capture Examples.no_json [] Examples.two_images 0)))).
    + reflexivity.
    + repeat constructor.
    + repeat constructor; discriminate.
  - rewrite (proj1 (proj2 (C5_total_count Examples.only_hero_visible
               Examples.no_capture Examples.no_json [] Examples.two_images 0))).
    + reflexivity.
    + discriminate.
  - rewrite (proj2 (proj2 (proj2 (proj2 (C5_total_count Examples.nothing_visible
               Examples.no_capture Examples.no_json [] Examples.two_images 0))))).
    + reflexivity.
    + reflexivity.
Defined.

(** ** The step merge of the legacy reporter *)

Section StepMerge.

Lemma processStep_unfold (c t : string) (subs : list TestStep) :
  Legacy.processStep (mkTestStep c t subs)
  = ((if String.eqb c "test.step" then [t] else [])
     ++ Legacy.processSteps subs)%list.
Proof. reflexivity. Qed.

Lemma preorder_unfold (c t : string) (subs : list TestStep) :
  Legacy.preorder (mkTestStep c t subs)
  = mkTestStep c t subs :: Legacy.preorder_all subs.
Proof. reflexivity. Qed.

#[local] Abbreviation titles_of := Legacy.titles_of.

Lemma titles_of_app (a b : list TestStep) :
  titles_of (a ++ b) = (titles_of a ++ titles_of b)%list.
Proof. unfold Legacy.titles_of. now rewrite List.filter_app, List.map_app. Qed.

Lemma processStep_preorder (s : TestStep) :
  Legacy.processStep s = titles_of (Legacy.preorder s).
Proof.
  induction s as [c t subs IH] using Legacy.TestStep_nested_ind.
  rewrite processStep_unfold, preorder_unfold.
  assert (Hsubs : Legacy.processSteps subs = titles_of (Legacy.preorder_all subs)).
  { induction IH as [|x r Hx _ IHr]; simpl; [reflexivity|].
    now rewrite titles_of_app, Hx, IHr. }
  rewrite Hsubs. unfold Legacy.titles_of at 2. cbn [List.filter category].
  destruct (String.eqb c "test.step"); reflexivity.
Qed.

(** [getTestSteps] lists, in depth-first order, the titles of the steps of
    category [test.step]. *)
Lemma processSteps_driver_steps (l : list TestStep) :
  Legacy.processSteps l = Legacy.driver_steps l.
Proof.
  unfold Legacy.driver_steps.
  induction l as [|x r IH]; simpl; [reflexivity|].
  now rewrite titles_of_app, processStep_preorder, IH.
Qed.

Lemma fold_push_step (existing pw cur : list string) :
  fold_left (Legacy.push_step existing) pw (Some cur)
  = Some (cur ++ List.filter (fun s => negb (Legacy.has_step existing s)) pw)%list.
Proof.
  revert cur. induction pw as [|x pw IH]; intros cur; simpl.
  - now rewrite List.app_nil_r.
  - unfold Legacy.push_step at 2.
    destruct (Legacy.has_step existing x); simpl.
    + apply IH.
    + rewrite IH. now rewrite <- List.app_assoc.
Qed.

Lemma fold_push_step_none (pw : list string) :
  default [] (fold_left (Legacy.push_step []) pw None) = pw.
Proof.
  destruct pw as [|x pw]; [reflexivity|].
  simpl. unfold Legacy.push_step at 2. simpl. rewrite fold_push_step.
  simpl. f_equal. induction pw as [|y pw IH]; simpl; [reflexivity|].
  now rewrite IH.
Qed.

Lemma merge_target_steps (stringify : option (list string) -> option string)
    (pw : list string) (t : Target) :
  default [] (steps (Legacy.merge_target stringify pw t))
  = Legacy.merged_steps (default [] (steps t)) pw.
Proof.
  unfold Legacy.merge_target, Legacy.merged_steps. cbn [steps].
  destruct (steps t) as [pre|]; cbn [default from_option Datatypes.id].
  - rewrite fold_push_step. reflexivity.
  - rewrite fold_push_step_none. simpl.
    induction pw as [|y pw IH]; simpl; [reflexivity|]. now rewrite <- IH.
Qed.

End StepMerge.

(** ** Claim about the step merge *)




(** ** The video poll and selection *)

Section VideoFacts.

Variable fs : Assets.Fs.

Lemma poll_spec (p : string) (n t : nat) :
  let '(ok, t') := Assets.poll fs p n t in
  exists failed : nat,
    (failed <= n)%nat
    /\ t' = (t + failed * Assets.poll_interval_ms)%nat
    /\ (forall i, (i < failed)%nat ->
          Assets.ready fs (t + i * Assets.poll_interval_ms) p = false)
    /\ (ok = true -> Assets.ready fs t' p = true /\ (failed < n)%nat)
    /\ (ok = false -> failed = n).
Proof.
  revert t. induction n as [|n IH]; intros t; cbn [Assets.poll].
  - exists 0%nat. repeat split; intros; try lia; discriminate.
  - destruct (Assets.ready fs t p) eqn:Er.
    + exists 0%nat. repeat split; intros; try lia; try discriminate.
      assumption.
    + specialize (IH (t + Assets.poll_interval_ms)%nat).
      destruct (Assets.poll fs p n (t + Assets.poll_interval_ms)) as [ok t'].
      destruct IH as (j & Hj & Ht' & Hi & Hok & Hno).
      exists (S j). repeat split.
      * lia.
      * rewrite Ht'. lia.
      * intros i Hlt. destruct i as [|i].
        -- replace (t + 0 * Assets.poll_interval_ms)%nat with t by lia.
           assumption.
        -- replace (t + S i * Assets.poll_interval_ms)%nat
             with (t + Assets.poll_interval_ms + i * Assets.poll_interval_ms)%nat
             by lia.
           apply Hi. lia.
      * now apply Hok.
      * apply Hok in H. lia.
      * intros H. apply Hno in H. lia.
Qed.

Lemma fold_consider (videos : list Attachment) (st : Assets.Selection) :
  let st' := fold_left (Assets.consider fs) videos st in
  (Assets.bestVideo st', Assets.maxSize st')
  = fold_left Assets.pick
      (Assets.ready_candidates fs (Assets.paths_of videos) (Assets.now st))
      (Assets.bestVideo st, Assets.maxSize st).
Proof.
  revert st. induction videos as [|a videos IH]; intros st; [reflexivity|].
  cbn [fold_left]. cbn zeta in IH. rewrite (IH (Assets.consider fs st a)).
  clear IH. unfold Assets.paths_of. cbn [List.map List.concat].
  fold (Assets.paths_of videos). unfold Assets.consider.
  destruct (att_path a) as [p|]; [|reflexivity].
  destruct (Js.truthy p); [|reflexivity].
  cbn [app Assets.ready_candidates].
  destruct (Assets.poll fs p Assets.max_attempts (Assets.now st)) as [ok t].
  destruct ok; [|reflexivity].
  destruct (Assets.statSize fs t p) as [size|]; [|reflexivity].
  cbn [fold_left].
  destruct (Assets.maxSize st <? size)%Z eqn:E;
    cbn [Assets.bestVideo Assets.maxSize Assets.now]; f_equal;
    unfold Assets.pick; cbn [fst snd]; rewrite E; reflexivity.
Qed.

Lemma ready_candidates_positive (cands : list string) (t : nat) (p : string)
    (n : Z) :
  In (p, n) (Assets.ready_candidates fs cands t) -> (0 < n)%Z.
Proof.
  revert t. induction cands as [|c cands IH]; intros t;
    cbn [Assets.ready_candidates]; [intros []|].
  pose proof (poll_spec c Assets.max_attempts t) as Hp.
  destruct (Assets.poll fs c Assets.max_attempts t) as [ok t'].
  destruct ok; [|apply IH].
  destruct Hp as (j & _ & _ & _ & Hr & _). destruct (Hr eq_refl) as [Hr' _].
  unfold Assets.ready in Hr'.
  destruct (Assets.statSize fs t' c) as [m|]; [|apply IH].
  intros [Heq|Hin]; [|now apply IH with t'].
  injection Heq as <- <-. apply andb_true_iff in Hr'. destruct Hr' as [_ Hr'].
  now apply Z.ltb_lt in Hr'.
Qed.

End VideoFacts.

Section PickFacts.

Lemma pick_fold_max (l : list (string * Z)) (acc : option string * Z) :
  let r := fold_left Assets.pick l acc in
  (snd acc <= snd r)%Z
  /\ (forall c, In c l -> (snd c <= snd r)%Z)
  /\ (r = acc \/ exists p, fst r = Some p /\ In (p, snd r) l).
Proof.
  revert acc. induction l as [|c l IH]; intros acc; cbn [fold_left].
  - cbn zeta. split; [lia|]. split; [intros c []|now left].
  - specialize (IH (Assets.pick acc c)). cbn zeta in IH.
    destruct IH as (Hge & Hall & Hor).
    assert (Hacc : (snd acc <= snd (Assets.pick acc c))%Z
                   /\ (snd c <= snd (Assets.pick acc c))%Z).
    { unfold Assets.pick. destruct (snd acc <? snd c)%Z eqn:E; cbn [snd].
      - apply Z.ltb_lt in E. lia.
      - apply Z.ltb_ge in E. lia. }
    cbn zeta. split; [lia|]. split.
    + intros d [<-|Hd]; [lia | now apply Hall].
    + destruct Hor as [Heq|(p & Hp & Hin)].
      * rewrite Heq. unfold Assets.pick.
        destruct (snd acc <? snd c)%Z; [|now left].
        right. exists (fst c). cbn [fst snd]. split; [reflexivity|].
        left. now destruct c.
      * right. exists p. split; [assumption | now right].
Qed.

Lemma pick_fold_some (l : list (string * Z)) (acc : option string * Z) :
  (exists c, In c l /\ (snd acc < snd c)%Z) ->
  exists p, fst (fold_left Assets.pick l acc) = Some p
            /\ In (p, snd (fold_left Assets.pick l acc)) l.
Proof.
  intros (c & Hc & Hlt).
  destruct (pick_fold_max l acc) as (_ & Hall & [Heq|Hex]); [|exact Hex].
  specialize (Hall c Hc). rewrite Heq in Hall. lia.
Qed.

End PickFacts.

(** ** Claim about the video copy *)

(** C8. Each candidate video is tested for existence with a positive size
    at most 10 times, each failed test being followed by a timer of 200 ms
    (2000 ms at most); when no candidate becomes ready the function returns
    the empty string; otherwise the selected video is a ready candidate
    whose size is the largest among the ready candidates.  With recordings
    of 0, 512 and 2048 bytes, in any order, the 2048-byte file is
    selected.  The function is total: every call that may throw is inside a
    [try]. *)
Theorem C8_video_selection (fs : Assets.Fs) (copy_throws : string -> bool)
    (attachments : list Attachment) :
  let st := Assets.select_video fs attachments in
  let rc := Assets.ready_candidates fs (Assets.candidates attachments) 0 in
  (forall (p : string) (t : nat),
      let '(ok, t') := Assets.poll fs p Assets.max_attempts t in
      exists failed : nat,
        (failed <= 10)%nat
        /\ t' = (t + failed * 200)%nat
        /\ (forall i, (i < failed)%nat ->
              Assets.ready fs (t + i * 200) p = false)
        /\ (ok = true -> Assets.ready fs t' p = true /\ (failed < 10)%nat)
        /\ (ok = false -> failed = 10%nat))
  /\ (rc = [] ->
      Assets.bestVideo st = None
      /\ Assets.copyTestVideo fs copy_throws attachments = "")
  /\ (rc <> [] ->
      exists (p : string) (size : Z),
        Assets.bestVideo st = Some p
        /\ In (p, size) rc
        /\ forall q s, In (q, s) rc -> (s <= size)%Z)
  /\ (forall l, Permutation l Examples.three_videos ->
      Assets.bestVideo (Assets.select_video Examples.video_fs l)
        = Some "/tmp/run/final.webm"
      /\ Assets.copyTestVideo Examples.video_fs Examples.copy_ok l
        = "final.webm").
Proof.
  cbn zeta.
  pose proof (fold_consider fs (List.filter Assets.is_video attachments)
                {| Assets.bestVideo := None; Assets.maxSize := (-1)%Z;
                   Assets.now := 0 |}) as Hfold.
  cbn zeta in Hfold. cbn [Assets.bestVideo Assets.maxSize Assets.now] in Hfold.
  fold (Assets.select_video fs attachments) in Hfold.
  fold (Assets.candidates attachments) in Hfold.
  split; [|split; [|split]].
  - intros p t. pose proof (poll_spec fs p Assets.max_attempts t) as Hp.
    destruct (Assets.poll fs p Assets.max_attempts t) as [ok t'].
    exact Hp.
  - intros Hrc. rewrite Hrc in Hfold. cbn [fold_left] in Hfold.
    injection Hfold as Hb _. split; [assumption|].
    unfold Assets.copyTestVideo. now rewrite Hb.
  - intros Hne.
    destruct (Assets.ready_candidates fs (Assets.candidates attachments) 0)
      as [|[c n] rc] eqn:Erc; [congruence|].
    assert (Hpos : (0 < n)%Z).
    { apply (ready_candidates_positive fs (Assets.candidates attachments) 0 c).
      rewrite Erc. now left. }
    destruct (pick_fold_some ((c, n) :: rc) (None, (-1)%Z)) as (p & Hp & Hin).
    { exists (c, n). split; [now left | cbn [snd]; lia]. }
    destruct (pick_fold_max ((c, n) :: rc) (None, (-1)%Z)) as (_ & Hall & _).
    rewrite <- Hfold in Hp, Hin, Hall. cbn [fst snd] in Hp, Hin, Hall.
    exists p, (Assets.maxSize (Assets.select_video fs attachments)).
    split; [assumption|]. split; [assumption|].
    intros q s Hq. exact (Hall (q, s) Hq).
  - intros l Hl. apply Permutation_sym in Hl.
    apply permutations_Permutation in Hl.
    vm_compute in Hl.
    repeat (apply elem_of_cons in Hl; destruct Hl as [->|Hl];
            [split; vm_compute; reflexivity|]).
    now apply elem_of_nil in Hl.
Qed.

Lemma C8_video_selection_witness :
  Assets.copyTestVideo Examples.video_fs Examples.copy_ok Examples.three_videos
    = "final.webm"
  /\ Assets.copyTestVideo Examples.video_fs Examples.copy_ok
       [Examples.video_at "/tmp/run/empty.webm"] = "".
Proof.
  split.
  - apply (proj2 (proj2 (proj2
       (C8_video_selection Examples.video_fs Examples.copy_ok [])))).
    apply Permutation_refl.
  - apply (proj1 (proj2
       (C8_video_selection Examples.video_fs Examples.copy_ok
          [Examples.video_at "/tmp/run/empty.webm"]))).
    reflexivity.
Defined.

(** ** The reporter: counters *)

Section Counters.

Variable cfg : Reporter.Config.
Variable env : Reporter.Env.

Import Reporter.

Lemma records_app (G1 G2 : Groups) :
  records (G1 ++ G2)%list = (records G1 ++ records G2)%list.
Proof. unfold records. now rewrite List.map_app, List.concat_app. Qed.

Lemma records_init_group (g : string) (G : Groups) :
  records (init_group g G) = records G.
Proof.
  unfold init_group. destruct (has_group g G); [reflexivity|].
  destruct (Js.inherited g); [reflexivity|].
  rewrite records_app. unfold records at 2. simpl. apply List.app_nil_r.
Qed.

Lemma push_group_records (g : string) (r : TestResults) (G G' : Groups) :
  push_group g r G = Some G' ->
  (forall x, In x (records G') <-> x = r \/ In x (records G))
  /\ (forall P, countP P G' = (countP P G + if P r then 1 else 0)%nat).
Proof.
  revert G'. induction G as [|[k l] G IH]; intros G' H; [discriminate|].
  cbn [push_group] in H. destruct (String.eqb k g).
  - injection H as <-. unfold countP, records. cbn [List.map snd List.concat].
    split.
    + intros x. rewrite !List.in_app_iff. simpl.
      intuition (subst; auto).
    + intros P. rewrite !List.filter_app, !length_app. simpl.
      destruct (P r); simpl; lia.
  - destruct (push_group g r G) as [G1|]; [|discriminate].
    injection H as <-. destruct (IH G1 eq_refl) as [Hin Hc].
    unfold countP, records in *. cbn [List.map snd List.concat]. split.
    + intros x. rewrite !List.in_app_iff, Hin. tauto.
    + intros P. rewrite !List.filter_app, !length_app, Hc. lia.
Qed.

Lemma countP_none (P : TestResults -> bool) (G : Groups) :
  (forall r, In r (records G) -> P r = false) -> countP P G = 0%nat.
Proof.
  unfold countP. induction (records G) as [|x l IH]; intros H; [reflexivity|].
  simpl. rewrite (H x (or_introl eq_refl)). apply IH.
  intros r Hr. apply H. now right.
Qed.

Lemma countP_pos (P : TestResults -> bool) (G : Groups) (r : TestResults) :
  In r (records G) -> P r = true -> (0 < countP P G)%nat.
Proof.
  unfold countP. induction (records G) as [|x l IH]; intros Hin HP; [destruct Hin|].
  simpl. destruct Hin as [->|Hin].
  - rewrite HP. simpl. lia.
  - destruct (P x); simpl; [lia | now apply IH].
Qed.

Lemma counted_count_status (st : Status) (S : TestSummary) :
  (counted (count_status st S) + (if uncounted st then 1 else 0)
   = counted S + 1)%nat
  /\ total (count_status st S) = total S
  /\ groupedResults (count_status st S) = groupedResults S.
Proof. destruct st; unfold counted; cbn; repeat split; lia. Qed.

Lemma counters_ok_write (path : string) (d : Doc) (sh : Shared) :
  counters_ok sh -> counters_ok (write_file path d sh).
Proof. intros H. exact H. Qed.

Lemma counters_ok_start (t : TestCase) (r : TestResult) (sh : Shared) :
  counters_ok sh -> counters_ok (start cfg env t r sh).1.
Proof.
  intros (Hg & Hb & Hr). unfold counters_ok, start, countP in *.
  cbn [fst executionSummary browserSummaries set_groups groupedResults
       total counted totalPassed totalFailed totalSkipped] in *.
  rewrite records_init_group. unfold counted in *. cbn. auto.
Qed.

Lemma fold_into_counts (errs : list A11yError) (S : TestSummary) :
  counted (fold_into errs S) = counted S
  /\ total (fold_into errs S) = total S
  /\ groupedResults (fold_into errs S) = groupedResults S.
Proof. destruct errs; repeat split; reflexivity. Qed.

Lemma counters_ok_fresh (b : string) (sh : Shared) :
  counters_ok sh -> Js.inherited b = false ->
  browserSummaries sh !! b = None ->
  countP (uncounted_in b) (groupedResults (executionSummary sh)) = 0%nat.
Proof.
  intros (_ & _ & Hr) Hb Hnone. apply countP_none. intros r Hin.
  unfold uncounted_in. destruct (String.eqb_spec (browser r) b) as [Heq|Hne].
  - specialize (Hr r Hin). rewrite Heq in Hr. specialize (Hr Hb).
    rewrite Hnone in Hr. now destruct Hr.
  - apply andb_false_r.
Qed.

(** *** Reads and updates of the browser summaries *)

Lemma lookup_update_browser (b b' : string)
    (f : TestSummary -> TestSummary) (m : gmap string TestSummary) :
  update_browser b f m !! b'
  = if decide (b = b')
    then match m !! b with
         | Some bS => Some (f bS)
         | None =>
             if Js.inherited b then None else Some (f empty_browser_summary)
         end
    else m !! b'.
Proof.
  unfold update_browser, ensure_browser.
  destruct (m !! b) as [bS|] eqn:Eb.
  - rewrite Eb, lookup_insert. case_decide; reflexivity.
  - destruct (Js.inherited b).
    + rewrite Eb. case_decide as Hd; [now subst b' | reflexivity].
    + rewrite lookup_insert_eq, lookup_insert. case_decide as Hd; [reflexivity|].
      now rewrite lookup_insert_ne.
Qed.

(** For a name that is not inherited the summary is there after the
    update, created from the empty one if need be. *)
Lemma lookup_update_ordinary (b b' : string)
    (f : TestSummary -> TestSummary) (m : gmap string TestSummary) :
  Js.inherited b = false ->
  update_browser b f m !! b'
  = if decide (b = b')
    then Some (f (default empty_browser_summary (m !! b)))
    else m !! b'.
Proof.
  intros Hb. rewrite lookup_update_browser, Hb.
  case_decide; [|reflexivity]. now destruct (m !! b).
Qed.

(** A summary found after the update is the updated one, or one that was
    there before. *)
Lemma update_browser_Some (b b' : string) (f : TestSummary -> TestSummary)
    (m : gmap string TestSummary) (bS' : TestSummary) :
  update_browser b f m !! b' = Some bS' ->
  (b' = b /\ bS' = f (default empty_browser_summary (m !! b))
   /\ (m !! b = None -> Js.inherited b = false))
  \/ (b' <> b /\ m !! b' = Some bS').
Proof.
  rewrite lookup_update_browser. case_decide as Hd.
  - subst b'. destruct (m !! b) as [bS|].
    + intros [= <-]. left. now repeat split.
    + destruct (Js.inherited b); [discriminate|].
      intros [= <-]. left. now repeat split.
  - intros H. right. split; [congruence | exact H].
Qed.

Lemma ensure_browser_None (b : string) (m : gmap string TestSummary) :
  ensure_browser b m !! b = None <-> m !! b = None /\ Js.inherited b = true.
Proof.
  unfold ensure_browser. destruct (m !! b) as [bS|] eqn:Eb.
  - rewrite Eb. split; [discriminate | now intros [? _]].
  - destruct (Js.inherited b).
    + now rewrite Eb.
    + rewrite lookup_insert_eq. split; [discriminate | now intros [_ ?]].
Qed.

(** The fold throws only for a browser whose name is inherited. *)
Lemma fold_throws_inherited (b : string) (rd : ReportData) (sh : Shared) :
  fold_throws b rd sh = true ->
  Js.inherited b = true /\ browserSummaries sh !! b = None.
Proof.
  unfold fold_throws. destruct (folded_errors rd); [discriminate|].
  destruct (ensure_browser b (browserSummaries sh) !! b) eqn:E; [discriminate|].
  intros _. apply ensure_browser_None in E. tauto.
Qed.

(** When the fold does not throw and there is something to fold, the
    browser has a summary, created if need be. *)
Lemma fold_safe_summary (b : string) (rd : ReportData) (sh : Shared) :
  fold_throws b rd sh = false -> folded_errors rd <> [] ->
  browserSummaries sh !! b = None -> Js.inherited b = false.
Proof.
  unfold fold_throws. intros Hf He Hn.
  destruct (folded_errors rd) as [|e errs]; [congruence|].
  destruct (ensure_browser b (browserSummaries sh) !! b) eqn:E; [|discriminate].
  destruct (Js.inherited b) eqn:Hb; [|reflexivity].
  assert (Hnone : ensure_browser b (browserSummaries sh) !! b = None)
    by (now apply ensure_browser_None).
  congruence.
Qed.

(** A browser summary may be replaced by one with the same counters, or
    counted once more, as long as the records do not change. *)
Lemma counters_ok_update_browser (b : string)
    (f : TestSummary -> TestSummary) (sh : Shared) :
  counters_ok sh ->
  (forall S, counted (f S) = counted S /\ total (f S) = total S) ->
  counters_ok (set_browsers (update_browser b f (browserSummaries sh)) sh).
Proof.
  intros Hok Hf. pose proof (counters_ok_fresh b sh Hok) as Hfresh.
  destruct Hok as (Hg & Hb & Hr). unfold counters_ok.
  cbn [executionSummary browserSummaries set_browsers].
  split; [exact Hg|]. split.
  - intros b' bS' Hl. apply update_browser_Some in Hl.
    destruct Hl as [(-> & -> & Hord)|[_ Hl]]; [|now apply Hb].
    destruct (Hf (default empty_browser_summary
        (browserSummaries sh !! b))) as [-> ->].
    destruct (browserSummaries sh !! b) as [bS|] eqn:Eb; cbn [default].
    + now apply Hb.
    + rewrite (Hfresh (Hord eq_refl) eq_refl). cbn. lia.
  - intros r Hin Hord. rewrite lookup_update_browser.
    case_decide as Hd; [|now apply Hr].
    rewrite Hd, Hord. now destruct (browserSummaries sh !! browser r); eauto.
Qed.

Lemma counters_ok_set_summary (S : TestSummary) (sh : Shared) :
  counters_ok sh ->
  counted S = counted (executionSummary sh) ->
  total S = total (executionSummary sh) ->
  groupedResults S = groupedResults (executionSummary sh) ->
  counters_ok (set_summary S sh).
Proof.
  intros (Hg & Hb & Hr) Hc Ht HG. unfold counters_ok.
  cbn [executionSummary browserSummaries set_summary].
  rewrite Hc, Ht, HG. auto.
Qed.

Lemma counters_ok_fold_scan (b : string) (rd : ReportData) (sh : Shared) :
  counters_ok sh -> counters_ok (fold_scan b rd sh).
Proof.
  intros Hok. unfold fold_scan.
  destruct (fold_into_counts (folded_errors rd) (executionSummary sh))
    as (Hc & Ht & HG).
  apply counters_ok_set_summary; try assumption.
  apply counters_ok_update_browser; [assumption|].
  intros S. destruct (fold_into_counts (folded_errors rd) S) as (? & ? & _).
  now split.
Qed.

Lemma counters_ok_final (d st icon : string) (sh : Shared) :
  counters_ok sh ->
  counters_ok (set_summary (set_final d st icon (executionSummary sh)) sh).
Proof. intros H. now apply counters_ok_set_summary. Qed.

Lemma counters_ok_finish (c : Ctx) (l : Locals) (sh : Shared) :
  counters_ok sh -> counters_ok (finish cfg env c l sh).1.
Proof.
  intros Hok. pose proof (counters_ok_fresh (browserName c) sh Hok) as Hfresh.
  destruct Hok as (Hg & Hb & Hr). unfold finish.
  set (st := status (result c)).
  set (m' := update_browser _ _ _).
  set (stats := testStats cfg env c l (set_browsers m' sh)).
  assert (Hm' : forall b' bS', m' !! b' = Some bS' ->
            (counted bS' + countP (uncounted_in b') (groupedResults
               (executionSummary sh)) + (if uncounted_in b' stats then 1 else 0)
             <= total bS')%nat).
  { intros b' bS' Hl. unfold m' in Hl. apply update_browser_Some in Hl.
    assert (Hstats : uncounted_in b' stats
                     = uncounted st && String.eqb (browserName c) b')
      by reflexivity.
    rewrite Hstats. destruct Hl as [(-> & -> & Hord)|[Hne Hl]].
    - rewrite String.eqb_refl, andb_true_r.
      destruct (counted_count_status st (count_total
        (default empty_browser_summary (browserSummaries sh !! browserName c))))
        as (Hc & Ht & _).
      rewrite Ht.
      assert (Hbase : (counted (default empty_browser_summary
                         (browserSummaries sh !! browserName c))
                       + countP (uncounted_in (browserName c))
                           (groupedResults (executionSummary sh))
                       <= total (default empty_browser_summary
                         (browserSummaries sh !! browserName c)))%nat).
      { destruct (browserSummaries sh !! browserName c) as [bS|] eqn:Eb;
          cbn [default].
        - now apply Hb.
        - rewrite (Hfresh (Hord eq_refl) eq_refl). cbn. lia. }
      revert Hc Hbase. unfold counted, count_total. cbn. lia.
    - apply Hb in Hl.
      destruct (String.eqb_spec (browserName c) b'); [congruence|].
      rewrite andb_false_r. lia. }
  assert (Hsome : forall b', is_Some (browserSummaries sh !! b') ->
                             is_Some (m' !! b')).
  { intros b' Hs. unfold m'. rewrite lookup_update_browser.
    case_decide as Hd; [|assumption]. subst b'.
    destruct (browserSummaries sh !! browserName c); [eauto|].
    now destruct Hs. }
  assert (Hown : Js.inherited (browserName c) = false ->
                 is_Some (m' !! browserName c)).
  { intros Hord. unfold m'. rewrite lookup_update_ordinary by exact Hord.
    case_decide; [eauto | congruence]. }
  cbn [executionSummary set_browsers].
  destruct (push_group (fileGroup cfg env c) stats
              (groupedResults (executionSummary sh))) as [G|] eqn:EG.
  - destruct (push_group_records _ _ _ _ EG) as [Hin Hcount].
    assert (Hfin : counters_ok
      (set_summary
         (count_total (count_status st
            (if isFlaky (test c) (result c)
             then count_flaky (set_groups G (executionSummary sh))
             else set_groups G (executionSummary sh))))
         (set_browsers m' sh))).
    { unfold counters_ok. cbn [executionSummary browserSummaries set_summary
        set_browsers].
      set (S2 := if isFlaky (test c) (result c) then _ else _).
      assert (HS2 : counted S2 = counted (executionSummary sh)
                    /\ total S2 = total (executionSummary sh)
                    /\ groupedResults S2 = G).
      { unfold S2. destruct (isFlaky (test c) (result c)); now cbn. }
      destruct HS2 as (Hc2 & Ht2 & HG2).
      destruct (counted_count_status st S2) as (Hc3 & Ht3 & HG3).
      assert (HGf : groupedResults (count_total (count_status st S2)) = G).
      { cbn [count_total set_counts groupedResults]. congruence. }
      rewrite HGf. split; [|split].
      - rewrite Hcount.
        change (uncounted_record stats) with (uncounted st).
        revert Hc3. unfold counted, count_total. cbn.
        unfold counted in Hc2, Hg. lia.
      - intros b' bS' Hl. rewrite Hcount. specialize (Hm' b' bS' Hl). lia.
      - intros r Hr' Hord. apply Hin in Hr'. destruct Hr' as [->|Hr'].
        + now apply Hown.
        + apply Hsome. now apply Hr. }
    destruct (render_throws env exec_template _); exact Hfin.
  - cbn [fst]. unfold counters_ok.
    cbn [executionSummary browserSummaries set_browsers].
    split; [exact Hg|]. split.
    + intros b' bS' Hl. specialize (Hm' b' bS' Hl). lia.
    + intros r Hr' Hord. apply Hsome. now apply Hr.
Qed.

End Counters.

(** ** The reporter: what every step of a run preserves *)

(** In a goal about [resume] after a payload's report, the case in which the
    fold throws is closed by [tac]; the goal that remains is about the fold
    that is made. *)
Tactic Notation "on_throw" tactic3(tac) :=
  lazymatch goal with
  | |- context [if Reporter.fold_throws ?b ?rd ?sh then _ else _] =>
      let E := fresh "Ethrow" in
      destruct (Reporter.fold_throws b rd sh) eqn:E; [tac|]
  end.

Section Preservation.

Variable cfg : Reporter.Config.
Variable env : Reporter.Env.

Import Reporter.

Variable P : Shared -> Prop.

Hypothesis P_write_test : forall path d sh,
  is_summary d = false -> P sh -> P (write_file path d sh).
Hypothesis P_write_summary : forall path d sh,
  is_summary d = true -> P sh -> P (write_file path d sh).
Hypothesis P_start : forall t r sh, P sh -> P (start cfg env t r sh).1.
Hypothesis P_fold : forall b rd sh,
  fold_throws b rd sh = false -> P sh -> P (fold_scan b rd sh).
Hypothesis P_finish : forall c l sh, P sh -> P (finish cfg env c l sh).1.
Hypothesis P_final : forall d st icon sh,
  P sh -> P (set_summary (set_final d st icon (executionSummary sh)) sh).

Lemma scan_loop_preserves (c : Ctx) (srcs : list (nat * Source)) (l : Locals)
    (sh : Shared) :
  P sh -> P (scan_loop cfg env c srcs l sh).1.1.
Proof.
  revert l. induction srcs as [|[i src] rest IH]; intros l Hsh;
    cbn [scan_loop].
  - specialize (P_finish c l sh Hsh).
    destruct (finish cfg env c l sh) as [sh' p]. exact P_finish.
  - destruct (read_source env src) as [|e|rd|];
      [now apply IH | now apply IH | | assumption].
    destruct (render_throws env scan_template _); cbn [fst];
      [assumption | now apply P_write_test].
Qed.

Lemma resume_preserves (t : Task) (sh : Shared) :
  P sh -> P (resume cfg env t sh).1.
Proof.
  intros Hsh. unfold resume. destruct (pc t) as [|rd rest| | |f].
  - destruct (copyScreenshots env _ _) as [shots|]; [|assumption].
    destruct (copyPngAttachments env _ _) as [pngs|]; [|assumption].
    destruct (copyAllOtherAttachments env _ _) as [others|]; [|assumption].
    pose proof (scan_loop_preserves (ctx t) (entries_from 0 (sources (ctx t)))
                  {| l_video := copyTestVideo env (result (ctx t))
                                  (testResultsFolder cfg (ctx t));
                     l_screenshots := shots;
                     l_allAttachments := (pngs ++ others)%list;
                     l_errorLogs := errorLogs_of env (ctx t);
                     l_a11yReportPath := None;
                     l_a11yErrorCount := 0;
                     l_aggregatedA11yErrors := [] |} sh Hsh) as H.
    destruct (scan_loop _ _ _ _ _ _) as [[sh' l'] p]. exact H.
  - on_throw assumption.
    pose proof (scan_loop_preserves (ctx t) rest (after_scan rd (locals t))
                  (fold_scan (browserName (ctx t)) rd sh)
                  (P_fold _ _ _ Ethrow Hsh)) as H.
    destruct (scan_loop _ _ _ _ _ _) as [[sh' l'] p]. exact H.
  - assumption.
  - assumption.
  - assumption.
Qed.

Lemma apply_event_preserves (w : World) (e : Event) :
  P (shared w) -> P (shared (apply_event cfg env w e)).
Proof.
  intros Hw. destruct e as [t r|i|fr|]; cbn [apply_event].
  - specialize (P_start t r (shared w) Hw).
    destruct (start cfg env t r (shared w)) as [sh task]. exact P_start.
  - destruct (tasks w !! i) as [task|]; [|assumption].
    pose proof (resume_preserves task (shared w) Hw) as H.
    destruct (resume cfg env task (shared w)) as [sh task']. exact H.
  - destruct (ending w); assumption.
  - destruct (ending w) as [|fr n| | |]; try assumption.
    destruct (List.existsb is_rejected _); [assumption|].
    destruct (List.forallb is_fulfilled _); [|assumption].
    unfold render_summary.
    destruct (render_throws env summary_template _); cbn [shared].
    + now apply P_final.
    + apply P_write_summary; [reflexivity|]. now apply P_final.
Qed.

Lemma run_from_preserves (evs : list Event) (w : World) :
  P (shared w) -> P (shared (run_from cfg env w evs)).
Proof.
  revert w. induction evs as [|e evs IH]; intros w Hw; [assumption|].
  cbn [run_from fold_left]. apply IH. now apply apply_event_preserves.
Qed.

End Preservation.

Section TaskInvariants.

Variable cfg : Reporter.Config.
Variable env : Reporter.Env.

Import Reporter.

(** A property of tasks that [start] establishes and [resume] keeps holds
    of every task of every run. *)
Section Wf.

Variable wf : Task -> Prop.
Hypothesis wf_start : forall t r sh, wf (start cfg env t r sh).2.
Hypothesis wf_resume : forall task sh, wf task -> wf (resume cfg env task sh).2.

Lemma wf_apply_event (w : World) (e : Event) :
  List.Forall wf (tasks w) -> List.Forall wf (tasks (apply_event cfg env w e)).
Proof.
  intros Hw. destruct e as [t r|i|fr|]; cbn [apply_event].
  - specialize (wf_start t r (shared w)).
    destruct (start cfg env t r (shared w)) as [sh task]. cbn [tasks].
    apply List.Forall_app. split; [assumption | now constructor].
  - destruct (tasks w !! i) as [task|] eqn:Ei; [|assumption].
    assert (Ht : wf task).
    { rewrite List.Forall_forall in Hw. apply Hw.
      apply list_elem_of_In. now apply list_elem_of_lookup_2 with i. }
    specialize (wf_resume task (shared w) Ht).
    destruct (resume cfg env task (shared w)) as [sh task']. cbn [tasks].
    apply Forall_insert; assumption.
  - destruct (ending w); assumption.
  - destruct (ending w) as [|fr n| | |]; try assumption.
    destruct (List.existsb is_rejected _); [assumption|].
    destruct (List.forallb is_fulfilled _); [|assumption].
    unfold render_summary. destruct (render_throws env _ _); assumption.
Qed.

Lemma wf_run_from (evs : list Event) (w : World) :
  List.Forall wf (tasks w) -> List.Forall wf (tasks (run_from cfg env w evs)).
Proof.
  revert w. induction evs as [|e evs IH]; intros w Hw; [assumption|].
  cbn [run_from fold_left]. apply IH. now apply wf_apply_event.
Qed.

Lemma wf_run (evs : list Event) : List.Forall wf (tasks (run cfg env evs)).
Proof. apply wf_run_from. constructor. Qed.

(** A quantity of the shared state that is the sum of what each task has
    contributed. *)
Variable q : Shared -> Z.
Variable f : Task -> Z.

Hypothesis q_start : forall t r sh,
  q (start cfg env t r sh).1 = (q sh + f (start cfg env t r sh).2)%Z.
Hypothesis q_resume : forall task sh,
  wf task ->
  (q (resume cfg env task sh).1 + f task
   = q sh + f (resume cfg env task sh).2)%Z.
Hypothesis q_write : forall path d sh, q (write_file path d sh) = q sh.
Hypothesis q_final : forall d st icon sh,
  q (set_summary (set_final d st icon (executionSummary sh)) sh) = q sh.

Lemma sumZ_app (l1 l2 : list Task) :
  sumZ f (l1 ++ l2) = (sumZ f l1 + sumZ f l2)%Z.
Proof. induction l1 as [|x l1 IH]; simpl; [reflexivity | rewrite IH; lia]. Qed.

Lemma sumZ_insert (l : list Task) (i : nat) (old new : Task) :
  l !! i = Some old ->
  (sumZ f (<[i := new]> l) + f old = sumZ f l + f new)%Z.
Proof.
  revert i. induction l as [|x l IH]; intros i H; [discriminate|].
  destruct i as [|i]; simpl in *.
  - injection H as ->. lia.
  - specialize (IH i H). lia.
Qed.

Lemma additive_apply_event (w : World) (e : Event) :
  List.Forall wf (tasks w) ->
  q (shared w) = sumZ f (tasks w) ->
  q (shared (apply_event cfg env w e)) = sumZ f (tasks (apply_event cfg env w e)).
Proof.
  intros Hwf Hw. destruct e as [t r|i|fr|]; cbn [apply_event].
  - specialize (q_start t r (shared w)).
    destruct (start cfg env t r (shared w)) as [sh task]. cbn [shared tasks].
    rewrite sumZ_app. cbn [fst snd sumZ] in *. lia.
  - destruct (tasks w !! i) as [task|] eqn:Ei; [|assumption].
    assert (Ht : wf task).
    { rewrite List.Forall_forall in Hwf. apply Hwf.
      apply list_elem_of_In. now apply list_elem_of_lookup_2 with i. }
    specialize (q_resume task (shared w) Ht).
    pose proof (sumZ_insert (tasks w) i task (resume cfg env task (shared w)).2 Ei).
    destruct (resume cfg env task (shared w)) as [sh task'].
    cbn [shared tasks fst snd] in *. lia.
  - destruct (ending w); assumption.
  - destruct (ending w) as [|fr n| | |]; try assumption.
    destruct (List.existsb is_rejected _); [assumption|].
    destruct (List.forallb is_fulfilled _); [|assumption].
    unfold render_summary. destruct (render_throws env _ _); cbn [shared tasks].
    + now rewrite q_final.
    + now rewrite q_write, q_final.
Qed.

Lemma additive_run_from (evs : list Event) (w : World) :
  List.Forall wf (tasks w) ->
  q (shared w) = sumZ f (tasks w) ->
  q (shared (run_from cfg env w evs)) = sumZ f (tasks (run_from cfg env w evs)).
Proof.
  revert w. induction evs as [|e evs IH]; intros w Hwf Hw; [assumption|].
  cbn [run_from fold_left]. apply IH.
  - now apply wf_apply_event.
  - now apply additive_apply_event.
Qed.

End Wf.

(** The tasks of a run are its tests, in the order of the test-end calls. *)
Lemma ctx_resume (task : Task) (sh : Shared) :
  ctx (resume cfg env task sh).2 = ctx task.
Proof.
  unfold resume. destruct (pc task) as [|rd rest| | |fl]; try reflexivity.
  - destruct (copyScreenshots env _ _); [|reflexivity].
    destruct (copyPngAttachments env _ _); [|reflexivity].
    destruct (copyAllOtherAttachments env _ _); [|reflexivity].
    now destruct (scan_loop _ _ _ _ _ _) as [[sh' l'] p].
  - on_throw reflexivity.
    now destruct (scan_loop _ _ _ _ _ _) as [[sh' l'] p].
Qed.

Lemma tests_of_app (a b : list Event) :
  tests_of (a ++ b) = (tests_of a ++ tests_of b)%list.
Proof. unfold tests_of. now rewrite List.map_app, List.concat_app. Qed.

Lemma tasks_apply_event (w : World) (e : Event) :
  List.map test_of (tasks (apply_event cfg env w e))
  = (List.map test_of (tasks w) ++ tests_of [e])%list.
Proof.
  destruct e as [t r|i|fr|]; cbn [apply_event tests_of List.map List.concat app].
  - destruct (start cfg env t r (shared w)) as [sh task] eqn:E.
    cbn [tasks]. rewrite List.map_app. cbn. f_equal.
    unfold start in E. injection E as _ <-. reflexivity.
  - rewrite List.app_nil_r.
    destruct (tasks w !! i) as [task|] eqn:Ei; [|reflexivity].
    pose proof (ctx_resume task (shared w)) as Hc.
    destruct (resume cfg env task (shared w)) as [sh task']. cbn [tasks snd] in *.
    apply list_eq. intros j. rewrite !list_lookup_fmap.
    destruct (decide (i = j)) as [<-|Hne].
    + rewrite list_lookup_insert_eq by (now apply lookup_lt_Some with task).
      rewrite Ei. cbn. unfold test_of. now rewrite Hc.
    + now rewrite list_lookup_insert_ne.
  - rewrite List.app_nil_r. now destruct (ending w).
  - rewrite List.app_nil_r. destruct (ending w) as [|fr n| | |]; try reflexivity.
    destruct (List.existsb is_rejected _); [reflexivity|].
    destruct (List.forallb is_fulfilled _); [|reflexivity].
    unfold render_summary. now destruct (render_throws env _ _).
Qed.

Lemma tasks_run_from (evs : list Event) (w : World) :
  List.map test_of (tasks (run_from cfg env w evs))
  = (List.map test_of (tasks w) ++ tests_of evs)%list.
Proof.
  revert w. induction evs as [|e evs IH]; intros w.
  - cbn. now rewrite List.app_nil_r.
  - cbn [run_from fold_left]. unfold run_from in IH. rewrite IH.
    rewrite tasks_apply_event, <- List.app_assoc.
    now rewrite <- tests_of_app.
Qed.

Lemma tasks_run (evs : list Event) :
  List.map test_of (tasks (run cfg env evs)) = tests_of evs.
Proof. unfold run. now rewrite tasks_run_from. Qed.

End TaskInvariants.

Section Flaky.

Variable cfg : Reporter.Config.
Variable env : Reporter.Env.

Import Reporter.

#[local] Abbreviation flaky_count sh :=
  (Z.of_nat (totalFlaky (executionSummary sh))).

Lemma finish_flaky (c : Ctx) (l : Locals) (sh : Shared) :
  flaky_count (finish cfg env c l sh).1
  = (flaky_count sh
     + if aggregated_pc (finish cfg env c l sh).2
          && isFlaky (test c) (result c) then 1 else 0)%Z.
Proof.
  unfold finish. cbn [executionSummary set_browsers].
  destruct (push_group _ _ _) as [G|]; [|cbn; lia].
  destruct (render_throws env exec_template _);
    destruct (isFlaky (test c) (result c));
    destruct (status (result c)); cbn; lia.
Qed.

Lemma scan_loop_flaky (c : Ctx) (srcs : list (nat * Source)) (l : Locals)
    (sh : Shared) :
  flaky_count (scan_loop cfg env c srcs l sh).1.1
  = (flaky_count sh
     + if aggregated_pc (scan_loop cfg env c srcs l sh).2
          && isFlaky (test c) (result c) then 1 else 0)%Z.
Proof.
  revert l. induction srcs as [|[i src] rest IH]; intros l; cbn [scan_loop].
  - pose proof (finish_flaky c l sh) as H.
    destruct (finish cfg env c l sh) as [sh' p]. exact H.
  - destruct (read_source env src) as [|e|rd|];
      [apply IH | apply IH | | cbn; lia].
    destruct (render_throws env scan_template _); cbn; lia.
Qed.

Lemma flaky_resume (task : Task) (sh : Shared) :
  (flaky_count (resume cfg env task sh).1 + flaky_weight task
   = flaky_count sh + flaky_weight (resume cfg env task sh).2)%Z.
Proof.
  unfold flaky_weight, task_is_flaky, resume.
  destruct (pc task) as [|rd rest| | |fl] eqn:Epc; cbn [aggregated_pc andb].
  - destruct (copyScreenshots env _ _) as [shots|]; [|cbn; lia].
    destruct (copyPngAttachments env _ _) as [pngs|]; [|cbn; lia].
    destruct (copyAllOtherAttachments env _ _) as [others|]; [|cbn; lia].
    match goal with |- context [scan_loop cfg env ?c ?s ?l ?h] =>
      pose proof (scan_loop_flaky c s l h) as H;
      destruct (scan_loop cfg env c s l h) as [[sh' l'] p] end.
    cbn [fst snd pc ctx] in *. lia.
  - on_throw (cbn; lia).
    match goal with |- context [scan_loop cfg env ?c ?s ?l ?h] =>
      pose proof (scan_loop_flaky c s l h) as H;
      destruct (scan_loop cfg env c s l h) as [[sh' l'] p] end.
    cbn [fst snd pc ctx] in *.
    assert (Hf : flaky_count (fold_scan (browserName (ctx task)) rd sh)
                 = flaky_count sh).
    { unfold fold_scan. cbn [executionSummary set_summary].
      now destruct (folded_errors rd). }
    lia.
  - cbn [fst snd pc ctx aggregated_pc andb]. lia.
  - cbn [fst snd]. rewrite Epc. reflexivity.
  - cbn [fst snd]. rewrite Epc. reflexivity.
Qed.

Lemma sumZ_flaky (l : list Task) :
  sumZ flaky_weight l = Z.of_nat (length (List.filter task_is_flaky l)).
Proof.
  induction l as [|x l IH]; [reflexivity|]. cbn [sumZ List.filter].
  rewrite IH. unfold flaky_weight. destruct (task_is_flaky x); cbn [length]; lia.
Qed.

Lemma flaky_run (evs : list Event) :
  totalFlaky (executionSummary (shared (run cfg env evs)))
  = length (List.filter task_is_flaky (tasks (run cfg env evs))).
Proof.
  apply Nat2Z.inj. rewrite <- sumZ_flaky. unfold run.
  apply additive_run_from
    with (wf := fun _ => True)
         (q := fun sh => Z.of_nat (totalFlaky (executionSummary sh)))
         (f := flaky_weight).
  - intros. exact I.
  - intros. exact I.
  - intros t r sh. cbn. lia.
  - intros task sh _. apply flaky_resume.
  - reflexivity.
  - reflexivity.
  - constructor.
  - reflexivity.
Qed.

End Flaky.

(** ** Claim about flaky tests *)

(** C9. A test is flaky exactly when it has more than one recorded attempt
    and its final status is passed; a test with a single attempt is not
    flaky, and the configured number of retries plays no part.  In every
    run the flaky counter is the number of tests, among those that reached
    the final aggregation, that are flaky in this sense. *)
Theorem C9_flaky (cfg : Reporter.Config) (env : Reporter.Env)
    (evs : list Reporter.Event) (t : Reporter.TestCase)
    (r : Reporter.TestResult) :
  (Reporter.isFlaky t r = true
   <-> (1 < Reporter.results_length t)%nat /\ Reporter.status r = passed)
  /\ (Reporter.results_length t = 1%nat -> Reporter.isFlaky t r = false)
  /\ (forall n, Reporter.isFlaky (Reporter.with_retries n t) r
                = Reporter.isFlaky t r)
  /\ Reporter.totalFlaky
       (Reporter.executionSummary (Reporter.shared (Reporter.run cfg env evs)))
     = length (List.filter Reporter.task_is_flaky
                 (Reporter.tasks (Reporter.run cfg env evs))).
Proof.
  split; [|split; [|split]].
  - unfold Reporter.isFlaky. rewrite andb_true_iff, Nat.ltb_lt.
    destruct (Reporter.status r); cbn; intuition discriminate.
  - intros H. unfold Reporter.isFlaky. now rewrite H.
  - reflexivity.
  - apply flaky_run.
Qed.

Section RuleAggregate.

Variable cfg : Reporter.Config.
Variable env : Reporter.Env.
Variable rule : string.
Hypothesis rule_ordinary : Js.inherited rule = false.

Import Reporter.

#[local] Abbreviation rule_q sh :=
  (rule_count (wcagErrors (executionSummary sh)) rule).

#[local] Abbreviation folded_by t :=
  (rule_total rule (l_aggregatedA11yErrors (locals t))).

Lemma rule_total_app (a b : list A11yError) :
  rule_total rule (a ++ b) = (rule_total rule a + rule_total rule b)%Z.
Proof. induction a as [|e a IH]; simpl; [reflexivity | rewrite IH; lia]. Qed.

Lemma rule_count_add_wcag (m : gmap string WcagEntry) (e : A11yError) :
  rule_count (add_wcag m e) rule
  = (rule_count m rule
     + if String.eqb (id e) rule then total_or_0 e else 0)%Z.
Proof.
  unfold add_wcag, ensure_rule.
  destruct (m !! id e) as [e0|] eqn:Em.
  - rewrite Em. unfold rule_count. rewrite lookup_insert.
    destruct (String.eqb_spec (id e) rule) as [Heq|Hne].
    + rewrite decide_True by assumption. rewrite <- Heq, Em. cbn. lia.
    + rewrite decide_False by assumption. destruct (m !! rule); lia.
  - destruct (Js.inherited (id e)) eqn:Ei.
    + rewrite Em.
      destruct (String.eqb_spec (id e) rule) as [Heq|Hne]; [congruence | lia].
    + rewrite lookup_insert_eq. unfold rule_count. rewrite lookup_insert.
      destruct (String.eqb_spec (id e) rule) as [Heq|Hne].
      * rewrite decide_True by assumption. rewrite <- Heq, Em. cbn. lia.
      * rewrite decide_False by assumption.
        rewrite lookup_insert_ne by assumption. destruct (m !! rule); lia.
Qed.

Lemma rule_count_fold (errs : list A11yError) (m : gmap string WcagEntry) :
  rule_count (fold_left add_wcag errs m) rule
  = (rule_count m rule + rule_total rule errs)%Z.
Proof.
  revert m. induction errs as [|e errs IH]; intros m; simpl; [lia|].
  rewrite IH, rule_count_add_wcag. lia.
Qed.

Lemma rule_count_fold_into (errs : list A11yError) (S : TestSummary) :
  rule_count (wcagErrors (fold_into errs S)) rule
  = (rule_count (wcagErrors S) rule + rule_total rule errs)%Z.
Proof.
  destruct errs as [|e errs]; [simpl; lia|].
  unfold fold_into. cbn [wcagErrors set_wcag]. apply rule_count_fold.
Qed.

Lemma rule_q_fold_scan (b : string) (rd : ReportData) (sh : Shared) :
  rule_q (fold_scan b rd sh)
  = (rule_q sh + rule_total rule (folded_errors rd))%Z.
Proof.
  unfold fold_scan. cbn [executionSummary set_summary].
  apply rule_count_fold_into.
Qed.

Lemma rule_q_finish (c : Ctx) (l : Locals) (sh : Shared) :
  rule_q (finish cfg env c l sh).1 = rule_q sh.
Proof.
  unfold finish. cbn [executionSummary set_browsers].
  destruct (push_group _ _ _) as [G|]; [|reflexivity].
  destruct (render_throws env exec_template _);
    destruct (isFlaky (test c) (result c));
    destruct (status (result c)); reflexivity.
Qed.

Lemma rule_q_scan_loop (c : Ctx) (srcs : list (nat * Source)) (l : Locals)
    (sh : Shared) :
  rule_q (scan_loop cfg env c srcs l sh).1.1 = rule_q sh.
Proof.
  apply (scan_loop_preserves cfg env (fun sh' => rule_q sh' = rule_q sh)).
  - intros path d sh' _ H. exact H.
  - intros c' l' sh' H. now rewrite rule_q_finish.
  - reflexivity.
Qed.

(** The loop leaves the aggregated errors alone; where it stops, the
    payload it has rendered and the sources that remain carry what the
    sources it was given carried. *)
Lemma scan_loop_errors (c : Ctx) (srcs : list (nat * Source)) (l : Locals)
    (sh : Shared) :
  let '(_, l', p) := scan_loop cfg env c srcs l sh in
  l_aggregatedA11yErrors l' = l_aggregatedA11yErrors l
  /\ match p with
     | AwaitScanRender rd rest =>
         (folded_errors rd ++ parsed_errors env rest)%list
         = parsed_errors env srcs
     | AwaitExecRender => parsed_errors env srcs = []
     | Rejected _ => True
     | AwaitVideo | Fulfilled => False
     end.
Proof.
  revert l. induction srcs as [|[i src] rest IH]; intros l; cbn [scan_loop].
  - unfold finish. destruct (push_group _ _ _) as [G|]; [|now split].
    destruct (render_throws env exec_template _); now split.
  - unfold parsed_errors. cbn [List.map List.concat snd].
    fold (parsed_errors env rest).
    destruct (read_source env src) as [|e|rd|].
    + apply IH.
    + specialize (IH (push_log
        (ansiToHtml env
           ("[SnapAlly] Internal error parsing accessibility data from "
            +:+ source_type src +:+ ": " +:+ e)) l)).
      destruct (scan_loop _ _ _ _ _ _) as [[sh' l'] p]. exact IH.
    + destruct (render_throws env scan_template _); now split.
    + now split.
Qed.

Lemma task_errors_ok_start (t : TestCase) (r : TestResult) (sh : Shared) :
  task_errors_ok env (start cfg env t r sh).2.
Proof. reflexivity. Qed.

Lemma task_errors_ok_resume (task : Task) (sh : Shared) :
  task_errors_ok env task -> task_errors_ok env (resume cfg env task sh).2.
Proof.
  unfold task_errors_ok, resume.
  destruct (pc task) as [|rd rest| | |fl] eqn:Epc; intros Hok.
  - destruct (copyScreenshots env _ _) as [shots|]; [|exact I].
    destruct (copyPngAttachments env _ _) as [pngs|]; [|exact I].
    destruct (copyAllOtherAttachments env _ _) as [others|]; [|exact I].
    match goal with |- context [scan_loop cfg env ?c ?s ?l ?h] =>
      pose proof (scan_loop_errors c s l h) as H;
      destruct (scan_loop cfg env c s l h) as [[sh' l'] p] end.
    cbn [snd ctx locals pc l_aggregatedA11yErrors] in *.
    destruct H as [Hagg Hp]. rewrite Hagg.
    unfold test_errors. fold (sources (ctx task)).
    destruct p as [|rd rest| | |fl]; try tauto; now rewrite <- Hp.
  - on_throw (exact I).
    match goal with |- context [scan_loop cfg env ?c ?s ?l ?h] =>
      pose proof (scan_loop_errors c s l h) as H;
      destruct (scan_loop cfg env c s l h) as [[sh' l'] p] end.
    cbn [snd ctx locals pc] in *. destruct H as [Hagg Hp]. rewrite Hagg.
    assert (Hafter : l_aggregatedA11yErrors (after_scan rd (locals task))
                     = (l_aggregatedA11yErrors (locals task)
                        ++ folded_errors rd)%list).
    { unfold after_scan. destruct (folded_errors rd); cbn;
        [now rewrite List.app_nil_r | reflexivity]. }
    rewrite Hafter.
    destruct p as [|rd' rest'| | |fl]; try tauto.
    + rewrite <- Hok, <- Hp. now rewrite <- !List.app_assoc.
    + rewrite <- Hok, Hp. now rewrite List.app_nil_r.
  - exact Hok.
  - cbn [snd]. now rewrite Epc.
  - cbn [snd]. now rewrite Epc.
Qed.

Lemma rule_q_resume (task : Task) (sh : Shared) :
  task_errors_ok env task ->
  (rule_q (resume cfg env task sh).1 + folded_by task
   = rule_q sh + folded_by (resume cfg env task sh).2)%Z.
Proof.
  unfold task_errors_ok, resume.
  destruct (pc task) as [|rd rest| | |fl] eqn:Epc; intros Hok.
  - destruct (copyScreenshots env _ _) as [shots|]; [|cbn; lia].
    destruct (copyPngAttachments env _ _) as [pngs|]; [|cbn; lia].
    destruct (copyAllOtherAttachments env _ _) as [others|]; [|cbn; lia].
    match goal with |- context [scan_loop cfg env ?c ?s ?l ?h] =>
      pose proof (scan_loop_errors c s l h) as H;
      pose proof (rule_q_scan_loop c s l h) as Hq;
      destruct (scan_loop cfg env c s l h) as [[sh' l'] p] end.
    cbn [fst snd ctx locals pc l_aggregatedA11yErrors] in *.
    destruct H as [Hagg _]. rewrite Hagg, Hok, Hq. reflexivity.
  - on_throw (cbn; lia).
    match goal with |- context [scan_loop cfg env ?c ?s ?l ?h] =>
      pose proof (scan_loop_errors c s l h) as H;
      pose proof (rule_q_scan_loop c s l h) as Hq;
      destruct (scan_loop cfg env c s l h) as [[sh' l'] p] end.
    cbn [fst snd ctx locals pc] in *. destruct H as [Hagg _].
    rewrite Hagg, Hq, rule_q_fold_scan.
    unfold after_scan. destruct (folded_errors rd) as [|e errs] eqn:Ef.
    + cbn. lia.
    + cbn [l_aggregatedA11yErrors add_errors]. rewrite rule_total_app. lia.
  - cbn. lia.
  - cbn. lia.
  - cbn. lia.
Qed.

(** At every moment of a run, the count of a rule in the global aggregate
    is the sum of what the tasks have folded so far. *)
Lemma rule_count_run (evs : list Event) :
  rule_q (shared (run cfg env evs))
  = sumZ (fun t => folded_by t) (tasks (run cfg env evs)).
Proof.
  unfold run.
  apply additive_run_from
    with (wf := task_errors_ok env)
         (q := fun sh => rule_q sh)
         (f := fun t => folded_by t).
  - apply task_errors_ok_start.
  - apply task_errors_ok_resume.
  - intros t r sh. cbn. lia.
  - apply rule_q_resume.
  - reflexivity.
  - reflexivity.
  - constructor.
  - reflexivity.
Qed.

Lemma task_errors_ok_run (evs : list Event) :
  List.Forall (task_errors_ok env) (tasks (run cfg env evs)).
Proof.
  apply wf_run; [apply task_errors_ok_start | apply task_errors_ok_resume].
Qed.

End RuleAggregate.

Section RunEnd.

Variable cfg : Reporter.Config.
Variable env : Reporter.Env.

Import Reporter.

Lemma run_from_snoc (w : World) (evs : list Event) (e : Event) :
  run_from cfg env w (evs ++ [e]) = apply_event cfg env (run_from cfg env w evs) e.
Proof. unfold run_from. now rewrite fold_left_app. Qed.

Lemma ending_apply_other (w : World) (e : Event) :
  ending w = NotEnded -> is_end e = false ->
  ending (apply_event cfg env w e) = NotEnded.
Proof.
  intros Hw He. destruct e as [t r|i|fr|]; cbn [apply_event]; try discriminate.
  - now destruct (start cfg env t r (shared w)).
  - destruct (tasks w !! i); [|assumption].
    now destruct (resume cfg env _ (shared w)).
  - now rewrite Hw.
Qed.

Lemma ending_run_no_end (evs : list Event) (w : World) :
  ending w = NotEnded ->
  List.forallb (fun e => negb (is_end e)) evs = true ->
  ending (run_from cfg env w evs) = NotEnded.
Proof.
  revert w. induction evs as [|e evs IH]; intros w Hw H; [assumption|].
  cbn [List.forallb] in H. apply andb_true_iff in H. destruct H as [He H].
  cbn [run_from fold_left]. apply IH; [|assumption].
  apply ending_apply_other; [assumption|]. now apply negb_true_iff.
Qed.

Lemma protocol_snoc (evs : list Event) (e : Event) :
  driver_protocol (evs ++ [e]) = true ->
  driver_protocol evs = true
  /\ (is_driver_call e = true ->
      List.forallb (fun x => negb (is_end x)) evs = true).
Proof.
  induction evs as [|x evs IH]; cbn [app driver_protocol List.forallb].
  - now split.
  - destruct x as [t r|i|fr|]; cbn [is_end negb andb].
    + exact IH.
    + exact IH.
    + rewrite List.forallb_app. cbn [List.forallb]. rewrite !andb_true_iff.
      intros (H1 & H2 & _). split; [assumption|].
      intros Hc. rewrite Hc in H2. discriminate.
    + exact IH.
Qed.

(** Induction on the runs that follow the driver's protocol: the driver
    calls the reporter only while [onEnd] has not been called. *)
Lemma protocol_ind (P : World -> Prop) :
  P initial_world ->
  (forall w e, P w -> (is_driver_call e = true -> ending w = NotEnded) ->
               P (apply_event cfg env w e)) ->
  forall evs, driver_protocol evs = true -> P (run cfg env evs).
Proof.
  intros Hinit Hstep evs. induction evs as [|e evs IH] using List.rev_ind;
    intros Hp; [exact Hinit|].
  apply protocol_snoc in Hp. destruct Hp as [Hp He].
  unfold run. rewrite run_from_snoc. apply Hstep; [now apply IH|].
  intros Hc. apply ending_run_no_end; [reflexivity | now apply He].
Qed.

Lemma no_summary_resume (task : Task) (sh : Shared) :
  no_summary (written sh) -> no_summary (written (resume cfg env task sh).1).
Proof.
  apply (resume_preserves cfg env (fun sh => no_summary (written sh))).
  - intros path d sh' Hd H. unfold no_summary, write_file. cbn [written].
    apply List.Forall_app. split; [assumption | now repeat constructor].
  - intros b rd sh' _ H. exact H.
  - intros c l sh' H. unfold finish. cbn [set_browsers].
    destruct (push_group _ _ _) as [G|]; [|exact H].
    destruct (render_throws env exec_template _); [exact H|].
    cbn [fst write_file written set_summary set_browsers].
    apply List.Forall_app. split; [assumption | now repeat constructor].
Qed.

Lemma resume_fulfilled (task : Task) (sh : Shared) :
  is_fulfilled task = true -> resume cfg env task sh = (sh, task).
Proof.
  unfold is_fulfilled, resume. now destruct (pc task).
Qed.

Lemma end_ok_step (w : World) (e : Event) :
  end_ok cfg w ->
  (is_driver_call e = true -> ending w = NotEnded) ->
  end_ok cfg (apply_event cfg env w e).
Proof.
  intros Hok Hproto. destruct e as [t r|i|fr|]; cbn [apply_event].
  - specialize (Hproto eq_refl). unfold end_ok in *. rewrite Hproto in Hok.
    unfold start. cbn [ending shared written]. now rewrite Hproto.
  - destruct (tasks w !! i) as [task|] eqn:Ei; [|assumption].
    unfold end_ok in *. destruct (ending w) as [|fr n| | |] eqn:Ee.
    + pose proof (no_summary_resume task (shared w) Hok) as H.
      destruct (resume cfg env task (shared w)) as [sh task'].
      cbn [ending shared fst] in *. exact H.
    + destruct Hok as [Hns Hn].
      pose proof (no_summary_resume task (shared w) Hns) as H.
      destruct (resume cfg env task (shared w)) as [sh task'].
      cbn [ending shared tasks fst] in *. split; [assumption|].
      now rewrite length_insert.
    + destruct Hok as [Hall Hw].
      assert (Hf : is_fulfilled task = true).
      { rewrite List.Forall_forall in Hall. apply Hall.
        apply list_elem_of_In. now apply list_elem_of_lookup_2 with i. }
      rewrite (resume_fulfilled task (shared w) Hf).
      cbn [ending shared tasks]. rewrite list_insert_id by assumption.
      now split.
    + destruct Hok as [Hall Hw].
      assert (Hf : is_fulfilled task = true).
      { rewrite List.Forall_forall in Hall. apply Hall.
        apply list_elem_of_In. now apply list_elem_of_lookup_2 with i. }
      rewrite (resume_fulfilled task (shared w) Hf).
      cbn [ending shared tasks]. rewrite list_insert_id by assumption.
      now split.
    + pose proof (no_summary_resume task (shared w) Hok) as H.
      destruct (resume cfg env task (shared w)) as [sh task'].
      cbn [ending shared fst] in *. exact H.
  - specialize (Hproto eq_refl). unfold end_ok in *. rewrite Hproto in *.
    cbn [ending shared tasks]. now split.
  - unfold end_ok in *. destruct (ending w) as [|fr n| | |] eqn:Ee.
    + rewrite Ee. exact Hok.
    + destruct Hok as [Hns ->]. rewrite firstn_all.
      destruct (List.existsb is_rejected (tasks w)); [exact Hns|].
      destruct (List.forallb is_fulfilled (tasks w)) eqn:Ef.
      * unfold render_summary.
        destruct (render_throws env summary_template _);
          cbn [ending shared tasks written set_summary write_file
               executionSummary browserSummaries].
        -- exact Hns.
        -- split.
           ++ rewrite List.forallb_forall in Ef. now apply List.Forall_forall.
           ++ eexists _, _. split; [reflexivity | exact Hns].
      * rewrite Ee. now split.
    + cbn [ending shared tasks]. exact Hok.
    + rewrite Ee. exact Hok.
    + rewrite Ee. exact Hok.
Qed.

Lemma end_ok_run (evs : list Event) :
  driver_protocol evs = true -> end_ok cfg (run cfg env evs).
Proof.
  apply (protocol_ind (end_ok cfg)).
  - constructor.
  - apply end_ok_step.
Qed.

(** A summary among the written files is the last one, holds the reporter's
    summary as it stands, and every task is fulfilled. *)
Lemma summary_written (evs : list Event) (path : string) (d : Doc) :
  driver_protocol evs = true ->
  In (path, d) (written (shared (run cfg env evs))) ->
  is_summary d = true ->
  let w := run cfg env evs in
  List.Forall (fun t => is_fulfilled t = true) (tasks w)
  /\ exists pre colors,
       written (shared w)
       = (pre ++ [(summaryFile cfg,
                   ExecutionSummary (executionSummary (shared w))
                     (browserSummaries (shared w)) colors)])%list
       /\ no_summary pre
       /\ (path, d) = (summaryFile cfg,
                       ExecutionSummary (executionSummary (shared w))
                         (browserSummaries (shared w)) colors).
Proof.
  intros Hp Hin Hd. cbn zeta. pose proof (end_ok_run evs Hp) as Hok.
  unfold end_ok in Hok.
  assert (Hno : no_summary (written (shared (run cfg env evs))) -> False).
  { intros Hns. unfold no_summary in Hns. rewrite List.Forall_forall in Hns.
    specialize (Hns _ Hin). cbn in Hns. congruence. }
  destruct (ending (run cfg env evs)) as [|fr n| | |];
    try (exfalso; apply Hno; tauto).
  - destruct Hok as (Hall & pre & colors & Hw & Hns). split; [assumption|].
    exists pre, colors. split; [assumption|]. split; [assumption|].
    rewrite Hw in Hin. apply List.in_app_iff in Hin. destruct Hin as [Hin|Hin].
    + unfold no_summary in Hns. rewrite List.Forall_forall in Hns.
      specialize (Hns _ Hin). cbn in Hns. congruence.
    + destruct Hin as [<-|[]]. reflexivity.
  - destruct Hok as (Hall & pre & colors & Hw & Hns). split; [assumption|].
    exists pre, colors. split; [assumption|]. split; [assumption|].
    rewrite Hw in Hin. apply List.in_app_iff in Hin. destruct Hin as [Hin|Hin].
    + unfold no_summary in Hns. rewrite List.Forall_forall in Hns.
      specialize (Hns _ Hin). cbn in Hns. congruence.
    + destruct Hin as [<-|[]]. reflexivity.
Qed.

End RunEnd.

Section Growth.

Variable cfg : Reporter.Config.
Variable env : Reporter.Env.

Import Reporter.

Lemma grows_refl (sh : Shared) : grows sh sh.
Proof. unfold grows. repeat split; eauto. Qed.

Lemma grows_trans (a b c : Shared) : grows a b -> grows b c -> grows a c.
Proof.
  intros (Hw1 & Hr1 & Hg1) (Hw2 & Hr2 & Hg2). unfold grows. repeat split.
  - auto.
  - intros g l r Hin Hr. destruct (Hr1 g l r Hin Hr) as (l' & Hin' & Hr').
    eauto.
  - auto.
Qed.

Lemma grows_same_groups (sh sh' : Shared) :
  (forall f, In f (written sh) -> In f (written sh')) ->
  groupedResults (executionSummary sh') = groupedResults (executionSummary sh) ->
  grows sh sh'.
Proof.
  intros Hw HG. unfold grows. rewrite HG. repeat split; eauto.
Qed.

Lemma grows_write (path : string) (d : Doc) (sh : Shared) :
  grows sh (write_file path d sh).
Proof.
  apply grows_same_groups; [|reflexivity].
  intros f Hf. cbn [written write_file]. apply List.in_app_iff. now left.
Qed.

Lemma has_group_app (g : string) (G1 G2 : Groups) :
  has_group g (G1 ++ G2)%list = has_group g G1 || has_group g G2.
Proof.
  induction G1 as [|[k l] G1 IH]; [reflexivity|]. cbn [app has_group].
  rewrite IH. now rewrite orb_assoc.
Qed.

Lemma has_group_init (g g' : string) (G : Groups) :
  has_group g (init_group g' G)
  = has_group g G || (String.eqb g' g && negb (Js.inherited g')).
Proof.
  unfold init_group. destruct (has_group g' G) eqn:E.
  - destruct (String.eqb_spec g' g) as [<-|Hne].
    + rewrite E. reflexivity.
    + now rewrite orb_false_r.
  - destruct (Js.inherited g').
    + now rewrite andb_false_r, orb_false_r.
    + rewrite has_group_app. cbn [has_group negb].
      now rewrite orb_false_r, andb_true_r.
Qed.

Lemma grows_start (t : TestCase) (r : TestResult) (sh : Shared) :
  grows sh (start cfg env t r sh).1.
Proof.
  unfold grows, start. cbn [fst written executionSummary groupedResults set_groups].
  repeat split.
  - auto.
  - intros g l x Hin Hx. exists l. split; [|assumption].
    unfold init_group. destruct (has_group _ _); [assumption|].
    destruct (Js.inherited _); [assumption|].
    apply List.in_app_iff. now left.
  - intros g Hg. rewrite has_group_init, Hg. reflexivity.
Qed.

Lemma fold_into_groups (errs : list A11yError) (S : TestSummary) :
  groupedResults (fold_into errs S) = groupedResults S.
Proof. now destruct errs. Qed.

Lemma grows_fold_scan (b : string) (rd : ReportData) (sh : Shared) :
  grows sh (fold_scan b rd sh).
Proof.
  apply grows_same_groups; [auto|]. unfold fold_scan.
  cbn [executionSummary set_summary]. apply fold_into_groups.
Qed.

Lemma grows_final (d st icon : string) (sh : Shared) :
  grows sh (set_summary (set_final d st icon (executionSummary sh)) sh).
Proof. apply grows_same_groups; [auto | reflexivity]. Qed.

Lemma push_group_grows (g : string) (r : TestResults) (G G' : Groups) :
  push_group g r G = Some G' ->
  (forall g0 l0 x, In (g0, l0) G -> In x l0 ->
     exists l', In (g0, l') G' /\ In x l')
  /\ (exists l, In (g, l) G' /\ In r l)
  /\ (forall g0, has_group g0 G = true -> has_group g0 G' = true).
Proof.
  revert G'. induction G as [|[k l] G IH]; intros G' H; [discriminate|].
  cbn [push_group] in H. destruct (String.eqb_spec k g) as [Heq|Hne].
  - injection H as <-. subst k. repeat split.
    + intros g0 l0 x [Hhd|Htl] Hx.
      * injection Hhd as <- <-. exists (l ++ [r])%list. split; [now left|].
        apply List.in_app_iff. now left.
      * exists l0. split; [now right | assumption].
    + exists (l ++ [r])%list. split; [now left|].
      apply List.in_app_iff. right. now left.
    + intros g0 Hg. exact Hg.
  - destruct (push_group g r G) as [G1|]; [|discriminate].
    injection H as <-. destruct (IH G1 eq_refl) as (Hold & (l1 & Hin1 & Hr1) & Hg).
    repeat split.
    + intros g0 l0 x [Hhd|Htl] Hx.
      * injection Hhd as <- <-. exists l. split; [now left | assumption].
      * destruct (Hold g0 l0 x Htl Hx) as (l' & Hin' & Hx').
        exists l'. split; [now right | assumption].
    + exists l1. split; [now right | assumption].
    + intros g0. cbn [has_group]. rewrite !orb_true_iff.
      intros [H0|H0]; [now left | right; now apply Hg].
Qed.

Lemma has_group_push (g : string) (r : TestResults) (G : Groups) :
  has_group g G = true -> push_group g r G <> None.
Proof.
  induction G as [|[k l] G IH]; [discriminate|]. cbn [has_group push_group].
  destruct (String.eqb k g); [discriminate|]. cbn [orb]. intros H.
  specialize (IH H). now destruct (push_group g r G).
Qed.

Lemma grows_finish (c : Ctx) (l : Locals) (sh : Shared) :
  grows sh (finish cfg env c l sh).1.
Proof.
  unfold finish. cbn [executionSummary set_browsers].
  destruct (push_group _ _ _) as [G|] eqn:EG.
  - destruct (push_group_grows _ _ _ _ EG) as (Hold & _ & Hg).
    set (S3 := count_total _).
    assert (HG3 : groupedResults S3 = G).
    { unfold S3. destruct (isFlaky (test c) (result c));
        destruct (status (result c)); reflexivity. }
    assert (Hbase : grows sh (set_summary S3 (set_browsers
              (update_browser (browserName c)
                 (fun bSummary => count_status (status (result c))
                                    (count_total bSummary))
                 (browserSummaries sh)) sh))).
    { unfold grows. cbn [written executionSummary set_summary set_browsers].
      rewrite HG3. repeat split; auto. }
    destruct (render_throws env exec_template _); [exact Hbase|].
    eapply grows_trans; [exact Hbase | apply grows_write].
  - apply grows_same_groups; [auto | reflexivity].
Qed.

Lemma grows_scan_loop (c : Ctx) (srcs : list (nat * Source)) (l : Locals)
    (sh : Shared) :
  grows sh (scan_loop cfg env c srcs l sh).1.1.
Proof.
  apply (scan_loop_preserves cfg env (grows sh)).
  - intros path d sh' _ H. eapply grows_trans; [exact H | apply grows_write].
  - intros c' l' sh' H. eapply grows_trans; [exact H | apply grows_finish].
  - apply grows_refl.
Qed.

Lemma grows_apply_event (w : World) (e : Event) :
  grows (shared w) (shared (apply_event cfg env w e)).
Proof.
  apply (apply_event_preserves cfg env (grows (shared w))).
  - intros path d sh' _ H. eapply grows_trans; [exact H | apply grows_write].
  - intros path d sh' _ H. eapply grows_trans; [exact H | apply grows_write].
  - intros t r sh' H. eapply grows_trans; [exact H | apply grows_start].
  - intros b rd sh' _ H. eapply grows_trans; [exact H | apply grows_fold_scan].
  - intros c l sh' H. eapply grows_trans; [exact H | apply grows_finish].
  - intros d st icon sh' H. eapply grows_trans; [exact H | apply grows_final].
  - apply grows_refl.
Qed.

(** A property of a task relative to the shared state that survives the
    growth of that state, that [start] establishes and that [resume] keeps,
    holds of every task of every run. *)
Section Relative.

Variable R : Shared -> Task -> Prop.
Hypothesis R_mono : forall sh sh' t, grows sh sh' -> R sh t -> R sh' t.
Hypothesis R_start : forall t r sh,
  R (start cfg env t r sh).1 (start cfg env t r sh).2.
Hypothesis R_resume : forall t sh,
  R sh t -> R (resume cfg env t sh).1 (resume cfg env t sh).2.

Lemma relative_apply_event (w : World) (e : Event) :
  List.Forall (R (shared w)) (tasks w) ->
  List.Forall (R (shared (apply_event cfg env w e)))
    (tasks (apply_event cfg env w e)).
Proof.
  intros Hw. pose proof (grows_apply_event w e) as Hgrow.
  assert (Hold : List.Forall (R (shared (apply_event cfg env w e))) (tasks w)).
  { eapply List.Forall_impl; [|exact Hw]. intros t. now apply R_mono. }
  clear Hgrow. destruct e as [t r|i|fr|]; cbn [apply_event] in *.
  - specialize (R_start t r (shared w)).
    destruct (start cfg env t r (shared w)) as [sh task].
    cbn [shared tasks fst snd] in *.
    apply List.Forall_app. split; [assumption | now constructor].
  - destruct (tasks w !! i) as [task|] eqn:Ei; [|assumption].
    assert (Ht : R (shared w) task).
    { rewrite List.Forall_forall in Hw. apply Hw.
      apply list_elem_of_In. now apply list_elem_of_lookup_2 with i. }
    specialize (R_resume task (shared w) Ht).
    destruct (resume cfg env task (shared w)) as [sh task'].
    cbn [shared tasks fst snd] in *. apply Forall_insert; assumption.
  - destruct (ending w); assumption.
  - destruct (ending w) as [|fr n| | |]; try assumption.
    destruct (List.existsb is_rejected _); [assumption|].
    destruct (List.forallb is_fulfilled _); [|assumption].
    unfold render_summary in *.
    destruct (render_throws env _ _); cbn [shared tasks] in *; assumption.
Qed.

Lemma relative_run_from (evs : list Event) (w : World) :
  List.Forall (R (shared w)) (tasks w) ->
  List.Forall (R (shared (run_from cfg env w evs)))
    (tasks (run_from cfg env w evs)).
Proof.
  revert w. induction evs as [|e evs IH]; intros w Hw; [assumption|].
  cbn [run_from fold_left]. apply IH. now apply relative_apply_event.
Qed.

Lemma relative_run (evs : list Event) :
  List.Forall (R (shared (run cfg env evs))) (tasks (run cfg env evs)).
Proof. apply relative_run_from. constructor. Qed.

End Relative.

End Growth.

Section Progress.

Variable cfg : Reporter.Config.
Variable env : Reporter.Env.

Import Reporter.

#[local] Abbreviation lines := (parse_failure_lines env).
#[local] Abbreviation files := (scan_files cfg env).
#[local] Abbreviation video_of c :=
  (copyTestVideo env (result c) (testResultsFolder cfg c)).

Lemma record_produced_mono (sh sh' : Shared) (t : Task) :
  grows sh sh' -> record_produced cfg env sh t -> record_produced cfg env sh' t.
Proof.
  intros (Hw & Hr & _) (stats & Hs & (l & Hin & Hl) & Hf).
  exists stats. split; [assumption|]. split; [|now apply Hw].
  destruct (Hr _ _ _ Hin Hl) as (l' & Hin' & Hl'). eauto.
Qed.

Lemma task_progress_mono (sh sh' : Shared) (t : Task) :
  grows sh sh' -> task_progress_ok cfg env sh t -> task_progress_ok cfg env sh' t.
Proof.
  intros Hg. pose proof Hg as (Hw & _ & _). unfold task_progress_ok.
  destruct (pc t) as [|rd rest| | |fl].
  - trivial.
  - intros (Hv & Hl & Hf & Hn). repeat split; try assumption.
    intros f Hin. destruct (Hf f Hin); [left; now apply Hw | now right].
  - intros (Hl & Hf & Hr). repeat split; try assumption.
    + intros f Hin. apply Hw. now apply Hf.
    + now apply record_produced_mono with sh.
  - intros (Hl & Hf & Hr). repeat split; try assumption.
    + intros f Hin. apply Hw. now apply Hf.
    + now apply record_produced_mono with sh.
  - trivial.
Qed.

Lemma finish_progress (c : Ctx) (l : Locals) (sh : Shared) :
  match (finish cfg env c l sh).2 with
  | AwaitExecRender =>
      record_produced cfg env (finish cfg env c l sh).1
        {| ctx := c; locals := l; pc := AwaitExecRender |}
  | Rejected _ => True
  | _ => False
  end.
Proof.
  unfold finish. cbn [executionSummary set_browsers].
  destruct (push_group _ _ _) as [G|] eqn:EG; [|exact I].
  destruct (push_group_grows _ _ _ _ EG) as (_ & (l0 & Hin & Hl0) & _).
  destruct (render_throws env exec_template _); [exact I|].
  cbn [fst snd]. unfold record_produced. cbn [ctx locals].
  eexists. split; [eexists; reflexivity|]. split.
  - exists l0. split; [|exact Hl0].
    cbn [executionSummary write_file set_summary].
    destruct (isFlaky (test c) (result c));
      destruct (status (result c)); exact Hin.
  - cbn [written write_file]. apply List.in_app_iff. right. now left.
Qed.

Lemma lines_cons (s : nat * Source) (rest : list (nat * Source)) :
  lines (s :: rest)
  = (match read_source env (snd s) with
     | ParseFailed e => [parse_failure_line env (snd s) e]
     | _ => []
     end ++ lines rest)%list.
Proof. reflexivity. Qed.

Lemma files_cons (c : Ctx) (s : nat * Source) (rest : list (nat * Source)) :
  files c (s :: rest)
  = (match read_source env (snd s) with
     | Parsed rd =>
         [(Js.path_join (testResultsFolder cfg c)
             (Naming.a11yReportName (length (sources c)) (fst s)
                (title (test c)) (pageKey rd)),
           AccessibilityReport
             (configure (options cfg) (video_of c) rd)
             (testResultsFolder cfg c))]
     | _ => []
     end ++ files c rest)%list.
Proof. reflexivity. Qed.

Lemma scan_loop_progress (c : Ctx) (srcs : list (nat * Source)) (l : Locals)
    (sh : Shared) :
  l_video l = video_of c ->
  let '(sh', l', p) := scan_loop cfg env c srcs l sh in
  match p with
  | AwaitScanRender rd rest =>
      l_video l' = video_of c
      /\ (l_errorLogs l' ++ lines rest)%list = (l_errorLogs l ++ lines srcs)%list
      /\ (forall f, In f (files c srcs) ->
                    In f (written sh') \/ In f (files c rest))
      /\ (length rest < length srcs)%nat
  | AwaitExecRender =>
      l_errorLogs l' = (l_errorLogs l ++ lines srcs)%list
      /\ files c srcs = []
      /\ record_produced cfg env sh' {| ctx := c; locals := l'; pc := p |}
  | Rejected _ => True
  | AwaitVideo | Fulfilled => False
  end.
Proof.
  revert l. induction srcs as [|[i src] rest IH]; intros l Hv;
    cbn [scan_loop].
  - pose proof (finish_progress c l sh) as H.
    destruct (finish cfg env c l sh) as [sh' p]. cbn [fst snd] in H.
    destruct p; try contradiction; try exact I.
    unfold parse_failure_lines. cbn [List.map List.concat].
    split; [now rewrite List.app_nil_r|]. now split.
  - rewrite lines_cons, files_cons. cbn [fst snd].
    destruct (read_source env src) as [|e|rd|] eqn:Er.
    + specialize (IH l Hv). destruct (scan_loop _ _ _ _ _ _) as [[sh' l'] p].
      cbn [app].
      destruct p as [|rd' rest'| | |fl]; try contradiction; try exact I.
      * destruct IH as (H1 & H2 & H3 & H4). repeat split; try assumption.
        cbn [length]. lia.
      * exact IH.
    + specialize (IH (push_log (parse_failure_line env src e) l) Hv).
      fold (parse_failure_line env src e).
      destruct (scan_loop _ _ _ _ _ _) as [[sh' l'] p].
      cbn [l_errorLogs push_log app] in *.
      destruct p as [|rd' rest'| | |fl]; try contradiction; try exact I.
      * destruct IH as (H1 & H2 & H3 & H4). repeat split; try assumption.
        -- rewrite H2. now rewrite <- List.app_assoc.
        -- cbn [length]. lia.
      * destruct IH as (H1 & H2 & H3). repeat split; try assumption.
        rewrite H1. now rewrite <- List.app_assoc.
    + destruct (render_throws env scan_template _); [exact I|].
      cbn [l_video l_errorLogs set_report_path written write_file app].
      repeat split; try assumption.
      * intros f [Hf|Hf].
        -- left. apply List.in_app_iff. right. left. rewrite <- Hf.
           now rewrite Hv.
        -- now right.
      * cbn [length]. lia.
    + exact I.
Qed.

Lemma length_entries_from {A : Type} (i : nat) (l : list A) :
  length (entries_from i l) = length l.
Proof. revert i. induction l; intros i; simpl; [reflexivity | now rewrite IHl]. Qed.

Lemma after_scan_same (rd : ReportData) (l : Locals) :
  l_video (after_scan rd l) = l_video l
  /\ l_errorLogs (after_scan rd l) = l_errorLogs l.
Proof. unfold after_scan. now destruct (folded_errors rd). Qed.

Lemma task_progress_start (t : TestCase) (r : TestResult) (sh : Shared) :
  task_progress_ok cfg env (start cfg env t r sh).1 (start cfg env t r sh).2.
Proof. exact I. Qed.

Lemma task_progress_resume (t : Task) (sh : Shared) :
  task_progress_ok cfg env sh t ->
  task_progress_ok cfg env (resume cfg env t sh).1 (resume cfg env t sh).2.
Proof.
  unfold task_progress_ok at 1. unfold resume.
  destruct (pc t) as [|rd rest| | |fl] eqn:Epc; intros Hok.
  - destruct (copyScreenshots env _ _) as [shots|]; [|exact I].
    destruct (copyPngAttachments env _ _) as [pngs|]; [|exact I].
    destruct (copyAllOtherAttachments env _ _) as [others|]; [|exact I].
    match goal with |- context [scan_loop cfg env ?c ?s ?l ?h] =>
      pose proof (scan_loop_progress c s l h eq_refl) as H;
      destruct (scan_loop cfg env c s l h) as [[sh' l'] p] end.
    unfold task_progress_ok. cbn [fst snd ctx locals pc l_errorLogs] in *.
    fold (all_sources (ctx t)) in *.
    destruct p as [|rd rest| | |fl]; try contradiction; try exact I.
    + destruct H as (H1 & H2 & H3 & H4). repeat split; try assumption.
      unfold all_sources in H4. now rewrite length_entries_from in H4.
    + destruct H as (H1 & H2 & H3). repeat split; try assumption.
      intros f Hf. rewrite H2 in Hf. destruct Hf.
  - destruct Hok as (Hv & Hl & Hf & Hn).
    destruct (after_scan_same rd (locals t)) as [Hv' Hl'].
    on_throw (exact I).
    match goal with |- context [scan_loop cfg env ?c ?s ?l ?h] =>
      pose proof (scan_loop_progress c s l h) as H;
      pose proof (grows_scan_loop cfg env c s l h) as Hg;
      destruct (scan_loop cfg env c s l h) as [[sh' l'] p] end.
    rewrite Hv', Hl' in H. specialize (H Hv).
    assert (Hgrow : grows sh sh').
    { eapply grows_trans; [apply grows_fold_scan | exact Hg]. }
    destruct Hgrow as (Hw & _ & _).
    unfold task_progress_ok. cbn [fst snd ctx locals pc] in *.
    destruct p as [|rd' rest'| | |fl']; try contradiction; try exact I.
    + destruct H as (H1 & H2 & H3 & H4). repeat split; try assumption.
      * now rewrite H2.
      * intros f Hin. destruct (Hf f Hin) as [Hold|Hrest];
          [left; now apply Hw | now apply H3].
      * lia.
    + destruct H as (H1 & H2 & H3). repeat split; try assumption.
      * now rewrite H1.
      * intros f Hin. destruct (Hf f Hin) as [Hold|Hrest];
          [now apply Hw|]. rewrite H2 in Hrest. destruct Hrest.
  - unfold task_progress_ok. cbn [fst snd ctx locals pc]. exact Hok.
  - unfold task_progress_ok. cbn [fst snd]. now rewrite Epc.
  - unfold task_progress_ok. cbn [fst snd]. now rewrite Epc.
Qed.

Lemma task_progress_run (evs : list Event) :
  List.Forall (task_progress_ok cfg env (shared (run cfg env evs)))
    (tasks (run cfg env evs)).
Proof.
  apply relative_run.
  - apply task_progress_mono.
  - apply task_progress_start.
  - apply task_progress_resume.
Qed.

End Progress.

Section Liveness.

Variable cfg : Reporter.Config.
Variable env : Reporter.Env.
Hypothesis env_ok : Reporter.well_behaved env.

Import Reporter.

Lemma task_live_mono (sh sh' : Shared) (t : Task) :
  grows sh sh' -> task_live cfg env sh t -> task_live cfg env sh' t.
Proof.
  intros (_ & _ & Hg) [H1 H2]. split; [|exact H2].
  intros Hord. destruct (H1 Hord) as [Ha Hb]. split; [now apply Hg | exact Hb].
Qed.

Lemma task_live_start (t : TestCase) (r : TestResult) (sh : Shared) :
  task_live cfg env (start cfg env t r sh).1 (start cfg env t r sh).2.
Proof.
  unfold task_live, start.
  cbn [fst snd ctx pc executionSummary groupedResults set_groups
       is_rejected remaining].
  split; [|lia].
  intros [_ Hfile]. split; [|reflexivity].
  rewrite has_group_init, String.eqb_refl, Hfile. apply orb_true_r.
Qed.

Lemma finish_live (c : Ctx) (l : Locals) (sh : Shared) :
  has_group (fileGroup cfg env c) (groupedResults (executionSummary sh)) = true ->
  (finish cfg env c l sh).2 = AwaitExecRender.
Proof.
  intros Hg. unfold finish. cbn [executionSummary set_browsers].
  pose proof (has_group_push (fileGroup cfg env c)
                (testStats cfg env c l
                   (set_browsers
                      (update_browser (browserName c)
                         (fun bSummary => count_status (status (result c))
                                            (count_total bSummary))
                         (browserSummaries sh)) sh))
                _ Hg) as Hpush.
  destruct (push_group _ _ _) as [G|]; [|congruence].
  destruct env_ok as (_ & _ & _ & _ & Hr). now rewrite Hr.
Qed.

Lemma read_source_object (src : Source) : read_source env src <> NotAnObject.
Proof.
  destruct env_ok as (Hp & _).
  assert (Hparse : forall text, parse env text <> NotAnObject).
  { intros text. unfold parse. specialize (Hp text).
    destruct (JSON_parse env text); congruence. }
  unfold read_source. destruct src as [a|a]; [|apply Hparse].
  destruct (att_body a); [apply Hparse|].
  destruct (att_path a) as [p|]; [|discriminate].
  destruct (Js.truthy p && existsSync env p); [|discriminate].
  destruct (readFileSync env p); [apply Hparse | discriminate].
Qed.

Lemma scan_loop_live (c : Ctx) (srcs : list (nat * Source)) (l : Locals)
    (sh : Shared) :
  has_group (fileGroup cfg env c) (groupedResults (executionSummary sh)) = true ->
  match (scan_loop cfg env c srcs l sh).2 with
  | AwaitScanRender _ rest => (length rest < length srcs)%nat
  | AwaitExecRender => True
  | _ => False
  end.
Proof.
  intros Hg. revert l. induction srcs as [|[i src] rest IH]; intros l;
    cbn [scan_loop].
  - pose proof (finish_live c l sh Hg) as H.
    destruct (finish cfg env c l sh) as [sh' p]. cbn [snd] in *. now rewrite H.
  - pose proof (read_source_object src) as Hobj.
    destruct (read_source env src) as [|e|rd|]; [| | |congruence].
    + specialize (IH l). destruct (scan_loop _ _ _ _ _ _) as [[sh' l'] p].
      cbn [snd] in *. destruct p; try contradiction; cbn [length]; [lia | exact I].
    + match goal with |- context [scan_loop cfg env c rest ?l1 sh] =>
        specialize (IH l1) end.
      destruct (scan_loop _ _ _ _ _ _) as [[sh' l'] p].
      cbn [snd] in *. destruct p; try contradiction; cbn [length]; [lia | exact I].
    + destruct env_ok as (_ & _ & _ & _ & Hr). rewrite Hr. cbn [snd length]. lia.
Qed.

(** Where the loop stops, whatever the collaborators do: at a payload's
    report with fewer sources left, at the execution report, or rejected. *)
Lemma scan_loop_stops (c : Ctx) (srcs : list (nat * Source)) (l : Locals)
    (sh : Shared) :
  match (scan_loop cfg env c srcs l sh).2 with
  | AwaitScanRender _ rest => (length rest < length srcs)%nat
  | AwaitExecRender | Rejected _ => True
  | AwaitVideo | Fulfilled => False
  end.
Proof.
  revert l. induction srcs as [|[i src] rest IH]; intros l; cbn [scan_loop].
  - unfold finish. destruct (push_group _ _ _); [|exact I].
    now destruct (render_throws env exec_template _).
  - destruct (read_source env src) as [|e|rd|]; [| | |exact I].
    + specialize (IH l). destruct (scan_loop _ _ _ _ _ _) as [[sh' l'] p].
      cbn [snd] in *. destruct p; try contradiction; cbn [length]; [lia | exact I..].
    + match goal with |- context [scan_loop cfg env c rest ?l1 sh] =>
        specialize (IH l1) end.
      destruct (scan_loop _ _ _ _ _ _) as [[sh' l'] p].
      cbn [snd] in *. destruct p; try contradiction; cbn [length]; [lia | exact I..].
    + destruct (render_throws env scan_template _); cbn [snd length]; [exact I | lia].
Qed.

(** Continuing a task brings it closer to its end. *)
Lemma remaining_resume (t : Task) (sh : Shared) :
  (remaining (resume cfg env t sh).2 <= remaining t - 1)%nat.
Proof.
  unfold resume, remaining.
  destruct (pc t) as [|rd rest| | |fl] eqn:Epc.
  - destruct (copyScreenshots env _ _) as [shots|]; [|cbn; lia].
    destruct (copyPngAttachments env _ _) as [pngs|]; [|cbn; lia].
    destruct (copyAllOtherAttachments env _ _) as [others|]; [|cbn; lia].
    match goal with |- context [scan_loop cfg env ?c ?s ?l ?h] =>
      pose proof (scan_loop_stops c s l h) as H;
      destruct (scan_loop cfg env c s l h) as [[sh' l'] p] end.
    cbn [fst snd pc ctx] in *. rewrite length_entries_from in H.
    destruct p; try contradiction; lia.
  - on_throw (cbn; lia).
    match goal with |- context [scan_loop cfg env ?c ?s ?l ?h] =>
      pose proof (scan_loop_stops c s l h) as H;
      destruct (scan_loop cfg env c s l h) as [[sh' l'] p] end.
    cbn [fst snd pc ctx] in *.
    destruct p; try contradiction; lia.
  - cbn [snd pc]. lia.
  - cbn [snd]. rewrite Epc. lia.
  - cbn [snd]. rewrite Epc. lia.
Qed.

(** Continuing a task that has its group and has not been rejected does not
    reject it, when its names are not inherited. *)
Lemma live_resume (t : Task) (sh : Shared) :
  ordinary_names cfg env (ctx t) ->
  has_group (fileGroup cfg env (ctx t)) (groupedResults (executionSummary sh))
    = true ->
  is_rejected t = false ->
  is_rejected (resume cfg env t sh).2 = false.
Proof.
  intros [Hb _] Hg Hr. unfold resume, is_rejected in *.
  destruct (pc t) as [|rd rest| | |fl] eqn:Epc.
  - destruct env_ok as (_ & H1 & H2 & H3 & _).
    destruct (copyScreenshots env _ _) as [shots|] eqn:E1;
      [|now apply H1 in E1].
    destruct (copyPngAttachments env _ _) as [pngs|] eqn:E2;
      [|now apply H2 in E2].
    destruct (copyAllOtherAttachments env _ _) as [others|] eqn:E3;
      [|now apply H3 in E3].
    match goal with |- context [scan_loop cfg env ?c ?s ?l ?h] =>
      pose proof (scan_loop_live c s l h Hg) as H;
      destruct (scan_loop cfg env c s l h) as [[sh' l'] p] end.
    cbn [fst snd pc ctx] in *. destruct p; try contradiction; reflexivity.
  - on_throw (apply fold_throws_inherited in Ethrow; destruct Ethrow;
              congruence).
    assert (Hg1 : has_group (fileGroup cfg env (ctx t))
              (groupedResults (executionSummary
                 (fold_scan (browserName (ctx t)) rd sh))) = true).
    { unfold fold_scan. cbn [executionSummary set_summary].
      now rewrite fold_into_groups. }
    match goal with |- context [scan_loop cfg env ?c ?s ?l ?h] =>
      pose proof (scan_loop_live c s l h Hg1) as H;
      destruct (scan_loop cfg env c s l h) as [[sh' l'] p] end.
    cbn [fst snd pc ctx] in *. destruct p; try contradiction; reflexivity.
  - reflexivity.
  - cbn [snd]. now rewrite Epc.
  - discriminate Hr.
Qed.

(** Continuing a live task keeps it live and brings it closer to its end. *)
Lemma task_live_resume (t : Task) (sh : Shared) :
  task_live cfg env sh t ->
  task_live cfg env (resume cfg env t sh).1 (resume cfg env t sh).2
  /\ (remaining (resume cfg env t sh).2 <= remaining t - 1)%nat.
Proof.
  intros [H1 Hn]. pose proof (remaining_resume t sh) as Hdec.
  split; [|exact Hdec].
  pose proof (grows_apply_event cfg env
                {| shared := sh; tasks := [t]; ending := NotEnded |}
                (EvResume 0)) as Hgrow.
  cbn [apply_event tasks shared lookup list_lookup] in Hgrow.
  unfold task_live. rewrite (ctx_resume cfg env t sh). split; [|lia].
  intros Hord. destruct (H1 Hord) as [Hg Hr]. split.
  - destruct (resume cfg env t sh) as [sh' t']. cbn [shared fst] in *.
    destruct Hgrow as (_ & _ & H). now apply H.
  - now apply live_resume.
Qed.

Lemma task_live_run (evs : list Event) :
  List.Forall (task_live cfg env (shared (run cfg env evs)))
    (tasks (run cfg env evs)).
Proof.
  apply relative_run.
  - apply task_live_mono.
  - apply task_live_start.
  - intros t sh H. now apply task_live_resume.
Qed.

(** Continuing a task as many times as it has left to go fulfils it, when
    its names are not inherited. *)
Lemma drive_fulfilled (i k : nat) (w : World) (task : Task) :
  List.Forall (task_live cfg env (shared w)) (tasks w) ->
  tasks w !! i = Some task ->
  ordinary_names cfg env (ctx task) ->
  (remaining task <= k)%nat ->
  exists task',
    tasks (run_from cfg env w (repeat (EvResume i) k)) !! i = Some task'
    /\ pc task' = Fulfilled
    /\ ctx task' = ctx task.
Proof.
  revert w task. induction k as [|k IH]; intros w task Hall Hi Hord Hk.
  - exists task. split; [exact Hi|]. split; [|reflexivity].
    rewrite List.Forall_forall in Hall.
    assert (Hl : task_live cfg env (shared w) task).
    { apply Hall. apply list_elem_of_In. now apply list_elem_of_lookup_2 with i. }
    destruct Hl as (Hr & _). destruct (Hr Hord) as [_ Hrej].
    unfold remaining, is_rejected in *.
    destruct (pc task); try reflexivity; try discriminate; lia.
  - cbn [repeat run_from fold_left].
    pose proof (relative_apply_event cfg env (task_live cfg env)
                  task_live_mono task_live_start
                  (fun t sh H => proj1 (task_live_resume t sh H))
                  w (EvResume i) Hall) as Hall'.
    pose proof (remaining_resume task (shared w)) as Hdec.
    pose proof (ctx_resume cfg env task (shared w)) as Hctx.
    cbn [apply_event] in *. rewrite Hi in *.
    destruct (resume cfg env task (shared w)) as [sh task'].
    cbn [fst snd] in *.
    destruct (IH {| shared := sh; tasks := <[i := task']> (tasks w);
                    ending := ending w |} task' Hall') as (t2 & H1 & H2 & H3).
    + cbn [tasks]. apply list_lookup_insert_eq. now apply lookup_lt_Some with task.
    + now rewrite Hctx.
    + lia.
    + exists t2. split; [exact H1|]. split; [exact H2 | congruence].
Qed.

End Liveness.

Section CountersOfRuns.

Variable cfg : Reporter.Config.
Variable env : Reporter.Env.

Import Reporter.

Lemma counters_ok_run (evs : list Event) :
  counters_ok (shared (run cfg env evs)).
Proof.
  unfold run. apply (run_from_preserves cfg env counters_ok).
  - intros. now apply counters_ok_write.
  - intros. now apply counters_ok_write.
  - apply counters_ok_start.
  - intros b rd sh _. apply counters_ok_fold_scan.
  - apply counters_ok_finish.
  - apply counters_ok_final.
  - unfold counters_ok. cbn. split; [lia|]. split.
    + intros b bS H. rewrite lookup_empty in H. discriminate.
    + intros r [].
Qed.

End CountersOfRuns.

(** ** Claims about the counters *)

(** C10. At every moment of every run, in the global summary and in every
    per-browser summary, passed + failed + skipped is at most total; and it
    is strictly less as soon as the summary holds the record of a test (for a
    per-browser summary, of a test of that browser) whose status is timedOut
    or interrupted. *)
Theorem C10_counters_bounded (cfg : Reporter.Config) (env : Reporter.Env)
    (evs : list Reporter.Event) :
  let sh := Reporter.shared (Reporter.run cfg env evs) in
  let S := Reporter.executionSummary sh in
  let R := Reporter.records (Reporter.groupedResults S) in
  (Reporter.totalPassed S + Reporter.totalFailed S + Reporter.totalSkipped S
   <= Reporter.total S)%nat
  /\ ((exists r, In r R /\ Reporter.uncounted (Reporter.tr_status r) = true) ->
      (Reporter.totalPassed S + Reporter.totalFailed S + Reporter.totalSkipped S
       < Reporter.total S)%nat)
  /\ (forall b bS, Reporter.browserSummaries sh !! b = Some bS ->
      (Reporter.totalPassed bS + Reporter.totalFailed bS
       + Reporter.totalSkipped bS <= Reporter.total bS)%nat
      /\ ((exists r, In r R /\ Reporter.browser r = b
                     /\ Reporter.uncounted (Reporter.tr_status r) = true) ->
          (Reporter.totalPassed bS + Reporter.totalFailed bS
           + Reporter.totalSkipped bS < Reporter.total bS)%nat))
  /\ (forall st, Reporter.uncounted st = true <-> st = timedOut \/ st = interrupted).
Proof.
  cbn zeta. destruct (counters_ok_run cfg env evs) as (Hg & Hb & _).
  unfold Reporter.counted in *. split; [lia|]. split.
  { intros (r & Hin & Hu).
    pose proof (countP_pos Reporter.uncounted_record _ r Hin Hu). lia. }
  split.
  { intros b bS Hl. specialize (Hb b bS Hl). split; [lia|].
    intros (r & Hin & Hbr & Hu).
    assert (Hp : Reporter.uncounted_in b r = true).
    { unfold Reporter.uncounted_in. rewrite Hu, Hbr. apply String.eqb_refl. }
    pose proof (countP_pos (Reporter.uncounted_in b) _ r Hin Hp). lia. }
  intros st. destruct st; cbn; split; intros H; try discriminate; auto;
    destruct H; discriminate.
Qed.

(** *** Small runs *)

Example two_scans_files :
  List.map fst
    (Reporter.written
       (Reporter.shared
          (Reporter.run Examples.default_config Examples.quiet_env
             Examples.two_scans)))
  = [ "/work/steps-report/1-cart-page/shop-example-cart.html";
      "/work/steps-report/2-checkout-page/shop-example-cart.html";
      "/work/steps-report/2-checkout-page/execution-checkout-page.html";
      "/work/steps-report/1-cart-page/execution-cart-page.html";
      "/work/steps-report/summary.html" ].
Proof. vm_compute. reflexivity. Qed.

Example bad_payload_files :
  List.map fst
    (Reporter.written
       (Reporter.shared
          (Reporter.run Examples.default_config Examples.quiet_env
             Examples.one_bad_payload)))
  = [ "/work/steps-report/1-cart-page/shop-example-cart-1.html";
      "/work/steps-report/1-cart-page/shop-example-menu-3.html";
      "/work/steps-report/1-cart-page/execution-cart-page.html" ].
Proof. vm_compute. reflexivity. Qed.

(** A summary is not rendered while a task is pending: [onEnd] stays
    suspended. *)
Example end_waits_for_tasks :
  Reporter.ending
    (Reporter.run Examples.default_config Examples.quiet_env
       [ Reporter.EvTestEnd (Examples.test_named "Cart page" 1)
           (Examples.result_with passed [Examples.a11y_body "{contrast}"]);
         Reporter.EvResume 0;
         Reporter.EvEnd Examples.run_passed;
         Reporter.EvEndResume ])
  = Reporter.EndWaiting Examples.run_passed 1.
Proof. vm_compute. reflexivity. Qed.

(** A payload whose text is [null] parses, and the task is rejected before
    the payload that follows it is read. *)
Example null_payload_rejects :
  List.map Reporter.pc
    (Reporter.tasks
       (Reporter.run Examples.default_config Examples.null_env
          [ Reporter.EvTestEnd (Examples.test_named "Cart page" 1)
              (Examples.result_with passed
                 [Examples.a11y_body "null"; Examples.a11y_body "{contrast}"]);
            Reporter.EvResume 0 ]))
  = [Reporter.Rejected Reporter.TypeError].
Proof. vm_compute. reflexivity. Qed.

(** ** Claims about runs *)

Section SumFacts.

Lemma sumZ_map {A B : Type} (g : B -> Z) (h : A -> B) (l : list A) :
  Reporter.sumZ g (List.map h l) = Reporter.sumZ (fun x => g (h x)) l.
Proof. induction l as [|x l IH]; simpl; [reflexivity | now rewrite IH]. Qed.

Lemma sumZ_ext {A : Type} (f g : A -> Z) (l : list A) :
  List.Forall (fun x => f x = g x) l -> Reporter.sumZ f l = Reporter.sumZ g l.
Proof. induction 1 as [|x l Hx _ IH]; simpl; [reflexivity | now rewrite Hx, IH]. Qed.

End SumFacts.

(** C1, at a rule whose id is a name that objects inherit from
    [Object.prototype].  One test makes two scans, each reporting three
    targets for the rule [constructor], and the run ends.  The summary that
    is rendered counts the six targets in its total, and its rule aggregate
    has no entry for the rule: the count of the rule is not 6. *)
Theorem C1_inherited_rule_lost :
  let evs := Examples.two_constructor_scans in
  let w := Reporter.run Examples.default_config Examples.constructor_env evs in
  let S := Reporter.executionSummary (Reporter.shared w) in
  Reporter.driver_protocol evs = true
  /\ List.last (Reporter.written (Reporter.shared w))
       ("", Reporter.ExecutionSummary Reporter.initial_summary ∅
              (Reporter.colors_of (Reporter.options Examples.default_config)))
     = (Reporter.summaryFile Examples.default_config,
        Reporter.ExecutionSummary S
          (Reporter.browserSummaries (Reporter.shared w))
          (Reporter.colors_of (Reporter.options Examples.default_config)))
  /\ Reporter.sumZ
       (fun tr => Reporter.rule_total "constructor"
                    (Reporter.test_errors Examples.constructor_env
                       (fst tr) (snd tr)))
       (Reporter.tests_of evs) = 6%Z
  /\ Reporter.totalA11yErrorCount S = 6%Z
  /\ Reporter.wcagErrors S !! "constructor" = None
  /\ Reporter.wcagErrors S = ∅.
Proof.
  cbn zeta. repeat split; vm_compute; reflexivity.
Qed.

Section OwnRules.

Variable cfg : Reporter.Config.
Variable env : Reporter.Env.

Import Reporter.

(** The aggregate holds no entry under an inherited name. *)
#[local] Abbreviation own_rules m :=
  (forall rule : string, Js.inherited rule = true ->
     (m : gmap string WcagEntry) !! rule = None).

Lemma own_rules_add_wcag (m : gmap string WcagEntry) (e : A11yError) :
  own_rules m -> own_rules (add_wcag m e).
Proof.
  intros Hm rule Hrule. unfold add_wcag, ensure_rule.
  destruct (m !! id e) as [e0|] eqn:Em.
  - rewrite Em. rewrite lookup_insert_ne; [now apply Hm|].
    intros <-. rewrite (Hm _ Hrule) in Em. discriminate Em.
  - destruct (Js.inherited (id e)) eqn:Ei.
    + rewrite Em. now apply Hm.
    + rewrite lookup_insert_eq.
      rewrite !lookup_insert_ne by congruence. now apply Hm.
Qed.

Lemma own_rules_fold (errs : list A11yError) (m : gmap string WcagEntry) :
  own_rules m -> own_rules (fold_left add_wcag errs m).
Proof.
  revert m. induction errs as [|e errs IH]; intros m Hm; [exact Hm|].
  cbn [fold_left]. apply IH. now apply own_rules_add_wcag.
Qed.

Lemma own_rules_fold_into (errs : list A11yError) (S : TestSummary) :
  own_rules (wcagErrors S) -> own_rules (wcagErrors (fold_into errs S)).
Proof.
  destruct errs as [|e errs]; [auto|]. unfold fold_into.
  cbn [wcagErrors set_wcag]. apply own_rules_fold.
Qed.

Lemma finish_wcag (c : Ctx) (l : Locals) (sh : Shared) :
  wcagErrors (executionSummary (finish cfg env c l sh).1)
  = wcagErrors (executionSummary sh).
Proof.
  unfold finish. cbn [executionSummary set_browsers].
  destruct (push_group _ _ _) as [G|]; [|reflexivity].
  destruct (render_throws env exec_template _);
    destruct (isFlaky (test c) (result c));
    destruct (status (result c)); reflexivity.
Qed.

Lemma own_rules_run (evs : list Event) :
  own_rules (wcagErrors (executionSummary (shared (run cfg env evs)))).
Proof.
  unfold run.
  apply (run_from_preserves cfg env
           (fun sh => own_rules (wcagErrors (executionSummary sh)))).
  - intros path d sh _ H. exact H.
  - intros path d sh _ H. exact H.
  - intros t r sh H. exact H.
  - intros b rd sh _ H. unfold fold_scan. cbn [executionSummary set_summary].
    now apply own_rules_fold_into.
  - intros c l sh H. now rewrite finish_wcag.
  - intros d st icon sh H. exact H.
  - intros rule _. apply lookup_empty.
Qed.

End OwnRules.

(** X24. In every run, for every rule whose id is not a name inherited
    from [Object.prototype]: at every moment the count of the rule in the
    global aggregate is the sum of what the tasks have folded so far, and
    in a run that follows the driver's protocol the summary that is
    rendered maps the rule to the sum, over every test of the run and every
    payload of the test that parses, of [total || 0] of the rule's records:
    counts are added, never overwritten.  Under an inherited name the
    aggregate never holds an entry. *)
Theorem X24_rule_aggregate_ordinary (cfg : Reporter.Config)
    (env : Reporter.Env) (evs : list Reporter.Event) :
  let w := Reporter.run cfg env evs in
  (forall rule : string, Js.inherited rule = false ->
     Reporter.rule_count
       (Reporter.wcagErrors (Reporter.executionSummary (Reporter.shared w)))
       rule
     = Reporter.sumZ
         (fun t => Reporter.rule_total rule
                     (Reporter.l_aggregatedA11yErrors (Reporter.locals t)))
         (Reporter.tasks w)
     /\ (Reporter.driver_protocol evs = true ->
         forall path S B colors,
           In (path, Reporter.ExecutionSummary S B colors)
              (Reporter.written (Reporter.shared w)) ->
           Reporter.rule_count (Reporter.wcagErrors S) rule
           = Reporter.sumZ
               (fun tr => Reporter.rule_total rule
                            (Reporter.test_errors env (fst tr) (snd tr)))
               (Reporter.tests_of evs)))
  /\ (forall rule : string, Js.inherited rule = true ->
       Reporter.wcagErrors (Reporter.executionSummary (Reporter.shared w))
         !! rule = None).
Proof.
  cbn zeta. split; [|apply own_rules_run].
  intros rule Hrule. split; [now apply rule_count_run|].
  intros Hp path S B colors Hin.
  destruct (summary_written cfg env evs path _ Hp Hin eq_refl)
    as (Hall & pre & colors' & _ & _ & Heq).
  injection Heq as _ -> _ _.
  rewrite (rule_count_run cfg env rule Hrule), <- (tasks_run cfg env evs),
    sumZ_map.
  apply sumZ_ext.
  pose proof (task_errors_ok_run cfg env evs) as Hok.
  rewrite List.Forall_forall in *. intros t Ht.
  specialize (Hall t Ht). specialize (Hok t Ht).
  unfold Reporter.task_errors_ok, Reporter.is_fulfilled in *.
  destruct (Reporter.pc t); try discriminate. cbn [Reporter.test_of fst snd].
  now rewrite Hok.
Qed.

Lemma X24_rule_aggregate_ordinary_witness :
  let w := Reporter.run Examples.default_config Examples.quiet_env
             Examples.two_scans in
  Reporter.rule_count
    (Reporter.wcagErrors (Reporter.executionSummary (Reporter.shared w)))
    "color-contrast" = 6%Z.
Proof.
  cbn zeta.
  rewrite (proj2 (proj1 (X24_rule_aggregate_ordinary Examples.default_config
                           Examples.quiet_env Examples.two_scans)
                    "color-contrast" eq_refl) eq_refl
             (Reporter.summaryFile Examples.default_config)
             _
             (Reporter.browserSummaries
                (Reporter.shared
                   (Reporter.run Examples.default_config Examples.quiet_env
                      Examples.two_scans)))
             (Reporter.colors_of (Reporter.options Examples.default_config))).
  - vm_compute. reflexivity.
  - vm_compute. do 4 right. left. reflexivity.
Defined.

(** C2. In every run that follows the driver's protocol, whenever a run
    summary is among the written files, every task started by a test-end
    call is fulfilled, there is one task per test-end call, and the summary
    is the last file written: every per-test file was written before it. *)
Theorem C2_summary_after_tasks (cfg : Reporter.Config) (env : Reporter.Env)
    (evs : list Reporter.Event) (path : string) (d : Reporter.Doc) :
  Reporter.driver_protocol evs = true ->
  In (path, d) (Reporter.written (Reporter.shared (Reporter.run cfg env evs))) ->
  Reporter.is_summary d = true ->
  let w := Reporter.run cfg env evs in
  List.Forall (fun t => Reporter.pc t = Reporter.Fulfilled) (Reporter.tasks w)
  /\ List.map Reporter.test_of (Reporter.tasks w) = Reporter.tests_of evs
  /\ exists pre,
       Reporter.written (Reporter.shared w) = (pre ++ [(path, d)])%list
       /\ List.Forall (fun pd => Reporter.is_summary (snd pd) = false) pre.
Proof.
  intros Hp Hin Hd. cbn zeta.
  destruct (summary_written cfg env evs path d Hp Hin Hd)
    as (Hall & pre & colors & Hw & Hns & Heq).
  split; [|split].
  - eapply List.Forall_impl; [|exact Hall].
    intros t. unfold Reporter.is_fulfilled.
    destruct (Reporter.pc t); congruence.
  - apply tasks_run.
  - exists pre. rewrite Heq. now split.
Qed.

Lemma C2_summary_after_tasks_witness :
  let w := Reporter.run Examples.default_config Examples.quiet_env
             Examples.two_scans in
  List.Forall (fun t => Reporter.pc t = Reporter.Fulfilled) (Reporter.tasks w)
  /\ length (Reporter.tasks w) = 2%nat.
Proof.
  cbn zeta.
  destruct (C2_summary_after_tasks Examples.default_config Examples.quiet_env
              Examples.two_scans
              (Reporter.summaryFile Examples.default_config)
              (Reporter.ExecutionSummary
                 (Reporter.executionSummary
                    (Reporter.shared
                       (Reporter.run Examples.default_config Examples.quiet_env
                          Examples.two_scans)))
                 (Reporter.browserSummaries
                    (Reporter.shared
                       (Reporter.run Examples.default_config Examples.quiet_env
                          Examples.two_scans)))
                 (Reporter.colors_of (Reporter.options Examples.default_config)))
              eq_refl) as (Hall & Htests & _).
  - vm_compute. do 4 right. left. reflexivity.
  - reflexivity.
  - split; [exact Hall|].
    rewrite <- (length_map Reporter.test_of), Htests. reflexivity.
Defined.

Lemma C9_flaky_witness :
  Reporter.isFlaky (Examples.test_named "Flaky page" 2)
    (Examples.result_with passed []) = true
  /\ Reporter.isFlaky (Examples.test_named "Cart page" 1)
    (Examples.result_with passed []) = false.
Proof.
  split.
  - apply (proj1 (C9_flaky Examples.default_config Examples.quiet_env []
                    (Examples.test_named "Flaky page" 2)
                    (Examples.result_with passed []))).
    split; [cbn; lia | reflexivity].
  - apply (proj1 (proj2 (C9_flaky Examples.default_config Examples.quiet_env []
                    (Examples.test_named "Cart page" 1)
                    (Examples.result_with passed [])))).
    reflexivity.
Defined.

Lemma C10_counters_bounded_witness :
  let S := Reporter.executionSummary
             (Reporter.shared
                (Reporter.run Examples.default_config Examples.quiet_env
                   Examples.timeout_and_retry)) in
  (Reporter.totalPassed S + Reporter.totalFailed S + Reporter.totalSkipped S
   < Reporter.total S)%nat.
Proof.
  cbn zeta.
  apply (proj1 (proj2 (C10_counters_bounded Examples.default_config
                         Examples.quiet_env Examples.timeout_and_retry))).
  vm_compute. eexists. split; [left; reflexivity | reflexivity].
Defined.

(** C6, at a payload that parses and is not an object.  One test carries
    a scan, a payload whose text is [null] and a second scan.  [JSON.parse]
    accepts the text, so nothing is caught: the first property read throws
    outside the [try], the test's task is rejected with nothing logged, the
    payload that follows is never read, the test has no record and no
    execution report, and [onEnd] is rejected before it renders the run
    summary.  Only the report of the first scan has been written. *)
Theorem C6_null_payload_drops_test :
  let w := Reporter.run Examples.default_config Examples.null_env
             Examples.one_null_payload in
  Reporter.read_source Examples.null_env
    (Reporter.FromAttachment (Examples.a11y_body "null"))
  = Reporter.NotAnObject
  /\ List.map Reporter.pc (Reporter.tasks w)
     = [Reporter.Rejected Reporter.TypeError]
  /\ List.map (fun t => Reporter.l_errorLogs (Reporter.locals t))
       (Reporter.tasks w) = [[]]
  /\ Reporter.records
       (Reporter.groupedResults (Reporter.executionSummary (Reporter.shared w)))
     = []
  /\ List.map fst (Reporter.written (Reporter.shared w))
     = ["/work/steps-report/1-cart-page/shop-example-cart-1.html"]
  /\ Reporter.ending w = Reporter.EndRejected.
Proof.
  cbn zeta. repeat split; vm_compute; reflexivity.
Qed.


Lemma quiet_env_well_behaved : Reporter.well_behaved Examples.quiet_env.
Proof.
  split; [|repeat split; intros; discriminate].
  intros text. cbn. unfold Examples.parse_known.
  repeat (destruct (String.eqb text _); [discriminate|]). discriminate.
Qed.


(** ** The shape of report names *)

Section ShapeFacts.

Import Shape.

Lemma lower_char_hyphen (c : ascii) :
  Js.is_hyphen (Js.lower_char c) = Js.is_hyphen c.
Proof.
  destruct c as [b0 b1 b2 b3 b4 b5 b6 b7].
  destruct b0, b1, b2, b3, b4, b5, b6, b7; reflexivity.
Qed.

Lemma lower_char_name (c : ascii) :
  Js.is_alnum c || Js.is_hyphen c = true -> is_name_char (Js.lower_char c) = true.
Proof.
  destruct c as [b0 b1 b2 b3 b4 b5 b6 b7].
  destruct b0, b1, b2, b3, b4, b5, b6, b7; intros H; try reflexivity;
    discriminate H.
Qed.

Lemma name_char_fixed (c : ascii) :
  is_name_char c = true ->
  Js.lower_char c = c /\ (Js.is_alnum c = negb (Js.is_hyphen c)).
Proof.
  destruct c as [b0 b1 b2 b3 b4 b5 b6 b7].
  destruct b0, b1, b2, b3, b4, b5, b6, b7; intros H; try discriminate H;
    split; reflexivity.
Qed.


Lemma all_chars_app (P : ascii -> bool) (a b : string) :
  all_chars P (a +:+ b) = all_chars P a && all_chars P b.
Proof.
  induction a as [|c a IH]; simpl; [reflexivity|]. now rewrite IH, andb_assoc.
Qed.

Lemma all_chars_impl (P Q : ascii -> bool) (s : string) :
  (forall c, P c = true -> Q c = true) ->
  all_chars P s = true -> all_chars Q s = true.
Proof.
  intros H. induction s as [|c s IH]; simpl; [reflexivity|].
  rewrite !andb_true_iff. intros [Hc Hs]. split; [now apply H | now apply IH].
Qed.

#[local] Abbreviation run_char := (fun c => Js.is_alnum c || Js.is_hyphen c).

Lemma replace_runs_shape (b : bool) (s : string) :
  all_chars run_char (Js.replace_runs_from b s) = true
  /\ double_hyphen (Js.replace_runs_from b s) = false
  /\ (b = true -> starts_hyphen (Js.replace_runs_from b s) = false).
Proof.
  revert b. induction s as [|c s IH]; intros b; [now repeat split|].
  cbn [Js.replace_runs_from]. destruct (Js.is_alnum c) eqn:Ec.
  - destruct (IH false) as (H1 & H2 & _).
    pose proof (alnum_not_hyphen c Ec) as Hc.
    cbn [all_chars double_hyphen starts_hyphen]. rewrite Ec, Hc, H1, H2.
    now repeat split.
  - destruct (IH true) as (H1 & H2 & H3). specialize (H3 eq_refl).
    destruct b; [now repeat split|].
    cbn [all_chars double_hyphen starts_hyphen]. rewrite H1, H2, H3.
    repeat split; discriminate.
Qed.

Lemma drop_leading_shape (P : ascii -> bool) (s : string) :
  (all_chars P s = true -> all_chars P (Js.drop_leading_hyphens s) = true)
  /\ (double_hyphen s = false -> double_hyphen (Js.drop_leading_hyphens s) = false)
  /\ starts_hyphen (Js.drop_leading_hyphens s) = false.
Proof.
  induction s as [|c s (IH1 & IH2 & IH3)]; [now repeat split|].
  cbn [Js.drop_leading_hyphens]. destruct (Js.is_hyphen c) eqn:Ec.
  - repeat split.
    + cbn [all_chars]. rewrite andb_true_iff. intros [_ H]. now apply IH1.
    + cbn [double_hyphen]. rewrite orb_false_iff. intros [_ H]. now apply IH2.
    + exact IH3.
  - repeat split; try (intros H; exact H). exact Ec.
Qed.

Lemma all_hyphens_ends (c : ascii) (s : string) :
  Js.all_hyphens (String c s) = true -> ends_hyphen (String c s) = true.
Proof.
  revert c. induction s as [|d s IH]; intros c; cbn [Js.all_hyphens ends_hyphen].
  - now rewrite andb_true_r.
  - rewrite andb_true_iff. intros [_ H]. now apply IH.
Qed.

Lemma drop_trailing_empty (s : string) :
  Js.drop_trailing_hyphens s = "" -> Js.all_hyphens s = true.
Proof.
  destruct s as [|c s]; [reflexivity|]. cbn [Js.drop_trailing_hyphens].
  destruct (Js.all_hyphens (String c s)); [reflexivity | discriminate].
Qed.

Lemma starts_all_hyphens (s : string) :
  Js.all_hyphens s = true -> s <> "" -> starts_hyphen s = true.
Proof.
  destruct s as [|c s]; [congruence|]. cbn. rewrite andb_true_iff. tauto.
Qed.

Lemma drop_trailing_shape (P : ascii -> bool) (s : string) :
  (all_chars P s = true -> all_chars P (Js.drop_trailing_hyphens s) = true)
  /\ (double_hyphen s = false -> double_hyphen (Js.drop_trailing_hyphens s) = false)
  /\ (starts_hyphen s = false ->
      starts_hyphen (Js.drop_trailing_hyphens s) = false)
  /\ ends_hyphen (Js.drop_trailing_hyphens s) = false.
Proof.
  induction s as [|c s (IH1 & IH2 & IH3 & IH4)]; [now repeat split|].
  cbn [Js.drop_trailing_hyphens].
  destruct (Js.all_hyphens (String c s)) eqn:Ea; [now repeat split|].
  repeat split.
  - cbn [all_chars]. rewrite !andb_true_iff. intros [Hc H]. split; [exact Hc|].
    now apply IH1.
  - cbn [double_hyphen]. rewrite !orb_false_iff. intros [Hc H].
    split; [|now apply IH2].
    destruct (Js.is_hyphen c) eqn:Ec; [|reflexivity]. cbn [andb] in *.
    destruct (Js.drop_trailing_hyphens s) as [|d t] eqn:Ed; [reflexivity|].
    destruct s as [|e s]; [discriminate Ed|].
    cbn [Js.drop_trailing_hyphens] in Ed.
    destruct (Js.all_hyphens (String e s)); [discriminate Ed|].
    injection Ed as <- _. exact Hc.
  - cbn [starts_hyphen]. intros H. exact H.
  - cbn [ends_hyphen].
    destruct (Js.drop_trailing_hyphens s) as [|d t] eqn:Ed; [|exact IH4].
    apply drop_trailing_empty in Ed.
    destruct (Js.is_hyphen c) eqn:Ec; [|reflexivity].
    cbn [Js.all_hyphens] in Ea. rewrite Ec, Ed in Ea. discriminate Ea.
Qed.

Lemma toLowerCase_shape (s : string) :
  (all_chars run_char s = true ->
   all_chars is_name_char (Js.toLowerCase s) = true)
  /\ double_hyphen (Js.toLowerCase s) = double_hyphen s
  /\ starts_hyphen (Js.toLowerCase s) = starts_hyphen s
  /\ ends_hyphen (Js.toLowerCase s) = ends_hyphen s.
Proof.
  induction s as [|c s (IH1 & IH2 & IH3 & IH4)]; [now repeat split|].
  cbn [Js.toLowerCase]. repeat split.
  - cbn [all_chars]. rewrite !andb_true_iff. intros [Hc H].
    split; [now apply lower_char_name | now apply IH1].
  - cbn [double_hyphen]. now rewrite lower_char_hyphen, IH2, IH3.
  - cbn [starts_hyphen]. apply lower_char_hyphen.
  - cbn [ends_hyphen]. rewrite lower_char_hyphen.
    destruct s as [|d s]; [reflexivity|]. exact IH4.
Qed.

(** The shape of a sanitized page key. *)
Lemma sanitizedKey_shape (pk : string) :
  all_chars is_name_char (Naming.sanitizedKey pk) = true
  /\ starts_hyphen (Naming.sanitizedKey pk) = false
  /\ ends_hyphen (Naming.sanitizedKey pk) = false
  /\ double_hyphen (Naming.sanitizedKey pk) = false.
Proof.
  unfold Naming.sanitizedKey, Js.trim_hyphens, Js.replace_non_alnum.
  set (s0 := Js.replace_runs_from false (Js.replace_protocol pk)).
  destruct (replace_runs_shape false (Js.replace_protocol pk)) as (A1 & A2 & _).
  fold s0 in A1, A2.
  destruct (drop_leading_shape run_char s0) as (B1 & B2 & B3).
  set (s1 := Js.drop_leading_hyphens s0) in *.
  destruct (drop_trailing_shape run_char s1) as (C1 & C2 & C3 & C4).
  set (s2 := Js.drop_trailing_hyphens s1) in *.
  destruct (toLowerCase_shape s2) as (D1 & D2 & D3 & D4).
  rewrite D2, D3, D4. auto 10.
Qed.

Lemma sanitizedTitle_shape (title : string) :
  all_chars is_name_char (Naming.sanitizedTitle title) = true
  /\ double_hyphen (Naming.sanitizedTitle title) = false.
Proof.
  unfold Naming.sanitizedTitle, Js.replace_non_alnum.
  destruct (replace_runs_shape false title) as (A1 & A2 & _).
  destruct (toLowerCase_shape (Js.replace_runs_from false title))
    as (D1 & D2 & _).
  rewrite D2. auto.
Qed.

(** *** A well-shaped name is left alone by every step of the chain *)

Lemma match_protocol_name (s : string) :
  all_chars is_name_char s = true -> Js.match_protocol s = None.
Proof.
  intros Hs. unfold Js.match_protocol.
  destruct (Js.strip_prefix "https://" s) as [r|] eqn:E1.
  { apply strip_prefix_append in E1. subst s.
    rewrite all_chars_app in Hs. discriminate Hs. }
  destruct (Js.strip_prefix "http://" s) as [r|] eqn:E2; [|reflexivity].
  apply strip_prefix_append in E2. subst s.
  rewrite all_chars_app in Hs. discriminate Hs.
Qed.

Lemma replace_protocol_name (s : string) :
  all_chars is_name_char s = true -> Js.replace_protocol s = s.
Proof.
  induction s as [|c s IH]; intros Hs; [reflexivity|].
  cbn [Js.replace_protocol]. rewrite (match_protocol_name _ Hs).
  cbn [all_chars] in Hs. apply andb_true_iff in Hs. destruct Hs as [_ Hs].
  now rewrite IH.
Qed.

Lemma replace_runs_name (s : string) :
  all_chars is_name_char s = true -> double_hyphen s = false ->
  Js.replace_runs_from false s = s
  /\ (starts_hyphen s = false -> Js.replace_runs_from true s = s).
Proof.
  induction s as [|c s IH]; intros Hs Hd; [now split|].
  cbn [all_chars] in Hs. apply andb_true_iff in Hs. destruct Hs as [Hc Hs].
  cbn [double_hyphen] in Hd. apply orb_false_iff in Hd. destruct Hd as [Hcd Hd].
  destruct (IH Hs Hd) as [IHf IHt].
  destruct (name_char_fixed c Hc) as [_ Hal].
  cbn [Js.replace_runs_from starts_hyphen]. rewrite Hal.
  destruct (Js.is_hyphen c) eqn:Ec; cbn [negb andb] in *.
  - split; [|discriminate]. apply is_hyphen_true in Ec. subst c.
    now rewrite (IHt Hcd).
  - rewrite IHf. now split.
Qed.

Lemma drop_leading_name (s : string) :
  starts_hyphen s = false -> Js.drop_leading_hyphens s = s.
Proof. destruct s as [|c s]; [reflexivity|]. cbn. now intros ->. Qed.

Lemma drop_trailing_name (s : string) :
  ends_hyphen s = false -> Js.drop_trailing_hyphens s = s.
Proof.
  induction s as [|c s IH]; intros He; [reflexivity|].
  cbn [Js.drop_trailing_hyphens].
  destruct (Js.all_hyphens (String c s)) eqn:Ea.
  - apply all_hyphens_ends in Ea. congruence.
  - f_equal. apply IH. destruct s as [|d s]; [reflexivity | exact He].
Qed.

Lemma toLowerCase_name (s : string) :
  all_chars is_name_char s = true -> Js.toLowerCase s = s.
Proof.
  induction s as [|c s IH]; intros Hs; [reflexivity|].
  cbn [all_chars] in Hs. apply andb_true_iff in Hs. destruct Hs as [Hc Hs].
  cbn [Js.toLowerCase]. rewrite (IH Hs).
  now destruct (name_char_fixed c Hc) as [-> _].
Qed.

Lemma sanitizedKey_fixed (s : string) :
  all_chars is_name_char s = true -> starts_hyphen s = false ->
  ends_hyphen s = false -> double_hyphen s = false ->
  Naming.sanitizedKey s = s.
Proof.
  intros H1 H2 H3 H4. unfold Naming.sanitizedKey, Js.trim_hyphens,
    Js.replace_non_alnum.
  rewrite (replace_protocol_name s H1).
  rewrite (proj1 (replace_runs_name s H1 H4)).
  rewrite (drop_leading_name s H2), (drop_trailing_name s H3).
  now apply toLowerCase_name.
Qed.

End ShapeFacts.

Section ShapeReadings.

Import Shape.

Lemma all_chars_In (P : ascii -> bool) (s : string) :
  all_chars P s = true ->
  forall c, In c (list_ascii_of_string s) -> P c = true.
Proof.
  induction s as [|a s IH]; cbn [all_chars list_ascii_of_string];
    [intros _ c []|].
  rewrite andb_true_iff. intros [Ha Hs] c [<-|Hc]; [exact Ha | now apply IH].
Qed.

Lemma double_hyphen_app (a b : string) :
  double_hyphen (a +:+ "--" +:+ b) = true.
Proof.
  induction a as [|c a IH]; [reflexivity|].
  change (String c a +:+ "--" +:+ b) with (String c (a +:+ "--" +:+ b)).
  cbn [double_hyphen]. rewrite IH. apply orb_true_r.
Qed.

Lemma ends_hyphen_app (r : string) : ends_hyphen (r +:+ "-") = true.
Proof.
  induction r as [|c r IH]; [reflexivity|].
  change (String c r +:+ "-") with (String c (r +:+ "-")).
  cbn [ends_hyphen]. destruct (r +:+ "-") eqn:E; [|exact IH].
  destruct r; discriminate E.
Qed.

End ShapeReadings.

(** X1. Whatever the page key is, its sanitized form holds only lower-case
    ASCII letters, digits and hyphens; it neither starts nor ends with a
    hyphen and never holds two hyphens in a row.  In particular it holds no
    path separator, no dot and no upper-case letter. *)
Theorem X1_sanitized_key_shape (pk : string) :
  let key := Naming.sanitizedKey pk in
  (forall c, In c (list_ascii_of_string key) ->
     Js.is_lower c || Js.is_digit c || Js.is_hyphen c = true)
  /\ (forall r, key <> "-" +:+ r)
  /\ (forall r, key <> r +:+ "-")
  /\ (forall a b, key <> a +:+ "--" +:+ b)
  /\ Shape.all_chars Shape.is_name_char key = true
  /\ Shape.starts_hyphen key = false
  /\ Shape.ends_hyphen key = false
  /\ Shape.double_hyphen key = false.
Proof.
  cbn zeta. destruct (sanitizedKey_shape pk) as (H1 & H2 & H3 & H4).
  repeat split; try assumption.
  - intros c Hc. exact (all_chars_In _ _ H1 c Hc).
  - intros r E. rewrite E in H2. discriminate H2.
  - intros r E. rewrite E, ends_hyphen_app in H3. discriminate H3.
  - intros a b E. rewrite E, double_hyphen_app in H4. discriminate H4.
Qed.

(** X2. Sanitizing is idempotent: the sanitized form of a page key is its
    own sanitized form, so a payload whose page key is an already sanitized
    name gets the same report name as the payload with the original key. *)
Theorem X2_sanitized_key_idempotent (pk : string) :
  Naming.sanitizedKey (Naming.sanitizedKey pk) = Naming.sanitizedKey pk
  /\ forall (sources index : nat) (title : string),
       Naming.a11yReportName sources index title
         (Some (Naming.sanitizedKey pk))
       = Naming.a11yReportName sources index title (Some pk).
Proof.
  assert (Hfix : Naming.sanitizedKey (Naming.sanitizedKey pk)
                 = Naming.sanitizedKey pk).
  { destruct (sanitizedKey_shape pk) as (H1 & H2 & H3 & H4).
    now apply sanitizedKey_fixed. }
  split; [exact Hfix|]. intros sources index title.
  unfold Naming.a11yReportName. rewrite Hfix.
  destruct (Js.truthy (Naming.sanitizedKey pk)) eqn:Ek.
  - destruct (Js.truthy pk) eqn:Ep; [reflexivity|].
    apply truthy_false in Ep. subst pk. discriminate Ek.
  - destruct (Js.truthy pk); reflexivity.
Qed.

(** ** The reporter: invariants that need the task's group, index and locals *)

Section Indexes.

Variable cfg : Reporter.Config.
Variable env : Reporter.Env.

Import Reporter Runs.

Lemma testIndex_finish (c : Ctx) (l : Locals) (sh : Shared) :
  testIndex (finish cfg env c l sh).1 = testIndex sh.
Proof.
  unfold finish. cbn [executionSummary set_browsers].
  destruct (push_group _ _ _) as [G|]; [|reflexivity].
  now destruct (render_throws env exec_template _).
Qed.

Lemma testIndex_resume (t : Task) (sh : Shared) :
  testIndex (resume cfg env t sh).1 = testIndex sh.
Proof.
  apply (resume_preserves cfg env (fun sh' => testIndex sh' = testIndex sh)).
  - intros path d sh' _ H. exact H.
  - intros b rd sh' _ H. exact H.
  - intros c l sh' H. now rewrite testIndex_finish.
  - reflexivity.
Qed.

Lemma indexes_apply_event (w : World) (e : Event) :
  indexes_ok w -> indexes_ok (apply_event cfg env w e).
Proof.
  intros [Hn Hi]. destruct e as [t r|i|fr|]; cbn [apply_event].
  - unfold indexes_ok, start. cbn [shared tasks testIndex]. split.
    + rewrite length_app, Hn. reflexivity.
    + intros i task Hl. apply lookup_app_Some in Hl.
      destruct Hl as [Hl|[Hge Hl]]; [now apply Hi|].
      apply list_lookup_singleton_Some in Hl. destruct Hl as [Hz <-].
      cbn [ctx index0]. lia.
  - destruct (tasks w !! i) as [task|] eqn:Ei; [|now split].
    pose proof (testIndex_resume task (shared w)) as Ht.
    pose proof (ctx_resume cfg env task (shared w)) as Hc.
    destruct (resume cfg env task (shared w)) as [sh task'].
    unfold indexes_ok. cbn [shared tasks fst snd] in *. split.
    + now rewrite length_insert, Ht.
    + intros j t' Hl. apply list_lookup_insert_Some in Hl.
      destruct Hl as [(<- & <- & _)|[_ Hl]]; [|now apply Hi].
      rewrite Hc. now apply Hi.
  - destruct (ending w); now split.
  - destruct (ending w) as [|fr n| | |]; try now split.
    destruct (List.existsb is_rejected _); [now split|].
    destruct (List.forallb is_fulfilled _); [|now split].
    unfold render_summary. destruct (render_throws env _ _); now split.
Qed.

Lemma indexes_run_from (evs : list Event) (w : World) :
  indexes_ok w -> indexes_ok (run_from cfg env w evs).
Proof.
  revert w. induction evs as [|e evs IH]; intros w Hw; [assumption|].
  cbn [run_from fold_left]. apply IH. now apply indexes_apply_event.
Qed.

Lemma indexes_run (evs : list Event) : indexes_ok (run cfg env evs).
Proof.
  apply indexes_run_from. split; [reflexivity|]. intros i t H.
  cbn in H. discriminate H.
Qed.

Lemma indexes_indexed (w : World) (i : nat) (t : Task) :
  indexes_ok w -> tasks w !! i = Some t -> indexed (shared w) (ctx t).
Proof.
  intros [Hn Hi] Hl. unfold indexed. rewrite (Hi i t Hl), Hn.
  apply lookup_lt_Some in Hl. lia.
Qed.

End Indexes.

Section Invariant.

Variable cfg : Reporter.Config.
Variable env : Reporter.Env.

Import Reporter.

(** What is assumed of every test of the run, what it gives of every task,
    the property of the shared state that the tasks then keep, and the
    property of the locals it rests on. *)
Variable H : TestCase * TestResult -> Prop.
Variable T : Task -> Prop.
Variable P : Shared -> Prop.
Variable L : Ctx -> Locals -> Prop.

#[local] Abbreviation grouped := (Runs.grouped cfg env).
#[local] Abbreviation indexed := Runs.indexed.
#[local] Abbreviation task_inv := (Runs.task_inv cfg env L).

Hypothesis T_start : forall t r sh, H (t, r) -> T (start cfg env t r sh).2.
Hypothesis T_resume : forall t sh, T t -> T (resume cfg env t sh).2.
Hypothesis P_write : forall path d sh, P sh -> P (write_file path d sh).
Hypothesis P_start : forall t r sh, P sh -> P (start cfg env t r sh).1.
Hypothesis P_fold : forall t rd rest sh,
  T t -> pc t = AwaitScanRender rd rest ->
  fold_throws (browserName (ctx t)) rd sh = false ->
  P sh -> P (fold_scan (browserName (ctx t)) rd sh).
Hypothesis P_finish : forall t l sh,
  T t -> grouped sh (ctx t) -> indexed sh (ctx t) -> L (ctx t) l ->
  P sh -> P (finish cfg env (ctx t) l sh).1.
Hypothesis P_final : forall d st icon sh,
  P sh -> P (set_summary (set_final d st icon (executionSummary sh)) sh).
Hypothesis L_first : forall c video shots atts logs,
  L c {| l_video := video; l_screenshots := shots; l_allAttachments := atts;
         l_errorLogs := logs; l_a11yReportPath := None;
         l_a11yErrorCount := 0; l_aggregatedA11yErrors := [] |}.
Hypothesis L_log : forall c line l, L c l -> L c (push_log line l).
Hypothesis L_path : forall c name l, L c l -> L c (set_report_path name l).
Hypothesis L_scan : forall c rd l, L c l -> L c (after_scan rd l).

Lemma scan_loop_inv (t : Task) (srcs : list (nat * Source)) (l : Locals)
    (sh : Shared) :
  T t -> grouped sh (ctx t) -> indexed sh (ctx t) -> L (ctx t) l ->
  L (ctx t) (scan_loop cfg env (ctx t) srcs l sh).1.2
  /\ (P sh -> P (scan_loop cfg env (ctx t) srcs l sh).1.1).
Proof.
  intros Ht Hg Hx. revert l.
  induction srcs as [|[i src] rest IH]; intros l Hl; cbn [scan_loop].
  - pose proof (P_finish t l sh Ht Hg Hx Hl) as Hf.
    destruct (finish cfg env (ctx t) l sh) as [sh' p]. now split.
  - destruct (read_source env src) as [|e|rd|].
    + now apply IH.
    + apply IH. now apply L_log.
    + destruct (render_throws env scan_template _); cbn [fst snd];
        (split; [now apply L_path|]); [tauto | now apply P_write].
    + now split.
Qed.

Lemma grouped_mono (sh sh' : Shared) (c : Ctx) :
  grows sh sh' -> grouped sh c -> grouped sh' c.
Proof. intros (_ & _ & Hg) Hc Hfile. apply Hg. now apply Hc. Qed.

Lemma grows_resume (t : Task) (sh : Shared) :
  grows sh (resume cfg env t sh).1.
Proof.
  pose proof (grows_apply_event cfg env
                {| shared := sh; tasks := [t]; ending := NotEnded |}
                (EvResume 0)) as Hgrow.
  cbn [apply_event tasks shared lookup list_lookup] in Hgrow.
  now destruct (resume cfg env t sh) as [sh' t'].
Qed.

Lemma task_inv_mono (sh sh' : Shared) (t : Task) :
  grows sh sh' -> task_inv sh t -> task_inv sh' t.
Proof. intros Hg [H1 H2]. split; [now apply grouped_mono with sh | exact H2]. Qed.

Lemma task_inv_start (t : TestCase) (r : TestResult) (sh : Shared) :
  task_inv (start cfg env t r sh).1 (start cfg env t r sh).2.
Proof.
  split; [|exact I]. unfold Runs.grouped, start.
  cbn [fst snd ctx executionSummary groupedResults set_groups].
  intros Hfile. rewrite has_group_init, String.eqb_refl, Hfile.
  apply orb_true_r.
Qed.

Lemma scan_loop_locals (c : Ctx) (srcs : list (nat * Source)) (l : Locals)
    (sh : Shared) :
  L c l -> L c (scan_loop cfg env c srcs l sh).1.2.
Proof.
  revert l. induction srcs as [|[i src] rest IH]; intros l Hl; cbn [scan_loop].
  - now destruct (finish cfg env c l sh) as [sh' p].
  - destruct (read_source env src) as [|e|rd|].
    + now apply IH.
    + apply IH. now apply L_log.
    + destruct (render_throws env scan_template _); cbn [fst snd];
        now apply L_path.
    + exact Hl.
Qed.

Lemma locals_resume (t : Task) (sh : Shared) :
  task_inv sh t ->
  match pc (resume cfg env t sh).2 with
  | AwaitScanRender _ _ | AwaitExecRender | Fulfilled =>
      L (ctx t) (locals (resume cfg env t sh).2)
  | AwaitVideo | Rejected _ => True
  end.
Proof.
  intros [Hg Hl]. unfold resume.
  destruct (pc t) as [|rd rest| | |fl] eqn:Epc.
  - destruct (copyScreenshots env _ _) as [shots|]; [|exact I].
    destruct (copyPngAttachments env _ _) as [pngs|]; [|exact I].
    destruct (copyAllOtherAttachments env _ _) as [others|]; [|exact I].
    match goal with |- context [scan_loop cfg env ?c ?s ?l0 ?h] =>
      pose proof (scan_loop_locals c s l0 h (L_first _ _ _ _ _)) as Hloc;
      destruct (scan_loop cfg env c s l0 h) as [[sh' l'] p] end.
    cbn [fst snd pc locals] in *. now destruct p.
  - on_throw (exact I).
    match goal with |- context [scan_loop cfg env ?c ?s ?l0 ?h] =>
      pose proof (scan_loop_locals c s l0 h (L_scan _ _ _ Hl)) as Hloc;
      destruct (scan_loop cfg env c s l0 h) as [[sh' l'] p] end.
    cbn [fst snd pc locals] in *. now destruct p.
  - cbn [snd pc locals]. exact Hl.
  - cbn [snd]. now rewrite Epc.
  - cbn [snd]. now rewrite Epc.
Qed.

Lemma task_inv_resume (t : Task) (sh : Shared) :
  task_inv sh t -> task_inv (resume cfg env t sh).1 (resume cfg env t sh).2.
Proof.
  intros Ht. split.
  - rewrite (ctx_resume cfg env t sh).
    apply grouped_mono with sh; [apply grows_resume | apply Ht].
  - rewrite (ctx_resume cfg env t sh). now apply locals_resume.
Qed.

Lemma shared_resume (t : Task) (sh : Shared) :
  T t -> task_inv sh t -> indexed sh (ctx t) -> P sh ->
  P (resume cfg env t sh).1.
Proof.
  intros Ht [Hg Hl] Hx Hsh. unfold resume.
  destruct (pc t) as [|rd rest| | |fl] eqn:Epc; try assumption.
  - destruct (copyScreenshots env _ _) as [shots|]; [|assumption].
    destruct (copyPngAttachments env _ _) as [pngs|]; [|assumption].
    destruct (copyAllOtherAttachments env _ _) as [others|]; [|assumption].
    match goal with |- context [scan_loop cfg env ?c ?s ?l0 ?h] =>
      destruct (scan_loop_inv t s l0 h Ht Hg Hx (L_first _ _ _ _ _))
        as [_ Hloop];
      destruct (scan_loop cfg env c s l0 h) as [[sh' l'] p] end.
    cbn [fst] in *. now apply Hloop.
  - on_throw assumption.
    assert (Hg1 : grouped (fold_scan (browserName (ctx t)) rd sh) (ctx t)).
    { apply grouped_mono with sh; [apply grows_fold_scan | exact Hg]. }
    match goal with |- context [scan_loop cfg env ?c ?s ?l0 ?h] =>
      destruct (scan_loop_inv t s l0 h Ht Hg1 Hx (L_scan _ _ _ Hl))
        as [_ Hloop];
      destruct (scan_loop cfg env c s l0 h) as [[sh' l'] p] end.
    cbn [fst] in *. apply Hloop. now apply P_fold with rest.
Qed.

Lemma shared_apply_event (w : World) (e : Event) :
  List.Forall T (tasks w) ->
  List.Forall (task_inv (shared w)) (tasks w) -> Runs.indexes_ok w ->
  P (shared w) -> P (shared (apply_event cfg env w e)).
Proof.
  intros HT Ht Hx Hw. destruct e as [t r|i|fr|]; cbn [apply_event].
  - specialize (P_start t r (shared w) Hw).
    destruct (start cfg env t r (shared w)) as [sh task]. exact P_start.
  - destruct (tasks w !! i) as [task|] eqn:Ei; [|assumption].
    assert (Hin : In task (tasks w)).
    { apply list_elem_of_In. now apply list_elem_of_lookup_2 with i. }
    rewrite List.Forall_forall in Ht, HT.
    pose proof (shared_resume task (shared w) (HT task Hin) (Ht task Hin)
                  (indexes_indexed w i task Hx Ei) Hw) as Hres.
    destruct (resume cfg env task (shared w)) as [sh task']. exact Hres.
  - destruct (ending w); assumption.
  - destruct (ending w) as [|fr n| | |]; try assumption.
    destruct (List.existsb is_rejected _); [assumption|].
    destruct (List.forallb is_fulfilled _); [|assumption].
    unfold render_summary.
    destruct (render_throws env summary_template _); cbn [shared].
    + now apply P_final.
    + apply P_write. now apply P_final.
Qed.

Lemma guarded_tasks_event (w : World) (e : Event) :
  List.Forall H (tests_of [e]) ->
  List.Forall T (tasks w) -> List.Forall T (tasks (apply_event cfg env w e)).
Proof.
  intros He Ht. destruct e as [t r|i|fr|]; cbn [apply_event].
  - apply List.Forall_inv in He.
    pose proof (T_start t r (shared w) He) as Hn.
    destruct (start cfg env t r (shared w)) as [sh task].
    cbn [tasks snd] in *.
    apply List.Forall_app. split; [assumption | now constructor].
  - destruct (tasks w !! i) as [task|] eqn:Ei; [|assumption].
    assert (Hi : T task).
    { rewrite List.Forall_forall in Ht. apply Ht.
      apply list_elem_of_In. now apply list_elem_of_lookup_2 with i. }
    pose proof (T_resume task (shared w) Hi) as Hn.
    destruct (resume cfg env task (shared w)) as [sh task'].
    cbn [tasks snd] in *. now apply Forall_insert.
  - destruct (ending w); assumption.
  - destruct (ending w) as [|fr n| | |]; try assumption.
    destruct (List.existsb is_rejected _); [assumption|].
    destruct (List.forallb is_fulfilled _); [|assumption].
    unfold render_summary.
    destruct (render_throws env summary_template _); exact Ht.
Qed.

Lemma guarded_run_from (evs : list Event) (w : World) :
  List.Forall H (tests_of evs) ->
  List.Forall T (tasks w) ->
  List.Forall (task_inv (shared w)) (tasks w) -> Runs.indexes_ok w ->
  P (shared w) ->
  List.Forall (task_inv (shared (run_from cfg env w evs)))
    (tasks (run_from cfg env w evs))
  /\ P (shared (run_from cfg env w evs)).
Proof.
  revert w. induction evs as [|e evs IH]; intros w He HT Ht Hx Hw;
    [now split|].
  change (e :: evs) with ([e] ++ evs)%list in He.
  rewrite tests_of_app in He. apply List.Forall_app in He.
  destruct He as [He Hevs].
  cbn [run_from fold_left]. apply IH.
  - exact Hevs.
  - now apply guarded_tasks_event.
  - apply (relative_apply_event cfg env task_inv task_inv_mono task_inv_start
             task_inv_resume w e Ht).
  - now apply indexes_apply_event.
  - now apply shared_apply_event.
Qed.

(** In a run whose tests all meet the condition, the two invariants hold at
    every moment, whatever the order of the events. *)
Lemma guarded_run (evs : list Event) :
  List.Forall H (tests_of evs) -> P initial_shared ->
  List.Forall (task_inv (shared (run cfg env evs))) (tasks (run cfg env evs))
  /\ P (shared (run cfg env evs)).
Proof.
  intros He H0.
  apply guarded_run_from; [exact He | constructor | constructor | | exact H0].
  split; [reflexivity|]. intros i t Hl. cbn in Hl. discriminate Hl.
Qed.

End Invariant.

Section InvariantOfAllRuns.

Variable cfg : Reporter.Config.
Variable env : Reporter.Env.

Import Reporter.

Variable P : Shared -> Prop.
Variable L : Ctx -> Locals -> Prop.

Hypothesis P_write : forall path d sh, P sh -> P (write_file path d sh).
Hypothesis P_start : forall t r sh, P sh -> P (start cfg env t r sh).1.
Hypothesis P_fold : forall b rd sh,
  fold_throws b rd sh = false -> P sh -> P (fold_scan b rd sh).
Hypothesis P_finish : forall c l sh,
  Runs.grouped cfg env sh c -> Runs.indexed sh c -> L c l -> P sh ->
  P (finish cfg env c l sh).1.
Hypothesis P_final : forall d st icon sh,
  P sh -> P (set_summary (set_final d st icon (executionSummary sh)) sh).
Hypothesis L_first : forall c video shots atts logs,
  L c {| l_video := video; l_screenshots := shots; l_allAttachments := atts;
         l_errorLogs := logs; l_a11yReportPath := None;
         l_a11yErrorCount := 0; l_aggregatedA11yErrors := [] |}.
Hypothesis L_log : forall c line l, L c l -> L c (push_log line l).
Hypothesis L_path : forall c name l, L c l -> L c (set_report_path name l).
Hypothesis L_scan : forall c rd l, L c l -> L c (after_scan rd l).

(** The two invariants hold at every moment of every run. *)
Lemma invariant_run (evs : list Event) :
  P initial_shared ->
  List.Forall (Runs.task_inv cfg env L (shared (run cfg env evs)))
    (tasks (run cfg env evs))
  /\ P (shared (run cfg env evs)).
Proof.
  intros H0.
  apply (guarded_run cfg env (fun _ => True) (fun _ => True) P L);
    try assumption.
  - intros t r sh _. exact I.
  - intros t sh _. exact I.
  - intros t rd rest sh _ _. apply P_fold.
  - intros t l sh _. apply P_finish.
  - apply List.Forall_forall. intros x _. exact I.
Qed.

End InvariantOfAllRuns.

(** ** The reporter: counters are exact *)

Section ExactCounters.

Variable cfg : Reporter.Config.
Variable env : Reporter.Env.

Import Reporter Runs.

Lemma counts_records_bump (sel : TestResults -> bool) (S S' : TestSummary)
    (G G' : Groups) (g : string) (r : TestResults) :
  push_group g r G = Some G' -> sel r = true ->
  bumps (tr_status r) S S' ->
  counts_records sel S G -> counts_records sel S' G'.
Proof.
  intros HG Hsel (B1 & B2 & B3 & B4) (C1 & C2 & C3 & C4).
  destruct (push_group_records g r G G' HG) as [_ Hc].
  unfold counts_records. rewrite !Hc, Hsel, B1, B2, B3, B4, C1, C2, C3, C4.
  unfold has_status. cbn [andb]. auto.
Qed.

Lemma counts_records_skip (sel : TestResults -> bool) (S S' : TestSummary)
    (G G' : Groups) (g : string) (r : TestResults) :
  push_group g r G = Some G' -> sel r = false ->
  same_counters S S' ->
  counts_records sel S G -> counts_records sel S' G'.
Proof.
  intros HG Hsel (B1 & B2 & B3 & B4) (C1 & C2 & C3 & C4).
  destruct (push_group_records g r G G' HG) as [_ Hc].
  unfold counts_records. rewrite !Hc, Hsel, B1, B2, B3, B4, C1, C2, C3, C4.
  cbn [andb]. rewrite !Nat.add_0_r. auto.
Qed.

Lemma counts_records_same (sel : TestResults -> bool) (S S' : TestSummary)
    (G : Groups) :
  same_counters S S' -> counts_records sel S G -> counts_records sel S' G.
Proof.
  intros (B1 & B2 & B3 & B4) (C1 & C2 & C3 & C4).
  unfold counts_records. rewrite B1, B2, B3, B4. auto.
Qed.

Lemma bumps_browser (st : Status) (S : TestSummary) :
  bumps st S (count_status st (count_total S)).
Proof. destruct st; unfold bumps; cbn; repeat split; lia. Qed.

Lemma bumps_global (st : Status) (flaky : bool) (G : Groups) (S : TestSummary) :
  bumps st S
    (count_total (count_status st
       (if flaky then count_flaky (set_groups G S) else set_groups G S))).
Proof. destruct st, flaky; unfold bumps; cbn; repeat split; lia. Qed.

Lemma same_counters_fold_into (errs : list A11yError) (S : TestSummary) :
  same_counters S (fold_into errs S).
Proof. destruct errs; repeat split. Qed.

Lemma browser_summary_update (b b' : string)
    (f : TestSummary -> TestSummary) (sh : Shared) :
  Js.inherited b' = false ->
  browser_summary (set_browsers (update_browser b f (browserSummaries sh)) sh) b'
  = if decide (b = b') then f (browser_summary sh b) else browser_summary sh b'.
Proof.
  intros Hb'. unfold browser_summary. cbn [browserSummaries set_browsers].
  rewrite lookup_update_browser. case_decide as Hd; [|reflexivity].
  subst b'. rewrite Hb'. now destruct (browserSummaries sh !! b).
Qed.

Lemma own_browsers_update (b : string) (f : TestSummary -> TestSummary)
    (sh : Shared) (S : TestSummary) :
  own_browsers sh ->
  own_browsers
    (set_summary S (set_browsers (update_browser b f (browserSummaries sh)) sh)).
Proof.
  intros H b' Hb'. cbn [browserSummaries set_summary set_browsers].
  rewrite lookup_update_browser. case_decide as Hd; [|now apply H].
  subst b'. now rewrite (H b Hb'), Hb'.
Qed.

Lemma global_exact_finish (c : Ctx) (l : Locals) (sh : Shared) :
  global_exact sh -> global_exact (finish cfg env c l sh).1.
Proof.
  intros Hg. unfold finish.
  set (st := status (result c)).
  set (sh1 := set_browsers _ sh).
  set (stats := testStats cfg env c l sh1).
  cbn [executionSummary set_browsers].
  change (executionSummary sh1) with (executionSummary sh).
  destruct (push_group (fileGroup cfg env c) stats
              (groupedResults (executionSummary sh))) as [G|] eqn:EG;
    [|exact Hg].
  assert (Hfin : global_exact
    (set_summary
       (count_total (count_status st
          (if isFlaky (test c) (result c)
           then count_flaky (set_groups G (executionSummary sh))
           else set_groups G (executionSummary sh)))) sh1)).
  { unfold global_exact. cbn [executionSummary set_summary].
    assert (HG : groupedResults
              (count_total (count_status st
                 (if isFlaky (test c) (result c)
                  then count_flaky (set_groups G (executionSummary sh))
                  else set_groups G (executionSummary sh)))) = G).
    { destruct (isFlaky (test c) (result c)), st; reflexivity. }
    rewrite HG.
    apply (counts_records_bump _ (executionSummary sh) _ _ _ _ _ EG);
      [reflexivity | apply bumps_global | exact Hg]. }
  destruct (render_throws env exec_template _); exact Hfin.
Qed.

(** The counters of the global summary are exact in every run. *)
Lemma global_exact_run (evs : list Event) :
  global_exact (shared (run cfg env evs)).
Proof.
  apply (run_from_preserves cfg env global_exact).
  - intros path d sh _ Hs. exact Hs.
  - intros path d sh _ Hs. exact Hs.
  - intros t r sh Hs.
    unfold global_exact, start, counts_records, countP in *.
    cbn [fst executionSummary set_groups groupedResults total totalPassed
         totalFailed totalSkipped].
    now rewrite records_init_group.
  - intros b rd sh _ Hs. unfold global_exact, fold_scan.
    cbn [executionSummary set_summary]. rewrite fold_into_groups.
    apply counts_records_same with (executionSummary sh);
      [apply same_counters_fold_into | exact Hs].
  - intros c l sh. apply global_exact_finish.
  - intros d st icon sh Hs. exact Hs.
  - now repeat split.
Qed.

Lemma browsers_exact_fold_scan (b : string) (rd : ReportData) (sh : Shared) :
  browsers_exact sh -> browsers_exact (fold_scan b rd sh).
Proof.
  intros (Hb & Hown). unfold browsers_exact, fold_scan.
  cbn [executionSummary set_summary].
  rewrite fold_into_groups. split.
  - intros b' Hb'.
    change (browser_summary (set_summary ?S ?h) b')
      with (browser_summary h b').
    rewrite browser_summary_update by exact Hb'. case_decide as Hd.
    + subst b'.
      apply counts_records_same with (browser_summary sh b);
        [apply same_counters_fold_into | now apply Hb].
    + now apply Hb.
  - now apply own_browsers_update.
Qed.

Lemma browsers_exact_finish (c : Ctx) (l : Locals) (sh : Shared) :
  has_group (fileGroup cfg env c) (groupedResults (executionSummary sh)) = true ->
  browsers_exact sh -> browsers_exact (finish cfg env c l sh).1.
Proof.
  intros Hgr (Hb & Hown). unfold finish.
  set (st := status (result c)).
  set (sh1 := set_browsers _ sh).
  set (stats := testStats cfg env c l sh1).
  cbn [executionSummary set_browsers].
  pose proof (has_group_push (fileGroup cfg env c) stats _ Hgr) as Hpush.
  change (executionSummary sh1) with (executionSummary sh).
  destruct (push_group (fileGroup cfg env c) stats
              (groupedResults (executionSummary sh))) as [G|] eqn:EG;
    [|congruence].
  assert (Hfin : browsers_exact
    (set_summary
       (count_total (count_status st
          (if isFlaky (test c) (result c)
           then count_flaky (set_groups G (executionSummary sh))
           else set_groups G (executionSummary sh)))) sh1)).
  { unfold browsers_exact. cbn [executionSummary set_summary].
    assert (HG : groupedResults
              (count_total (count_status st
                 (if isFlaky (test c) (result c)
                  then count_flaky (set_groups G (executionSummary sh))
                  else set_groups G (executionSummary sh)))) = G).
    { destruct (isFlaky (test c) (result c)), st; reflexivity. }
    rewrite HG. split.
    - intros b Hb0. unfold browser_summary.
      cbn [browserSummaries set_summary]. fold (browser_summary sh1 b).
      unfold sh1. rewrite browser_summary_update by exact Hb0.
      case_decide as Hd.
      + subst b.
        apply (counts_records_bump _ (browser_summary sh (browserName c))
                 _ _ _ _ _ EG);
          [apply String.eqb_refl | apply bumps_browser | now apply Hb].
      + apply (counts_records_skip _ (browser_summary sh b) _ _ _ _ _ EG);
          [|repeat split | now apply Hb].
        unfold in_browser. cbn [stats testStats browser].
        now apply String.eqb_neq.
    - unfold sh1. now apply own_browsers_update. }
  destruct (render_throws env exec_template _); exact Hfin.
Qed.

Lemma browsers_exact_start (t : TestCase) (r : TestResult) (sh : Shared) :
  browsers_exact sh -> browsers_exact (start cfg env t r sh).1.
Proof.
  intros (Hb & Hown).
  unfold browsers_exact, start, counts_records, countP in *.
  cbn [fst executionSummary set_groups groupedResults total totalPassed
       totalFailed totalSkipped].
  rewrite records_init_group. split; [exact Hb | exact Hown].
Qed.

(** What the file of a task is, for the group its record goes to. *)
#[local] Abbreviation file_task t := (ordinary_file cfg env (test_of t)).

Lemma file_task_resume (t : Task) (sh : Shared) :
  file_task t -> file_task (resume cfg env t sh).2.
Proof. unfold test_of. now rewrite (ctx_resume cfg env t sh). Qed.

(** No browser summary ever bears an inherited name. *)
Lemma own_browsers_run (evs : list Event) :
  own_browsers (shared (run cfg env evs)).
Proof.
  apply (run_from_preserves cfg env own_browsers).
  - intros path d sh _ Hs. exact Hs.
  - intros path d sh _ Hs. exact Hs.
  - intros t r sh Hs. exact Hs.
  - intros b rd sh _ Hs. unfold fold_scan. now apply own_browsers_update.
  - intros c l sh Hs. unfold finish.
    set (sh1 := set_browsers _ sh).
    assert (H1 : own_browsers sh1).
    { intros b Hb. unfold sh1. cbn [browserSummaries set_browsers].
      rewrite lookup_update_browser. case_decide as Hd; [|now apply Hs].
      subst b. now rewrite (Hs _ Hb), Hb. }
    destruct (push_group _ _ _) as [G|]; [|exact H1].
    destruct (render_throws env exec_template _); exact H1.
  - intros d st icon sh Hs. exact Hs.
  - intros b _. apply lookup_empty.
Qed.

(** When no test of the run lies in a file whose relative path is an
    inherited name, the counters of the browser summaries are exact. *)
Lemma browsers_exact_run (evs : list Event) :
  List.Forall (ordinary_file cfg env) (tests_of evs) ->
  browsers_exact (shared (run cfg env evs)).
Proof.
  intros Hord.
  apply (guarded_run cfg env (ordinary_file cfg env) (fun t => file_task t)
           browsers_exact (fun _ _ => True)); auto.
  - intros t sh. apply file_task_resume.
  - intros t r sh. apply browsers_exact_start.
  - intros t rd rest sh _ _ _. apply browsers_exact_fold_scan.
  - intros t l sh Hfile Hg _ _. apply browsers_exact_finish. now apply Hg.
  - split.
    + intros b _. now repeat split.
    + intros b _. apply lookup_empty.
Qed.

End ExactCounters.

Lemma status_partition (sel : Reporter.TestResults -> bool)
    (R : list Reporter.TestResults) :
  length (List.filter sel R)
  = (length (List.filter
               (fun r => sel r && status_eqb (Reporter.tr_status r) passed) R)
     + length (List.filter
                 (fun r => sel r && status_eqb (Reporter.tr_status r) failed) R)
     + length (List.filter
                 (fun r => sel r && status_eqb (Reporter.tr_status r) skipped) R)
     + length (List.filter
                 (fun r => sel r && Reporter.uncounted (Reporter.tr_status r)) R))%nat.
Proof.
  induction R as [|r R IH]; [reflexivity|]. cbn [List.filter].
  destruct (sel r); cbn [andb]; [|exact IH].
  destruct (Reporter.tr_status r);
    cbn [Models.status_eqb Reporter.uncounted length]; lia.
Qed.

(** X3. At every moment of every run the counters of the global summary
    are exact: [total] is the number of records, [totalPassed],
    [totalFailed] and [totalSkipped] are the numbers of records of that
    status, and so [total] exceeds their sum by exactly the number of
    records whose status is timedOut or interrupted.  No browser summary
    bears a name that objects inherit from [Object.prototype], whatever
    records such a browser has; a browser of another name that has no
    summary has no record.  When moreover no test of the run lies in a file
    whose relative path, the key of its group, is such an inherited name,
    the counters of every browser summary are exact in the same way, for
    the records of that browser. *)
Theorem X3_counters_exact (cfg : Reporter.Config) (env : Reporter.Env)
    (evs : list Reporter.Event) :
  let sh := Reporter.shared (Reporter.run cfg env evs) in
  let R := Reporter.records
             (Reporter.groupedResults (Reporter.executionSummary sh)) in
  let exact (sel : Reporter.TestResults -> bool) (S : Reporter.TestSummary) :=
    Reporter.total S = length (List.filter sel R)
    /\ Reporter.totalPassed S
       = length (List.filter
                   (fun r => sel r && status_eqb (Reporter.tr_status r) passed) R)
    /\ Reporter.totalFailed S
       = length (List.filter
                   (fun r => sel r && status_eqb (Reporter.tr_status r) failed) R)
    /\ Reporter.totalSkipped S
       = length (List.filter
                   (fun r => sel r && status_eqb (Reporter.tr_status r) skipped) R)
    /\ Reporter.total S
       = (Reporter.totalPassed S + Reporter.totalFailed S
          + Reporter.totalSkipped S
          + length (List.filter
                      (fun r => sel r
                                && Reporter.uncounted (Reporter.tr_status r)) R))%nat in
  exact (fun _ => true) (Reporter.executionSummary sh)
  /\ Reporter.total (Reporter.executionSummary sh) = length R
  /\ (forall b, Js.inherited b = true ->
        Reporter.browserSummaries sh !! b = None)
  /\ (forall b r, Js.inherited b = false ->
        Reporter.browserSummaries sh !! b = None ->
        In r R -> Reporter.browser r <> b)
  /\ ((forall t r, In (t, r) (Reporter.tests_of evs) ->
         Js.inherited
           (Reporter.path_relative env (Reporter.projectRoot cfg)
              (Reporter.location_file t)) = false) ->
      forall b bS, Reporter.browserSummaries sh !! b = Some bS ->
        exact (fun r => String.eqb (Reporter.browser r) b) bS).
Proof.
  cbn zeta. pose proof (global_exact_run cfg env evs) as Hg.
  pose proof (own_browsers_run cfg env evs) as Hown.
  destruct (counters_ok_run cfg env evs) as (_ & _ & Hrec).
  pose proof (browsers_exact_run cfg env evs) as Hbrowsers.
  set (sh := Reporter.shared (Reporter.run cfg env evs)) in *.
  set (R := Reporter.records _) in *.
  assert (Hexact : forall sel S,
    Runs.counts_records sel S
      (Reporter.groupedResults (Reporter.executionSummary sh)) ->
    Reporter.total S = length (List.filter sel R)
    /\ Reporter.totalPassed S
       = length (List.filter
                   (fun r => sel r && status_eqb (Reporter.tr_status r) passed) R)
    /\ Reporter.totalFailed S
       = length (List.filter
                   (fun r => sel r && status_eqb (Reporter.tr_status r) failed) R)
    /\ Reporter.totalSkipped S
       = length (List.filter
                   (fun r => sel r && status_eqb (Reporter.tr_status r) skipped) R)
    /\ Reporter.total S
       = (Reporter.totalPassed S + Reporter.totalFailed S
          + Reporter.totalSkipped S
          + length (List.filter
                      (fun r => sel r
                                && Reporter.uncounted (Reporter.tr_status r)) R))%nat).
  { intros sel S (C1 & C2 & C3 & C4).
    unfold Reporter.countP, Runs.has_status in *. fold R in C1, C2, C3, C4.
    repeat split; try assumption.
    rewrite C1, C2, C3, C4. apply status_partition. }
  split; [now apply Hexact|]. split.
  { destruct Hg as [C1 _]. rewrite C1. unfold Reporter.countP. fold R.
    clear. induction R as [|r R IH]; cbn; [reflexivity | now rewrite IH]. }
  split; [exact Hown|]. split.
  - intros b r Hord Hl Hr Hbr. subst b.
    destruct (Hrec r Hr Hord) as [bS HbS]. congruence.
  - intros Hfiles b bS Hl. apply Hexact.
    assert (Hord : Js.inherited b = false).
    { destruct (Js.inherited b) eqn:E; [|reflexivity].
      rewrite (Hown b E) in Hl. discriminate Hl. }
    destruct Hbrowsers as [Hb _].
    { apply List.Forall_forall. intros [t r] Hin. now apply Hfiles with r. }
    specialize (Hb b Hord).
    unfold Runs.browser_summary in Hb. now rewrite Hl in Hb.
Qed.

Lemma X3_counters_exact_witness :
  let sh := Reporter.shared
              (Reporter.run Examples.default_config Examples.quiet_env
                 Examples.timeout_and_retry) in
  exists bS,
    Reporter.browserSummaries sh !! "chromium" = Some bS
    /\ Reporter.total bS = 2%nat
    /\ Reporter.totalPassed bS = 1%nat
    /\ Reporter.total bS
       = length (List.filter
                   (fun r => String.eqb (Reporter.browser r) "chromium")
                   (Reporter.records
                      (Reporter.groupedResults (Reporter.executionSummary sh)))).
Proof.
  cbn zeta.
  destruct (Reporter.browserSummaries
              (Reporter.shared
                 (Reporter.run Examples.default_config Examples.quiet_env
                    Examples.timeout_and_retry)) !! "chromium")
    as [bS|] eqn:Hl; [|vm_compute in Hl; discriminate Hl].
  exists bS. split; [reflexivity|].
  split; [vm_compute in Hl; injection Hl as <-; reflexivity|].
  split; [vm_compute in Hl; injection Hl as <-; reflexivity|].
  refine (proj1 (proj2 (proj2 (proj2 (proj2
            (X3_counters_exact Examples.default_config Examples.quiet_env
               Examples.timeout_and_retry)))) _ "chromium" bS Hl)).
  intros t r Hin. vm_compute in Hin.
  repeat (destruct Hin as [Hin|Hin]; [injection Hin as <- <-; reflexivity|]).
  destruct Hin.
Defined.

(** A project named [constructor]: the test without scan is recorded and
    counted in the global summary only; the test whose scan reports errors
    is rejected when the fold reads [bSummary.wcagErrors]. *)
Example constructor_project_counts :
  let w := Reporter.run Examples.default_config Examples.quiet_env
             Examples.constructor_project in
  let S := Reporter.executionSummary (Reporter.shared w) in
  List.map Reporter.pc (Reporter.tasks w)
  = [Reporter.Fulfilled; Reporter.Rejected Reporter.TypeError]
  /\ Reporter.browserSummaries (Reporter.shared w) = ∅
  /\ List.map Reporter.browser (Reporter.records (Reporter.groupedResults S))
     = ["constructor"]
  /\ Reporter.total S = 1%nat
  /\ Reporter.totalA11yErrorCount S = 0%Z.
Proof. cbn zeta. repeat split; vm_compute; reflexivity. Qed.

(** A test file whose relative path is [constructor]: the browser summary
    counts the test, then [groupedResults[fileGroup].push] throws, so the
    test has no record and the global summary does not count it. *)
Example constructor_file_counts :
  let w := Reporter.run Examples.default_config Examples.quiet_env
             Examples.constructor_file in
  let S := Reporter.executionSummary (Reporter.shared w) in
  List.map Reporter.pc (Reporter.tasks w)
  = [Reporter.Rejected Reporter.TypeError]
  /\ Reporter.groupedResults S = []
  /\ Reporter.total S = 0%nat
  /\ Reporter.total <$> Reporter.browserSummaries (Reporter.shared w) !! "chromium"
     = Some 1%nat.
Proof. cbn zeta. repeat split; vm_compute; reflexivity. Qed.

(** ** The reporter: totals that add up *)

Section SumOver.

Context {A : Type}.
Variable g : A -> Z.

Import Runs.

Lemma sum_over_empty : sum_over g (∅ : gmap string A) = 0%Z.
Proof. unfold sum_over. apply map_fold_empty. Qed.

Lemma sum_over_insert_fresh (m : gmap string A) (i : string) (x : A) :
  m !! i = None -> sum_over g (<[i := x]> m) = (g x + sum_over g m)%Z.
Proof.
  intros Hi. unfold sum_over.
  rewrite (map_fold_insert_L
             (fun (_ : string) (y : A) (acc : Z) => (g y + acc)%Z) 0%Z i x m);
    [reflexivity | intros; lia | exact Hi].
Qed.

Lemma sum_over_insert (m : gmap string A) (i : string) (x : A) :
  sum_over g (<[i := x]> m)
  = (sum_over g m + g x
     - match m !! i with Some y => g y | None => 0 end)%Z.
Proof.
  destruct (m !! i) as [y|] eqn:Ei.
  - rewrite <- insert_delete_eq.
    rewrite sum_over_insert_fresh by apply lookup_delete_eq.
    unfold sum_over at 2.
    rewrite (map_fold_delete_L
               (fun (_ : string) (z : A) (acc : Z) => (g z + acc)%Z) 0%Z i y m);
      [|intros; lia | exact Ei].
    fold (sum_over g (delete i m)). lia.
  - rewrite sum_over_insert_fresh by exact Ei. lia.
Qed.

End SumOver.

Section Totals.

Variable cfg : Reporter.Config.
Variable env : Reporter.Env.

Import Reporter Runs.

Lemma scanErrorCount_from (errs : list A11yError) (a : Z) :
  fold_left (fun sum err => (sum + total_or_0 err)%Z) errs a
  = (a + scanErrorCount errs)%Z.
Proof.
  unfold scanErrorCount. revert a.
  induction errs as [|e errs IH]; intros a; cbn [fold_left]; [lia|].
  rewrite IH, (IH (0 + total_or_0 e)%Z). lia.
Qed.

Lemma scanErrorCount_app (a b : list A11yError) :
  scanErrorCount (a ++ b) = (scanErrorCount a + scanErrorCount b)%Z.
Proof.
  unfold scanErrorCount at 1. rewrite fold_left_app.
  fold (scanErrorCount a). apply scanErrorCount_from.
Qed.

Lemma sum_add_wcag (m : gmap string WcagEntry) (e : A11yError) :
  Js.inherited (id e) = false ->
  sum_over count (add_wcag m e) = (sum_over count m + total_or_0 e)%Z.
Proof.
  intros Hord. unfold add_wcag, ensure_rule.
  destruct (m !! id e) as [e0|] eqn:Em.
  - rewrite Em, sum_over_insert, Em. cbn [count]. lia.
  - rewrite Hord, lookup_insert_eq, insert_insert_eq, sum_over_insert, Em.
    cbn [count]. lia.
Qed.

Lemma sum_fold_wcag (errs : list A11yError) (m : gmap string WcagEntry) :
  (forall e, In e errs -> Js.inherited (id e) = false) ->
  sum_over count (fold_left add_wcag errs m)
  = (sum_over count m + scanErrorCount errs)%Z.
Proof.
  revert m. induction errs as [|e errs IH]; intros m Hord; cbn [fold_left].
  - unfold scanErrorCount. cbn. lia.
  - rewrite IH by (intros x Hx; apply Hord; now right).
    rewrite sum_add_wcag by (apply Hord; now left).
    change (e :: errs) with ([e] ++ errs)%list. rewrite scanErrorCount_app.
    unfold scanErrorCount at 2. cbn. lia.
Qed.

Lemma fold_into_total (errs : list A11yError) (S : TestSummary) :
  totalA11yErrorCount (fold_into errs S)
  = (totalA11yErrorCount S + scanErrorCount errs)%Z.
Proof.
  destruct errs; [unfold scanErrorCount; cbn; lia | reflexivity].
Qed.

Lemma rules_add_up_fold_into (errs : list A11yError) (S : TestSummary) :
  (forall e, In e errs -> Js.inherited (id e) = false) ->
  rules_add_up S -> rules_add_up (fold_into errs S).
Proof.
  unfold rules_add_up. intros Hord H. rewrite fold_into_total.
  destruct errs as [|e errs]; [unfold scanErrorCount; cbn; lia|].
  unfold fold_into. cbn [wcagErrors set_wcag].
  rewrite sum_fold_wcag by exact Hord. lia.
Qed.

Lemma rules_add_up_empty : rules_add_up empty_browser_summary.
Proof. unfold rules_add_up. cbn. apply sum_over_empty. Qed.

(** The sum over the browsers moves by what the update does to the one
    summary it touches, if it touches one. *)
Lemma sum_update_browser (g : TestSummary -> Z) (b : string)
    (f : TestSummary -> TestSummary) (m : gmap string TestSummary) :
  g empty_browser_summary = 0%Z ->
  sum_over g (update_browser b f m)
  = (sum_over g m
     + match m !! b with
       | Some bS => g (f bS) - g bS
       | None =>
           if Js.inherited b then 0 else g (f empty_browser_summary)
       end)%Z.
Proof.
  intros H0. unfold update_browser, ensure_browser.
  destruct (m !! b) as [bS|] eqn:Eb.
  - rewrite Eb, sum_over_insert, Eb. lia.
  - destruct (Js.inherited b).
    + rewrite Eb. lia.
    + rewrite lookup_insert_eq, insert_insert_eq, sum_over_insert, Eb. lia.
Qed.

(** An update that leaves [g] alone leaves the sum alone. *)
Lemma sum_update_same (g : TestSummary -> Z) (b : string)
    (f : TestSummary -> TestSummary) (m : gmap string TestSummary) :
  g empty_browser_summary = 0%Z -> (forall S, g (f S) = g S) ->
  sum_over g (update_browser b f m) = sum_over g m.
Proof.
  intros H0 Hf. rewrite sum_update_browser by exact H0.
  destruct (m !! b) as [bS|]; [rewrite Hf; lia|].
  destruct (Js.inherited b); [lia|]. rewrite Hf, H0. lia.
Qed.

Lemma a11y_browsers_fold_scan (b : string) (rd : ReportData) (sh : Shared) :
  fold_throws b rd sh = false ->
  a11y_browsers_ok sh -> a11y_browsers_ok (fold_scan b rd sh).
Proof.
  intros Hsafe Hs. unfold a11y_browsers_ok, fold_scan in *.
  cbn [executionSummary browserSummaries set_summary set_browsers].
  rewrite fold_into_total.
  destruct (folded_errors rd) as [|e errs] eqn:Ee.
  - rewrite sum_update_same by (reflexivity || (intros; reflexivity)).
    unfold scanErrorCount. cbn. lia.
  - rewrite sum_update_browser by reflexivity.
    pose proof (fold_safe_summary b rd sh Hsafe) as Hord.
    rewrite Ee in Hord.
    destruct (browserSummaries sh !! b) as [bS|] eqn:Eb.
    + rewrite fold_into_total. lia.
    + rewrite (Hord ltac:(discriminate) eq_refl), fold_into_total. cbn. lia.
Qed.

Lemma finish_a11y (c : Ctx) (l : Locals) (sh : Shared) :
  wcagErrors (executionSummary (finish cfg env c l sh).1)
    = wcagErrors (executionSummary sh)
  /\ totalA11yErrorCount (executionSummary (finish cfg env c l sh).1)
    = totalA11yErrorCount (executionSummary sh).
Proof.
  unfold finish. cbn [executionSummary set_browsers].
  destruct (push_group _ _ _) as [G|]; [|now split].
  destruct (render_throws env exec_template _);
    destruct (isFlaky (test c) (result c));
    destruct (status (result c)); now split.
Qed.

Lemma finish_browsers (c : Ctx) (l : Locals) (sh : Shared) :
  browserSummaries (finish cfg env c l sh).1
  = update_browser (browserName c)
      (fun bSummary => count_status (status (result c)) (count_total bSummary))
      (browserSummaries sh).
Proof.
  unfold finish. cbn [executionSummary set_browsers].
  destruct (push_group _ _ _) as [G|]; [|reflexivity].
  now destruct (render_throws env exec_template _).
Qed.

Lemma count_a11y (st : Status) (S : TestSummary) :
  wcagErrors (count_status st (count_total S)) = wcagErrors S
  /\ totalA11yErrorCount (count_status st (count_total S))
     = totalA11yErrorCount S.
Proof. now destruct st. Qed.

Lemma a11y_browsers_finish (c : Ctx) (l : Locals) (sh : Shared) :
  a11y_browsers_ok sh -> a11y_browsers_ok (finish cfg env c l sh).1.
Proof.
  unfold a11y_browsers_ok. intros Hs.
  destruct (finish_a11y c l sh) as [_ Ht]. rewrite finish_browsers, Ht.
  rewrite sum_update_same; [exact Hs | reflexivity|].
  intros S. apply count_a11y.
Qed.

(** The global accessibility total is the sum of the browsers' totals, at
    every moment of every run. *)
Lemma a11y_browsers_run (evs : list Event) :
  a11y_browsers_ok (shared (run cfg env evs)).
Proof.
  unfold run. apply (run_from_preserves cfg env a11y_browsers_ok).
  - intros path d sh _ H. exact H.
  - intros path d sh _ H. exact H.
  - intros t r sh H. exact H.
  - apply a11y_browsers_fold_scan.
  - apply a11y_browsers_finish.
  - intros d st icon sh H. exact H.
  - unfold a11y_browsers_ok. cbn. apply sum_over_empty.
Qed.

Lemma rules_ok_fold_scan (b : string) (rd : ReportData) (sh : Shared) :
  (forall e, In e (folded_errors rd) -> Js.inherited (id e) = false) ->
  rules_ok sh -> rules_ok (fold_scan b rd sh).
Proof.
  intros Hord (Hg & Hb). unfold rules_ok, fold_scan.
  cbn [executionSummary browserSummaries set_summary set_browsers].
  split; [now apply rules_add_up_fold_into|].
  intros b' bS' Hl. apply update_browser_Some in Hl.
  destruct Hl as [(-> & -> & _)|[_ Hl]]; [|now apply Hb with b'].
  apply rules_add_up_fold_into; [exact Hord|].
  destruct (browserSummaries sh !! b) as [bS|] eqn:Eb; cbn [default].
  - now apply Hb with b.
  - apply rules_add_up_empty.
Qed.

Lemma rules_ok_finish (c : Ctx) (l : Locals) (sh : Shared) :
  rules_ok sh -> rules_ok (finish cfg env c l sh).1.
Proof.
  intros (Hg & Hb). unfold rules_ok.
  destruct (finish_a11y c l sh) as [Hw Ht]. rewrite finish_browsers.
  unfold rules_add_up in *. rewrite Hw, Ht. split; [exact Hg|].
  intros b' bS' Hl. apply update_browser_Some in Hl.
  destruct Hl as [(-> & -> & _)|[_ Hl]]; [|now apply Hb with b'].
  destruct (count_a11y (status (result c))
              (default empty_browser_summary
                 (browserSummaries sh !! browserName c))) as [-> ->].
  destruct (browserSummaries sh !! browserName c) as [bS|] eqn:Eb;
    cbn [default].
  - now apply Hb with (browserName c).
  - apply rules_add_up_empty.
Qed.

End Totals.

Section RulesOfRuns.

Variable cfg : Reporter.Config.
Variable env : Reporter.Env.

Import Reporter Runs.

Lemma rules_task_start (t : TestCase) (r : TestResult) (sh : Shared) :
  ordinary_rules env (t, r) -> rules_task env (start cfg env t r sh).2.
Proof. intros Hord. split; [apply task_errors_ok_start | exact Hord]. Qed.

Lemma rules_task_resume (t : Task) (sh : Shared) :
  rules_task env t -> rules_task env (resume cfg env t sh).2.
Proof.
  intros [Hok Hord]. split; [now apply task_errors_ok_resume|].
  unfold test_of. now rewrite (ctx_resume cfg env t sh).
Qed.

(** What a task is about to fold is among the records of its test. *)
Lemma rules_task_payload (t : Task) (rd : ReportData)
    (rest : list (nat * Source)) :
  rules_task env t -> pc t = AwaitScanRender rd rest ->
  forall e, In e (folded_errors rd) -> Js.inherited (id e) = false.
Proof.
  intros [Hok Hord] Epc e He. apply Hord. cbn [test_of fst snd].
  unfold task_errors_ok in Hok. rewrite Epc in Hok. rewrite <- Hok.
  apply List.in_app_iff. right. apply List.in_app_iff. now left.
Qed.

(** When no error record of the run's tests bears an inherited rule id,
    the counts of the rules add up to the totals. *)
Lemma rules_ok_run (evs : list Event) :
  List.Forall (ordinary_rules env) (tests_of evs) ->
  rules_ok (shared (run cfg env evs)).
Proof.
  intros Hord.
  apply (guarded_run cfg env (ordinary_rules env) (rules_task env) rules_ok
           (fun _ _ => True)); auto.
  - apply rules_task_start.
  - apply rules_task_resume.
  - intros t rd rest sh Ht Epc _ Hs. apply rules_ok_fold_scan; [|exact Hs].
    now apply rules_task_payload with t rest.
  - intros t l sh _ _ _ _ Hs. now apply rules_ok_finish.
  - split.
    + unfold rules_add_up. cbn. apply sum_over_empty.
    + intros b bS Hl. cbn in Hl. rewrite lookup_empty in Hl. discriminate Hl.
Qed.

(** What the project of a task is, for the records it will make. *)
#[local] Abbreviation project_task t := (ordinary_project (test_of t)).
#[local] Abbreviation ordinary_records sh :=
  (forall r, In r (records (groupedResults (executionSummary sh))) ->
     prototype_named r = false).

Lemma ordinary_records_finish (t : Task) (l : Locals) (sh : Shared) :
  project_task t ->
  ordinary_records sh ->
  ordinary_records (finish cfg env (ctx t) l sh).1.
Proof.
  intros Ht Hs. unfold finish. set (sh1 := set_browsers _ sh).
  cbn [executionSummary set_browsers].
  change (executionSummary sh1) with (executionSummary sh).
  destruct (push_group _ _ _) as [G|] eqn:EG; [|exact Hs].
  destruct (push_group_records _ _ _ _ EG) as [Hin _].
  assert (Hfin : forall r, In r (records G) -> prototype_named r = false).
  { intros r Hr. apply Hin in Hr. destruct Hr as [->|Hr]; [exact Ht|].
    now apply Hs. }
  destruct (render_throws env exec_template _);
    destruct (isFlaky (test (ctx t)) (result (ctx t)));
    destruct (status (result (ctx t))); exact Hfin.
Qed.

(** When no test of the run belongs to a project with an inherited name,
    no record bears such a browser. *)
Lemma ordinary_records_run (evs : list Event) :
  List.Forall ordinary_project (tests_of evs) ->
  ordinary_records (shared (run cfg env evs)).
Proof.
  intros Hord.
  apply (guarded_run cfg env ordinary_project (fun t => project_task t)
           (fun sh => ordinary_records sh) (fun _ _ => True)); auto.
  - intros t sh Ht. unfold test_of. now rewrite (ctx_resume cfg env t sh).
  - intros t r sh Hs. unfold start.
    cbn [fst executionSummary set_groups groupedResults].
    now rewrite records_init_group.
  - intros t rd rest sh _ _ _ Hs. unfold fold_scan.
    cbn [executionSummary set_summary]. now rewrite fold_into_groups.
  - intros t l sh Ht _ _ _ Hs. now apply ordinary_records_finish.
  - intros r [].
Qed.

End RulesOfRuns.

Section BrowserSums.

Variable cfg : Reporter.Config.
Variable env : Reporter.Env.

Import Reporter Runs.

#[local] Abbreviation every_browser sh :=
  (forall b bS, browserSummaries sh !! b = Some bS -> counters_only bS).

Lemma counters_only_empty : counters_only empty_browser_summary.
Proof. now repeat split. Qed.

Lemma counters_only_update (b : string) (f : TestSummary -> TestSummary)
    (sh : Shared) :
  (forall S, counters_only S -> counters_only (f S)) ->
  every_browser sh ->
  every_browser (set_browsers (update_browser b f (browserSummaries sh)) sh).
Proof.
  intros Hf Hall b' bS' Hl. cbn [browserSummaries set_browsers] in Hl.
  apply update_browser_Some in Hl.
  destruct Hl as [(-> & -> & _)|[_ Hl]]; [|now apply Hall with b'].
  apply Hf.
  destruct (browserSummaries sh !! b) as [bS|] eqn:Eb; cbn [default].
  - now apply Hall with b.
  - apply counters_only_empty.
Qed.

Lemma counters_only_fold_into (errs : list A11yError) (S : TestSummary) :
  counters_only S -> counters_only (fold_into errs S).
Proof. now destruct errs. Qed.

Lemma counters_only_count (st : Status) (S : TestSummary) :
  counters_only S -> counters_only (count_status st (count_total S)).
Proof. now destruct st. Qed.

Lemma browsers_add_up_fold_scan (b : string) (rd : ReportData) (sh : Shared) :
  browsers_add_up sh -> browsers_add_up (fold_scan b rd sh).
Proof.
  intros (H1 & H2 & H3 & H4 & Hown). unfold browsers_add_up, fold_scan.
  cbn [executionSummary browserSummaries set_summary set_browsers].
  rewrite fold_into_groups.
  destruct (same_counters_fold_into (folded_errors rd) (executionSummary sh))
    as (S1 & S2 & S3 & S4).
  rewrite S1, S2, S3, S4.
  rewrite !sum_update_same;
    try reflexivity;
    try (intros S; destruct (same_counters_fold_into (folded_errors rd) S)
           as (F1 & F2 & F3 & F4); congruence).
  repeat split; try assumption.
  now apply own_browsers_update.
Qed.

Lemma browsers_add_up_finish (c : Ctx) (l : Locals) (sh : Shared) :
  has_group (fileGroup cfg env c) (groupedResults (executionSummary sh)) = true ->
  browsers_add_up sh -> browsers_add_up (finish cfg env c l sh).1.
Proof.
  intros Hgr (H1 & H2 & H3 & H4 & Hown). unfold finish.
  set (f := fun bSummary => count_status (status (result c))
                              (count_total bSummary)).
  set (sh1 := set_browsers _ sh).
  set (stats := testStats cfg env c l sh1).
  cbn [executionSummary set_browsers].
  pose proof (has_group_push (fileGroup cfg env c) stats _ Hgr) as Hpush.
  change (executionSummary sh1) with (executionSummary sh).
  destruct (push_group _ _ _) as [G|] eqn:EG; [|congruence].
  destruct (push_group_records _ _ _ _ EG) as [_ Hcount].
  set (st := status (result c)) in *.
  assert (Hfin : browsers_add_up
    (set_summary
       (count_total (count_status st
          (if isFlaky (test c) (result c)
           then count_flaky (set_groups G (executionSummary sh))
           else set_groups G (executionSummary sh)))) sh1)).
  { unfold browsers_add_up.
    cbn [executionSummary browserSummaries set_summary].
    assert (HG : groupedResults
              (count_total (count_status st
                 (if isFlaky (test c) (result c)
                  then count_flaky (set_groups G (executionSummary sh))
                  else set_groups G (executionSummary sh)))) = G).
    { destruct (isFlaky (test c) (result c)), st; reflexivity. }
    rewrite HG, !Hcount.
    destruct (bumps_global st (isFlaky (test c) (result c)) G
                (executionSummary sh)) as (B1 & B2 & B3 & B4).
    rewrite B1, B2, B3, B4.
    assert (Hstats : prototype_named stats = Js.inherited (browserName c))
      by reflexivity.
    assert (Hst : forall x, has_status x stats = status_eqb st x)
      by reflexivity.
    rewrite Hstats, !Hst.
    unfold sh1. cbn [browserSummaries set_browsers].
    split; [|split; [|split; [|split]]];
      try (now apply (own_browsers_update (browserName c) f sh
                        (executionSummary sh)));
      rewrite sum_update_browser by reflexivity;
      (destruct (browserSummaries sh !! browserName c) as [bS|] eqn:Eb;
       [ assert (Hord : Js.inherited (browserName c) = false)
           by (destruct (Js.inherited (browserName c)) eqn:E; [|reflexivity];
               rewrite (Hown _ E) in Eb; discriminate Eb);
         rewrite Hord;
         destruct (bumps_browser st bS) as (F1 & F2 & F3 & F4);
         fold (f bS) in F1, F2, F3, F4; rewrite ?F1, ?F2, ?F3, ?F4;
         cbn [andb]; destruct st; cbn [status_eqb]; lia
       | destruct (Js.inherited (browserName c));
         [ cbn [andb]; destruct st; cbn [status_eqb]; lia
         | destruct (bumps_browser st empty_browser_summary)
             as (F1 & F2 & F3 & F4);
           fold (f empty_browser_summary) in F1, F2, F3, F4;
           rewrite ?F1, ?F2, ?F3, ?F4;
           cbn [andb total totalPassed totalFailed totalSkipped
                empty_browser_summary];
           destruct st; cbn [status_eqb]; lia ] ]). }
  destruct (render_throws env exec_template _); exact Hfin.
Qed.

Lemma browsers_add_up_start (t : TestCase) (r : TestResult) (sh : Shared) :
  browsers_add_up sh -> browsers_add_up (start cfg env t r sh).1.
Proof.
  unfold browsers_add_up, start, countP.
  cbn [fst executionSummary browserSummaries set_groups groupedResults total
       totalPassed totalFailed totalSkipped].
  now rewrite records_init_group.
Qed.

(** When no test of the run lies in a file whose relative path is an
    inherited name, the counters of the browser summaries add up. *)
Lemma browsers_add_up_run (evs : list Event) :
  List.Forall (ordinary_file cfg env) (tests_of evs) ->
  browsers_add_up (shared (run cfg env evs)).
Proof.
  intros Hord.
  apply (guarded_run cfg env (ordinary_file cfg env)
           (fun t => ordinary_file cfg env (test_of t))
           browsers_add_up (fun _ _ => True)); auto.
  - intros t sh. unfold test_of. now rewrite (ctx_resume cfg env t sh).
  - intros t r sh. apply browsers_add_up_start.
  - intros t rd rest sh _ _ _. apply browsers_add_up_fold_scan.
  - intros t l sh Hfile Hg _ _. apply browsers_add_up_finish. now apply Hg.
  - unfold browsers_add_up. cbn. rewrite !sum_over_empty.
    repeat split; reflexivity.
Qed.

Lemma counters_only_run (evs : list Event) :
  every_browser (shared (run cfg env evs)).
Proof.
  unfold run.
  apply (run_from_preserves cfg env (fun sh => every_browser sh)).
  - intros path d sh _ H. exact H.
  - intros path d sh _ H. exact H.
  - intros t r sh H. exact H.
  - intros b rd sh _ H. unfold fold_scan. cbn [browserSummaries set_summary].
    apply counters_only_update; [|exact H].
    intros S. apply counters_only_fold_into.
  - intros c l sh H b bS. rewrite finish_browsers.
    apply (counters_only_update (browserName c) _ sh); [|exact H].
    intros S. apply counters_only_count.
  - intros d st icon sh H. exact H.
  - intros b bS H. cbn in H. rewrite lookup_empty in H. discriminate H.
Qed.

End BrowserSums.

(** X4. At every moment of every run the global [totalA11yErrorCount] is
    the sum of those of the browser summaries.  When no error record of a
    payload of the run's tests bears a rule id that objects inherit from
    [Object.prototype], the accessibility totals also add up per rule: in
    the global summary and in every browser summary, the sum of the counts
    of all rules is [totalA11yErrorCount]. *)
Theorem X4_a11y_totals_add_up (cfg : Reporter.Config) (env : Reporter.Env)
    (evs : list Reporter.Event) :
  let sh := Reporter.shared (Reporter.run cfg env evs) in
  let S := Reporter.executionSummary sh in
  Runs.sum_over Reporter.totalA11yErrorCount (Reporter.browserSummaries sh)
  = Reporter.totalA11yErrorCount S
  /\ ((forall t r e,
         In (t, r) (Reporter.tests_of evs) ->
         In e (Reporter.test_errors env t r) ->
         Js.inherited (id e) = false) ->
      Runs.sum_over Reporter.count (Reporter.wcagErrors S)
      = Reporter.totalA11yErrorCount S
      /\ (forall b bS, Reporter.browserSummaries sh !! b = Some bS ->
            Runs.sum_over Reporter.count (Reporter.wcagErrors bS)
            = Reporter.totalA11yErrorCount bS)).
Proof.
  cbn zeta. split; [exact (a11y_browsers_run cfg env evs)|].
  intros Hord. apply (rules_ok_run cfg env evs).
  apply List.Forall_forall. intros [t r] Hin e He. now apply (Hord t r e).
Qed.

Lemma X4_a11y_totals_add_up_witness :
  let sh := Reporter.shared
              (Reporter.run Examples.default_config Examples.quiet_env
                 Examples.two_scans) in
  Runs.sum_over Reporter.count
    (Reporter.wcagErrors (Reporter.executionSummary sh))
  = Reporter.totalA11yErrorCount (Reporter.executionSummary sh).
Proof.
  cbn zeta.
  apply (proj2 (X4_a11y_totals_add_up Examples.default_config
                  Examples.quiet_env Examples.two_scans)).
  intros t r e Hin He. vm_compute in Hin.
  destruct Hin as [Hin|[Hin|[]]]; injection Hin as <- <-;
    vm_compute in He; destruct He as [<-|[]]; reflexivity.
Defined.

(** X5. At every moment of every run in which no test lies in a file whose
    relative path, the key of its group, is a name that objects inherit
    from [Object.prototype], each global test counter ([total],
    [totalPassed], [totalFailed], [totalSkipped]) is the sum of the
    per-browser counters plus the number of records (of that status) whose
    browser bears such an inherited name: such a test is counted in no
    browser summary.  So when moreover no test of the run belongs to a
    project of such a name, the global counters are the sums of the
    per-browser counters.  [totalFlaky] is the exception, in every run: the
    reporter counts flaky tests in the global summary only, so it is 0 in
    every browser summary; nor does a browser summary ever hold grouped
    results, a status or a duration other than the initial ["0s"]. *)
Theorem X5_browsers_add_up (cfg : Reporter.Config) (env : Reporter.Env)
    (evs : list Reporter.Event) :
  let sh := Reporter.shared (Reporter.run cfg env evs) in
  let S := Reporter.executionSummary sh in
  let B := Reporter.browserSummaries sh in
  let R := Reporter.records (Reporter.groupedResults S) in
  let lost (sel : Reporter.TestResults -> bool) :=
    Z.of_nat (length (List.filter
                        (fun r => Js.inherited (Reporter.browser r) && sel r)
                        R)) in
  let by_status (st : Status) (r : Reporter.TestResults) :=
    status_eqb (Reporter.tr_status r) st in
  ((forall t r,
      In (t, r) (Reporter.tests_of evs) ->
      Js.inherited
        (Reporter.path_relative env (Reporter.projectRoot cfg)
           (Reporter.location_file t)) = false) ->
   ((Runs.sum_over (fun bS => Z.of_nat (Reporter.total bS)) B
     + lost (fun _ => true) = Z.of_nat (Reporter.total S))%Z
    /\ (Runs.sum_over (fun bS => Z.of_nat (Reporter.totalPassed bS)) B
        + lost (by_status passed) = Z.of_nat (Reporter.totalPassed S))%Z
    /\ (Runs.sum_over (fun bS => Z.of_nat (Reporter.totalFailed bS)) B
        + lost (by_status failed) = Z.of_nat (Reporter.totalFailed S))%Z
    /\ (Runs.sum_over (fun bS => Z.of_nat (Reporter.totalSkipped bS)) B
        + lost (by_status skipped) = Z.of_nat (Reporter.totalSkipped S))%Z)
   /\ ((forall t r,
          In (t, r) (Reporter.tests_of evs) ->
          Js.inherited (Js.or_default (Reporter.project_name t) "unknown")
          = false) ->
       Runs.sum_over (fun bS => Z.of_nat (Reporter.total bS)) B
       = Z.of_nat (Reporter.total S)
       /\ Runs.sum_over (fun bS => Z.of_nat (Reporter.totalPassed bS)) B
          = Z.of_nat (Reporter.totalPassed S)
       /\ Runs.sum_over (fun bS => Z.of_nat (Reporter.totalFailed bS)) B
          = Z.of_nat (Reporter.totalFailed S)
       /\ Runs.sum_over (fun bS => Z.of_nat (Reporter.totalSkipped bS)) B
          = Z.of_nat (Reporter.totalSkipped S)))
  /\ (forall b bS, B !! b = Some bS ->
        Reporter.totalFlaky bS = 0%nat
        /\ Reporter.groupedResults bS = []
        /\ Reporter.s_duration bS = "0s"
        /\ Reporter.s_status bS = ""
        /\ Reporter.s_statusIcon bS = "").
Proof.
  cbn zeta. split.
  - intros Hfiles.
    destruct (browsers_add_up_run cfg env evs) as (H1 & H2 & H3 & H4 & _).
    { apply List.Forall_forall. intros [t r] Hin. now apply Hfiles with r. }
    split; [now repeat split|].
    intros Hord.
    assert (Hrec : forall sel,
      Reporter.countP (fun r => Runs.prototype_named r && sel r)
        (Reporter.groupedResults
           (Reporter.executionSummary
              (Reporter.shared (Reporter.run cfg env evs)))) = 0%nat).
    { intros sel. apply countP_none. intros r Hr.
      rewrite (ordinary_records_run cfg env evs); [reflexivity| |exact Hr].
      apply List.Forall_forall. intros [t r0] Hin. now apply (Hord t r0). }
    cbn zeta in H1, H2, H3, H4. rewrite !Hrec in H1, H2, H3, H4.
    repeat split; lia.
  - intros b bS Hl.
    destruct (counters_only_run cfg env evs b bS Hl) as (F1 & F2 & F3 & F4 & F5).
    now repeat split.
Qed.

Lemma X5_browsers_add_up_witness :
  let sh := Reporter.shared
              (Reporter.run Examples.default_config Examples.quiet_env
                 Examples.timeout_and_retry) in
  Runs.sum_over (fun bS => Z.of_nat (Reporter.total bS))
    (Reporter.browserSummaries sh)
  = Z.of_nat (Reporter.total (Reporter.executionSummary sh)).
Proof.
  cbn zeta.
  refine (proj1 (proj2 (proj1 (X5_browsers_add_up Examples.default_config
                                 Examples.quiet_env Examples.timeout_and_retry)
                          _) _)).
  - intros t r Hin. vm_compute in Hin.
    destruct Hin as [Hin|[Hin|[]]]; injection Hin as <- <-; reflexivity.
  - intros t r Hin. vm_compute in Hin.
    destruct Hin as [Hin|[Hin|[]]]; injection Hin as <- <-; reflexivity.
Defined.

(** ** The reporter: accessibility counts of records *)

Section RecordCounts.

Variable cfg : Reporter.Config.
Variable env : Reporter.Env.

Import Reporter Runs.

Lemma scanErrorCount_sumZ (errs : list A11yError) :
  scanErrorCount errs = sumZ total_or_0 errs.
Proof.
  induction errs as [|e errs IH]; [reflexivity|].
  change (e :: errs) with ([e] ++ errs)%list.
  rewrite scanErrorCount_app, IH. unfold scanErrorCount. cbn. lia.
Qed.

Lemma count_matches_after_scan (c : Ctx) (rd : ReportData) (l : Locals) :
  count_matches_errors c l -> count_matches_errors c (after_scan rd l).
Proof.
  unfold count_matches_errors, after_scan. intros H.
  destruct (folded_errors rd) as [|e errs]; [exact H|].
  cbn [l_a11yErrorCount l_aggregatedA11yErrors add_errors].
  rewrite scanErrorCount_app. lia.
Qed.

Lemma records_consistent_finish (c : Ctx) (l : Locals) (sh : Shared) :
  count_matches_errors c l ->
  records_consistent sh -> records_consistent (finish cfg env c l sh).1.
Proof.
  intros Hl H. unfold finish. set (sh1 := set_browsers _ sh).
  cbn [executionSummary set_browsers].
  change (executionSummary sh1) with (executionSummary sh).
  destruct (push_group _ _ _) as [G|] eqn:EG; [|exact H].
  destruct (push_group_records _ _ _ _ EG) as [Hin _].
  assert (Hfin : records_consistent
    (set_summary
       (count_total (count_status (status (result c))
          (if isFlaky (test c) (result c)
           then count_flaky (set_groups G (executionSummary sh))
           else set_groups G (executionSummary sh)))) sh1)).
  { unfold records_consistent. cbn [executionSummary set_summary].
    assert (HG : groupedResults
              (count_total (count_status (status (result c))
                 (if isFlaky (test c) (result c)
                  then count_flaky (set_groups G (executionSummary sh))
                  else set_groups G (executionSummary sh)))) = G).
    { destruct (isFlaky (test c) (result c)), (status (result c)); reflexivity. }
    rewrite HG. intros r Hr. apply Hin in Hr. destruct Hr as [->|Hr].
    - exact Hl.
    - now apply H. }
  destruct (render_throws env exec_template _); exact Hfin.
Qed.

Lemma records_consistent_run (evs : list Event) :
  records_consistent (shared (run cfg env evs)).
Proof.
  apply (invariant_run cfg env records_consistent count_matches_errors); auto.
  - intros t r sh H. unfold records_consistent, start.
    cbn [fst executionSummary set_groups groupedResults].
    now rewrite records_init_group.
  - intros b rd sh _ H. unfold records_consistent, fold_scan.
    cbn [executionSummary set_summary]. now rewrite fold_into_groups.
  - intros c l sh _ _. apply records_consistent_finish.
  - intros c video shots atts logs. reflexivity.
  - intros c rd l. apply count_matches_after_scan.
  - intros r [].
Qed.

(** *** The total against what the tasks have folded *)

#[local] Abbreviation a11y_q sh := (totalA11yErrorCount (executionSummary sh)).

Lemma a11y_q_scan_loop (c : Ctx) (srcs : list (nat * Source)) (l : Locals)
    (sh : Shared) :
  a11y_q (scan_loop cfg env c srcs l sh).1.1 = a11y_q sh.
Proof.
  apply (scan_loop_preserves cfg env (fun sh' => a11y_q sh' = a11y_q sh)).
  - intros path d sh' _ H. exact H.
  - intros c' l' sh' H. rewrite <- H. apply finish_a11y.
  - reflexivity.
Qed.

Lemma scan_loop_count (c : Ctx) (srcs : list (nat * Source)) (l : Locals)
    (sh : Shared) :
  l_a11yErrorCount (scan_loop cfg env c srcs l sh).1.2 = l_a11yErrorCount l.
Proof.
  revert l. induction srcs as [|[i src] rest IH]; intros l; cbn [scan_loop].
  - now destruct (finish cfg env c l sh).
  - destruct (read_source env src) as [|e|rd|];
      [apply IH | now rewrite IH | | reflexivity].
    now destruct (render_throws env scan_template _).
Qed.

Lemma scan_loop_pc (c : Ctx) (srcs : list (nat * Source)) (l : Locals)
    (sh : Shared) :
  (scan_loop cfg env c srcs l sh).2 <> AwaitVideo.
Proof.
  revert l. induction srcs as [|[i src] rest IH]; intros l; cbn [scan_loop].
  - unfold finish. destruct (push_group _ _ _); [|discriminate].
    destruct (render_throws env exec_template _); discriminate.
  - destruct (read_source env src) as [|e|rd|];
      [apply IH | apply IH | | discriminate].
    destruct (render_throws env scan_template _); discriminate.
Qed.

Lemma fresh_count_resume (task : Task) (sh : Shared) :
  fresh_count task -> fresh_count (resume cfg env task sh).2.
Proof.
  unfold fresh_count, resume.
  destruct (pc task) as [|rd rest| | |fl] eqn:Epc; intros H.
  - destruct (copyScreenshots env _ _); [|exact I].
    destruct (copyPngAttachments env _ _); [|exact I].
    destruct (copyAllOtherAttachments env _ _); [|exact I].
    match goal with |- context [scan_loop cfg env ?c ?s ?l0 ?h] =>
      pose proof (scan_loop_count c s l0 h) as Hc;
      destruct (scan_loop cfg env c s l0 h) as [[sh' l'] p] end.
    cbn [fst snd pc locals] in *. now destruct p.
  - on_throw (exact I).
    match goal with |- context [scan_loop cfg env ?c ?s ?l0 ?h] =>
      pose proof (scan_loop_pc c s l0 h) as Hp;
      destruct (scan_loop cfg env c s l0 h) as [[sh' l'] p] end.
    cbn [snd pc] in *. now destruct p.
  - exact I.
  - cbn [snd]. now rewrite Epc.
  - cbn [snd]. now rewrite Epc.
Qed.

Lemma folded_count_resume (task : Task) (sh : Shared) :
  fresh_count task ->
  (a11y_q (resume cfg env task sh).1 + folded_count task
   = a11y_q sh + folded_count (resume cfg env task sh).2)%Z.
Proof.
  unfold fresh_count, folded_count, resume.
  destruct (pc task) as [|rd rest| | |fl] eqn:Epc; intros H.
  - destruct (copyScreenshots env _ _); [|cbn; lia].
    destruct (copyPngAttachments env _ _); [|cbn; lia].
    destruct (copyAllOtherAttachments env _ _); [|cbn; lia].
    match goal with |- context [scan_loop cfg env ?c ?s ?l0 ?h] =>
      pose proof (scan_loop_count c s l0 h) as Hc;
      pose proof (a11y_q_scan_loop c s l0 h) as Hq;
      destruct (scan_loop cfg env c s l0 h) as [[sh' l'] p] end.
    cbn [fst snd locals l_a11yErrorCount] in *. lia.
  - on_throw (cbn; lia).
    match goal with |- context [scan_loop cfg env ?c ?s ?l0 ?h] =>
      pose proof (scan_loop_count c s l0 h) as Hc;
      pose proof (a11y_q_scan_loop c s l0 h) as Hq;
      destruct (scan_loop cfg env c s l0 h) as [[sh' l'] p] end.
    cbn [fst snd locals] in *. rewrite Hc, Hq. unfold fold_scan.
    cbn [executionSummary set_summary]. rewrite fold_into_total.
    unfold after_scan. destruct (folded_errors rd) as [|e errs].
    + unfold scanErrorCount. cbn. lia.
    + cbn [l_a11yErrorCount add_errors]. lia.
  - cbn. lia.
  - cbn. lia.
  - cbn. lia.
Qed.

Lemma folded_count_run (evs : list Event) :
  a11y_q (shared (run cfg env evs)) = sumZ folded_count (tasks (run cfg env evs)).
Proof.
  unfold run.
  apply additive_run_from
    with (wf := fresh_count)
         (q := fun sh => a11y_q sh)
         (f := folded_count).
  - intros t r sh. reflexivity.
  - apply fresh_count_resume.
  - intros t r sh. cbn. lia.
  - apply folded_count_resume.
  - reflexivity.
  - reflexivity.
  - constructor.
  - reflexivity.
Qed.

(** *** The records against what the tasks have recorded *)

#[local] Abbreviation recorded_q sh :=
  (sumZ a11yErrorCount (records (groupedResults (executionSummary sh)))).

Lemma sumZ_append {X : Type} (h : X -> Z) (a b : list X) :
  sumZ h (a ++ b) = (sumZ h a + sumZ h b)%Z.
Proof. induction a as [|x a IH]; simpl; [reflexivity | rewrite IH; lia]. Qed.

Lemma push_group_sum (h : TestResults -> Z) (g : string) (r : TestResults)
    (G G' : Groups) :
  push_group g r G = Some G' ->
  sumZ h (records G') = (sumZ h (records G) + h r)%Z.
Proof.
  revert G'. induction G as [|[k l] G IH]; intros G' H; [discriminate|].
  cbn [push_group] in H. unfold records in *. cbn [List.map snd List.concat].
  destruct (String.eqb k g).
  - injection H as <-. cbn [List.map snd List.concat].
    rewrite !sumZ_append. cbn. lia.
  - destruct (push_group g r G) as [G1|]; [|discriminate].
    injection H as <-. cbn [List.map snd List.concat].
    rewrite !sumZ_append, (IH G1 eq_refl). lia.
Qed.

Lemma finish_recorded (c : Ctx) (l : Locals) (sh : Shared) :
  recorded_q (finish cfg env c l sh).1
  = (recorded_q sh
     + if aggregated_pc (finish cfg env c l sh).2
       then l_a11yErrorCount l else 0)%Z.
Proof.
  unfold finish. set (sh1 := set_browsers _ sh).
  cbn [executionSummary set_browsers].
  change (executionSummary sh1) with (executionSummary sh).
  destruct (push_group _ _ _) as [G|] eqn:EG; [|cbn; lia].
  pose proof (push_group_sum a11yErrorCount _ _ _ _ EG) as Hsum.
  cbn [a11yErrorCount testStats] in Hsum.
  destruct (render_throws env exec_template _);
    destruct (isFlaky (test c) (result c));
    destruct (status (result c)); cbn; exact Hsum.
Qed.

Lemma scan_loop_recorded (c : Ctx) (srcs : list (nat * Source)) (l : Locals)
    (sh : Shared) :
  recorded_q (scan_loop cfg env c srcs l sh).1.1
  = (recorded_q sh
     + if aggregated_pc (scan_loop cfg env c srcs l sh).2
       then l_a11yErrorCount (scan_loop cfg env c srcs l sh).1.2 else 0)%Z.
Proof.
  revert l. induction srcs as [|[i src] rest IH]; intros l; cbn [scan_loop].
  - pose proof (finish_recorded c l sh) as H.
    destruct (finish cfg env c l sh) as [sh' p]. exact H.
  - destruct (read_source env src) as [|e|rd|];
      [apply IH | apply IH | | cbn; lia].
    destruct (render_throws env scan_template _); cbn; lia.
Qed.

Lemma recorded_count_resume (task : Task) (sh : Shared) :
  (recorded_q (resume cfg env task sh).1 + recorded_count task
   = recorded_q sh + recorded_count (resume cfg env task sh).2)%Z.
Proof.
  unfold recorded_count, resume.
  destruct (pc task) as [|rd rest| | |fl] eqn:Epc; cbn [aggregated_pc].
  - destruct (copyScreenshots env _ _); [|cbn; lia].
    destruct (copyPngAttachments env _ _); [|cbn; lia].
    destruct (copyAllOtherAttachments env _ _); [|cbn; lia].
    match goal with |- context [scan_loop cfg env ?c ?s ?l0 ?h] =>
      pose proof (scan_loop_recorded c s l0 h) as H;
      destruct (scan_loop cfg env c s l0 h) as [[sh' l'] p] end.
    cbn [fst snd pc locals] in *. lia.
  - on_throw (cbn; lia).
    match goal with |- context [scan_loop cfg env ?c ?s ?l0 ?h] =>
      pose proof (scan_loop_recorded c s l0 h) as H;
      destruct (scan_loop cfg env c s l0 h) as [[sh' l'] p] end.
    cbn [fst snd pc locals] in *.
    assert (Hf : recorded_q (fold_scan (browserName (ctx task)) rd sh)
                 = recorded_q sh).
    { unfold fold_scan. cbn [executionSummary set_summary].
      now rewrite fold_into_groups. }
    lia.
  - cbn [fst snd pc locals aggregated_pc]. lia.
  - cbn [fst snd]. rewrite Epc. reflexivity.
  - cbn [fst snd]. rewrite Epc. reflexivity.
Qed.

Lemma recorded_count_run (evs : list Event) :
  recorded_q (shared (run cfg env evs))
  = sumZ recorded_count (tasks (run cfg env evs)).
Proof.
  unfold run.
  apply additive_run_from
    with (wf := fun _ => True)
         (q := fun sh => recorded_q sh)
         (f := recorded_count).
  - intros. exact I.
  - intros. exact I.
  - intros t r sh. unfold start.
    cbn [fst snd executionSummary set_groups groupedResults].
    rewrite records_init_group. cbn. lia.
  - intros task sh _. apply recorded_count_resume.
  - reflexivity.
  - reflexivity.
  - constructor.
  - reflexivity.
Qed.

Lemma sumZ_split (l : list Task) :
  sumZ folded_count l = (sumZ recorded_count l + sumZ pending_count l)%Z.
Proof.
  induction l as [|t l IH]; [reflexivity|]. cbn [sumZ]. rewrite IH.
  unfold folded_count, recorded_count, pending_count.
  destruct (aggregated_pc (pc t)); lia.
Qed.

Lemma pending_fulfilled (l : list Task) :
  List.Forall (fun t => is_fulfilled t = true) l -> sumZ pending_count l = 0%Z.
Proof.
  induction 1 as [|t l Ht _ IH]; [reflexivity|]. cbn [sumZ]. rewrite IH.
  unfold pending_count, is_fulfilled in *. destruct (pc t); try discriminate.
  reflexivity.
Qed.

End RecordCounts.

(** X6. In every run, the accessibility count of each test record is the
    sum of [total || 0] over the error records it holds; at every moment
    the global [totalA11yErrorCount] is the sum of the counts of the records
    plus what the tests still in progress have folded so far; and in the
    summary that is rendered at the end of a run that follows the driver's
    protocol, it is exactly the sum of the counts of the records. *)
Theorem X6_a11y_counts_of_records (cfg : Reporter.Config) (env : Reporter.Env)
    (evs : list Reporter.Event) :
  let w := Reporter.run cfg env evs in
  let S := Reporter.executionSummary (Reporter.shared w) in
  (forall r, In r (Reporter.records (Reporter.groupedResults S)) ->
     Reporter.a11yErrorCount r
     = Reporter.sumZ total_or_0 (Reporter.a11yErrors r))
  /\ Reporter.totalA11yErrorCount S
     = (Reporter.sumZ Reporter.a11yErrorCount
          (Reporter.records (Reporter.groupedResults S))
        + Reporter.sumZ Runs.pending_count (Reporter.tasks w))%Z
  /\ (Reporter.driver_protocol evs = true ->
      forall path S' B colors,
        In (path, Reporter.ExecutionSummary S' B colors)
           (Reporter.written (Reporter.shared w)) ->
        Reporter.totalA11yErrorCount S'
        = Reporter.sumZ Reporter.a11yErrorCount
            (Reporter.records (Reporter.groupedResults S'))).
Proof.
  cbn zeta.
  assert (Htotal :
    Reporter.totalA11yErrorCount
      (Reporter.executionSummary (Reporter.shared (Reporter.run cfg env evs)))
    = (Reporter.sumZ Reporter.a11yErrorCount
         (Reporter.records (Reporter.groupedResults
            (Reporter.executionSummary
               (Reporter.shared (Reporter.run cfg env evs)))))
       + Reporter.sumZ Runs.pending_count
           (Reporter.tasks (Reporter.run cfg env evs)))%Z).
  { rewrite folded_count_run, sumZ_split, <- recorded_count_run. reflexivity. }
  split; [|split].
  - intros r Hr. rewrite <- scanErrorCount_sumZ.
    now apply (records_consistent_run cfg env evs).
  - exact Htotal.
  - intros Hp path S' B colors Hin.
    destruct (summary_written cfg env evs path _ Hp Hin eq_refl)
      as (Hall & pre & colors' & _ & _ & Heq).
    injection Heq as _ -> _ _. rewrite Htotal.
    rewrite (pending_fulfilled _ Hall). lia.
Qed.

(** ** The reporter: tests, folders and records *)

Section Digits.

Import Shape.

Lemma pretty_N_char_digit (x : N) : Js.is_digit (pretty_N_char x) = true.
Proof. unfold pretty_N_char. repeat case_match; reflexivity. Qed.

Lemma pretty_N_go_digits (x : N) (s : string) :
  all_chars Js.is_digit s = true ->
  all_chars Js.is_digit (pretty_N_go x s) = true.
Proof.
  revert s. induction (N.lt_wf_0 x) as [x _ IH]; intros s Hs.
  destruct (decide (x = 0)%N) as [->|Hx]; [exact Hs|].
  rewrite pretty_N_go_step by lia. apply IH.
  - apply N.div_lt; lia.
  - cbn [all_chars]. now rewrite pretty_N_char_digit, Hs.
Qed.

Lemma pretty_nat_digits (n : nat) : all_chars Js.is_digit (pretty n) = true.
Proof.
  unfold pretty, pretty_nat, pretty, pretty_N.
  case_decide; [reflexivity|]. now apply pretty_N_go_digits.
Qed.

(** A number followed by a hyphen is read back without ambiguity. *)
Lemma digits_hyphen_inj (a b x y : string) :
  all_chars Js.is_digit a = true -> all_chars Js.is_digit b = true ->
  a +:+ "-" +:+ x = b +:+ "-" +:+ y -> a = b /\ x = y.
Proof.
  revert b. induction a as [|c a IH]; intros b Ha Hb H.
  - destruct b as [|d b].
    + injection H as H. now split.
    + change (String d b +:+ "-" +:+ y) with (String d (b +:+ "-" +:+ y)) in H.
      injection H as <- _. discriminate Hb.
  - change (String c a +:+ "-" +:+ x) with (String c (a +:+ "-" +:+ x)) in H.
    cbn [all_chars] in Ha. apply andb_true_iff in Ha. destruct Ha as [Hc Ha].
    destruct b as [|d b].
    + injection H as -> _. discriminate Hc.
    + change (String d b +:+ "-" +:+ y) with (String d (b +:+ "-" +:+ y)) in H.
      injection H as <- H.
      cbn [all_chars] in Hb. apply andb_true_iff in Hb. destruct Hb as [_ Hb].
      destruct (IH b Ha Hb H) as [-> ->]. now split.
Qed.

End Digits.

Section Folders.

Variable cfg : Reporter.Config.
Variable env : Reporter.Env.

Import Reporter Runs.

Lemma testFolderName_index (c c' : Ctx) :
  testFolderName c = testFolderName c' -> index0 c = index0 c'.
Proof.
  unfold testFolderName. intros H.
  apply digits_hyphen_inj in H; try apply pretty_nat_digits.
  destruct H as [H _]. now apply pretty_nat_inj in H.
Qed.

Lemma folders_distinct (w : World) (i j : nat) (ti tj : Task) :
  indexes_ok w -> tasks w !! i = Some ti -> tasks w !! j = Some tj ->
  testFolderName (ctx ti) = testFolderName (ctx tj) -> i = j.
Proof.
  intros [_ Hx] Hi Hj H. apply testFolderName_index in H.
  rewrite (Hx i ti Hi), (Hx j tj Hj) in H. lia.
Qed.

#[local] Abbreviation folder_q f sh :=
  (Z.of_nat (countP (in_folder f) (groupedResults (executionSummary sh)))).

Lemma finish_folder (f : string) (c : Ctx) (l : Locals) (sh : Shared) :
  folder_q f (finish cfg env c l sh).1
  = (folder_q f sh
     + if aggregated_pc (finish cfg env c l sh).2
          && String.eqb (testFolderName c) f then 1 else 0)%Z.
Proof.
  unfold finish. set (sh1 := set_browsers _ sh).
  cbn [executionSummary set_browsers].
  change (executionSummary sh1) with (executionSummary sh).
  destruct (push_group _ _ _) as [G|] eqn:EG; [|cbn; lia].
  destruct (push_group_records _ _ _ _ EG) as [_ Hc].
  specialize (Hc (in_folder f)).
  change (in_folder f (testStats cfg env c l sh1))
    with (String.eqb (testFolderName c) f) in Hc.
  assert (HG : groupedResults
            (count_total (count_status (status (result c))
               (if isFlaky (test c) (result c)
                then count_flaky (set_groups G (executionSummary sh))
                else set_groups G (executionSummary sh)))) = G).
  { destruct (isFlaky (test c) (result c)), (status (result c)); reflexivity. }
  destruct (render_throws env exec_template _);
    cbn [fst snd executionSummary set_summary write_file aggregated_pc];
    rewrite HG, Hc; cbn [andb];
    destruct (String.eqb (testFolderName c) f); cbn; lia.
Qed.

Lemma scan_loop_folder (f : string) (c : Ctx) (srcs : list (nat * Source))
    (l : Locals) (sh : Shared) :
  folder_q f (scan_loop cfg env c srcs l sh).1.1
  = (folder_q f sh
     + if aggregated_pc (scan_loop cfg env c srcs l sh).2
          && String.eqb (testFolderName c) f then 1 else 0)%Z.
Proof.
  revert l. induction srcs as [|[i src] rest IH]; intros l; cbn [scan_loop].
  - pose proof (finish_folder f c l sh) as H.
    destruct (finish cfg env c l sh) as [sh' p]. exact H.
  - destruct (read_source env src) as [|e|rd|];
      [apply IH | apply IH | | cbn; lia].
    destruct (render_throws env scan_template _); cbn; lia.
Qed.

Lemma recorded_weight_resume (f : string) (task : Task) (sh : Shared) :
  (folder_q f (resume cfg env task sh).1 + recorded_weight f task
   = folder_q f sh + recorded_weight f (resume cfg env task sh).2)%Z.
Proof.
  unfold recorded_weight, recorded_in, resume.
  destruct (pc task) as [|rd rest| | |fl] eqn:Epc; cbn [aggregated_pc andb].
  - destruct (copyScreenshots env _ _); [|cbn; lia].
    destruct (copyPngAttachments env _ _); [|cbn; lia].
    destruct (copyAllOtherAttachments env _ _); [|cbn; lia].
    match goal with |- context [scan_loop cfg env ?c ?s ?l0 ?h] =>
      pose proof (scan_loop_folder f c s l0 h) as H;
      destruct (scan_loop cfg env c s l0 h) as [[sh' l'] p] end.
    cbn [fst snd pc ctx] in *. lia.
  - on_throw (cbn; lia).
    match goal with |- context [scan_loop cfg env ?c ?s ?l0 ?h] =>
      pose proof (scan_loop_folder f c s l0 h) as H;
      destruct (scan_loop cfg env c s l0 h) as [[sh' l'] p] end.
    cbn [fst snd pc ctx] in *.
    assert (Hf : folder_q f (fold_scan (browserName (ctx task)) rd sh)
                 = folder_q f sh).
    { unfold fold_scan. cbn [executionSummary set_summary].
      now rewrite fold_into_groups. }
    lia.
  - cbn [fst snd pc ctx aggregated_pc andb]. lia.
  - cbn [fst snd]. rewrite Epc. reflexivity.
  - cbn [fst snd]. rewrite Epc. reflexivity.
Qed.

Lemma sumZ_recorded (f : string) (l : list Task) :
  sumZ (recorded_weight f) l = Z.of_nat (length (List.filter (recorded_in f) l)).
Proof.
  induction l as [|x l IH]; [reflexivity|]. cbn [sumZ List.filter].
  rewrite IH. unfold recorded_weight. destruct (recorded_in f x); cbn [length]; lia.
Qed.

(** The records of a folder are as many as the tasks of that folder that
    have reached the final aggregation. *)
Lemma folder_count_run (f : string) (evs : list Event) :
  countP (in_folder f)
    (groupedResults (executionSummary (shared (run cfg env evs))))
  = length (List.filter (recorded_in f) (tasks (run cfg env evs))).
Proof.
  apply Nat2Z.inj. rewrite <- sumZ_recorded. unfold run.
  apply additive_run_from
    with (wf := fun _ => True)
         (q := fun sh => folder_q f sh)
         (f := recorded_weight f).
  - intros. exact I.
  - intros. exact I.
  - intros t r sh. unfold start, countP.
    cbn [fst snd executionSummary set_groups groupedResults].
    rewrite records_init_group. cbn. lia.
  - intros task sh _. apply recorded_weight_resume.
  - reflexivity.
  - reflexivity.
  - constructor.
  - reflexivity.
Qed.

Lemma filter_none {X : Type} (q : X -> bool) (l : list X) :
  (forall y, In y l -> q y = false) -> List.filter q l = [].
Proof.
  induction l as [|a l IH]; intros H; [reflexivity|]. cbn [List.filter].
  rewrite (H a (or_introl eq_refl)). apply IH. intros y Hy. apply H. now right.
Qed.

Lemma filter_unique {X : Type} (q : X -> bool) (l : list X) (i : nat) (x : X) :
  l !! i = Some x ->
  (forall j y, l !! j = Some y -> q y = true -> j = i) ->
  length (List.filter q l) = if q x then 1%nat else 0%nat.
Proof.
  revert i. induction l as [|a l IH]; intros i Hi Hu; [discriminate Hi|].
  destruct i as [|i]; cbn [List.filter].
  - injection Hi as ->.
    assert (Hrest : List.filter q l = []).
    { apply filter_none. intros y Hy.
      destruct (q y) eqn:Eq; [|reflexivity].
      apply list_elem_of_In, list_elem_of_lookup_1 in Hy.
      destruct Hy as [j Hj]. specialize (Hu (S j) y Hj Eq). discriminate Hu. }
    destruct (q x); cbn [length]; now rewrite Hrest.
  - destruct (q a) eqn:Ea.
    + specialize (Hu 0%nat a eq_refl Ea). discriminate Hu.
    + apply (IH i Hi). intros j y Hj Hq.
      specialize (Hu (S j) y Hj Hq). lia.
Qed.

Lemma numbers_ok_finish (c : Ctx) (l : Locals) (sh : Shared) :
  indexed sh c -> numbers_ok sh -> numbers_ok (finish cfg env c l sh).1.
Proof.
  intros [Hlo Hhi] H. unfold finish. set (sh1 := set_browsers _ sh).
  cbn [executionSummary set_browsers].
  change (executionSummary sh1) with (executionSummary sh).
  destruct (push_group _ _ _) as [G|] eqn:EG; [|exact H].
  destruct (push_group_records _ _ _ _ EG) as [Hin _].
  assert (Hfin : numbers_ok
    (set_summary
       (count_total (count_status (status (result c))
          (if isFlaky (test c) (result c)
           then count_flaky (set_groups G (executionSummary sh))
           else set_groups G (executionSummary sh)))) sh1)).
  { unfold numbers_ok. cbn [executionSummary set_summary testIndex].
    assert (HG : groupedResults
              (count_total (count_status (status (result c))
                 (if isFlaky (test c) (result c)
                  then count_flaky (set_groups G (executionSummary sh))
                  else set_groups G (executionSummary sh)))) = G).
    { destruct (isFlaky (test c) (result c)), (status (result c)); reflexivity. }
    rewrite HG. intros r Hr. apply Hin in Hr. destruct Hr as [->|Hr].
    - exists c. cbn [folderName num testStats]. unfold sh1.
      cbn [testIndex set_browsers]. split; [reflexivity|]. split; lia.
    - exact (H r Hr). }
  destruct (render_throws env exec_template _); exact Hfin.
Qed.

Lemma numbers_ok_run (evs : list Event) :
  numbers_ok (shared (run cfg env evs)).
Proof.
  apply (invariant_run cfg env numbers_ok (fun _ _ => True)); auto.
  - intros t r sh H. unfold numbers_ok, start.
    cbn [fst executionSummary set_groups groupedResults testIndex].
    rewrite records_init_group. intros x Hx.
    destruct (H x Hx) as (c & H1 & H2 & H3). exists c.
    split; [exact H1|]. split; lia.
  - intros b rd sh _ H. unfold numbers_ok, fold_scan.
    cbn [executionSummary set_summary testIndex set_browsers].
    now rewrite fold_into_groups.
  - intros c l sh _ Hx _. now apply numbers_ok_finish.
  - intros r [].
Qed.

End Folders.

(** X7. In every run the reporter hands out the indexes 1, 2, ... in the
    order of the test-end calls ([testIndex] is the number of calls so
    far), so no two tests share a folder, whatever their titles; and the
    records are in one-to-one correspondence with the tests that have
    reached the final aggregation: such a test has exactly one record
    naming its folder, any other test has none, and every record names the
    folder of such a test. *)
Theorem X7_one_record_per_test (cfg : Reporter.Config) (env : Reporter.Env)
    (evs : list Reporter.Event) :
  let w := Reporter.run cfg env evs in
  let R := Reporter.records
             (Reporter.groupedResults
                (Reporter.executionSummary (Reporter.shared w))) in
  Reporter.testIndex (Reporter.shared w) = length (Reporter.tests_of evs)
  /\ length (Reporter.tasks w) = length (Reporter.tests_of evs)
  /\ (forall i t, Reporter.tasks w !! i = Some t ->
        Reporter.index0 (Reporter.ctx t) = S i)
  /\ (forall i j ti tj,
        Reporter.tasks w !! i = Some ti -> Reporter.tasks w !! j = Some tj ->
        i <> j ->
        Reporter.testFolderName (Reporter.ctx ti)
          <> Reporter.testFolderName (Reporter.ctx tj)
        /\ Reporter.testResultsFolder cfg (Reporter.ctx ti)
          <> Reporter.testResultsFolder cfg (Reporter.ctx tj))
  /\ (forall i t, Reporter.tasks w !! i = Some t ->
        length (List.filter
                  (fun r => String.eqb (Reporter.folderName r)
                              (Reporter.testFolderName (Reporter.ctx t))) R)
        = if Reporter.aggregated_pc (Reporter.pc t) then 1%nat else 0%nat)
  /\ (forall r, In r R ->
        exists i t, Reporter.tasks w !! i = Some t
                    /\ Reporter.aggregated_pc (Reporter.pc t) = true
                    /\ Reporter.folderName r
                       = Reporter.testFolderName (Reporter.ctx t)).
Proof.
  cbn zeta. pose proof (indexes_run cfg env evs) as Hx.
  pose proof Hx as [Hn Hi].
  assert (Hlen : length (Reporter.tasks (Reporter.run cfg env evs))
                 = length (Reporter.tests_of evs)).
  { rewrite <- (tasks_run cfg env evs). now rewrite length_map. }
  split; [congruence|]. split; [exact Hlen|]. split; [exact Hi|].
  split; [|split].
  - intros i j ti tj Hti Htj Hne.
    assert (Hf : Reporter.testFolderName (Reporter.ctx ti)
                 <> Reporter.testFolderName (Reporter.ctx tj)).
    { intros H. apply Hne. exact (folders_distinct _ i j ti tj Hx Hti Htj H). }
    split; [exact Hf|]. unfold Reporter.testResultsFolder, Js.path_join.
    intros H. apply Hf. apply append_cancel_l in H.
    now apply append_cancel_l in H.
  - intros i t Ht.
    pose proof (folder_count_run cfg env
                  (Reporter.testFolderName (Reporter.ctx t)) evs) as Hc.
    unfold Reporter.countP, Runs.in_folder in Hc. rewrite Hc.
    rewrite (filter_unique _ _ i t Ht).
    + unfold Runs.recorded_in. now rewrite String.eqb_refl, andb_true_r.
    + intros j y Hy Hq. unfold Runs.recorded_in in Hq.
      apply andb_true_iff in Hq. destruct Hq as [_ Hq].
      apply String.eqb_eq in Hq.
      exact (folders_distinct _ j i y t Hx Hy Ht Hq).
  - intros r Hr.
    pose proof (folder_count_run cfg env (Reporter.folderName r) evs) as Hc.
    assert (Hpos : (0 < Reporter.countP (Runs.in_folder (Reporter.folderName r))
                      (Reporter.groupedResults
                         (Reporter.executionSummary
                            (Reporter.shared (Reporter.run cfg env evs)))))%nat).
    { apply countP_pos with r; [exact Hr|].
      unfold Runs.in_folder. apply String.eqb_refl. }
    rewrite Hc in Hpos.
    destruct (List.filter (Runs.recorded_in (Reporter.folderName r))
                (Reporter.tasks (Reporter.run cfg env evs))) as [|t l] eqn:Ef;
      [cbn in Hpos; lia|].
    assert (Hin : In t (List.filter (Runs.recorded_in (Reporter.folderName r))
                          (Reporter.tasks (Reporter.run cfg env evs)))).
    { rewrite Ef. now left. }
    apply List.filter_In in Hin. destruct Hin as [Hin Hq].
    apply list_elem_of_In, list_elem_of_lookup_1 in Hin. destruct Hin as [i Hl].
    unfold Runs.recorded_in in Hq. apply andb_true_iff in Hq.
    destruct Hq as [Ha Hq]. apply String.eqb_eq in Hq.
    exists i, t. now repeat split.
Qed.

(** X8. The number shown for a test is not its index: [num] is read from
    [testIndex] when the record is built, after the test's [await]s, so in
    every run a record names the folder of a test whose index is at most
    the record's number, which is at most the number of tests started so
    far; and the two differ as soon as another test has started in between,
    as in the run of two interleaved tests where both records hold the
    number 2. *)
Theorem X8_record_numbers (cfg : Reporter.Config) (env : Reporter.Env)
    (evs : list Reporter.Event) :
  (forall r,
     In r (Reporter.records
             (Reporter.groupedResults
                (Reporter.executionSummary
                   (Reporter.shared (Reporter.run cfg env evs))))) ->
     exists c, Reporter.folderName r = Reporter.testFolderName c
               /\ (1 <= Reporter.index0 c <= Reporter.num r)%nat
               /\ (Reporter.num r
                   <= Reporter.testIndex
                        (Reporter.shared (Reporter.run cfg env evs)))%nat)
  /\ List.map (fun r => (Reporter.folderName r, Reporter.num r))
       (Reporter.records
          (Reporter.groupedResults
             (Reporter.executionSummary
                (Reporter.shared
                   (Reporter.run Examples.default_config Examples.quiet_env
                      Examples.two_scans)))))
     = [("2-checkout-page", 2%nat); ("1-cart-page", 2%nat)].
Proof.
  split; [apply numbers_ok_run|]. vm_compute. reflexivity.
Qed.

(** ** The reporter: the files of a run *)

Section Files.

Variable cfg : Reporter.Config.
Variable env : Reporter.Env.

Import Reporter Runs.

#[local] Abbreviation extends := (Runs.extends cfg env).

Lemma extends_refl (sh : Shared) : extends sh sh.
Proof. exists []. split; [now rewrite List.app_nil_r | constructor]. Qed.

Lemma extends_same (sh sh' : Shared) : written sh' = written sh -> extends sh sh'.
Proof.
  intros H. exists []. split; [now rewrite List.app_nil_r | constructor].
Qed.

Lemma extends_trans (a b c : Shared) : extends a b -> extends b c -> extends a c.
Proof.
  intros (n1 & H1 & F1) (n2 & H2 & F2). exists (n1 ++ n2)%list. split.
  - now rewrite H2, H1, List.app_assoc.
  - apply List.Forall_app. now split.
Qed.

Lemma extends_write (path : string) (d : Doc) (sh : Shared) :
  produced cfg env (path, d) -> extends sh (write_file path d sh).
Proof. intros H. exists [(path, d)]. split; [reflexivity | now constructor]. Qed.

Lemma extends_finish (c : Ctx) (l : Locals) (sh : Shared) :
  extends sh (finish cfg env c l sh).1.
Proof.
  unfold finish. set (sh1 := set_browsers _ sh).
  destruct (push_group _ _ _) as [G|]; [|now apply extends_same].
  destruct (render_throws env exec_template _); [now apply extends_same|].
  cbn [fst]. eapply extends_trans; [|apply extends_write; constructor].
  now apply extends_same.
Qed.

Lemma extends_scan_loop (c : Ctx) (srcs : list (nat * Source)) (l : Locals)
    (sh : Shared) :
  extends sh (scan_loop cfg env c srcs l sh).1.1.
Proof.
  revert l. induction srcs as [|[i src] rest IH]; intros l; cbn [scan_loop].
  - pose proof (extends_finish c l sh) as H.
    destruct (finish cfg env c l sh) as [sh' p]. exact H.
  - destruct (read_source env src) as [|e|rd|];
      [apply IH | apply IH | | apply extends_refl].
    destruct (render_throws env scan_template _); cbn [fst];
      [apply extends_refl | apply extends_write; constructor].
Qed.

Lemma extends_resume (t : Task) (sh : Shared) :
  extends sh (resume cfg env t sh).1.
Proof.
  unfold resume. destruct (pc t) as [|rd rest| | |fl]; try apply extends_refl.
  - destruct (copyScreenshots env _ _); [|apply extends_refl].
    destruct (copyPngAttachments env _ _); [|apply extends_refl].
    destruct (copyAllOtherAttachments env _ _); [|apply extends_refl].
    match goal with |- context [scan_loop cfg env ?c ?s ?l0 ?h] =>
      pose proof (extends_scan_loop c s l0 h) as H;
      destruct (scan_loop cfg env c s l0 h) as [[sh' l'] p] end.
    exact H.
  - on_throw (apply extends_refl).
    match goal with |- context [scan_loop cfg env ?c ?s ?l0 ?h] =>
      pose proof (extends_scan_loop c s l0 h) as H;
      destruct (scan_loop cfg env c s l0 h) as [[sh' l'] p] end.
    cbn [fst] in *. eapply extends_trans; [|exact H]. now apply extends_same.
Qed.

Lemma extends_apply_event (w : World) (e : Event) :
  extends (shared w) (shared (apply_event cfg env w e)).
Proof.
  destruct e as [t r|i|fr|]; cbn [apply_event].
  - now apply extends_same.
  - destruct (tasks w !! i) as [task|]; [|apply extends_refl].
    pose proof (extends_resume task (shared w)) as H.
    destruct (resume cfg env task (shared w)) as [sh task']. exact H.
  - destruct (ending w); apply extends_refl.
  - destruct (ending w) as [|fr n| | |]; try apply extends_refl.
    destruct (List.existsb is_rejected _); [apply extends_refl|].
    destruct (List.forallb is_fulfilled _); [|apply extends_refl].
    unfold render_summary.
    destruct (render_throws env summary_template _); cbn [shared].
    + now apply extends_same.
    + eapply extends_trans; [|apply extends_write; constructor].
      now apply extends_same.
Qed.

Lemma extends_run_from (evs : list Event) (w : World) :
  extends (shared w) (shared (run_from cfg env w evs)).
Proof.
  revert w. induction evs as [|e evs IH]; intros w; [apply extends_refl|].
  cbn [run_from fold_left].
  eapply extends_trans; [apply extends_apply_event | apply IH].
Qed.

(** Every file of a run is one the reporter writes. *)
Lemma written_run (evs : list Event) :
  List.Forall (produced cfg env) (written (shared (run cfg env evs))).
Proof.
  destruct (extends_run_from evs initial_world) as (new & H & F).
  unfold run. rewrite H. exact F.
Qed.

End Files.

Section SafeNames.

Import Shape.

Lemma digits_are_name_chars (s : string) :
  all_chars Js.is_digit s = true -> all_chars is_name_char s = true.
Proof.
  apply all_chars_impl. intros c Hc. unfold is_name_char.
  rewrite Hc. now rewrite orb_true_r.
Qed.

Lemma position_suffix_shape (sources index : nat) :
  all_chars is_name_char (Naming.position_suffix sources index) = true.
Proof.
  unfold Naming.position_suffix. destruct (1 <? sources)%nat; [|reflexivity].
  rewrite all_chars_app. cbn [andb all_chars]. change (is_name_char "-") with true.
  cbn [andb]. apply digits_are_name_chars, pretty_nat_digits.
Qed.

Lemma base_name_shape (title : string) (pk : option string) :
  all_chars is_name_char (Naming.base_name title pk) = true.
Proof.
  assert (Hg : all_chars is_name_char
                 ("accessibility-" +:+ Naming.sanitizedTitle title) = true).
  { rewrite all_chars_app.
    now rewrite (proj1 (sanitizedTitle_shape title)). }
  unfold Naming.base_name. destruct pk as [pk|]; [|exact Hg].
  destruct (Js.truthy (Naming.sanitizedKey pk)); [|exact Hg].
  apply sanitizedKey_shape.
Qed.

Lemma a11yReportName_shape (sources index : nat) (title : string)
    (pk : option string) :
  exists base,
    Naming.a11yReportName sources index title pk = base +:+ ".html"
    /\ all_chars is_name_char base = true.
Proof.
  exists (Naming.base_name title pk +:+ Naming.position_suffix sources index).
  split.
  - rewrite a11yReportName_base. now rewrite append_assoc.
  - rewrite all_chars_app, base_name_shape, position_suffix_shape. reflexivity.
Qed.

Lemma testFolderName_shape (c : Reporter.Ctx) :
  all_chars is_name_char (Reporter.testFolderName c) = true.
Proof.
  unfold Reporter.testFolderName, Reporter.sanitizedTitle.
  rewrite !all_chars_app.
  rewrite (digits_are_name_chars _ (pretty_nat_digits _)).
  now rewrite (proj1 (sanitizedTitle_shape _)).
Qed.

End SafeNames.

(** X9. Every file written in any run is either the summary, directly in
    the output folder, or a file [<base>.html] directly in the folder of a
    test, itself directly in the output folder; the folder name and the
    base name hold only lower-case ASCII letters, digits and hyphens.  So
    whatever the test titles and the page keys of the payloads are (a key
    may be any text, with separators and dots), nothing is written outside
    the output folder or in a nested folder. *)
Theorem X9_files_stay_in_output_folder (cfg : Reporter.Config)
    (env : Reporter.Env) (evs : list Reporter.Event) (path : string)
    (d : Reporter.Doc) :
  In (path, d) (Reporter.written (Reporter.shared (Reporter.run cfg env evs))) ->
  (path = Js.path_join (Reporter.outputFolder cfg) "summary.html"
   /\ Reporter.is_summary d = true)
  \/ exists (c : Reporter.Ctx) (base : string),
       path = Js.path_join
                (Js.path_join (Reporter.outputFolder cfg)
                   (Reporter.testFolderName c))
                (base +:+ ".html")
       /\ Shape.all_chars Shape.is_name_char (Reporter.testFolderName c) = true
       /\ Shape.all_chars Shape.is_name_char base = true
       /\ Reporter.is_summary d = false.
Proof.
  intros Hin. pose proof (written_run cfg env evs) as Hall.
  rewrite List.Forall_forall in Hall. specialize (Hall _ Hin).
  inversion Hall; subst.
  - right. destruct (a11yReportName_shape (length (Reporter.sources c)) index
                       (Reporter.title (Reporter.test c)) (pageKey rd))
      as (base & Hb & Hs).
    exists c, base. rewrite Hb. repeat split; try assumption.
    apply testFolderName_shape.
  - right. exists c, ("execution-" +:+ Reporter.sanitizedTitle c).
    rewrite append_assoc. repeat split.
    + apply testFolderName_shape.
    + rewrite all_chars_app. unfold Reporter.sanitizedTitle.
      now rewrite (proj1 (sanitizedTitle_shape _)).
  - left. now split.
Qed.

Lemma X9_files_stay_in_output_folder_witness :
  exists (c : Reporter.Ctx) (base : string),
    "/work/steps-report/1-cart-page/shop-example-cart.html"
    = Js.path_join
        (Js.path_join (Reporter.outputFolder Examples.default_config)
           (Reporter.testFolderName c))
        (base +:+ ".html")
    /\ Shape.all_chars Shape.is_name_char (Reporter.testFolderName c) = true
    /\ Shape.all_chars Shape.is_name_char base = true.
Proof.
  destruct (X9_files_stay_in_output_folder Examples.default_config
              Examples.quiet_env Examples.two_scans
              "/work/steps-report/1-cart-page/shop-example-cart.html"
              (Reporter.AccessibilityReport
                 (Reporter.configure
                    (Reporter.options Examples.default_config) ""
                    Examples.contrast_payload)
                 "/work/steps-report/1-cart-page"))
    as [[H _]|(c & base & H1 & H2 & H3 & _)].
  - vm_compute. left. reflexivity.
  - vm_compute in H. discriminate H.
  - exists c, base. now repeat split.
Defined.

(** ** The reporter: the report a record links to *)

Section ReportPath.

Variable cfg : Reporter.Config.
Variable env : Reporter.Env.

Import Reporter Runs.

Lemma last_indep {X : Type} (x : X) (l : list X) (d d' : X) :
  List.last (x :: l) d = List.last (x :: l) d'.
Proof.
  revert x. induction l as [|a l IH]; intros x; [reflexivity|].
  change (List.last (a :: l) d = List.last (a :: l) d'). apply IH.
Qed.

Lemma last_name_cons (acc : option string) (n : string) (names : list string) :
  last_name acc (n :: names) = last_name (Some n) names.
Proof.
  unfold last_name. cbn [List.map]. destruct names as [|m names]; [reflexivity|].
  cbn [List.map].
  change (List.last (Some m :: List.map Some names) acc
          = List.last (Some m :: List.map Some names) (Some n)).
  apply last_indep.
Qed.

Lemma parsed_names_cons (c : Ctx) (s : nat * Source)
    (rest : list (nat * Source)) :
  parsed_names env c (s :: rest)
  = (match read_source env (snd s) with
     | Parsed rd =>
         [Naming.a11yReportName (length (sources c)) (fst s)
            (title (test c)) (pageKey rd)]
     | _ => []
     end ++ parsed_names env c rest)%list.
Proof. reflexivity. Qed.

Lemma scan_loop_path (c : Ctx) (srcs : list (nat * Source)) (l : Locals)
    (sh : Shared) :
  let '(_, l', p) := scan_loop cfg env c srcs l sh in
  match p with
  | AwaitScanRender _ rest =>
      last_name (l_a11yReportPath l') (parsed_names env c rest)
      = last_name (l_a11yReportPath l) (parsed_names env c srcs)
  | AwaitExecRender =>
      l_a11yReportPath l'
      = last_name (l_a11yReportPath l) (parsed_names env c srcs)
  | Rejected _ => True
  | AwaitVideo | Fulfilled => False
  end.
Proof.
  revert l. induction srcs as [|[i src] rest IH]; intros l; cbn [scan_loop].
  - unfold finish. destruct (push_group _ _ _) as [G|]; [|exact I].
    destruct (render_throws env exec_template _); [exact I | reflexivity].
  - rewrite parsed_names_cons. cbn [fst snd].
    destruct (read_source env src) as [|e|rd|].
    + apply IH.
    + specialize (IH (push_log
        (ansiToHtml env
           ("[SnapAlly] Internal error parsing accessibility data from "
            +:+ source_type src +:+ ": " +:+ e)) l)).
      destruct (scan_loop _ _ _ _ _ _) as [[sh' l'] p]. exact IH.
    + destruct (render_throws env scan_template _); [exact I|].
      cbn [app]. now rewrite last_name_cons.
    + exact I.
Qed.

Lemma report_path_resume (task : Task) (sh : Shared) :
  report_path_ok env task -> report_path_ok env (resume cfg env task sh).2.
Proof.
  unfold report_path_ok, resume.
  destruct (pc task) as [|rd rest| | |fl] eqn:Epc; intros Hok.
  - destruct (copyScreenshots env _ _) as [shots|]; [|exact I].
    destruct (copyPngAttachments env _ _) as [pngs|]; [|exact I].
    destruct (copyAllOtherAttachments env _ _) as [others|]; [|exact I].
    match goal with |- context [scan_loop cfg env ?c ?s ?l0 ?h] =>
      pose proof (scan_loop_path c s l0 h) as H;
      destruct (scan_loop cfg env c s l0 h) as [[sh' l'] p] end.
    cbn [snd ctx locals pc l_a11yReportPath] in *.
    fold (all_sources (ctx task)) in H.
    destruct p as [|rd rest| | |fl]; try contradiction; try exact I; exact H.
  - on_throw (exact I).
    match goal with |- context [scan_loop cfg env ?c ?s ?l0 ?h] =>
      pose proof (scan_loop_path c s l0 h) as H;
      destruct (scan_loop cfg env c s l0 h) as [[sh' l'] p] end.
    cbn [snd ctx locals pc] in *.
    assert (Hafter : l_a11yReportPath (after_scan rd (locals task))
                     = l_a11yReportPath (locals task)).
    { unfold after_scan. now destruct (folded_errors rd). }
    rewrite Hafter in H.
    destruct p as [|rd' rest'| | |fl]; try contradiction; try exact I;
      now rewrite H.
  - exact Hok.
  - cbn [snd]. now rewrite Epc.
  - cbn [snd]. now rewrite Epc.
Qed.

Lemma report_path_run (evs : list Event) :
  List.Forall (report_path_ok env) (tasks (run cfg env evs)).
Proof.
  apply wf_run; [|apply report_path_resume]. intros t r sh. exact I.
Qed.

End ReportPath.

(** X10. The record of a test links to the report of the last payload that
    parsed: for every task of every run that has reached the final
    aggregation, [a11yReportPath] is the report name of the last of the
    test's data sources whose payload parses, and is absent when none
    parses; once the execution report has been rendered, the record among
    the grouped results holds that value. *)
Theorem X10_record_links_last_report (cfg : Reporter.Config)
    (env : Reporter.Env) (evs : list Reporter.Event) (i : nat)
    (t : Reporter.Task) :
  Reporter.tasks (Reporter.run cfg env evs) !! i = Some t ->
  Reporter.pc t = Reporter.AwaitExecRender
    \/ Reporter.pc t = Reporter.Fulfilled ->
  let c := Reporter.ctx t in
  let names := Runs.parsed_names env c (Reporter.all_sources c) in
  Reporter.l_a11yReportPath (Reporter.locals t)
    = List.last (List.map Some names) None
  /\ (names = [] -> Reporter.l_a11yReportPath (Reporter.locals t) = None)
  /\ (forall pre n, names = (pre ++ [n])%list ->
        Reporter.l_a11yReportPath (Reporter.locals t) = Some n)
  /\ exists r l,
       In (Reporter.fileGroup cfg env c, l)
          (Reporter.groupedResults
             (Reporter.executionSummary
                (Reporter.shared (Reporter.run cfg env evs))))
       /\ In r l
       /\ Reporter.folderName r = Reporter.testFolderName c
       /\ Reporter.a11yReportPath r
          = List.last (List.map Some names) None.
Proof.
  intros Hi Hpc. cbn zeta.
  assert (Hin : In t (Reporter.tasks (Reporter.run cfg env evs))).
  { apply list_elem_of_In. now apply list_elem_of_lookup_2 with i. }
  pose proof (report_path_run cfg env evs) as Hpath.
  pose proof (task_progress_run cfg env evs) as Hprog.
  rewrite List.Forall_forall in Hpath, Hprog.
  specialize (Hpath t Hin). specialize (Hprog t Hin).
  unfold Runs.report_path_ok in Hpath.
  unfold Reporter.task_progress_ok in Hprog.
  assert (Hp : Reporter.l_a11yReportPath (Reporter.locals t)
               = Runs.last_name None
                   (Runs.parsed_names env (Reporter.ctx t)
                      (Reporter.all_sources (Reporter.ctx t)))
               /\ Reporter.record_produced cfg env
                    (Reporter.shared (Reporter.run cfg env evs)) t).
  { destruct Hpc as [Hpc|Hpc]; rewrite Hpc in Hpath, Hprog;
      (split; [exact Hpath | apply Hprog]). }
  destruct Hp as [Hp (stats & (sh0 & Hs) & (l & Hl & Hr) & _)].
  unfold Runs.last_name in Hp. split; [exact Hp|]. split; [|split].
  - intros Hn. rewrite Hp, Hn. reflexivity.
  - intros pre n Hn. rewrite Hp, Hn, List.map_app. apply List.last_last.
  - exists stats, l. split; [exact Hl|]. split; [exact Hr|]. subst stats.
    cbn [Reporter.folderName Reporter.a11yReportPath Reporter.testStats].
    now split.
Qed.

Lemma X10_record_links_last_report_witness :
  exists t,
    Reporter.tasks
      (Reporter.run Examples.default_config Examples.quiet_env
         Examples.one_bad_payload) !! 0%nat = Some t
    /\ Reporter.l_a11yReportPath (Reporter.locals t)
       = Some "shop-example-menu-3.html".
Proof.
  eexists. split; [vm_compute; reflexivity|].
  match goal with |- Reporter.l_a11yReportPath (Reporter.locals ?t) = _ =>
    destruct (X10_record_links_last_report Examples.default_config
                Examples.quiet_env Examples.one_bad_payload 0 t) as [H _]
  end.
  - vm_compute. reflexivity.
  - right. reflexivity.
  - rewrite H. vm_compute. reflexivity.
Defined.

(** ** The scan aggregator: the evidence it records *)

Section EvidenceFacts.

Variable isVisible : nat -> string -> bool.
Variable captureBase64 : string -> string.
Variable stringify : list string -> string.
Variable annotations : list Annotation.

Import Scanner Evidence.

#[local] Abbreviation visit_selector :=
  (Scanner.visit_selector isVisible captureBase64 stringify annotations).
#[local] Abbreviation visit_node :=
  (Scanner.visit_node isVisible captureBase64 stringify annotations).
#[local] Abbreviation visit_violation :=
  (Scanner.visit_violation isVisible captureBase64 stringify annotations).
#[local] Abbreviation steps_now := (Scanner.contextSteps annotations).

#[local] Abbreviation evidence_at :=
  (Evidence.evidence_at captureBase64 stringify annotations).
#[local] Abbreviation evidence_ok :=
  (Evidence.evidence_ok captureBase64 stringify annotations).

Lemma visible_from_app (q : nat) (a b : list string) :
  visible_from isVisible q (a ++ b)
  = (visible_from isVisible q a
     ++ visible_from isVisible (q + length a) b)%list.
Proof.
  revert q. induction a as [|x a IH]; intros q; cbn [app visible_from length].
  - now rewrite Nat.add_0_r.
  - replace (q + S (length a))%nat with (S q + length a)%nat by lia.
    destruct (isVisible q x); cbn [app]; now rewrite IH.
Qed.

Lemma visit_selectors_evidence (v : AxeViolation) (node : AxeNode)
    (sels : list string) (st : ScanState) :
  evidence_ok v st ->
  let st' := fold_left (visit_selector v node) sels st in
  evidence_ok v st'
  /\ queries st' = (queries st + length sels)%nat
  /\ List.map element (targets st')
     = (List.map element (targets st)
        ++ visible_from isVisible (queries st) sels)%list
  /\ (forall t, In t (targets st') ->
        In t (targets st)
        \/ (In (element t) sels /\ html t = Js.or_default (node_html node) "")).
Proof.
  revert st. induction sels as [|s sels IH]; intros st Hok; cbn [fold_left].
  - cbn zeta. cbn [visible_from length]. rewrite List.app_nil_r, Nat.add_0_r.
    split; [exact Hok|]. split; [reflexivity|]. split; [reflexivity|].
    intros t Ht. now left.
  - set (st1 := visit_selector v node st s).
    assert (Hok1 : evidence_ok v st1).
    { destruct Hok as [Hidx Hall]. unfold st1, Scanner.visit_selector.
      destruct (isVisible (queries st) s); [|now split].
      split; cbn [errorIdx targets].
      - rewrite length_app. cbn. lia.
      - intros k t Hk. apply lookup_app_Some in Hk.
        destruct Hk as [Hk|[Hge Hk]]; [now apply Hall|].
        apply list_lookup_singleton_Some in Hk. destruct Hk as [Hz <-].
        assert (Hk : k = errorIdx st) by lia. subst k.
        unfold Evidence.evidence_at, screenshot_name, Scanner.contextSteps.
        cbn [screenshot snippet element steps stepsJson screenshotBase64].
        now repeat split. }
    destruct (IH st1 Hok1) as (H1 & H2 & H3 & H4). cbn zeta.
    split; [exact H1|]. split; [|split].
    + rewrite H2. unfold st1, Scanner.visit_selector.
      destruct (isVisible (queries st) s); cbn [queries length]; lia.
    + rewrite H3. unfold st1, Scanner.visit_selector. cbn [visible_from].
      destruct (isVisible (queries st) s); cbn [queries targets].
      * rewrite List.map_app, <- List.app_assoc. reflexivity.
      * reflexivity.
    + intros t Ht. destruct (H4 t Ht) as [Hin|[Hin Hh]].
      * unfold st1, Scanner.visit_selector in Hin.
        destruct (isVisible (queries st) s); cbn [targets] in Hin;
          [|now left].
        apply List.in_app_iff in Hin. destruct Hin as [Hin|[<-|[]]];
          [now left|]. right. cbn [element html]. split; [now left | reflexivity].
      * right. split; [now right | exact Hh].
Qed.

Lemma visit_nodes_evidence (v : AxeViolation) (nodes : list AxeNode)
    (st : ScanState) :
  evidence_ok v st ->
  let st' := fold_left (visit_node v) nodes st in
  evidence_ok v st'
  /\ queries st'
     = (queries st + length (List.concat (List.map node_target nodes)))%nat
  /\ List.map element (targets st')
     = (List.map element (targets st)
        ++ visible_from isVisible (queries st)
             (List.concat (List.map node_target nodes)))%list
  /\ (forall t, In t (targets st') ->
        In t (targets st)
        \/ exists node, In node nodes
                        /\ In (element t) (node_target node)
                        /\ html t = Js.or_default (node_html node) "").
Proof.
  revert st. induction nodes as [|n nodes IH]; intros st Hok; cbn [fold_left].
  - cbn zeta. cbn [List.map List.concat visible_from length].
    rewrite List.app_nil_r, Nat.add_0_r.
    split; [exact Hok|]. split; [reflexivity|]. split; [reflexivity|].
    intros t Ht. now left.
  - destruct (visit_selectors_evidence v n (node_target n) st Hok)
      as (A1 & A2 & A3 & A4).
    change (fold_left (visit_selector v n) (node_target n) st)
      with (visit_node v st n) in A1, A2, A3, A4.
    destruct (IH (visit_node v st n) A1) as (B1 & B2 & B3 & B4). cbn zeta.
    cbn [List.map List.concat].
    split; [exact B1|]. split; [|split].
    + rewrite B2, A2, length_app. lia.
    + rewrite B3, A3, A2, visible_from_app, <- List.app_assoc. reflexivity.
    + intros t Ht. destruct (B4 t Ht) as [Hin|(node & Hn & He & Hh)].
      * destruct (A4 t Hin) as [Hold|[He Hh]]; [now left|].
        right. exists n. split; [now left | now split].
      * right. exists node. split; [now right | now split].
Qed.

Lemma screenshot_name_inj (rule : string) (j k : nat) :
  screenshot_name rule j = screenshot_name rule k -> j = k.
Proof.
  unfold screenshot_name. intros H.
  do 3 apply append_cancel_l in H. apply append_cancel_r in H.
  now apply pretty_nat_inj in H.
Qed.

End EvidenceFacts.

(** X11. For every violation, the targets recorded by the scan aggregator
    are the selectors the page reported visible, in the order of the nodes
    and of their selectors; the target at position k holds the screenshot
    name [a11y-<rule>-<k>.png], so the screenshot names of a violation are
    numbered from 0 without gap and pairwise distinct; each target carries
    its selector as snippet, the markup of the node its selector comes
    from, the test's steps so far with their JSON text, and the capture
    made under its screenshot name.  One visibility query is made per
    selector. *)
Theorem X11_scanner_evidence (isVisible : nat -> string -> bool)
    (captureBase64 : string -> string) (stringify : list string -> string)
    (annotations : list Annotation) (v : Scanner.AxeViolation) (q0 : nat) :
  let built :=
    Scanner.build_error isVisible captureBase64 stringify annotations v q0 in
  let ts := default [] (target (fst built)) in
  List.map element ts
    = Evidence.visible_from isVisible q0 (Scanner.selectors_of v)
  /\ (forall k t, ts !! k = Some t ->
        screenshot t
          = "a11y-" +:+ Scanner.v_id v +:+ "-" +:+ pretty k +:+ ".png"
        /\ snippet t = element t
        /\ steps t = Some (Scanner.contextSteps annotations)
        /\ stepsJson t = Some (stringify (Scanner.contextSteps annotations))
        /\ screenshotBase64 t = captureBase64 (screenshot t)
        /\ Evidence.from_node v t)
  /\ List.NoDup (List.map screenshot ts)
  /\ snd built = (q0 + length (Scanner.selectors_of v))%nat.
Proof.
  cbn zeta. unfold Scanner.build_error. cbn [fst snd target default].
  unfold Datatypes.id, Scanner.visit_violation, Scanner.selectors_of.
  set (st0 := {| Scanner.queries := q0; Scanner.errorIdx := 0;
                 Scanner.targets := [] |}).
  assert (Hok0 : Evidence.evidence_ok captureBase64 stringify annotations v st0).
  { split; [reflexivity|]. intros k t H. unfold st0 in H.
    cbn [Scanner.targets] in H. rewrite lookup_nil in H. discriminate H. }
  destruct (visit_nodes_evidence isVisible captureBase64 stringify annotations
              v (Scanner.v_nodes v) st0 Hok0) as ([_ H1] & H2 & H3 & H4).
  cbn zeta in *. set (st := fold_left _ _ st0) in *. clearbody st.
  assert (Hat : forall k t, Scanner.targets st !! k = Some t ->
            screenshot t = Evidence.screenshot_name (Scanner.v_id v) k).
  { intros k t Hk. now destruct (H1 k t Hk). }
  split; [exact H3|]. split; [|split; [|exact H2]].
  - intros k t Hk. destruct (H1 k t Hk) as (E1 & E2 & E3 & E4 & E5).
    rewrite E1. repeat split; try assumption.
    destruct (H4 t) as [[]|Hn]; [|exact Hn].
    apply list_elem_of_In. now apply list_elem_of_lookup_2 with k.
  - apply NoDup_ListNoDup. apply NoDup_alt. intros i j x Hi Hj.
    change (List.map screenshot (Scanner.targets st))
      with (screenshot <$> Scanner.targets st) in Hi, Hj.
    rewrite list_lookup_fmap in Hi, Hj.
    destruct (Scanner.targets st !! i) as [ti|] eqn:Ei;
      [|cbn in Hi; discriminate Hi].
    destruct (Scanner.targets st !! j) as [tj|] eqn:Ej;
      [|cbn in Hj; discriminate Hj].
    cbn in Hi, Hj. injection Hi as Hi. injection Hj as Hj.
    rewrite (Hat i ti Ei) in Hi. rewrite (Hat j tj Ej) in Hj.
    apply (screenshot_name_inj (Scanner.v_id v)). congruence.
Qed.

Section RuleFields.

Lemma or_default_truthy (a : option string) (d : string) :
  Js.truthy d = true -> Js.truthy (Js.or_default a d) = true.
Proof.
  intros Hd. unfold Js.or_default. destruct a as [s|]; [|exact Hd].
  destruct (Js.truthy s) eqn:Es; [exact Es | exact Hd].
Qed.

Lemma starts_with_wcag_truthy (t : string) :
  Scanner.starts_with_wcag t = true -> Js.truthy t = true.
Proof. destruct t; [discriminate | reflexivity]. Qed.

Lemma nth_error_short {X : Type} (l : list X) :
  (length l < 2)%nat -> nth_error l 1 = None.
Proof. intros H. apply nth_error_None. lia. Qed.

End RuleFields.

(** X12. For every violation, the record built by the scan aggregator
    never holds an empty severity, guideline or rule.  The severity is the
    analyzer's impact when it has one that is not empty, and ["unknown"]
    otherwise; the guideline is the second tag when there is one that is
    not empty, and ["N/A"] otherwise (fewer than two tags, or an empty
    second tag); the rule is the first tag that starts with [wcag], and
    when no tag does it is the guideline.  The record keeps the identifier,
    the description and the help of the violation, and one record is built
    per violation, in order. *)
Theorem X12_rule_fields (isVisible : nat -> string -> bool)
    (captureBase64 : string -> string) (stringify : list string -> string)
    (annotations : list Annotation) (v : Scanner.AxeViolation) (q0 : nat)
    (vs : list Scanner.AxeViolation) :
  let e := fst (Scanner.build_error isVisible captureBase64 stringify
                  annotations v q0) in
  let tags := Scanner.v_tags v in
  (Js.truthy (severity e) = true /\ Js.truthy (guideline e) = true
   /\ Js.truthy (wcagRule e) = true)
  /\ (forall impact, Scanner.v_impact v = Some impact -> impact <> "" ->
        severity e = impact)
  /\ (Scanner.v_impact v = None \/ Scanner.v_impact v = Some "" ->
        severity e = "unknown")
  /\ (forall tag, nth_error tags 1 = Some tag -> tag <> "" ->
        guideline e = tag)
  /\ ((length tags < 2)%nat \/ nth_error tags 1 = Some "" ->
        guideline e = "N/A")
  /\ (forall t, List.find Scanner.starts_with_wcag tags = Some t ->
        wcagRule e = t /\ In t tags /\ Scanner.starts_with_wcag t = true)
  /\ (List.find Scanner.starts_with_wcag tags = None ->
        wcagRule e = guideline e)
  /\ (id e = Scanner.v_id v /\ description e = Scanner.v_description v
      /\ help e = Scanner.v_help v /\ helpUrl e = Scanner.v_helpUrl v)
  /\ List.map id
       (Scanner.build_errors isVisible captureBase64 stringify annotations
          vs q0)
     = List.map Scanner.v_id vs.
Proof.
  cbn zeta. unfold Scanner.build_error.
  cbn [fst severity guideline wcagRule id description help helpUrl].
  split; [|split; [|split; [|split; [|split; [|split; [|split; [|split]]]]]]].
  - repeat split; now apply or_default_truthy.
  - intros impact -> Hne. destruct impact; [congruence | reflexivity].
  - intros [-> | ->]; reflexivity.
  - intros tag -> Hne. destruct tag; [congruence | reflexivity].
  - intros [Hl | ->]; [now rewrite nth_error_short | reflexivity].
  - intros t Ht. destruct (List.find_some _ _ Ht) as [Hin Hw].
    rewrite Ht. unfold Js.or_else, Js.or_default.
    rewrite (starts_with_wcag_truthy t Hw). cbn.
    rewrite (starts_with_wcag_truthy t Hw). now repeat split.
  - intros Hn. rewrite Hn. reflexivity.
  - now repeat split.
  - revert q0. induction vs as [|x vs IH]; intros q0; [reflexivity|].
    cbn [Scanner.build_errors].
    destruct (Scanner.build_error isVisible captureBase64 stringify
                annotations x q0) as [e q] eqn:E.
    cbn [List.map]. rewrite IH. f_equal.
    unfold Scanner.build_error in E. injection E as <- _. reflexivity.
Qed.

Lemma X12_rule_fields_witness :
  let e := fst (Scanner.build_error Examples.everything_visible
                  Examples.no_capture Examples.no_json [] Examples.two_images
                  0) in
  severity e = "critical" /\ guideline e = "wcag2a".
Proof.
  cbn zeta.
  pose proof (X12_rule_fields Examples.everything_visible Examples.no_capture
                Examples.no_json [] Examples.two_images 0 []) as H.
  cbn zeta in H. destruct H as (_ & Hs & _ & Hg & _). split.
  - apply (Hs "critical"); [reflexivity | discriminate].
  - apply (Hg "wcag2a"); [reflexivity | discriminate].
Defined.

(** ** The legacy reporter: enrichment and aggregation *)

Section LegacyFacts.

Variable stringify : option (list string) -> option string.

Import Legacy.

Lemma has_step_In (l : list string) (x : string) :
  has_step l x = true <-> In x l.
Proof.
  unfold has_step. rewrite List.existsb_exists. split.
  - intros (y & Hy & He). apply String.eqb_eq in He. now subst y.
  - intros H. exists x. split; [exact H | apply String.eqb_refl].
Qed.

Lemma fold_push_all (existing pw : list string) (cur : option (list string)) :
  (forall x, In x pw -> In x existing) ->
  fold_left (push_step existing) pw cur = cur.
Proof.
  revert cur. induction pw as [|x pw IH]; intros cur H; [reflexivity|].
  cbn [fold_left]. unfold push_step at 2.
  rewrite (proj2 (has_step_In existing x)) by (apply H; now left).
  apply IH. intros y Hy. apply H. now right.
Qed.

Lemma merged_covers (pw : list string) (cur : option (list string)) (x : string) :
  In x pw ->
  In x (default [] (fold_left (push_step (default [] cur)) pw cur)).
Proof.
  intros Hx. destruct cur as [pre|]; cbn [default].
  - unfold Datatypes.id. rewrite fold_push_step. cbn [default].
    unfold Datatypes.id. apply List.in_app_iff.
    destruct (has_step pre x) eqn:E.
    + left. now apply has_step_In.
    + right. apply List.filter_In. split; [exact Hx | now rewrite E].
  - unfold Datatypes.id. now rewrite fold_push_step_none.
Qed.

Lemma merge_target_idem (pw : list string) (t : Target) :
  merge_target stringify pw (merge_target stringify pw t)
  = merge_target stringify pw t.
Proof.
  unfold merge_target at 1. cbn [steps element snippet html screenshot
    screenshotBase64 merge_target].
  set (m1 := fold_left (push_step (default [] (steps t))) pw (steps t)).
  assert (H : fold_left (push_step (default [] m1)) pw m1 = m1).
  { apply fold_push_all. intros x Hx. now apply merged_covers. }
  rewrite H. reflexivity.
Qed.

Lemma merge_error_idem (pw : list string) (e : A11yError) :
  merge_error stringify pw (merge_error stringify pw e)
  = merge_error stringify pw e.
Proof.
  unfold merge_error. cbn [id description wcagRule severity help helpUrl
    guideline total target]. f_equal.
  destruct (target e) as [ts|]; [|reflexivity]. cbn [option_map]. f_equal.
  rewrite List.map_map. apply List.map_ext. intros t. apply merge_target_idem.
Qed.

Lemma enrich_idem (resultSteps : option (list TestStep)) (rd : ReportData) :
  enrich stringify resultSteps (enrich stringify resultSteps rd)
  = enrich stringify resultSteps rd.
Proof.
  unfold enrich. destruct (getTestSteps resultSteps) as [|d ds]; [reflexivity|].
  destruct (errors rd) as [errs|] eqn:Ee; [|now rewrite Ee].
  cbn [errors pageKey accessibilityScore video criticalColor seriousColor
       moderateColor minorColor adoOrganization adoProject].
  f_equal. f_equal. rewrite List.map_map. apply List.map_ext.
  intros e. apply merge_error_idem.
Qed.

Lemma enrich_counted (resultSteps : option (list TestStep)) (rd : ReportData) :
  option_map (List.map LegacySummary.counted_part)
    (errors (enrich stringify resultSteps rd))
  = option_map (List.map LegacySummary.counted_part) (errors rd).
Proof.
  unfold enrich. destruct (getTestSteps resultSteps) as [|d ds]; [reflexivity|].
  destruct (errors rd) as [errs|] eqn:Ee; [|now rewrite Ee].
  cbn [errors option_map]. f_equal. rewrite List.map_map.
  apply List.map_ext. intros e. unfold LegacySummary.counted_part, merge_error.
  cbn [id total severity target]. f_equal.
  destruct (target e) as [ts|]; [|reflexivity]. cbn [option_map].
  now rewrite length_map.
Qed.

End LegacyFacts.

(** X13. The enrichment of the legacy reporter is idempotent and leaves the
    counts alone: merging the same driver steps a second time into a target
    adds nothing (every driver step is then among the target's steps), so
    enriching an enriched payload gives the same payload; and enrichment
    changes no identifier, total or severity of an error record, nor the
    number of its targets. *)
Theorem X13_enrichment_idempotent
    (stringify : option (list string) -> option string)
    (resultSteps : option (list TestStep)) (rd : ReportData) :
  Legacy.enrich stringify resultSteps (Legacy.enrich stringify resultSteps rd)
    = Legacy.enrich stringify resultSteps rd
  /\ (forall pw t,
        Legacy.merge_target stringify pw (Legacy.merge_target stringify pw t)
        = Legacy.merge_target stringify pw t)
  /\ option_map (List.map LegacySummary.counted_part)
       (errors (Legacy.enrich stringify resultSteps rd))
     = option_map (List.map LegacySummary.counted_part) (errors rd).
Proof.
  split; [apply enrich_idem|]. split; [apply merge_target_idem|].
  apply enrich_counted.
Qed.

Section LegacyAggregate.

Import LegacySummary.

Lemma legacy_count_add (m : gmap string Entry) (e : A11yError) (rule : string) :
  Js.inherited rule = false ->
  rule_count (add_wcag m e) rule
  = (rule_count m rule
     + if String.eqb (id e) rule then total_or_0 e else 0)%Z.
Proof.
  intros Hrule. unfold add_wcag, ensure_rule.
  destruct (m !! id e) as [e0|] eqn:Em.
  - rewrite Em. unfold rule_count. rewrite lookup_insert.
    destruct (String.eqb_spec (id e) rule) as [Heq|Hne].
    + rewrite decide_True by assumption. rewrite <- Heq, Em. cbn. lia.
    + rewrite decide_False by assumption. destruct (m !! rule); lia.
  - destruct (Js.inherited (id e)) eqn:Ei.
    + rewrite Em.
      destruct (String.eqb_spec (id e) rule) as [Heq|Hne]; [congruence | lia].
    + rewrite lookup_insert_eq. unfold rule_count. rewrite lookup_insert.
      destruct (String.eqb_spec (id e) rule) as [Heq|Hne].
      * rewrite decide_True by assumption. rewrite <- Heq, Em. cbn. lia.
      * rewrite decide_False by assumption.
        rewrite lookup_insert_ne by assumption. destruct (m !! rule); lia.
Qed.

Lemma legacy_count_fold (errs : list A11yError) (m : gmap string Entry)
    (rule : string) :
  Js.inherited rule = false ->
  rule_count (fold_left add_wcag errs m) rule
  = (rule_count m rule + Reporter.rule_total rule errs)%Z.
Proof.
  intros Hrule. revert m.
  induction errs as [|e errs IH]; intros m; simpl; [lia|].
  rewrite IH, legacy_count_add by exact Hrule. lia.
Qed.

(** Under an inherited name no entry is ever created. *)
Lemma legacy_inherited_add (m : gmap string Entry) (e : A11yError)
    (rule : string) :
  Js.inherited rule = true -> m !! rule = None ->
  add_wcag m e !! rule = None.
Proof.
  intros Hrule Hm. unfold add_wcag, ensure_rule.
  destruct (m !! id e) as [e0|] eqn:Em.
  - rewrite Em. rewrite lookup_insert_ne; [exact Hm|].
    intros Heq. rewrite Heq, Hm in Em. discriminate Em.
  - destruct (Js.inherited (id e)) eqn:Ei.
    + now rewrite Em.
    + rewrite lookup_insert_eq. rewrite !lookup_insert_ne by congruence.
      exact Hm.
Qed.

Lemma legacy_inherited_fold (errs : list A11yError) (m : gmap string Entry)
    (rule : string) :
  Js.inherited rule = true -> m !! rule = None ->
  fold_left add_wcag errs m !! rule = None.
Proof.
  intros Hrule. revert m.
  induction errs as [|e errs IH]; intros m Hm; [exact Hm|].
  cbn [fold_left]. apply IH. now apply legacy_inherited_add.
Qed.

Lemma titles_of_nil (l : list TestStep) :
  Legacy.titles_of l = []
  <-> List.Forall (fun s => String.eqb (category s) "test.step" = false) l.
Proof.
  unfold Legacy.titles_of. induction l as [|s l IH]; cbn [List.filter List.map].
  - split; [constructor | reflexivity].
  - destruct (String.eqb (category s) "test.step") eqn:E; cbn [List.map].
    + split; [discriminate|]. intros H. inversion H; congruence.
    + rewrite IH. split; [now constructor | intros H; now inversion H].
Qed.

End LegacyAggregate.

(** X14. The legacy reporter aggregates the rule counts inside the block
    that merges the driver's steps: when the result has no step list, or
    its trace holds no step of category [test.step], or the payload has no
    error list, [summary.wcagErrors] is left as it was, whatever the payload
    reports; otherwise the count of every rule whose id is not a name that
    objects inherit from [Object.prototype] grows by the sum of
    [total || 0] over the payload's records of that rule.  Under an
    inherited name no entry is ever created. *)
Theorem X14_legacy_aggregate (rd : ReportData)
    (m : gmap string LegacySummary.Entry) :
  LegacySummary.aggregate None rd m = m
  /\ (forall trace,
        List.Forall (fun s => String.eqb (category s) "test.step" = false)
          (Legacy.preorder_all trace) ->
        LegacySummary.aggregate (Some trace) rd m = m)
  /\ (forall resultSteps,
        errors rd = None -> LegacySummary.aggregate resultSteps rd m = m)
  /\ (forall trace errs rule,
        List.Exists (fun s => String.eqb (category s) "test.step" = true)
          (Legacy.preorder_all trace) ->
        errors rd = Some errs ->
        Js.inherited rule = false ->
        LegacySummary.rule_count
          (LegacySummary.aggregate (Some trace) rd m) rule
        = (LegacySummary.rule_count m rule
           + Reporter.rule_total rule errs)%Z)
  /\ (forall resultSteps rule,
        Js.inherited rule = true -> m !! rule = None ->
        LegacySummary.aggregate resultSteps rd m !! rule = None).
Proof.
  split; [reflexivity|]. split; [|split; [|split]].
  - intros trace Hno. unfold LegacySummary.aggregate.
    cbn [Legacy.getTestSteps]. rewrite processSteps_driver_steps.
    unfold Legacy.driver_steps. now rewrite (proj2 (titles_of_nil _) Hno).
  - intros resultSteps He. unfold LegacySummary.aggregate. rewrite He.
    now destruct (Legacy.getTestSteps resultSteps).
  - intros trace errs rule Hex He Hrule. unfold LegacySummary.aggregate.
    cbn [Legacy.getTestSteps]. rewrite processSteps_driver_steps, He.
    unfold Legacy.driver_steps.
    destruct (Legacy.titles_of (Legacy.preorder_all trace)) as [|d ds] eqn:Et.
    + apply titles_of_nil in Et. apply List.Exists_exists in Hex.
      destruct Hex as (s & Hs & Hc). rewrite List.Forall_forall in Et.
      specialize (Et s Hs). congruence.
    + now apply legacy_count_fold.
  - intros resultSteps rule Hrule Hm. unfold LegacySummary.aggregate.
    destruct (Legacy.getTestSteps resultSteps) as [|d ds]; [exact Hm|].
    destruct (errors rd) as [errs|]; [|exact Hm].
    now apply legacy_inherited_fold.
Qed.

Lemma X14_legacy_aggregate_witness :
  LegacySummary.rule_count
    (LegacySummary.aggregate (Some Examples.menu_trace)
       Examples.contrast_payload ∅) "color-contrast"
  = 3%Z.
Proof.
  rewrite (proj1 (proj2 (proj2 (proj2
             (X14_legacy_aggregate Examples.contrast_payload ∅))))
             Examples.menu_trace [Examples.contrast_error] "color-contrast");
    [reflexivity | | reflexivity | reflexivity].
  apply List.Exists_cons_tl. apply List.Exists_cons_hd. reflexivity.
Defined.

(** The legacy aggregate after a payload with three targets for the rule
    [constructor]: no entry. *)
Example legacy_constructor_rule :
  LegacySummary.aggregate (Some Examples.menu_trace)
    Examples.constructor_payload ∅ = ∅.
Proof. vm_compute. reflexivity. Qed.

(** ** Copies of attachments *)

Section Classes.

Import Copies.

Lemma ends_with_app (suffix p : string) : ends_with suffix (p +:+ suffix) = true.
Proof.
  induction p as [|c p IH].
  - change ("" +:+ suffix) with suffix.
    destruct suffix; cbn [ends_with]; [reflexivity|].
    now rewrite String.eqb_refl.
  - change (String c p +:+ suffix) with (String c (p +:+ suffix)).
    cbn [ends_with]. rewrite IH. now destruct (String.eqb _ suffix).
Qed.

Lemma ends_with_split (suffix s : string) :
  ends_with suffix s = true -> exists p, s = p +:+ suffix.
Proof.
  induction s as [|c s IH]; cbn [ends_with].
  - destruct (String.eqb_spec "" suffix) as [<-|]; [|discriminate].
    now exists "".
  - destruct (String.eqb_spec (String c s) suffix) as [<-|].
    + now exists "".
    + intros H. destruct (IH H) as [p ->]. now exists (String c p).
Qed.

End Classes.

Section ClassesOfAttachments.

Import Copies.

Lemma png_not_reserved (n : string) :
  ends_with ".png" n = true ->
  String.eqb n "screenshot" = false /\ String.eqb n "video" = false
  /\ String.eqb n "A11y" = false.
Proof.
  intros H. repeat split.
  - destruct (String.eqb_spec n "screenshot") as [->|]; [|reflexivity].
    vm_compute in H. discriminate.
  - destruct (String.eqb_spec n "video") as [->|]; [|reflexivity].
    vm_compute in H. discriminate.
  - destruct (String.eqb_spec n "A11y") as [->|]; [|reflexivity].
    vm_compute in H. discriminate.
Qed.

Lemma one_class (a : Attachment) :
  (one_if (Assets.is_video a) + one_if (is_a11y a) + one_if (is_screenshot a)
   + one_if (is_png a) + one_if (is_other a) = 1)%nat.
Proof.
  unfold Assets.is_video, is_a11y, is_screenshot, is_png, is_other, is_excluded.
  destruct (ends_with ".png" (att_name a)) eqn:E.
  - destruct (png_not_reserved _ E) as (-> & -> & ->). reflexivity.
  - destruct (String.eqb_spec (att_name a) "video") as [Hv|Hv].
    { rewrite Hv. reflexivity. }
    destruct (String.eqb_spec (att_name a) "A11y") as [Ha|Ha].
    { rewrite Ha. reflexivity. }
    destruct (String.eqb_spec (att_name a) "screenshot") as [Hs|Hs];
      reflexivity.
Qed.

Lemma count_classes (f g : Attachment -> nat) (l : list Attachment) :
  list_sum (List.map (fun a => f a + g a)%nat l)
  = (list_sum (List.map f l) + list_sum (List.map g l))%nat.
Proof.
  unfold list_sum.
  induction l as [|a l IH]; cbn [List.map fold_right]; [reflexivity|].
  rewrite IH. lia.
Qed.

Lemma count_filter (f : Attachment -> bool) (l : list Attachment) :
  list_sum (List.map (fun a => one_if (f a)) l) = length (List.filter f l).
Proof.
  unfold list_sum.
  induction l as [|a l IH]; cbn [List.map fold_right List.filter];
    [reflexivity|].
  rewrite IH. destruct (f a); reflexivity.
Qed.

(** X15. Every attachment of a result is taken by exactly one of the five
    readers: the video copy (name [video]), the reader of payloads (name
    [A11y]), [copyScreenshots] (name [screenshot]), [copyPngAttachments]
    (names ending in [.png]) and [copyAllOtherAttachments] (the rest); so
    the five selections of a list have its length together.  The second
    test of the PNG filter never decides: a name ending in [.png] is none of
    the three reserved names. *)
Theorem X15_attachment_classes (attachments : list Attachment) :
  (forall a : Attachment,
      (one_if (Assets.is_video a) + one_if (Copies.is_a11y a)
       + one_if (Copies.is_screenshot a) + one_if (Copies.is_png a)
       + one_if (Copies.is_other a) = 1)%nat)
  /\ (length (List.filter Assets.is_video attachments)
      + length (List.filter Copies.is_a11y attachments)
      + length (List.filter Copies.is_screenshot attachments)
      + length (List.filter Copies.is_png attachments)
      + length (List.filter Copies.is_other attachments)
      = length attachments)%nat
  /\ (forall a : Attachment,
        Copies.is_png a = Copies.ends_with ".png" (att_name a))
  /\ (forall a : Attachment,
        Copies.is_png a = true <->
        exists p, att_name a = p +:+ ".png").
Proof.
  split; [exact one_class|]. split; [|split].
  - rewrite <- !count_filter, <- !count_classes.
    erewrite map_ext; [|intros a; apply one_class].
    unfold list_sum.
    induction attachments as [|a l IH]; cbn [List.map fold_right length];
      [reflexivity|].
    now rewrite IH.
  - intros a. unfold is_png.
    destruct (ends_with ".png" (att_name a)) eqn:E; [|reflexivity].
    destruct (png_not_reserved _ E) as (-> & _). reflexivity.
  - intros a. unfold is_png. split.
    + intros H. apply andb_true_iff in H as [H _].
      now apply ends_with_split.
    + intros [p Hp]. pose proof (ends_with_app ".png" p) as E.
      rewrite <- Hp in E. rewrite E.
      destruct (png_not_reserved _ E) as (-> & _). reflexivity.
Qed.

End ClassesOfAttachments.

Section CopyFacts.

Import Copies.

Variable join : string -> string -> string.
Variable basename : string -> string.
Variable mkdir_fails : string -> bool.
Variable copy_fails : string -> string -> bool.
Variable write_fails : string -> bool.
Variable now : nat -> nat.

#[local] Abbreviation step :=
  (Copies.copy_named join basename mkdir_fails copy_fails write_fails).
#[local] Abbreviation stored := (Copies.name_of basename).

Lemma ensure_folder_spec (fs : Fs) (d : string) (fs1 : Fs) :
  ensure_folder mkdir_fails fs d = Some fs1 ->
  files fs1 = files fs /\ dirs fs ⊆ dirs fs1 /\ existsSync fs1 d = true.
Proof.
  unfold ensure_folder. destruct (existsSync fs d) eqn:E.
  - intros [= <-]. split; [reflexivity|]. split; [set_solver | exact E].
  - destruct (mkdir_fails d); [discriminate|]. intros [= <-].
    split; [reflexivity|]. split; [cbn; set_solver|].
    unfold existsSync, add_dir. cbn [dirs files].
    rewrite (bool_decide_eq_true_2 (d ∈ {[d]} ∪ dirs fs)); [|set_solver].
    apply orb_true_r.
Qed.

Lemma exists_file (fs : Fs) (p c : string) :
  files fs !! p = Some c -> existsSync fs p = true.
Proof.
  intros H. unfold existsSync.
  rewrite (bool_decide_eq_true_2 (is_Some (files fs !! p))); [reflexivity|].
  now exists c.
Qed.

Lemma no_file (fs : Fs) (p : string) :
  existsSync fs p = false -> files fs !! p = None.
Proof.
  intros H. destruct (files fs !! p) as [c|] eqn:E; [|reflexivity].
  rewrite (exists_file fs p c E) in H. discriminate.
Qed.

Lemma copyToFolder_spec (fs : Fs) (d src : string) (fn : option string)
    (fs' : Fs) (name : string) :
  copyToFolder join basename mkdir_fails copy_fails fs d src fn
    = Some (fs', name) ->
  dirs fs ⊆ dirs fs'
  /\ match (if Js.truthy src then files fs !! src else None) with
     | Some c =>
         name = Js.or_default fn (basename src)
         /\ files fs' = <[join d name := c]> (files fs)
     | None => name = "" /\ files fs' = files fs
     end.
Proof.
  unfold copyToFolder. destruct (Js.truthy src) eqn:Et; cbn [negb orb].
  - destruct (existsSync fs src) eqn:Ex; cbn [negb].
    + destruct (ensure_folder mkdir_fails fs d) as [fs1|] eqn:E1;
        cbn [mbind option_bind]; [|discriminate].
      destruct (ensure_folder_spec _ _ _ E1) as (Hf & Hd & _).
      unfold copyFileSync. rewrite Hf.
      destruct (files fs !! src) as [c|]; [|discriminate].
      destruct (bool_decide _ || copy_fails _ _); [discriminate|].
      cbn [mbind option_bind]. intros [= <- <-].
      split; [exact Hd|]. split; [reflexivity|].
      unfold set_file. cbn [files]. now rewrite Hf.
    + intros [= <- <-]. rewrite (no_file _ _ Ex).
      split; [set_solver|]. now split.
  - intros [= <- <-]. split; [set_solver|]. now split.
Qed.

Lemma writeBuffer_spec (fs : Fs) (d fileName buffer : string) (fs' : Fs)
    (name : string) :
  writeBuffer join mkdir_fails write_fails fs d fileName buffer
    = Some (fs', name) ->
  dirs fs ⊆ dirs fs' /\ name = fileName
  /\ files fs' = <[join d fileName := buffer]> (files fs).
Proof.
  unfold writeBuffer.
  destruct (ensure_folder mkdir_fails fs d) as [fs1|] eqn:E1;
    cbn [mbind option_bind]; [|discriminate].
  destruct (ensure_folder_spec _ _ _ E1) as (Hf & Hd & _).
  unfold writeFileSync.
  destruct (bool_decide _ || write_fails _); [discriminate|].
  cbn [mbind option_bind]. intros [= <- <-].
  split; [exact Hd|]. split; [reflexivity|].
  unfold set_file. cbn [files]. now rewrite Hf.
Qed.

Lemma truthy_path_truthy (a : Attachment) (p : string) :
  truthy_path a = Some p -> Js.truthy p = true.
Proof.
  unfold truthy_path. destruct (att_path a) as [q|]; [|discriminate].
  destruct (Js.truthy q) eqn:E; [|discriminate]. now intros [= <-].
Qed.

Lemma copy_named_spec (d : string) (fs : Fs) (a : Attachment) (fs' : Fs)
    (e : option (string * string)) :
  step d fs a = Some (fs', e) ->
  dirs fs ⊆ dirs fs'
  /\ match content_of fs a with
     | Some c =>
         files fs' = <[join d (stored a) := c]> (files fs)
         /\ e = (if Js.truthy (stored a)
                 then Some (stored a, att_name a) else None)
     | None => files fs' = files fs /\ e = None
     end.
Proof.
  unfold copy_named, content_of, name_of.
  destruct (truthy_path a) as [p|] eqn:Ep.
  - destruct (copyToFolder _ _ _ _ fs d p (Some (att_name a)))
      as [[fs1 name]|] eqn:E; cbn [mbind option_bind]; [|discriminate].
    intros [= <- <-].
    destruct (copyToFolder_spec _ _ _ _ _ _ E) as (Hd & H).
    rewrite (truthy_path_truthy _ _ Ep) in H.
    split; [exact Hd|].
    destruct (files fs !! p) as [c|].
    + destruct H as (-> & H). now split.
    + destruct H as (-> & H). now split.
  - destruct (att_body a) as [body|].
    + destruct (writeBuffer _ _ _ fs d (att_name a) body)
        as [[fs1 name]|] eqn:E; cbn [mbind option_bind]; [|discriminate].
      intros [= <- <-].
      destruct (writeBuffer_spec _ _ _ _ _ _ E) as (Hd & -> & H).
      split; [exact Hd|]. now split.
    + intros [= <- <-]. split; [set_solver|]. now split.
Qed.

Lemma map_disk_frame (d : string) (l : list Attachment) :
  forall (fs fs' : Fs) (items : list (option (string * string))),
    map_disk (step d) fs l = Some (fs', items) ->
    forall q : string,
      (forall a, In a l -> join d (stored a) <> q) ->
      files fs' !! q = files fs !! q.
Proof.
  induction l as [|a l IH]; intros fs fs' items H q Hq.
  - cbn in H. now injection H as <- <-.
  - cbn [map_disk] in H.
    destruct (step d fs a) as [[fs1 x]|] eqn:E1;
      cbn [mbind option_bind] in H; [|discriminate].
    destruct (map_disk (step d) fs1 l) as [[fs2 xs]|] eqn:E2;
      cbn [mbind option_bind] in H; [|discriminate].
    injection H as <- <-.
    rewrite (IH _ _ _ E2 q); [|intros b Hb; apply Hq; now right].
    destruct (copy_named_spec _ _ _ _ _ E1) as (_ & H1).
    destruct (content_of fs a) as [c|].
    + destruct H1 as (-> & _). apply lookup_insert_ne. apply Hq. now left.
    + destruct H1 as (-> & _). reflexivity.
Qed.

Lemma map_disk_keeps (d : string) (l : list Attachment) :
  forall (fs fs' : Fs) (items : list (option (string * string))),
    map_disk (step d) fs l = Some (fs', items) ->
    dirs fs ⊆ dirs fs'
    /\ forall q : string,
         is_Some (files fs !! q) -> is_Some (files fs' !! q).
Proof.
  induction l as [|a l IH]; intros fs fs' items H.
  - cbn in H. injection H as <- <-. split; [set_solver | auto].
  - cbn [map_disk] in H.
    destruct (step d fs a) as [[fs1 x]|] eqn:E1;
      cbn [mbind option_bind] in H; [|discriminate].
    destruct (map_disk (step d) fs1 l) as [[fs2 xs]|] eqn:E2;
      cbn [mbind option_bind] in H; [|discriminate].
    injection H as <- <-.
    destruct (IH _ _ _ E2) as (Hd2 & Hk2).
    destruct (copy_named_spec _ _ _ _ _ E1) as (Hd1 & H1).
    split; [now transitivity (dirs fs1)|]. intros q Hq. apply Hk2.
    destruct (content_of fs a) as [c|].
    + destruct H1 as (-> & _).
      destruct (decide (join d (stored a) = q)) as [->|Hne].
      * rewrite lookup_insert_eq. now eexists.
      * now rewrite lookup_insert_ne.
    + destruct H1 as (-> & _). exact Hq.
Qed.

(** What the callback returned for each attachment: nothing, or the
    attachment's name with the name of a file which is on the disk at the
    end. *)
Lemma map_disk_items (d : string) (l : list Attachment) :
  forall (fs fs' : Fs) (items : list (option (string * string))),
    map_disk (step d) fs l = Some (fs', items) ->
    Forall2 (fun a e =>
               e = None
               \/ (e = Some (stored a, att_name a) /\ stored a <> ""
                   /\ is_Some (files fs' !! join d (stored a))))
            l items.
Proof.
  induction l as [|a l IH]; intros fs fs' items H.
  - cbn in H. injection H as <- <-. constructor.
  - cbn [map_disk] in H.
    destruct (step d fs a) as [[fs1 x]|] eqn:E1;
      cbn [mbind option_bind] in H; [|discriminate].
    destruct (map_disk (step d) fs1 l) as [[fs2 xs]|] eqn:E2;
      cbn [mbind option_bind] in H; [|discriminate].
    injection H as <- <-.
    constructor; [|exact (IH _ _ _ E2)].
    destruct (copy_named_spec _ _ _ _ _ E1) as (_ & H1).
    destruct (content_of fs a) as [c|].
    + destruct H1 as (Hf & ->).
      destruct (Js.truthy (stored a)) eqn:Et; [right | now left].
      split; [reflexivity|]. split.
      * intros Hn. rewrite Hn in Et. discriminate.
      * apply (proj2 (map_disk_keeps _ _ _ _ _ E2)).
        rewrite Hf, lookup_insert_eq. now eexists.
    + destruct H1 as (_ & ->). now left.
Qed.

Lemma In_non_null {X : Type} (l : list (option X)) (x : X) :
  In x (non_null l) <-> In (Some x) l.
Proof.
  unfold non_null. induction l as [|o l IH]; cbn [List.map List.concat].
  - reflexivity.
  - rewrite in_app_iff, IH. destruct o as [y|]; cbn [In].
    + split.
      * intros [[Hy|Hf]|H]; [left; now f_equal | contradiction | now right].
      * intros [Hy|H]; [left; left; congruence | now right].
    + split.
      * intros [Hf|H]; [contradiction | now right].
      * intros [Hy|H]; [discriminate | now right].
Qed.

Lemma stored_png (a : Attachment) :
  is_png a = true -> stored a = att_name a.
Proof.
  intros H. unfold name_of. destruct (truthy_path a) as [p|]; [|reflexivity].
  unfold is_png in H. apply andb_true_iff in H as [H _].
  unfold Js.or_default. destruct (att_name a) as [|c r]; [|reflexivity].
  vm_compute in H. discriminate.
Qed.

Lemma run_of_kind (k : Kind) (fs : Fs) (attachments : list Attachment)
    (d : string) (fs' : Fs) (entries : list (string * string)) :
  copy_kind join basename mkdir_fails copy_fails write_fails k fs attachments d
    = Some (fs', entries) ->
  exists items,
    map_disk (step d) fs (List.filter (selects k) attachments)
      = Some (fs', items)
    /\ entries = non_null items.
Proof.
  destruct k; unfold copy_kind, copyPngAttachments, copyAllOtherAttachments,
    selects.
  - destruct (map_disk _ fs _) as [[fs1 items]|]; cbn [mbind option_bind];
      [|discriminate].
    intros [= <- <-]. now exists items.
  - destruct (map_disk _ fs _) as [[fs1 items]|]; cbn [mbind option_bind];
      [|discriminate].
    intros [= <- <-]. now exists items.
Qed.

Lemma items_sublist (l : list Attachment)
    (items : list (option (string * string))) (P : Attachment -> Prop) :
  Forall2 (fun a e => e = None \/ (e = Some (stored a, att_name a) /\ P a))
          l items ->
  sublist (List.map snd (non_null items)) (List.map att_name l).
Proof.
  unfold non_null.
  induction 1 as [|a e l items H _ IH]; cbn [List.map List.concat].
  - constructor.
  - destruct H as [->|(-> & _)]; cbn [app List.map snd].
    + now apply sublist_cons.
    + now apply sublist_skip.
Qed.

Lemma map_disk_app {X : Type} (f : Fs -> Attachment -> option (Fs * X))
    (l1 l2 : list Attachment) :
  forall (fs fs' : Fs) (items : list X),
    map_disk f fs (l1 ++ l2) = Some (fs', items) ->
    exists fs1 i1 i2,
      map_disk f fs l1 = Some (fs1, i1)
      /\ map_disk f fs1 l2 = Some (fs', i2)
      /\ items = (i1 ++ i2)%list.
Proof.
  induction l1 as [|a l1 IH]; intros fs fs' items H.
  - exists fs, [], items. now repeat split.
  - cbn [app map_disk] in H |- *.
    destruct (f fs a) as [[fs1 x]|]; cbn [mbind option_bind] in H |- *;
      [|discriminate].
    destruct (map_disk f fs1 (l1 ++ l2)) as [[fs2 xs]|] eqn:E2;
      cbn [mbind option_bind] in H; [|discriminate].
    injection H as <- <-.
    destruct (IH _ _ _ E2) as (fsm & i1 & i2 & H1 & H2 & ->).
    exists fsm, (x :: i1), i2. rewrite H1. cbn [mbind option_bind].
    now repeat split.
Qed.

Lemma content_keeps (fs fs1 : Fs) (a : Attachment) :
  (forall q, is_Some (files fs !! q) -> is_Some (files fs1 !! q)) ->
  is_Some (content_of fs a) -> is_Some (content_of fs1 a).
Proof.
  unfold content_of. destruct (truthy_path a) as [p|]; auto.
Qed.

(** Every attachment whose content is there at the start, and which is
    stored under a name that is not empty, is listed. *)
Lemma map_disk_complete (d : string) (l : list Attachment) :
  forall (fs fs' : Fs) (items : list (option (string * string))),
    map_disk (step d) fs l = Some (fs', items) ->
    forall a, In a l -> is_Some (content_of fs a) -> stored a <> "" ->
      In (Some (stored a, att_name a)) items.
Proof.
  induction l as [|b l IH]; intros fs fs' items H a Ha Hc Hn; [destruct Ha|].
  cbn [map_disk] in H.
  destruct (step d fs b) as [[fs1 x]|] eqn:E1;
    cbn [mbind option_bind] in H; [|discriminate].
  destruct (map_disk (step d) fs1 l) as [[fs2 xs]|] eqn:E2;
    cbn [mbind option_bind] in H; [|discriminate].
  injection H as <- <-.
  destruct Ha as [->|Ha].
  - left. destruct (copy_named_spec _ _ _ _ _ E1) as (_ & H1).
    destruct Hc as [c Hc]. rewrite Hc in H1. destruct H1 as (_ & ->).
    destruct (stored a); [congruence | reflexivity].
  - right. apply (IH _ _ _ E2 a Ha); [|exact Hn].
    apply (content_keeps fs); [|exact Hc].
    assert (Hone : map_disk (step d) fs [b] = Some (fs1, [x])).
    { cbn [map_disk]. rewrite E1. reflexivity. }
    exact (proj2 (map_disk_keeps _ _ _ _ _ Hone)).
Qed.

Lemma Forall2_In_r {A B : Type} (R : A -> B -> Prop) (l : list A)
    (m : list B) (y : B) :
  Forall2 R l m -> In y m -> exists x, In x l /\ R x y.
Proof.
  induction 1 as [|x z l m H _ IH]; intros Hy; [destruct Hy|].
  destruct Hy as [->|Hy].
  - exists x. split; [now left | exact H].
  - destruct (IH Hy) as (x' & Hx & HR). exists x'. split; [now right | exact HR].
Qed.

#[local] Abbreviation shot :=
  (Copies.copy_shot join basename mkdir_fails copy_fails write_fails now).

Lemma insert_keeps (m : gmap string string) (k c q : string) :
  is_Some (m !! q) -> is_Some (<[k := c]> m !! q).
Proof.
  intros H. destruct (decide (k = q)) as [->|Hne].
  - rewrite lookup_insert_eq. now eexists.
  - now rewrite lookup_insert_ne.
Qed.

Lemma copy_shot_spec (d : string) (fs : Fs) (calls : nat) (a : Attachment)
    (fs' : Fs) (calls' : nat) (name : string) :
  shot d (fs, calls) a = Some ((fs', calls'), name) ->
  (forall q, is_Some (files fs !! q) -> is_Some (files fs' !! q))
  /\ (calls <= calls')%nat
  /\ (name = "" \/ is_Some (files fs' !! join d name))
  /\ (name = ""
      \/ (exists p, att_path a = Some p /\ name = basename p)
      \/ (exists k, (calls <= k < calls')%nat
             /\ name = "screenshot-" +:+ pretty (now k) +:+ ".png")).
Proof.
  unfold copy_shot. destruct (truthy_path a) as [p|] eqn:Ep.
  - destruct (copyToFolder _ _ _ _ fs d p None) as [[fs1 n]|] eqn:E;
      cbn [mbind option_bind]; [|discriminate].
    intros [= <- <- <-].
    destruct (copyToFolder_spec _ _ _ _ _ _ E) as (_ & H).
    rewrite (truthy_path_truthy _ _ Ep) in H.
    destruct (files fs !! p) as [c|].
    + destruct H as (Hn & Hf). cbn [Js.or_default] in Hn.
      split; [|split; [lia|split]].
      * intros q Hq. rewrite Hf. now apply insert_keeps.
      * right. rewrite Hf, lookup_insert_eq. now eexists.
      * right. left. exists p. split; [|exact Hn].
        unfold truthy_path in Ep. destruct (att_path a) as [q|];
          [|discriminate].
        destruct (Js.truthy q); [|discriminate]. congruence.
    + destruct H as (-> & Hf). rewrite Hf.
      split; [auto|]. split; [lia|]. split; now left.
  - destruct (att_body a) as [body|].
    + destruct (writeBuffer _ _ _ fs d _ body) as [[fs1 n]|] eqn:E;
        cbn [mbind option_bind]; [|discriminate].
      intros [= <- <- <-].
      destruct (writeBuffer_spec _ _ _ _ _ _ E) as (_ & -> & Hf).
      split; [|split; [lia|split]].
      * intros q Hq. rewrite Hf. now apply insert_keeps.
      * right. rewrite Hf, lookup_insert_eq. now eexists.
      * right. right. exists calls. split; [lia | reflexivity].
    + intros [= <- <- <-]. split; [auto|]. split; [lia|]. split; now left.
Qed.

Lemma map_shots_spec (d : string) (l : list Attachment) :
  forall (fs : Fs) (calls : nat) (fs' : Fs) (calls' : nat)
         (names : list string),
    map_shots join basename mkdir_fails copy_fails write_fails now d
      (fs, calls) l = Some ((fs', calls'), names) ->
    (forall q, is_Some (files fs !! q) -> is_Some (files fs' !! q))
    /\ (calls <= calls')%nat
    /\ forall n, In n names ->
         (n = "" \/ is_Some (files fs' !! join d n))
         /\ (n = ""
             \/ (exists a p, In a l /\ att_path a = Some p
                            /\ n = basename p)
             \/ (exists k, (calls <= k < calls')%nat
                    /\ n = "screenshot-" +:+ pretty (now k) +:+ ".png")).
Proof.
  induction l as [|a l IH]; intros fs calls fs' calls' names H.
  - cbn in H. injection H as <- <- <-.
    split; [auto|]. split; [lia|]. intros n [].
  - cbn [map_shots] in H.
    destruct (shot d (fs, calls) a) as [[[fs1 c1] x]|] eqn:E1;
      cbn [mbind option_bind] in H; [|discriminate].
    destruct (map_shots _ _ _ _ _ _ d (fs1, c1) l) as [[[fs2 c2] xs]|] eqn:E2;
      cbn [mbind option_bind] in H; [|discriminate].
    injection H as <- <- <-.
    destruct (copy_shot_spec _ _ _ _ _ _ _ E1) as (Hk1 & Hc1 & Hx & Hn).
    destruct (IH _ _ _ _ _ E2) as (Hk2 & Hc2 & Hxs).
    split; [auto|]. split; [lia|].
    intros n [<-|Hin].
    + split.
      * destruct Hx as [Hx|Hx]; [now left | right; auto].
      * destruct Hn as [Hn|[(p & Hp & Hn)|(k & Hk & Hn)]].
        -- now left.
        -- right. left. exists a, p. split; [now left | now split].
        -- right. right. exists k. split; [lia | exact Hn].
    + destruct (Hxs n Hin) as (Hy & Hm). split; [exact Hy|].
      destruct Hm as [Hm|[(b & p & Hb & Hp & Hm)|(k & Hk & Hm)]].
      * now left.
      * right. left. exists b, p. split; [now right | now split].
      * right. right. exists k. split; [lia | exact Hm].
Qed.

(** X16. What the three copy functions return is on the disk: when
    [copyPngAttachments] or [copyAllOtherAttachments] returns, each entry
    has the name of a selected attachment, in the order of the attachments,
    and a path that is not empty and names a file of the folder; for a PNG
    the path is the attachment's name.  Every selected attachment whose
    file or body is there at the start is listed, unless it is stored under
    the empty name.  The names that [copyScreenshots] returns are not empty
    and name files of the folder: the base name of an attachment's path, or
    [screenshot-<Date.now()>.png]. *)
Theorem X16_listed_copies_exist (k : Copies.Kind) (fs : Copies.Fs)
    (attachments : list Attachment) (d : string) :
  (forall fs' entries,
      Copies.copy_kind join basename mkdir_fails copy_fails write_fails
        k fs attachments d = Some (fs', entries) ->
      sublist (List.map snd entries)
        (List.map att_name (List.filter (Copies.selects k) attachments))
      /\ (forall path name, In (path, name) entries ->
            path <> ""
            /\ is_Some (Copies.files fs' !! join d path)
            /\ (exists a, In a attachments /\ Copies.selects k a = true
                   /\ att_name a = name
                   /\ path = Copies.name_of basename a)
            /\ (k = Copies.Png -> path = name))
      /\ (forall a, In a attachments -> Copies.selects k a = true ->
            is_Some (Copies.content_of fs a) ->
            Copies.name_of basename a <> "" ->
            In (Copies.name_of basename a, att_name a) entries))
  /\ (forall calls fs' calls' names,
        Copies.copyScreenshots join basename mkdir_fails copy_fails
          write_fails now fs calls attachments d
          = Some ((fs', calls'), names) ->
        forall n, In n names ->
          n <> ""
          /\ is_Some (Copies.files fs' !! join d n)
          /\ ((exists a p, In a attachments
                   /\ Copies.is_screenshot a = true
                   /\ att_path a = Some p /\ n = basename p)
              \/ (exists j, (calls <= j < calls')%nat
                     /\ n = "screenshot-" +:+ pretty (now j) +:+ ".png"))).
Proof.
  split.
  - intros fs' entries H.
    destruct (run_of_kind _ _ _ _ _ _ H) as (items & Hrun & ->).
    pose proof (map_disk_items _ _ _ _ _ Hrun) as Hitems.
    split; [|split].
    + apply (items_sublist _ _ (fun a => stored a <> ""
               /\ is_Some (files fs' !! join d (stored a)))).
      exact Hitems.
    + intros path name Hin. apply In_non_null in Hin.
      destruct (Forall2_In_r _ _ _ _ Hitems Hin) as (a & Ha & [Hn|(He & Hne & Hs)]);
        [discriminate|].
      injection He as -> ->. apply filter_In in Ha as [Ha Hsel].
      split; [exact Hne|]. split; [exact Hs|]. split.
      * exists a. now repeat split.
      * intros ->. now apply stored_png.
    + intros a Ha Hsel Hc Hn. apply In_non_null.
      apply (map_disk_complete _ _ _ _ _ Hrun a); [|exact Hc|exact Hn].
      apply filter_In. now split.
  - intros calls fs' calls' names H n Hn.
    unfold copyScreenshots in H.
    destruct (map_shots _ _ _ _ _ _ d (fs, calls) _) as [[[fs1 c1] ns]|] eqn:E;
      cbn [mbind option_bind] in H; [|discriminate].
    injection H as <- <- <-.
    apply filter_In in Hn as [Hn Hne].
    destruct (map_shots_spec _ _ _ _ _ _ _ E) as (_ & _ & Hall).
    destruct (Hall n Hn) as (Hx & Hm).
    assert (Hn0 : n <> "").
    { intros ->. discriminate. }
    split; [exact Hn0|]. split; [now destruct Hx|].
    destruct Hm as [Hm|[(a & p & Ha & Hp & Hm)|Hm]]; [contradiction| |now right].
    left. apply filter_In in Ha as [Ha Hsel]. exists a, p. now repeat split.
Qed.

(** X17. The last copy wins: when [copyPngAttachments] or
    [copyAllOtherAttachments] returns, the file of a selected attachment
    holds that attachment's content (its body, or the content its file had
    at the start), provided that no selected attachment after it is stored
    under the same path and none before it is stored over its source.  So
    of several attachments of one name (the screenshots of two scans of one
    rule in one test) the folder keeps the last one only. *)
Theorem X17_last_copy_wins (k : Copies.Kind) (fs fs' : Copies.Fs)
    (attachments : list Attachment) (d : string)
    (entries : list (string * string))
    (pre post : list Attachment) (a : Attachment) (c : string) :
  Copies.copy_kind join basename mkdir_fails copy_fails write_fails
    k fs attachments d = Some (fs', entries) ->
  List.filter (Copies.selects k) attachments = (pre ++ a :: post)%list ->
  Copies.content_of fs a = Some c ->
  (forall b p, In b pre -> Copies.truthy_path a = Some p ->
     join d (Copies.name_of basename b) <> p) ->
  (forall b, In b post ->
     join d (Copies.name_of basename b)
     <> join d (Copies.name_of basename a)) ->
  Copies.holds fs' (join d (Copies.name_of basename a)) c
  /\ forall b cb, In b pre ->
       Copies.name_of basename b = Copies.name_of basename a ->
       Copies.holds fs' (join d (Copies.name_of basename b)) cb -> cb = c.
Proof.
  intros H Hsplit Hc Hpre Hpost.
  destruct (run_of_kind _ _ _ _ _ _ H) as (items & Hrun & ->).
  rewrite Hsplit in Hrun.
  destruct (map_disk_app _ _ _ _ _ _ Hrun) as (fs1 & i1 & i2 & H1 & H2 & ->).
  assert (Hc1 : content_of fs1 a = Some c).
  { unfold content_of in Hc |- *.
    destruct (truthy_path a) as [p|] eqn:Ep; [|exact Hc].
    rewrite (map_disk_frame _ _ _ _ _ H1 p); [exact Hc|].
    intros b Hb. now apply Hpre. }
  cbn [map_disk] in H2.
  destruct (step d fs1 a) as [[fs2 x]|] eqn:Ea;
    cbn [mbind option_bind] in H2; [|discriminate].
  destruct (map_disk (step d) fs2 post) as [[fs3 xs]|] eqn:E3;
    cbn [mbind option_bind] in H2; [|discriminate].
  injection H2 as <- <-.
  destruct (copy_named_spec _ _ _ _ _ Ea) as (_ & Hs).
  rewrite Hc1 in Hs. destruct Hs as (Hf & _).
  assert (Hholds : holds fs3 (join d (stored a)) c).
  { unfold holds. rewrite (map_disk_frame _ _ _ _ _ E3 _ Hpost).
    rewrite Hf. apply lookup_insert_eq. }
  split; [exact Hholds|].
  intros b cb _ Hb Hcb. unfold holds in *. rewrite Hb in Hcb. congruence.
Qed.

End CopyFacts.

Lemma X16_listed_copies_exist_witness :
  match Copies.copyPngAttachments Js.path_join Js.basename
          Copies.no_failure1 Copies.no_failure2 Copies.no_failure1
          Copies.empty_disk Copies.two_shots "steps-report/1-cart-page" with
  | Some (fs', entries) =>
      In ("a11y-image-alt-0.png", "a11y-image-alt-0.png") entries
      /\ forall path name, In (path, name) entries ->
           is_Some (Copies.files fs'
                      !! Js.path_join "steps-report/1-cart-page" path)
  | None => False
  end.
Proof.
  destruct (Copies.copyPngAttachments Js.path_join Js.basename
              Copies.no_failure1 Copies.no_failure2 Copies.no_failure1
              Copies.empty_disk Copies.two_shots "steps-report/1-cart-page")
    as [[fs' entries]|] eqn:E.
  - destruct (proj1 (X16_listed_copies_exist Js.path_join Js.basename
                       Copies.no_failure1 Copies.no_failure2
                       Copies.no_failure1 (fun n => n) Copies.Png
                       Copies.empty_disk Copies.two_shots
                       "steps-report/1-cart-page") fs' entries E)
      as (_ & Hin & Hall).
    split.
    + apply (Hall {| att_name := "a11y-image-alt-0.png"; att_path := None;
                     att_body := Some "first" |}).
      * now left.
      * reflexivity.
      * now exists "first".
      * discriminate.
    + intros path name H. now apply (Hin path name).
  - assert (H : is_Some (Copies.copyPngAttachments Js.path_join Js.basename
              Copies.no_failure1 Copies.no_failure2 Copies.no_failure1
              Copies.empty_disk Copies.two_shots "steps-report/1-cart-page"))
      by (vm_compute; now eexists).
    rewrite E in H. now destruct H.
Defined.

Lemma X17_last_copy_wins_witness :
  match Copies.copyPngAttachments Js.path_join Js.basename
          Copies.no_failure1 Copies.no_failure2 Copies.no_failure1
          Copies.empty_disk Copies.two_shots "steps-report/1-cart-page" with
  | Some (fs', entries) =>
      Copies.holds fs' "steps-report/1-cart-page/a11y-image-alt-0.png"
        "second"
      /\ entries = [("a11y-image-alt-0.png", "a11y-image-alt-0.png");
                    ("a11y-image-alt-0.png", "a11y-image-alt-0.png")]
  | None => False
  end.
Proof.
  destruct (Copies.copyPngAttachments Js.path_join Js.basename
              Copies.no_failure1 Copies.no_failure2 Copies.no_failure1
              Copies.empty_disk Copies.two_shots "steps-report/1-cart-page")
    as [[fs' entries]|] eqn:E.
  - split.
    + refine (proj1 (X17_last_copy_wins Js.path_join Js.basename
               Copies.no_failure1 Copies.no_failure2 Copies.no_failure1
               Copies.Png Copies.empty_disk fs' Copies.two_shots
               "steps-report/1-cart-page" entries
               [ {| att_name := "a11y-image-alt-0.png"; att_path := None;
                    att_body := Some "first" |} ]
               []
               {| att_name := "a11y-image-alt-0.png"; att_path := None;
                  att_body := Some "second" |}
               "second" E _ _ _ _)).
      * reflexivity.
      * reflexivity.
      * intros b p _ Hp. discriminate Hp.
      * intros b [].
    + assert (H : option_map snd (Copies.copyPngAttachments Js.path_join Js.basename
              Copies.no_failure1 Copies.no_failure2 Copies.no_failure1
              Copies.empty_disk Copies.two_shots "steps-report/1-cart-page")
                  = Some [("a11y-image-alt-0.png", "a11y-image-alt-0.png");
                          ("a11y-image-alt-0.png", "a11y-image-alt-0.png")])
        by (vm_compute; reflexivity).
      rewrite E in H. now injection H.
  - assert (H : is_Some (Copies.copyPngAttachments Js.path_join Js.basename
              Copies.no_failure1 Copies.no_failure2 Copies.no_failure1
              Copies.empty_disk Copies.two_shots "steps-report/1-cart-page"))
      by (vm_compute; now eexists).
    rewrite E in H. now destruct H.
Defined.

Section VideoName.

Lemma ready_candidates_In (fs : Assets.Fs) (cands : list string) (t : nat)
    (p : string) (n : Z) :
  In (p, n) (Assets.ready_candidates fs cands t) -> In p cands.
Proof.
  revert t. induction cands as [|c cands IH]; intros t;
    cbn [Assets.ready_candidates]; [intros []|].
  destruct (Assets.poll fs c Assets.max_attempts t) as [ok t'].
  destruct ok; [|intros H; right; now apply IH with t'].
  destruct (Assets.statSize fs t' c) as [m|];
    [|intros H; right; now apply IH with t'].
  intros [[= -> _]|H]; [now left | right; now apply IH with t'].
Qed.

Lemma paths_of_In (l : list Attachment) (p : string) :
  In p (Assets.paths_of l) ->
  exists a, In a l /\ att_path a = Some p /\ Js.truthy p = true.
Proof.
  unfold Assets.paths_of.
  induction l as [|a l IH]; cbn [List.map List.concat]; [intros []|].
  rewrite in_app_iff. intros [H|H].
  - exists a. destruct (att_path a) as [q|]; [|destruct H].
    destruct (Js.truthy q) eqn:E; [|destruct H].
    destruct H as [<-|[]]. now repeat split; [left|..].
  - destruct (IH H) as (b & Hb & Hp). exists b. split; [now right | exact Hp].
Qed.

(** X18. Whatever [path.basename] computes, the name that [copyTestVideo]
    returns is empty or the base name of the path of an attachment named
    [video]; and it does not depend on whether the copy succeeds: when
    creating the folder or copying throws, the name returned is the one a
    successful copy returns. *)
Theorem X18_video_name (basename : string -> string) (fs : Assets.Fs)
    (copy_throws : string -> bool) (attachments : list Attachment) :
  let v := Assets.copyTestVideoWith basename fs copy_throws attachments in
  (v = ""
   \/ exists a p, In a attachments /\ att_name a = "video"
                  /\ att_path a = Some p /\ v = basename p)
  /\ v = Assets.copyTestVideoWith basename fs (fun _ => false) attachments
  /\ Assets.copyTestVideoWith Js.basename fs copy_throws attachments
     = Assets.copyTestVideo fs copy_throws attachments.
Proof.
  cbn zeta.
  assert (Hdep : Assets.copyTestVideoWith basename fs copy_throws attachments
                 = Assets.copyTestVideoWith basename fs (fun _ => false)
                     attachments).
  { unfold Assets.copyTestVideoWith.
    destruct (Assets.bestVideo (Assets.select_video fs attachments))
      as [best|]; [|reflexivity].
    destruct (Js.truthy best); [|reflexivity].
    unfold Assets.copyToFolderWith.
    destruct (negb (Js.truthy best) || negb _); [reflexivity|].
    destruct (copy_throws best); reflexivity. }
  assert (Hor :
    Assets.copyTestVideoWith basename fs (fun _ => false) attachments = ""
    \/ exists a p, In a attachments /\ att_name a = "video"
         /\ att_path a = Some p
         /\ Assets.copyTestVideoWith basename fs (fun _ => false) attachments
            = basename p).
  { unfold Assets.copyTestVideoWith.
    destruct (Assets.bestVideo (Assets.select_video fs attachments))
      as [best|] eqn:Eb; [|now left].
    destruct (Js.truthy best); [|now left].
    unfold Assets.copyToFolderWith.
    destruct (negb (Js.truthy best) || negb _); [now left|].
    cbn [Js.or_default]. right.
    pose proof (fold_consider fs (List.filter Assets.is_video attachments)
                  {| Assets.bestVideo := None; Assets.maxSize := (-1)%Z;
                     Assets.now := 0 |}) as Hfold.
    cbn zeta in Hfold.
    cbn [Assets.bestVideo Assets.maxSize Assets.now] in Hfold.
    fold (Assets.select_video fs attachments) in Hfold.
    destruct (pick_fold_max
                (Assets.ready_candidates fs
                   (Assets.paths_of (List.filter Assets.is_video attachments))
                   0) (None, (-1)%Z)) as (_ & _ & [Heq|(p & Hp & Hin)]).
    - rewrite <- Hfold in Heq. injection Heq as Heq _. congruence.
    - rewrite <- Hfold in Hp, Hin. cbn [fst snd] in Hp, Hin.
      rewrite Eb in Hp. injection Hp as ->.
      apply ready_candidates_In, paths_of_In in Hin.
      destruct Hin as (a & Ha & Hpa & _).
      apply filter_In in Ha as [Ha Hv].
      exists a, p. split; [exact Ha|]. split; [|now split].
      now apply String.eqb_eq. }
  split; [|split; [exact Hdep | reflexivity]].
  rewrite Hdep. exact Hor.
Qed.

(** A directory attached as a video: the name returned is what
    [path.basename] gives for its path. *)
Example video_directory_name :
  Assets.copyTestVideoWith (fun _ => "viddir")
    (fun _ p => if String.eqb p "/tmp/run/viddir/"
                then Assets.Sized 4096 else Assets.Missing)
    (fun _ => true) [Examples.video_at "/tmp/run/viddir/"]
  = "viddir".
Proof. reflexivity. Qed.

End VideoName.

(** ** ANSI colours as HTML *)

Section ReplaceFacts.

Import Renderer.

Lemma replace_char_app (c : ascii) (r a b : string) :
  replace_char c r (a +:+ b) = replace_char c r a +:+ replace_char c r b.
Proof.
  induction a as [|x a IH]; [reflexivity|].
  change (String x a +:+ b) with (String x (a +:+ b)).
  cbn [replace_char]. rewrite IH. destruct (Ascii.eqb x c).
  - now rewrite append_assoc.
  - reflexivity.
Qed.

Lemma escape_app (a b : string) : escape (a +:+ b) = escape a +:+ escape b.
Proof. unfold escape. now rewrite !replace_char_app. Qed.

Lemma escape_char (c : ascii) : escape (String c "") = escape_one c.
Proof.
  unfold escape, escape_one. cbn [replace_char].
  destruct (Ascii.eqb_spec c "&") as [->|Ha]; [reflexivity|].
  cbn [replace_char].
  destruct (Ascii.eqb_spec c "<") as [->|Hl]; [reflexivity|].
  cbn [replace_char].
  destruct (Ascii.eqb_spec c ">") as [->|Hg]; reflexivity.
Qed.

Lemma escape_cons (c : ascii) (s : string) :
  escape (String c s) = escape_one c +:+ escape s.
Proof.
  change (String c s) with (String c "" +:+ s).
  now rewrite escape_app, escape_char.
Qed.

Lemma escape_one_plain (c : ascii) :
  (Ascii.eqb c "&" || Ascii.eqb c "<" || Ascii.eqb c ">") = false ->
  escape_one c = String c "".
Proof.
  unfold escape_one. intros H.
  apply orb_false_iff in H as [H Hg]. apply orb_false_iff in H as [Ha Hl].
  now rewrite Ha, Hl, Hg.
Qed.

(** A code has none of the three characters: it is not changed. *)
Lemma escape_plain (s : string) :
  Shape.all_chars
    (fun y => negb (Ascii.eqb y esc || Ascii.eqb y "&"
                    || Ascii.eqb y "<" || Ascii.eqb y ">")) s = true ->
  escape s = s.
Proof.
  induction s as [|c s IH]; [reflexivity|]. cbn [Shape.all_chars].
  intros H. apply andb_true_iff in H as [Hc Hs].
  rewrite escape_cons, (IH Hs). apply negb_true_iff in Hc.
  rewrite escape_one_plain; [reflexivity|].
  destruct (Ascii.eqb c esc); [discriminate|]. exact Hc.
Qed.

Lemma escape_one_no_esc (c : ascii) :
  Ascii.eqb c esc = false -> no_esc (escape_one c) = true.
Proof.
  intros H. unfold escape_one.
  destruct (Ascii.eqb c "&"); [reflexivity|].
  destruct (Ascii.eqb c "<"); [reflexivity|].
  destruct (Ascii.eqb c ">"); [reflexivity|].
  unfold no_esc. cbn [Shape.all_chars]. now rewrite H.
Qed.

Lemma escape_no_esc (s : string) : no_esc s = true -> no_esc (escape s) = true.
Proof.
  unfold no_esc. induction s as [|c s IH]; [reflexivity|].
  cbn [Shape.all_chars]. intros H. apply andb_true_iff in H as [Hc Hs].
  rewrite escape_cons, all_chars_app, (IH Hs), andb_true_r.
  apply escape_one_no_esc. now apply negb_true_iff.
Qed.

(** The escaped text has no [<] and no [>]. *)
Lemma escape_no_angle (s : string) :
  Shape.all_chars (fun c => negb (Ascii.eqb c "<" || Ascii.eqb c ">"))
    (escape s) = true.
Proof.
  induction s as [|c s IH]; [reflexivity|].
  rewrite escape_cons, all_chars_app, IH, andb_true_r.
  unfold escape_one.
  destruct (Ascii.eqb c "&"); [reflexivity|].
  destruct (Ascii.eqb c "<") eqn:El; [reflexivity|].
  destruct (Ascii.eqb c ">") eqn:Eg; [reflexivity|].
  cbn [Shape.all_chars]. now rewrite El, Eg.
Qed.

Lemma starts_with_app (c s : string) : starts_with c (c +:+ s) = true.
Proof.
  induction c as [|x c IH]; [reflexivity|].
  change (String x c +:+ s) with (String x (c +:+ s)).
  cbn [starts_with]. now rewrite Ascii.eqb_refl, IH.
Qed.

Lemma starts_with_split (c s : string) :
  starts_with c s = true -> exists b, s = c +:+ b.
Proof.
  revert s. induction c as [|x c IH]; intros s.
  - now exists s.
  - destruct s as [|y s]; cbn [starts_with]; [discriminate|].
    intros H. apply andb_true_iff in H as [Hx Hs].
    apply Ascii.eqb_eq in Hx as ->. destruct (IH s Hs) as [b ->].
    now exists b.
Qed.

Lemma starts_with_differs (c c' s : string) :
  differs c c' = true -> starts_with c (c' +:+ s) = false.
Proof.
  revert c'. induction c as [|x c IH]; intros c'; [discriminate|].
  destruct c' as [|y c']; [discriminate|].
  change (String y c' +:+ s) with (String y (c' +:+ s)).
  cbn [differs starts_with]. intros H. apply orb_true_iff in H as [H|H].
  - apply negb_true_iff in H. now rewrite H.
  - rewrite (IH c' H). apply andb_false_r.
Qed.

Lemma is_code_shape (c : string) :
  is_code c = true ->
  exists tl, c = String esc tl /\ no_esc tl = true /\ escape c = c.
Proof.
  destruct c as [|x tl]; [discriminate|]. cbn [is_code]. intros H.
  apply andb_true_iff in H as [Hx Htl]. apply Ascii.eqb_eq in Hx as ->.
  exists tl. split; [reflexivity|]. split.
  - unfold no_esc. revert Htl. apply all_chars_impl.
    intros y Hy. apply negb_true_iff in Hy. apply negb_true_iff.
    now destruct (Ascii.eqb y esc).
  - rewrite escape_cons, (escape_plain _ Htl). reflexivity.
Qed.

Lemma replace_plain (c t a s : string) :
  is_code c = true -> no_esc a = true ->
  replace_from c t 0 (a +:+ s) = a +:+ replace_from c t 0 s.
Proof.
  intros Hc. destruct (is_code_shape c Hc) as (tl & -> & _).
  unfold no_esc. induction a as [|x a IH]; [reflexivity|].
  cbn [Shape.all_chars]. intros H. apply andb_true_iff in H as [Hx Ha].
  change (String x a +:+ s) with (String x (a +:+ s)).
  cbn [replace_from starts_with]. apply negb_true_iff in Hx.
  rewrite Ascii.eqb_sym, Hx. cbn [andb]. now rewrite (IH Ha).
Qed.

Lemma replace_skip (c t x s : string) :
  replace_from c t (String.length x) (x +:+ s) = replace_from c t 0 s.
Proof.
  induction x as [|y x IH]; [destruct s; reflexivity|].
  change (String y x +:+ s) with (String y (x +:+ s)).
  cbn [String.length replace_from]. exact IH.
Qed.

Lemma replace_same (c t s : string) :
  is_code c = true ->
  replace_from c t 0 (c +:+ s) = t +:+ replace_from c t 0 s.
Proof.
  intros Hc. destruct (is_code_shape c Hc) as (tl & -> & _).
  change (String esc tl +:+ s) with (String esc (tl +:+ s)).
  cbn [replace_from].
  change (String esc (tl +:+ s)) with (String esc tl +:+ s).
  rewrite starts_with_app.
  replace (String.length (String esc tl) - 1) with (String.length tl)
    by (cbn [String.length]; lia).
  now rewrite replace_skip.
Qed.

Lemma replace_other (c t c' s : string) :
  is_code c = true -> is_code c' = true -> differs c c' = true ->
  replace_from c t 0 (c' +:+ s) = c' +:+ replace_from c t 0 s.
Proof.
  intros Hc Hc' Hd. pose proof (starts_with_differs c c' s Hd) as Hs.
  destruct (is_code_shape c' Hc') as (tl & -> & Htl & _).
  change (String esc tl +:+ s) with (String esc (tl +:+ s)) in Hs |- *.
  cbn [replace_from]. rewrite Hs.
  now rewrite (replace_plain c t tl s Hc Htl).
Qed.

(** A text that starts with none of the characters of a code after its
    first does so after a pass. *)
Lemma starts_keep (p c t s : string) (h : ascii) (t' : string) :
  t = String h t' ->
  Shape.all_chars (fun y => negb (Ascii.eqb y esc)) p = true ->
  Shape.all_chars (fun y => negb (Ascii.eqb y h)) p = true ->
  is_code c = true ->
  starts_with p s = false ->
  starts_with p (replace_from c t 0 s) = false.
Proof.
  intros -> He Hh Hc. destruct (is_code_shape c Hc) as (tl & -> & _).
  revert s He Hh. induction p as [|y p IH]; intros s He Hh; [discriminate|].
  cbn [Shape.all_chars] in He, Hh.
  apply andb_true_iff in He as [Hy He]. apply andb_true_iff in Hh as [Hyh Hh].
  apply negb_true_iff in Hy, Hyh.
  destruct s as [|x s]; [reflexivity|].
  cbn [replace_from].
  destruct (starts_with (String esc tl) (String x s)) eqn:Es.
  - intros _.
    change (String h t' +:+ ?r) with (String h (t' +:+ r)).
    cbn [starts_with]. now rewrite Hyh.
  - cbn [starts_with]. intros H.
    destruct (Ascii.eqb y x) eqn:Eyx; [|reflexivity].
    cbn [andb] in H |- *. exact (IH s He Hh H).
Qed.

End ReplaceFacts.

Section TableFacts.

Import Renderer.

Variable table : list (string * string).
Hypothesis Hok : table_ok table = true.

Lemma ok_code (e : string * string) : In e table -> is_code (fst e) = true.
Proof.
  intros He. unfold table_ok in Hok.
  rewrite forallb_forall in Hok. specialize (Hok e He).
  apply andb_true_iff in Hok as [H _]. now apply andb_true_iff in H as [H _].
Qed.

Lemma ok_tag (e : string * string) :
  In e table ->
  no_esc (snd e) = true
  /\ exists h t', snd e = String h t'
       /\ forall e', In e' table ->
            Shape.all_chars (fun y => negb (Ascii.eqb y h)) (fst e') = true.
Proof.
  intros He. unfold table_ok in Hok.
  rewrite forallb_forall in Hok. specialize (Hok e He).
  apply andb_true_iff in Hok as [H _]. apply andb_true_iff in H as [_ H].
  unfold is_tag in H. apply andb_true_iff in H as [Hn H].
  split; [exact Hn|]. destruct (snd e) as [|h t']; [discriminate|].
  exists h, t'. split; [reflexivity|].
  rewrite forallb_forall in H. exact H.
Qed.

Lemma ok_pair (e e' : string * string) :
  In e table -> In e' table ->
  e = e' \/ differs (fst e) (fst e') = true.
Proof.
  intros He He'. unfold table_ok in Hok.
  rewrite forallb_forall in Hok. specialize (Hok e He).
  apply andb_true_iff in Hok as [_ H].
  rewrite forallb_forall in H. specialize (H e' He').
  apply orb_true_iff in H as [H|H]; [left | now right].
  unfold same_entry in H. apply andb_true_iff in H as [H1 H2].
  apply String.eqb_eq in H1, H2. destruct e, e'. cbn in *. congruence.
Qed.

Lemma differs_irrefl (x : string) : differs x x = false.
Proof.
  induction x as [|a x IH]; [reflexivity|]. cbn [differs].
  now rewrite Ascii.eqb_refl, IH.
Qed.

Lemma passes_nil (l : list (string * string)) : passes l "" = "".
Proof. induction l as [|e l IH]; [reflexivity | exact IH]. Qed.

Lemma passes_plain (l : list (string * string)) (a : string) :
  (forall e, In e l -> In e table) -> no_esc a = true ->
  forall s, passes l (a +:+ s) = a +:+ passes l s.
Proof.
  intros Hl Ha. induction l as [|e l IH]; intros s; [reflexivity|].
  unfold passes in *. cbn [fold_left]. unfold split_join at 2 4.
  rewrite replace_plain; [|apply ok_code, Hl; now left | exact Ha].
  apply IH. intros e' He'. apply Hl. now right.
Qed.

Lemma passes_code (l : list (string * string)) (e0 : string * string) :
  (forall e, In e l -> In e table) -> In e0 table ->
  forall s,
    passes l (fst e0 +:+ s)
    = (if existsb (same_entry e0) l then snd e0 else fst e0) +:+ passes l s.
Proof.
  intros Hl H0. induction l as [|e l IH]; intros s; [reflexivity|].
  assert (He : In e table) by (apply Hl; now left).
  assert (Hl' : forall e', In e' l -> In e' table)
    by (intros e' He'; apply Hl; now right).
  change (passes (e :: l) ?x)
    with (passes l (replace_from (fst e) (snd e) 0 x)).
  cbn [existsb].
  destruct (ok_pair e e0 He H0) as [->|Hd].
  - rewrite replace_same by now apply ok_code.
    unfold same_entry at 1. rewrite !String.eqb_refl. cbn [andb orb].
    apply passes_plain; [exact Hl'|]. now apply ok_tag.
  - rewrite replace_other; [|now apply ok_code|now apply ok_code|exact Hd].
    rewrite (IH Hl').
    assert (Hs : same_entry e0 e = false).
    { unfold same_entry. destruct (String.eqb_spec (fst e0) (fst e)) as [E|];
        [|reflexivity].
      rewrite E, differs_irrefl in Hd. discriminate. }
    rewrite Hs. reflexivity.
Qed.

Lemma passes_lone (l : list (string * string)) :
  (forall e, In e l -> In e table) ->
  forall s,
    (forall e, In e table -> starts_with (fst e) (String esc s) = false) ->
    passes l (String esc s) = String esc (passes l s).
Proof.
  intros Hl. induction l as [|e l IH]; intros s Hs; [reflexivity|].
  assert (He : In e table) by (apply Hl; now left).
  change (passes (e :: l) ?x)
    with (passes l (replace_from (fst e) (snd e) 0 x)).
  cbn [replace_from]. rewrite (Hs e He).
  apply IH; [intros e' He'; apply Hl; now right|].
  intros e' He'. specialize (Hs e' He').
  destruct (is_code_shape _ (ok_code e' He')) as (tl & Etl & Htl & _).
  rewrite Etl in Hs |- *. cbn [starts_with] in Hs |- *.
  rewrite Ascii.eqb_refl in Hs |- *. cbn [andb] in Hs |- *.
  destruct (ok_tag e He) as (_ & h & t' & Et & Hh).
  specialize (Hh e' He'). rewrite Etl in Hh. cbn [Shape.all_chars] in Hh.
  apply andb_true_iff in Hh as [_ Hh].
  apply (starts_keep tl (fst e) (snd e) s h t' Et); try assumption.
  now apply ok_code.
Qed.

Lemma starts_escape (p s : string) :
  Shape.all_chars
    (fun y => negb (Ascii.eqb y esc || Ascii.eqb y "&"
                    || Ascii.eqb y "<" || Ascii.eqb y ">")) p = true ->
  starts_with p s = false -> starts_with p (escape s) = false.
Proof.
  revert s. induction p as [|y p IH]; intros s Hp; [discriminate|].
  cbn [Shape.all_chars] in Hp. apply andb_true_iff in Hp as [Hy Hp].
  apply negb_true_iff in Hy.
  apply orb_false_iff in Hy as [Hy Hg]. apply orb_false_iff in Hy as [Hy Hl].
  apply orb_false_iff in Hy as [_ Ha].
  destruct s as [|x s]; [reflexivity|].
  rewrite escape_cons. cbn [starts_with]. unfold escape_one.
  destruct (Ascii.eqb x "&") eqn:Exa.
  { intros _. change ("&amp;" +:+ ?r) with (String "&" ("amp;" +:+ r)).
    cbn [starts_with]. now rewrite Ha. }
  destruct (Ascii.eqb x "<") eqn:Exl.
  { intros _. change ("&lt;" +:+ ?r) with (String "&" ("lt;" +:+ r)).
    cbn [starts_with]. now rewrite Ha. }
  destruct (Ascii.eqb x ">") eqn:Exg.
  { intros _. change ("&gt;" +:+ ?r) with (String "&" ("gt;" +:+ r)).
    cbn [starts_with]. now rewrite Ha. }
  change (String x "" +:+ ?r) with (String x r). cbn [starts_with].
  intros H. destruct (Ascii.eqb y x); [|reflexivity].
  cbn [andb] in H |- *. now apply IH.
Qed.

Lemma one_pass_skip (x s : string) :
  one_pass table (String.length x) (x +:+ s) = one_pass table 0 s.
Proof.
  induction x as [|y x IH]; [destruct s; reflexivity|].
  change (String y x +:+ s) with (String y (x +:+ s)).
  cbn [String.length one_pass]. exact IH.
Qed.

Lemma length_append (a b : string) :
  String.length (a +:+ b) = (String.length a + String.length b)%nat.
Proof.
  induction a as [|c a IH]; [reflexivity|].
  change (String c a +:+ b) with (String c (a +:+ b)).
  cbn [String.length]. now rewrite IH.
Qed.

(** The passes over the escaped text are one pass over the text. *)
Lemma passes_one_pass (n : nat) :
  forall s, (String.length s <= n)%nat ->
    passes table (escape s) = one_pass table 0 s.
Proof.
  induction n as [|n IH]; intros s Hn.
  - destruct s; [|cbn in Hn; lia]. apply passes_nil.
  - destruct s as [|x r]; [apply passes_nil|].
    cbn [String.length] in Hn. cbn [one_pass].
    destruct (List.find (fun e => starts_with (fst e) (String x r)) table)
      as [e|] eqn:Ef.
    + apply find_some in Ef as [He Hs].
      destruct (starts_with_split _ _ Hs) as [b Hb].
      destruct (is_code_shape _ (ok_code e He)) as (tl & Etl & _ & Hesc).
      rewrite Hb, escape_app, Hesc, (passes_code table e (fun _ H => H) He).
      assert (Hex : existsb (same_entry e) table = true).
      { apply existsb_exists. exists e. split; [exact He|].
        unfold same_entry. now rewrite !String.eqb_refl. }
      rewrite Hex. f_equal.
      rewrite Etl in Hb. injection Hb as -> ->.
      rewrite Etl.
      replace (String.length (String esc tl) - 1) with (String.length tl)
        by (cbn [String.length]; lia).
      rewrite one_pass_skip. apply IH.
      rewrite length_append in Hn. lia.
    + pose proof (find_none _ _ Ef) as Hnone. cbn beta in Hnone.
      rewrite escape_cons.
      destruct (Ascii.eqb x esc) eqn:Ex.
      * apply Ascii.eqb_eq in Ex as ->.
        change (escape_one esc +:+ ?r) with (String esc r).
        rewrite passes_lone; [|auto|].
        { rewrite IH by lia. reflexivity. }
        intros e He. specialize (Hnone e He).
        destruct (is_code_shape _ (ok_code e He)) as (tl & Etl & _ & _).
        pose proof (ok_code e He) as Hc. rewrite Etl in Hc, Hnone |- *.
        cbn [is_code] in Hc. apply andb_true_iff in Hc as [_ Hc].
        cbn [starts_with] in Hnone |- *.
        rewrite Ascii.eqb_refl in Hnone |- *. cbn [andb] in Hnone |- *.
        now apply starts_escape.
      * rewrite passes_plain; [|auto|now apply escape_one_no_esc].
        rewrite IH by lia. reflexivity.
Qed.

Lemma passes_no_esc (s : string) :
  no_esc s = true -> passes table s = s.
Proof.
  intros H. pose proof (passes_plain table s (fun _ H => H) H "") as Hp.
  rewrite passes_nil in Hp.
  assert (Hs : s +:+ "" = s).
  { clear. induction s as [|c s IH]; [reflexivity|].
    change (String c s +:+ "") with (String c (s +:+ "")). now rewrite IH. }
  now rewrite Hs in Hp.
Qed.

End TableFacts.

Section Ansi.

Import Renderer.

Lemma table_ok_map : table_ok Renderer.map = true.
Proof. vm_compute. reflexivity. Qed.

(** X19. The fifteen passes of [ansiToHtml] (three calls of [replace], then
    one [split] and [join] for each entry of the map) give what one reading
    of the text from left to right gives: where one of the twelve codes
    starts, its tag is written and the reading goes on after the code; any
    other character is written, [&], [<] and [>] as [&amp;], [&lt;] and
    [&gt;].  So a tag is never escaped, an entity is never escaped again,
    and an escape sequence that is not in the map is kept as it is. *)
Theorem X19_ansi_one_pass (text : string) :
  Renderer.ansiToHtml text = Renderer.one_pass Renderer.map 0 text.
Proof.
  unfold ansiToHtml.
  exact (passes_one_pass Renderer.map table_ok_map (String.length text)
           text (le_n _)).
Qed.

(** X20. A text without the character [\u001b] is only escaped:
    [ansiToHtml] gives the text with each [&], [<] and [>] replaced by its
    entity, character by character, and the result has no [<] and no [>]. *)
Theorem X20_plain_text_escaped (text : string) :
  Renderer.no_esc text = true ->
  Renderer.ansiToHtml text = Renderer.escape text
  /\ Renderer.escape text
     = String.concat "" (List.map Renderer.escape_one
                           (list_ascii_of_string text))
  /\ Shape.all_chars (fun c => negb (Ascii.eqb c "<" || Ascii.eqb c ">"))
       (Renderer.ansiToHtml text) = true.
Proof.
  intros H.
  assert (Heq : ansiToHtml text = escape text).
  { unfold ansiToHtml.
    apply (passes_no_esc Renderer.map table_ok_map).
    now apply escape_no_esc. }
  split; [exact Heq|]. split.
  - clear. induction text as [|c s IH]; [reflexivity|].
    rewrite escape_cons, IH. cbn [list_ascii_of_string List.map].
    destruct (list_ascii_of_string s) as [|d l] eqn:E.
    + cbn [List.map String.concat]. 
      assert (Hs : forall x : string, x +:+ "" = x).
      { clear. induction x as [|c x IH]; [reflexivity|].
        change (String c x +:+ "") with (String c (x +:+ "")).
        now rewrite IH. }
      apply Hs.
    + cbn [List.map String.concat]. reflexivity.
  - rewrite Heq. apply escape_no_angle.
Qed.

Lemma X20_plain_text_escaped_witness :
  Renderer.ansiToHtml "a<b> & c" = "a&lt;b&gt; &amp; c".
Proof.
  exact (proj1 (X20_plain_text_escaped "a<b> & c" eq_refl)).
Defined.

End Ansi.

(** ** Report names that meet *)

Section NamesMeet.

Lemma append_empty_r (s : string) : s +:+ "" = s.
Proof.
  induction s as [|c s IH]; [reflexivity|].
  change (String c s +:+ "") with (String c (s +:+ "")). now rewrite IH.
Qed.

(** A hyphen and a number at the end are read back without ambiguity. *)
Lemma hyphen_digits_inj (x y a b : string) :
  Shape.all_chars Js.is_digit a = true ->
  Shape.all_chars Js.is_digit b = true ->
  x +:+ "-" +:+ a = y +:+ "-" +:+ b -> a = b.
Proof.
  intros Ha Hb.
  assert (Hno : forall u v : string,
            Shape.all_chars Js.is_digit (u +:+ String "-" v) = false).
  { intros u v. rewrite all_chars_app. cbn [Shape.all_chars].
    change (Js.is_digit "-") with false. apply andb_false_r. }
  revert y. induction x as [|c x IH]; intros y H.
  - destruct y as [|d y].
    + change (String "-" a = String "-" b) in H. now injection H.
    + change (String "-" a = String d (y +:+ String "-" b)) in H.
      injection H as _ H. rewrite H, Hno in Ha. discriminate.
  - destruct y as [|d y].
    + change (String c (x +:+ String "-" a) = String "-" b) in H.
      injection H as _ H. rewrite <- H, Hno in Hb. discriminate.
    + change (String c (x +:+ "-" +:+ a) = String d (y +:+ "-" +:+ b)) in H.
      injection H as _ H. exact (IH y H).
Qed.

Lemma generic_not_execution (title r s : string) :
  ("accessibility-" +:+ r) +:+ s <> "execution-" +:+ title.
Proof. discriminate. Qed.


(** X22. The accessibility report of the legacy reporter is named after the
    sanitized page key, or [a11y<test number>.html] when the payload has no
    page key or the key sanitizes to nothing; its base name has only
    lower-case letters, digits and hyphens.  It has the name of the step
    report of the same folder, [index.html], which is rendered before it,
    exactly when the page key sanitizes to [index]. *)
Theorem X22_legacy_report_name (testNo : nat) (pk : option string) :
  (exists base,
      LegacySummary.fileName testNo pk = base +:+ ".html"
      /\ Shape.all_chars Shape.is_name_char base = true
      /\ base <> "")
  /\ (LegacySummary.fileName testNo pk = ReportNames.step_report
      <-> exists p, pk = Some p /\ Naming.sanitizedKey p = "index")
  /\ (forall p, pk = Some p -> Naming.sanitizedKey p <> "" ->
        LegacySummary.fileName testNo pk = Naming.a11yReportName 1 0 "" pk)
  /\ LegacySummary.fileName 3 (Some "https://shop.example/Index")
     = "shop-example-index.html"
  /\ LegacySummary.fileName 3 (Some "Index") = ReportNames.step_report
  /\ (forall p, pk = Some p -> Naming.sanitizedKey p <> "" ->
        LegacySummary.fileName testNo pk = Naming.sanitizedKey p +:+ ".html")
  /\ (pk = None \/ (exists p, pk = Some p /\ Naming.sanitizedKey p = "") ->
        LegacySummary.fileName testNo pk
        = "a11y" +:+ pretty testNo +:+ ".html").
Proof.
  assert (Hgen : exists base,
             "a11y" +:+ pretty testNo +:+ ".html" = base +:+ ".html"
             /\ Shape.all_chars Shape.is_name_char base = true
             /\ base <> "").
  { exists ("a11y" +:+ pretty testNo). split; [now rewrite append_assoc|].
    split; [|discriminate].
    rewrite all_chars_app. cbn [andb].
    change (Shape.all_chars Shape.is_name_char "a11y") with true.
    apply digits_are_name_chars, pretty_nat_digits. }
  split; [|split; [|split; [|split; [reflexivity|split; [reflexivity|split]]]]].
  - unfold LegacySummary.fileName. destruct pk as [p|]; [|exact Hgen].
    destruct (Js.truthy p); [|exact Hgen].
    destruct (Js.truthy (Naming.sanitizedKey p)) eqn:Et; [|exact Hgen].
    exists (Naming.sanitizedKey p). split; [reflexivity|]. split.
    + apply sanitizedKey_shape.
    + intros E. rewrite E in Et. discriminate.
  - unfold LegacySummary.fileName, ReportNames.step_report. split.
    + intros H. destruct pk as [p|]; [|discriminate H].
      destruct (Js.truthy p); [|discriminate H].
      destruct (Js.truthy (Naming.sanitizedKey p)); [|discriminate H].
      exists p. split; [reflexivity|].
      change "index.html" with ("index" +:+ ".html") in H.
      now apply append_cancel_r in H.
    + intros (p & -> & H). rewrite H.
      destruct p as [|c p]; [discriminate H | reflexivity].
  - intros p -> Hk. unfold LegacySummary.fileName, Naming.a11yReportName.
    destruct (Js.truthy p) eqn:Ep.
    + destruct (Naming.sanitizedKey p); [congruence | reflexivity].
    + destruct p; [|discriminate Ep]. now contradiction Hk.
  - intros p -> Hk. unfold LegacySummary.fileName.
    destruct (Js.truthy p) eqn:Ep.
    + destruct (Naming.sanitizedKey p); [congruence | reflexivity].
    + destruct p; [|discriminate Ep]. now contradiction Hk.
  - intros [-> | (p & -> & Hk)]; [reflexivity|].
    unfold LegacySummary.fileName.
    destruct (Js.truthy p); [|reflexivity]. now rewrite Hk.
Qed.

End NamesMeet.

(** ** Durations *)

Section DurationFacts.

Import TimeUtils.

Lemma In_below (k : nat) (z : Z) : (0 <= z < Z.of_nat k)%Z -> In z (below k).
Proof.
  intros H. unfold below. apply in_map_iff. exists (Z.to_nat z).
  split; [lia|]. apply in_seq. lia.
Qed.

Lemma check_all_sound (minutes : nat) (q s u : Z) :
  check_all minutes = true ->
  (0 <= q < Z.of_nat minutes)%Z -> (0 <= s < 60)%Z -> (0 <= u < 1000)%Z ->
  check q s u = true.
Proof.
  unfold check_all. cbv zeta. intros H Hq Hs Hu.
  rewrite forallb_forall in H. specialize (H q (In_below _ _ Hq)).
  rewrite forallb_forall in H. specialize (H s (In_below 60 _ Hs)).
  rewrite forallb_forall in H. exact (H u (In_below 1000 _ Hu)).
Qed.


Lemma at_least_small (m e : Z) :
  (0 <= m < two53)%Z -> (e <= 0)%Z -> at_least (10 ^ 21) m e = false.
Proof.
  intros Hm He. unfold at_least, two53 in *.
  change (10 ^ 21)%Z with 1000000000000000000000%Z.
  destruct (0 <=? e)%Z eqn:E.
  - apply Z.leb_le in E. assert (e = 0%Z) as -> by lia.
    apply Z.leb_gt. lia.
  - apply Z.leb_gt.
    assert (1 <= 2 ^ (- e))%Z by (apply Z.pow_le_mono_r with (b := 0%Z); lia).
    nia.
Qed.

Lemma nearest_shift (f : nat) (m e : Z) :
  (e < 0)%Z ->
  nearest f m e
  = Z.shiftr (2 * (m * 10 ^ Z.of_nat f) + Z.shiftl 1 (- e)) (1 - e).
Proof.
  intros He. unfold nearest, round_half_up.
  destruct (0 <=? e)%Z eqn:E; [apply Z.leb_le in E; lia|].
  rewrite Z.shiftr_div_pow2 by lia. rewrite Z.shiftl_1_l.
  replace (1 - e)%Z with (Z.succ (- e)) by lia.
  rewrite Z.pow_succ_r by lia. reflexivity.
Qed.

Lemma nearest_whole (f : nat) (m : Z) :
  nearest f m 0 = (m * 10 ^ Z.of_nat f)%Z.
Proof. unfold nearest. cbn [Z.leb Z.compare]. now rewrite Z.pow_0_r, Z.mul_1_r. Qed.

Lemma toFixed_quick (large : Z -> Z -> string) (x : Num) (f : nat) (k : Z) :
  quick_digits x f = Some k -> toFixed large f x = fixed_digits f k.
Proof.
  destruct x as [| |s m e]; try discriminate. destruct s; [discriminate|].
  cbn [quick_digits].
  destruct ((0 <=? m)%Z && (m <? two53)%Z) eqn:Em; [|discriminate].
  apply andb_true_iff in Em as [Em1 Em2].
  apply Z.leb_le in Em1. apply Z.ltb_lt in Em2.
  unfold toFixed. cbn [andb].
  destruct (e <? 0)%Z eqn:Ee.
  - apply Z.ltb_lt in Ee. intros [= <-].
    rewrite at_least_small by lia. now rewrite nearest_shift.
  - destruct (e =? 0)%Z eqn:E0; [|discriminate].
    apply Z.eqb_eq in E0 as ->. intros [= <-].
    rewrite at_least_small by lia. now rewrite nearest_whole.
Qed.

Lemma pad_digit (d : Z) :
  (0 <= d < 10)%Z -> pad_left 1 (pretty d) = pretty d.
Proof.
  intros H.
  assert (Hd : (d = 0 \/ d = 1 \/ d = 2 \/ d = 3 \/ d = 4 \/ d = 5 \/ d = 6
                \/ d = 7 \/ d = 8 \/ d = 9)%Z) by lia.
  repeat (destruct Hd as [->|Hd]; [reflexivity|]). now subst.
Qed.

Lemma fixed_one (t : Z) :
  (0 <= t)%Z ->
  fixed_digits 1 t = pretty (t / 10)%Z +:+ "." +:+ pretty (t mod 10)%Z.
Proof.
  intros Ht. unfold fixed_digits.
  change (10 ^ Z.of_nat 1)%Z with 10%Z.
  rewrite pad_digit; [reflexivity|]. apply Z.mod_pos_bound. lia.
Qed.

Lemma floor_shift (m e : Z) :
  (e < 0)%Z -> floor (Fin false m e) = IFin (Z.shiftr m (- e)).
Proof.
  intros He. unfold floor.
  destruct (0 <=? e)%Z eqn:E; [apply Z.leb_le in E; lia|].
  now rewrite Z.shiftr_div_pow2 by lia.
Qed.

Lemma remainder_shift (m e q r : Z) :
  (e < 0)%Z -> r = (m - Z.shiftl (60 * q) (- e))%Z ->
  (0 <= r < Z.shiftl 60 (- e))%Z ->
  remainder (Fin false m e) 60 = Fin false r e.
Proof.
  intros He Hr Hb. unfold remainder.
  destruct (0 <=? e)%Z eqn:E; [apply Z.leb_le in E; lia|].
  f_equal. rewrite !Z.shiftl_mul_pow2 in * by lia.
  symmetry. apply Z.mod_unique with q; [left; lia | nia].
Qed.

Lemma int_small (large : Z -> Z -> string) (q : Z) :
  (0 <= q < 1000000)%Z -> int_to_string large (IFin q) = pretty q.
Proof.
  intros H. unfold int_to_string.
  change (10 ^ 21)%Z with 1000000000000000000000%Z.
  destruct (_ <=? Z.abs q)%Z eqn:E; [apply Z.leb_le in E; lia | reflexivity].
Qed.

(** What a successful test says about [formatDuration]. *)
Lemma check_sound (large : Z -> Z -> string) (q s u : Z) :
  check q s u = true ->
  (0 <= q < 1000000)%Z -> (0 <= s < 60)%Z -> (0 <= u < 1000)%Z ->
  let n := (60000 * q + 1000 * s + u)%Z in
  let shown := formatDuration large (of_ms n) in
  (n < 1000 -> shown = pretty n +:+ "ms")%Z
  /\ ((1000 <= n < 60000)%Z ->
      exists t, (100 * t - 50 <= n <= 100 * t + 50)%Z
                /\ (59950 <= n -> t = 600)%Z
                /\ shown = pretty (t / 10)%Z +:+ "." +:+ pretty (t mod 10)%Z
                           +:+ "s")
  /\ ((60000 <= n)%Z ->
      shown = pretty q +:+ "m "
              +:+ pretty (if (u <? 500)%Z then s else s + 1)%Z +:+ "s").
Proof.
  intros H Hq Hs Hu. cbv zeta. unfold check in H. cbv zeta in H.
  set (n := (60000 * q + 1000 * s + u)%Z) in *.
  unfold formatDuration.
  destruct ((q =? 0)%Z && (s =? 0)%Z) eqn:E0.
  - apply andb_true_iff in E0 as [Eq Es].
    apply Z.eqb_eq in Eq, Es.
    apply andb_true_iff in H as [Hlt H]. rewrite Hlt.
    destruct (quick_digits (num_of (of_ms n)) 0) as [k|] eqn:Ek;
      [|discriminate].
    apply Z.eqb_eq in H as ->.
    rewrite (toFixed_quick large _ _ _ Ek).
    split; [reflexivity|]. split; intros; lia.
  - apply andb_true_iff in H as [Hge H]. apply negb_true_iff in Hge.
    rewrite Hge.
    destruct (q =? 0)%Z eqn:Eq.
    + apply Z.eqb_eq in Eq. cbn [andb] in E0. apply Z.eqb_neq in E0.
      apply andb_true_iff in H as [Hlt H]. rewrite Hlt.
      destruct (quick_digits (num_of (of_ms n / 1000)) 1) as [t|] eqn:Et;
        [|discriminate].
      apply andb_true_iff in H as [H H3]. apply andb_true_iff in H as [H1 H2].
      apply Z.leb_le in H1, H2.
      rewrite (toFixed_quick large _ _ _ Et).
      split; [intros; lia|]. split; [|intros; lia].
      intros Hn. exists t. split; [lia|]. split.
      * intros Hbig. apply orb_true_iff in H3 as [H3|H3];
          [apply Z.ltb_lt in H3; lia | now apply Z.eqb_eq in H3].
      * rewrite fixed_one by lia. now rewrite !append_assoc.
    + apply Z.eqb_neq in Eq.
      apply andb_true_iff in H as [Hge2 H]. apply negb_true_iff in Hge2.
      rewrite Hge2.
      destruct (num_of (of_ms n / 1000 / 60)) as [| |sq mq eq]; try discriminate.
      destruct sq; [discriminate|].
      destruct (num_of (of_ms n / 1000)) as [| |sm m e]; try discriminate.
      destruct sm; [discriminate|].
      repeat (apply andb_true_iff in H as [H ?]).
      repeat match goal with
             | X : (_ <? _)%Z = true |- _ => apply Z.ltb_lt in X
             | X : (_ <=? _)%Z = true |- _ => apply Z.leb_le in X
             | X : (_ =? _)%Z = true |- _ => apply Z.eqb_eq in X
             end.
      split; [intros; lia|]. split; [intros; lia|]. intros _.
      rewrite floor_shift by lia.
      match goal with X : Z.shiftr mq _ = q |- _ => rewrite X end.
      rewrite int_small by lia.
      rewrite (remainder_shift m e q _ ltac:(lia) eq_refl ltac:(lia)).
      assert (Hr : (m - Z.shiftl (60 * q) (- e) <= m)%Z).
      { rewrite Z.shiftl_mul_pow2 by lia.
        assert (0 <= 2 ^ (- e))%Z by (apply Z.pow_nonneg; lia). nia. }
      unfold toFixed. cbn [andb].
      rewrite at_least_small by lia.
      rewrite nearest_shift by lia.
      change (10 ^ Z.of_nat 0)%Z with 1%Z. rewrite Z.mul_1_r.
      match goal with X : Z.shiftr _ _ = _ |- _ => rewrite X end.
      reflexivity.
Qed.

End DurationFacts.

Section Durations.

Lemma check_two_minutes : TimeUtils.check_all 2 = true.
Proof. vm_compute. reflexivity. Qed.

Lemma seconds_shown (s u : Z) :
  (0 <= s)%Z -> (0 <= u < 1000)%Z ->
  ((1000 * s + u + 500) / 1000)%Z = (if (u <? 500)%Z then s else s + 1)%Z.
Proof.
  intros Hs Hu. destruct (u <? 500)%Z eqn:E.
  - apply Z.ltb_lt in E. symmetry.
    apply Z.div_unique with (u + 500)%Z; [left; lia | lia].
  - apply Z.ltb_ge in E. symmetry.
    apply Z.div_unique with (u - 500)%Z; [left; lia | lia].
Qed.

(** X23. For every duration of a whole number of milliseconds below two
    minutes (each of them is computed, with the divisions of the floats),
    [formatDuration] shows: below one second, the number and [ms]; below
    one minute, the seconds with one decimal, which is a nearest tenth of a
    second; from one minute on, the whole minutes and the seconds rounded to
    the nearest whole, the half upwards.  The rounding is made after the
    unit is chosen: from 59950 ms to 59999 ms the text is [60.0s], and when
    the seconds of a duration of minutes are 59.5 or more the text ends in
    [60s], as [1m 60s] for 119500 ms. *)
Theorem X23_whole_durations (large : Z -> Z -> string) (n : Z) :
  (0 <= n < 120000)%Z ->
  let shown := TimeUtils.formatDuration large (TimeUtils.of_ms n) in
  ((n < 1000)%Z -> shown = pretty n +:+ "ms")
  /\ ((1000 <= n < 60000)%Z ->
      exists t, (100 * t - 50 <= n <= 100 * t + 50)%Z
                /\ shown = pretty (t / 10)%Z +:+ "." +:+ pretty (t mod 10)%Z
                           +:+ "s")
  /\ ((59950 <= n < 60000)%Z -> shown = "60.0s")
  /\ ((60000 <= n)%Z ->
      shown = pretty (n / 60000)%Z +:+ "m "
              +:+ pretty ((n mod 60000 + 500) / 1000)%Z +:+ "s")
  /\ ((60000 <= n)%Z -> (59500 <= n mod 60000)%Z ->
      shown = pretty (n / 60000)%Z +:+ "m 60s").
Proof.
  intros Hn. cbv zeta.
  pose proof (Z.div_mod n 60000 ltac:(lia)) as Hq.
  pose proof (Z.mod_pos_bound n 60000 ltac:(lia)) as Hr.
  pose proof (Z.div_mod (n mod 60000) 1000 ltac:(lia)) as Hs.
  pose proof (Z.mod_pos_bound (n mod 60000) 1000 ltac:(lia)) as Hu.
  set (q := (n / 60000)%Z) in *. set (r := (n mod 60000)%Z) in *.
  set (s := (r / 1000)%Z) in *. set (u := (r mod 1000)%Z) in *.
  assert (Hqb : (0 <= q < 2)%Z) by lia.
  assert (Hsb : (0 <= s < 60)%Z) by lia.
  assert (Hnq : n = (60000 * q + 1000 * s + u)%Z) by lia.
  pose proof (check_sound large q s u
                (check_all_sound 2 q s u check_two_minutes
                   ltac:(lia) Hsb Hu)
                ltac:(lia) Hsb Hu) as H.
  cbv zeta in H. rewrite <- Hnq in H. destruct H as (H1 & H2 & H3).
  assert (Hsec : ((r + 500) / 1000)%Z
                 = (if (u <? 500)%Z then s else s + 1)%Z).
  { rewrite Hs. apply seconds_shown; lia. }
  split; [exact H1|]. split; [|split; [|split]].
  - intros Hm. destruct (H2 Hm) as (t & Ht & _ & Hshown).
    exists t. now split.
  - intros Hm. destruct (H2 ltac:(lia)) as (t & _ & Ht & Hshown).
    rewrite Hshown, (Ht ltac:(lia)). reflexivity.
  - intros Hm. rewrite (H3 Hm), Hsec. reflexivity.
  - intros Hm Hbig. rewrite (H3 Hm).
    assert (s = 59%Z /\ (500 <= u)%Z) as [-> Hu5] by lia.
    destruct (u <? 500)%Z eqn:E; [apply Z.ltb_lt in E; lia|].
    reflexivity.
Qed.

Lemma X23_whole_durations_witness :
  TimeUtils.formatDuration (fun _ _ => "") (TimeUtils.of_ms 59999) = "60.0s"
  /\ TimeUtils.formatDuration (fun _ _ => "") (TimeUtils.of_ms 119500)
     = "1m 60s".
Proof.
  split.
  - apply (X23_whole_durations (fun _ _ => "") 59999); lia.
  - apply (proj2 (proj2 (proj2 (proj2
             (X23_whole_durations (fun _ _ => "") 119500 ltac:(lia))))));
      [lia | vm_compute; discriminate].
Defined.

End Durations.
